(* ===== verification/_CoqProject ===== *)
-Q . S2P
Prelude.v
Buffers.v
Fips180.v
Sha256.v
Store.v
Crypto.v
Utils.v
MerkleTree.v
MerkleTheorems.v
WireCommon.v
MptNode.v
MptSpec.v
FullMPT.v
MptTrie.v
MptInv.v
MptTheorems.v
MptBinding.v
MptSerialize.v
PartialMPT.v
PartialTheorems.v
DeltaMPT.v
DeltaTheorems.v
WireTypes.v
WireTheorems.v
BtcWire.v
BtcTheorems.v
Script.v
ScriptTheorems.v
Field.v
FieldTheorems.v
PrimeField.v
GroupLaw.v
SigHash.v
Stack.v
Engine.v
Opcodes.v
Execute.v
EngineTheorems.v
SigCacheTheorems.v
WitnessSpend.v
EngineBound.v
Der.v
DerTheorems.v
Curve.v
CurveTheorems.v
Multiples.v
ScalarTheorems.v
PubKey.v
PubKeyTheorems.v
EcdsaSign.v
EcdsaTheorems.v
KeyRecovery.v
Precompute.v
PrecomputeTheorems.v
Wallet.v
WalletTheorems.v
WalletCommit.v
WalletValid.v
WalletBlocks.v
Difficulty.v
DifficultyTheorems.v
Uspv.v
UspvTheorems.v
UspvLookup.v
UspvClaims.v
ClientStore.v
Client.v
ClientTheorems.v
ClientChain.v
ClientProofs.v
ClientExport.v
WalletChain.v
Server.v
LogProcessor.v
ServerLogs.v
ClientServer.v
ServerCommit.v
ServerChain.v
ServerDefects.v
ServerRace.v
