(* ===== verification/Prelude.v ===== *)
(** * B_Verify: a verification development of go-bverify

    go-bverify is a commitment server and its client.  Clients append signed
    statements to logs they own; the server keeps the hash of the last
    statement of every log in a Merkle prefix trie, commits the root hash to
    the Bitcoin chain with a transaction of its wallet, and proves to the
    clients, with partial tries and deltas of tries, which statements are under
    a commitment.  The client keeps a chain of block headers, checks that the
    commitments form a chain of transactions in these blocks, and checks its
    own statements against them.  The repository carries the Bitcoin code it
    uses: transactions, the script engine and the curve secp256k1.

    ** The parts and their files

    Foundations:
    - [Prelude], [Buffers]: bytes, outcomes of Go code ([Ret], [Err], [Panic]),
      machine integers, big and little endian encodings, readers.
    - [Store]: the key-value database as an interface with its laws.
    - [Fips180]: SHA-256 as the standard FIPS 180-4 defines it, with its own
      constants.  [Sha256]: crypto/fastsha256 (block function, streaming
      [Write], padding), equal to it.  [Crypto]: crypto/crypto.go and
      bitcoin/chainhash; [HashFunction] is the interface the other files are
      proved against, [fastsha256] its instance.
    - [Utils]: utils/utils.go.  [MerkleTree], [MerkleTheorems]:
      bitcoin/blockchain/merkle.go and utils/merkleproof.go.

    The trie (mpt):
    - [MptNode]: the node types with their caches and change marks.
      [MptSpec]: what a node stands for and its invariants.
    - [FullMPT] (fullmpt.go), [MptTrie], [MptInv], [MptTheorems], [MptBinding]:
      the full trie, its refinement of a finite map, what a commitment binds.
    - [MptSerialize]; [PartialMPT], [PartialTheorems] (partialmpt.go): proofs
      for keys; [DeltaMPT], [DeltaTheorems] (deltampt.go): changes between two
      commitments, and the clients that follow them.

    Messages:
    - [WireCommon] (wire/common.go, log.go, conn.go), [WireTypes] (types.go,
      msg.go), [WireTheorems]: encodings, statements, framing, messages.
    - [BtcWire], [BtcTheorems]: block headers and transactions of bitcoin/wire.

    Scripts (bitcoin/txscript):
    - [Script], [ScriptTheorems]: parsing, unparsing, script numbers, the
      builder.  [SigHash]: the digests that are signed, old and BIP 143.
    - [Stack], [Engine], [Opcodes], [Execute]: the engine with all opcodes and
      both caches.  [EngineTheorems], [EngineBound], [SigCacheTheorems],
      [WitnessSpend]: it ends, within how many steps, the signature cache
      changes nothing, and what it says about the outputs of the wallet.

    The curve (crypto/btcec, crypto/sig64):
    - [Field], [FieldTheorems] (field.go): ten-word field values.
      [PrimeField]: the modulus is a prime, by a certificate.  [GroupLaw]:
      points over the field and the group law, associativity included.
    - [Curve] (btcec.go): Jacobian formulas and scalar multiplication.
      [CurveTheorems], [Multiples], [ScalarTheorems]: they compute the group
      law and multiples; the order of the base point.
    - [PubKey], [PubKeyTheorems] (pubkey.go, privkey.go): keys and their
      encodings.
    - [Der], [DerTheorems]: signatures as bytes (signature.go, sig64,
      crypto/verify.go).  [EcdsaSign], [EcdsaTheorems], [KeyRecovery] (the rest
      of signature.go): deterministic signing, verification, recovery, over an
      order that is a prime.
    - [Precompute], [PrecomputeTheorems] (gensecp256k1.go, precompute.go): the
      generator and the loader of the tables of multiples.

    The wallet (wallet): [Wallet]; [WalletTheorems] (the ledger),
    [WalletCommit] (the transactions it makes), [WalletValid] (the engine
    accepts them), [WalletBlocks] (following the node), [WalletChain] (the
    client accepts their order).

    The client (client): [Difficulty], [DifficultyTheorems]
    (bitcoin/coinparam, bitcoin/blockchain/difficulty.go); [Uspv],
    [UspvTheorems], [UspvLookup], [UspvClaims] (client/uspv: the header file);
    [ClientStore], [Client] (client.go, chainverify.go, commitverify.go,
    rpc.go), [ClientTheorems], [ClientChain], [ClientProofs], [ClientExport].

    The server (server): [Server] (server.go), [LogProcessor]
    (logprocessor.go), [ServerLogs] (the serial executions of the server as a
    transition system and the integrity of the logs), [ClientServer] (a client connected to it),
    [ServerCommit] (commits and the proofs served for them), [ServerChain]
    (confirmation, history, loading), [ServerDefects], [ServerRace] (runs that
    show defects; registrations from several connections at once, one critical
    section per step).

    ** How code becomes definitions

    Definitions keep the names of the Go functions, with the type or package as
    a prefix where a name is used twice ([FullMPT_Bytes], [btcec_ParsePubKey]).
    A function that can panic or return an error returns an [outcome].  Objects
    that are mutated are passed and returned; where [GetHash] fills caches,
    the changed node is returned next to the result, and where additions of
    points normalize an operand, so is the operand.  A method of the server
    returns its [error], if any, next to the state, because what it changed
    before stays changed.  Integers are [Z] with the conversions of the code
    ([u64], [i32], [u8]) written out; [big.Int] is [Z]; slices of bytes are
    lists, nil and empty being the same.  The one place where two objects share
    a buffer that is written to later, the value of the zero log and the hash
    of the root, is explicit ([zeroLogAlias] in [Server]).

    Parameters stand for what is not in the repository: RIPEMD-160 and SHA-1,
    the database ([Store]), the node behind the wallet's RPC client, base64 and
    zlib ([Precompute]), the entry that a full signature cache drops.  Where
    one part of the repository uses another through a narrow interface, the
    interface is a class or a record and the theorems are proved against it:
    [HashFunction]; [Ecdsa] for the script engine, with the encodings of [Der]
    in its instance [btcec]; the signing key of the wallet and of the client;
    the tables of multiples ([table_ok], discharged in [PrecomputeTheorems]).

    Recursion that is not structural carries fuel that is shown to suffice or
    cannot run out: [split] has one step per bit of a key and the panic of
    [GetBit] past the last one is what the code does; the reader of nodes has
    the length of the input, and [DeserializeNode_total] shows that this is
    enough; [order_loop] adds one commitment per step; [Execute] has the bound
    of [Execute_terminates].  The one loop without a bound is the search for a
    nonce in [nonceRFC6979]: the theorems say that a larger bound does not
    change the result, and take that it is found as a hypothesis, which a
    published test vector satisfies.

    ** What the theorems show

    - A sequence of operations on a trie does what it does on a finite map,
      its commitment depends on the map only, and binds it up to explicit
      hash coincidences ([MptTheorems], [MptBinding]).
    - Partial tries are complete and sound as proofs, survive serialization,
      and stay in step with the server when deltas are merged
      ([PartialTheorems], [DeltaTheorems]).
    - SHA-256 and the Merkle trees of blocks compute what their references say
      ([Sha256], [MerkleTheorems]).
    - Encodings are read back, and what is accepted is canonical
      ([MptSerialize], [WireTheorems], [BtcTheorems], [ScriptTheorems],
      [DerTheorems], [PubKeyTheorems]).
    - The field words compute modulo the prime, the Jacobian formulas compute
      the group law, and the scalar multiplications, with endomorphism,
      recoding and tables, compute multiples; signatures verify and compact
      signatures give the key back ([FieldTheorems], [CurveTheorems],
      [ScalarTheorems], [PrecomputeTheorems], [EcdsaTheorems], [KeyRecovery]).
    - The script engine ends on every input, its caches are transparent, and
      its verdict on a witness key hash is that of the signature
      ([EngineTheorems], [EngineBound], [SigCacheTheorems], [WitnessSpend]).
    - The wallet's books are a ledger of unspent outputs through blocks and
      restarts; its commitments spend the ledger, are accepted by the engine
      and form the chain the client checks ([WalletTheorems], [WalletCommit],
      [WalletValid], [WalletBlocks], [WalletChain]).
    - The client appends to its header file exactly the messages that pass
      its checks of links and work, which are stated in full with their gaps;
      whatever server and peer send, the commitments it accepts are proved in
      looked up blocks and their raw transactions spend one another; logs it
      marks as committed are in the trie ([UspvClaims], [ClientChain],
      [ClientProofs], [ClientExport]).
    - In every state a serial execution reaches, the server's maps and trie
      are those of the accepted statements; registrations that overlap keep
      this when no two are for one log ([interleaved_registrations] in
      [ServerRace]) and can break it otherwise; commits succeed, and requests
      and subscriptions are answered with data the client verifies
      ([ServerLogs], [ClientServer], [ServerCommit], [ServerChain]).
    - Where the code departs from its comments or purpose there is a theorem
      that shows it: two maps with one commitment, forgeable absence, lost
      empty leaves, panics on malformed input and requests, the forced and the
      maiden commitment, the restart, the race of two appends, wrong lookups
      of headers, unchecked commitment values, recovery of keys without checks.

    ** What is not modelled

    Sockets, goroutine scheduling outside [ServerRace] and the waiting of the
    client, logging, JSON, HTTP and DOT output: effects without a result the
    theorems could speak about.  The RPC client, websocket and SOCKS code
    (bitcoin/rpcclient, btcjson, websocket, go-socks) is network I/O around a
    node that is a parameter.  Addresses and chain parameters (btcutil, base58,
    bech32, chaincfg), the other messages of bitcoin/wire, disassembly,
    standard script classes and multisignature signing are not used by the
    paths above.  crypto/btcec/ciphering.go rests on AES and the random source
    of the system; the Kimoto gravity well uses floating point; the assembly
    versions of SHA-256 are not Go.  What a script that fails has added to a
    shared signature cache is not part of its result.  Hash collisions are not assumed away:
    theorems that need their absence name the colliding messages instead. *)

From Stdlib Require Import ZArith Lia.
From Stdlib Require Export Strings.Byte.
From stdpp Require Export base list gmap strings.

Set Default Goal Selector "!".

(** ** Bytes *)

Abbreviation bytes := (list Byte.byte).

Definition byte_Z (b : Byte.byte) : Z := Z.of_N (Byte.to_N b).

(** Go's conversion [byte(z)] of an integer: the low eight bits. *)
Definition Z_byte (z : Z) : Byte.byte :=
  match Byte.of_N (Z.to_N (z mod 256)) with
  | Some b => b
  | None => x00
  end.

(** [make([]byte, n)]: [n] zero bytes. *)
Definition zeros (n : nat) : bytes := replicate n x00.

(** [copy(dst, src)]: the first [min(len dst, len src)] bytes are replaced. *)
Definition go_copy {A} (dst src : list A) : list A :=
  take (length dst) src ++ drop (length src) dst.

#[export] Instance byte_eq_dec : EqDecision Byte.byte := Byte.byte_eq_dec.

#[export] Program Instance byte_countable : Countable Byte.byte :=
  inj_countable Byte.to_N Byte.of_N _.
Next Obligation. intros b. apply Byte.of_to_N. Qed.

(** [bytes.Equal]. *)
Definition bytes_eqb (a b : bytes) : bool := bool_decide (a = b).

(** ** Outcomes of Go code

    [Ret a] is a normal return, [Err e] a return with a non-nil [error] whose
    message is [e], and [Panic p] a run-time panic (explicit, nil dereference,
    index out of range, failed type assertion, oversized allocation). *)
Inductive outcome (A : Type) : Type :=
| Ret (a : A)
| Err (e : string)
| Panic (p : string).
Arguments Ret {A} a.
Arguments Err {A} e.
Arguments Panic {A} p.

#[export] Instance outcome_ret : MRet outcome := fun A => Ret.
#[export] Instance outcome_bind : MBind outcome := fun A B f m =>
  match m with
  | Ret a => f a
  | Err e => Err e
  | Panic p => Panic p
  end.

Definition is_ret {A} (m : outcome A) : bool :=
  match m with Ret _ => true | _ => false end.

Definition nil_deref : string := "invalid memory address or nil pointer dereference".
Definition out_of_range : string := "index out of range".

Lemma bind_Ret_inv {A B} (m : outcome A) (f : A → outcome B) b :
  (m ≫= f) = Ret b → ∃ a, m = Ret a ∧ f a = Ret b.
Proof. destruct m; simpl; intros H; try discriminate H. eauto. Qed.

Lemma bind_assoc {A B C} (m : outcome A) (f : A → outcome B) (g : B → outcome C) :
  ((m ≫= f) ≫= g) = (m ≫= λ a, f a ≫= g).
Proof. by destruct m. Qed.

(** ** Automation *)

(** Splits a computed [Ret] into its steps. *)
Ltac inv_ret :=
  repeat match goal with
  | H : mbind _ _ = Ret _ |- _ =>
      apply bind_Ret_inv in H; destruct H as (? & ? & H)
  | H : mret _ = Ret _ |- _ => injection H as H
  | H : Ret _ = Ret _ |- _ => injection H as H
  | H : Ret _ = Err _ |- _ => discriminate H
  | H : Ret _ = Panic _ |- _ => discriminate H
  | H : Err _ = Ret _ |- _ => discriminate H
  | H : Panic _ = Ret _ |- _ => discriminate H
  | H : (_, _) = (_, _) |- _ => injection H as H
  | H : _ ∧ _ |- _ => destruct H
  | H : ∃ _, _ |- _ => destruct H
  end; subst.

Create HintDb bv.
Create Rewrite HintDb bvlen.

(** ** Generic lemmas *)

Lemma byte_Z_range b : (0 ≤ byte_Z b < 256)%Z.
Proof. unfold byte_Z. pose proof (Byte.to_N_bounded b). lia. Qed.

Lemma byte_Z_of_Z z : byte_Z (Z_byte z) = (z mod 256)%Z.
Proof.
  unfold byte_Z, Z_byte.
  pose proof (Z.mod_pos_bound z 256 ltac:(lia)) as Hb.
  destruct (Byte.of_N (Z.to_N (z mod 256))) as [b|] eqn:E.
  - apply Byte.to_of_N in E. rewrite E. lia.
  - apply Byte.of_N_None_iff in E. lia.
Qed.

Lemma byte_Z_inj a b : byte_Z a = byte_Z b → a = b.
Proof.
  unfold byte_Z. intros H. apply N2Z.inj in H.
  pose proof (Byte.of_to_N a) as Ha. pose proof (Byte.of_to_N b) as Hb. congruence.
Qed.

Lemma Z_byte_of_byte b : Z_byte (byte_Z b) = b.
Proof.
  apply byte_Z_inj. rewrite byte_Z_of_Z.
  apply Z.mod_small, byte_Z_range.
Qed.

Lemma bytes_eqb_true a b : bytes_eqb a b = true ↔ a = b.
Proof. unfold bytes_eqb. by rewrite bool_decide_eq_true. Qed.

Lemma bytes_eqb_false a b : bytes_eqb a b = false ↔ a ≠ b.
Proof. unfold bytes_eqb. by rewrite bool_decide_eq_false. Qed.

Lemma bytes_eqb_refl a : bytes_eqb a a = true.
Proof. by apply bytes_eqb_true. Qed.

Lemma go_copy_length {A} (d s : list A) : length (go_copy d s) = length d.
Proof. unfold go_copy. rewrite length_app, length_take, length_drop. lia. Qed.

Lemma go_copy_same {A} (d s : list A) : length s = length d → go_copy d s = s.
Proof.
  intros H. unfold go_copy. rewrite <- H, take_ge, H, drop_ge, app_nil_r; auto with lia.
Qed.

Lemma length_zeros n : length (zeros n) = n.
Proof. apply length_replicate. Qed.

#[export] Hint Rewrite @go_copy_length length_zeros @length_app @length_take @length_drop
  @length_cons @length_nil @length_rev @length_replicate : bvlen.

Lemma app_inj_length {A} (a b c d : list A) :
  length a = length c → a ++ b = c ++ d → a = c ∧ b = d.
Proof. intros Hl H. by apply app_inj_1 in H. Qed.
