(* ===== verification/Buffers.v ===== *)
(** * Byte buffers and fixed-width integers

    What the source uses of Go's [encoding/binary], [bytes.Buffer] and [io]:
    fixed-width integers in both byte orders, and the read operations of a
    buffer.  A buffer is the list of the bytes that are still unread. *)

From Stdlib Require Import ZArith Lia.
From S2P Require Import Prelude.

Local Open Scope Z_scope.

(** ** Machine integers *)

Definition u8 (z : Z) : Z := z mod 2 ^ 8.
Definition u16 (z : Z) : Z := z mod 2 ^ 16.
Definition u32 (z : Z) : Z := z mod 2 ^ 32.
Definition u64 (z : Z) : Z := z mod 2 ^ 64.
(** [int32(z)]: two's complement. *)
Definition i32 (z : Z) : Z := (z + 2 ^ 31) mod 2 ^ 32 - 2 ^ 31.
Definition i64 (z : Z) : Z := (z + 2 ^ 63) mod 2 ^ 64 - 2 ^ 63.

(** [len(b)] as an [int]. *)
Definition len {A} (l : list A) : Z := Z.of_nat (length l).

(** ** Byte orders *)

Fixpoint le_bytes (n : nat) (z : Z) : bytes :=
  match n with
  | O => []
  | S n => Z_byte z :: le_bytes n (z / 256)
  end.

Fixpoint le_val (bs : bytes) : Z :=
  match bs with
  | [] => 0
  | b :: bs => byte_Z b + 256 * le_val bs
  end.

Definition be_bytes (n : nat) (z : Z) : bytes := rev (le_bytes n z).
Definition be_val (bs : bytes) : Z := le_val (rev bs).

Lemma le_bytes_length n z : length (le_bytes n z) = n.
Proof. revert z; induction n; intros; simpl; congruence. Qed.

Lemma be_bytes_length n z : length (be_bytes n z) = n.
Proof. unfold be_bytes. by rewrite length_rev, le_bytes_length. Qed.

#[export] Hint Rewrite le_bytes_length be_bytes_length : bvlen.

Lemma le_val_le_bytes n z : le_val (le_bytes n z) = z mod 256 ^ Z.of_nat n.
Proof.
  revert z; induction n as [|n IH]; intros z.
  - simpl. by rewrite Z.mod_1_r.
  - cbn [le_bytes le_val]. rewrite IH, byte_Z_of_Z.
    rewrite Nat2Z.inj_succ, Z.pow_succ_r by lia.
    rewrite (Z.rem_mul_r z 256) by lia. lia.
Qed.

Lemma le_val_range bs : 0 ≤ le_val bs < 256 ^ len bs.
Proof.
  unfold len. induction bs as [|b bs IH]; [simpl; lia|].
  cbn [le_val length]. rewrite Nat2Z.inj_succ, Z.pow_succ_r by lia.
  pose proof (byte_Z_range b). lia.
Qed.

Lemma le_bytes_le_val bs : le_bytes (length bs) (le_val bs) = bs.
Proof.
  induction bs as [|b bs IH]; [done|]. cbn [length le_val le_bytes].
  pose proof (byte_Z_range b). f_equal.
  - apply byte_Z_inj. rewrite byte_Z_of_Z, Z.mul_comm, Z.mod_add by lia.
    by apply Z.mod_small.
  - rewrite Z.mul_comm, Z.div_add, Z.div_small by lia. apply IH.
Qed.

Lemma be_val_be_bytes n z : be_val (be_bytes n z) = z mod 256 ^ Z.of_nat n.
Proof. unfold be_val, be_bytes. by rewrite rev_involutive, le_val_le_bytes. Qed.

Lemma be_bytes_be_val bs : be_bytes (length bs) (be_val bs) = bs.
Proof.
  unfold be_val, be_bytes. rewrite <- (length_rev bs), le_bytes_le_val.
  apply rev_involutive.
Qed.

Lemma be_val_range bs : 0 ≤ be_val bs < 256 ^ len bs.
Proof.
  unfold be_val. pose proof (le_val_range (rev bs)) as H.
  unfold len in *. by rewrite length_rev in H.
Qed.

#[global] Arguments le_bytes : simpl never.
#[global] Arguments le_val : simpl never.
#[global] Arguments be_bytes : simpl never.
#[global] Arguments be_val : simpl never.
#[global] Arguments u8 : simpl never.
#[global] Arguments u16 : simpl never.
#[global] Arguments u32 : simpl never.
#[global] Arguments u64 : simpl never.
#[global] Arguments i32 : simpl never.
#[global] Arguments i64 : simpl never.

(** ** Reading from a [bytes.Buffer] *)

Definition EOF : string := "EOF".
Definition ErrUnexpectedEOF : string := "unexpected EOF".

(** [buf.Next(n)]: up to [n] bytes, never an error. *)
Definition next (n : nat) (r : bytes) : bytes * bytes := (take n r, drop n r).

(** [buf.Read(p)] with [len(p) = n]: [io.EOF] when the buffer is empty and
    [n > 0], otherwise up to [n] bytes; the caller sees how many. *)
Definition buf_read (n : nat) (r : bytes) : outcome (bytes * bytes) :=
  match r, n with
  | [], S _ => Err EOF
  | _, _ => Ret (take n r, drop n r)
  end.

(** [io.ReadFull(r, p)] with [len(p) = n]. *)
Definition read_full (n : nat) (r : bytes) : outcome (bytes * bytes) :=
  if bool_decide (n ≤ length r)%nat then Ret (take n r, drop n r)
  else match r with
       | [] => Err EOF
       | _ => Err ErrUnexpectedEOF
       end.

(** [binary.Read(r, binary.BigEndian, &x)] for [x] of type [int32], [uint32]
    and [uint64]. *)
Definition read_be_i32 (r : bytes) : outcome (Z * bytes) :=
  '(b, r) ← read_full 4 r; mret (i32 (be_val b), r).
Definition read_be_u32 (r : bytes) : outcome (Z * bytes) :=
  '(b, r) ← read_full 4 r; mret (be_val b, r).
Definition read_be_u64 (r : bytes) : outcome (Z * bytes) :=
  '(b, r) ← read_full 8 r; mret (be_val b, r).

(** [binary.Write] of an [int32] or [uint32], and of a [uint64]. *)
Definition put_be_32 (z : Z) : bytes := be_bytes 4 z.
Definition put_be_64 (z : Z) : bytes := be_bytes 8 z.
#[global] Arguments put_be_32 : simpl never.
#[global] Arguments put_be_64 : simpl never.

Lemma put_be_32_length z : length (put_be_32 z) = 4%nat.
Proof. apply be_bytes_length. Qed.
Lemma put_be_64_length z : length (put_be_64 z) = 8%nat.
Proof. apply be_bytes_length. Qed.
#[export] Hint Rewrite put_be_32_length put_be_64_length : bvlen.

(** *** Lemmas on reads *)

Lemma read_full_app a r : read_full (length a) (a ++ r) = Ret (a, r).
Proof.
  unfold read_full. rewrite bool_decide_eq_true_2 by (rewrite length_app; lia).
  by rewrite take_app_length, drop_app_length.
Qed.

Lemma read_full_app' n a r : length a = n → read_full n (a ++ r) = Ret (a, r).
Proof. intros <-. apply read_full_app. Qed.

Lemma buf_read_app a r :
  a ≠ [] → buf_read (length a) (a ++ r) = Ret (a, r).
Proof.
  intros Ha. unfold buf_read. destruct a as [|x a]; [done|].
  change (Ret (take (length (x :: a)) ((x :: a) ++ r), drop (length (x :: a)) ((x :: a) ++ r))
    = Ret (x :: a, r)).
  by rewrite take_app_length, drop_app_length.
Qed.

Lemma buf_read_length n r a r' :
  buf_read n r = Ret (a, r') → r = a ++ r' ∧ (length a ≤ n)%nat.
Proof.
  unfold buf_read. intros H.
  assert (a = take n r ∧ r' = drop n r) as [-> ->].
  { destruct r, n; simpl in *; inv_ret; auto. }
  rewrite length_take, take_drop. split; [done|lia].
Qed.

Lemma read_full_inv n r a r' :
  read_full n r = Ret (a, r') → r = a ++ r' ∧ length a = n.
Proof.
  unfold read_full. intros H. case_bool_decide; [|by destruct r].
  inv_ret. rewrite take_drop, length_take. split; [done|lia].
Qed.

Lemma i32_small z : - 2 ^ 31 ≤ z < 2 ^ 31 → i32 z = z.
Proof. intros H. unfold i32. rewrite Z.mod_small by lia. lia. Qed.

Lemma i32_mod z : i32 (z mod 2 ^ 32) = i32 z.
Proof. unfold i32. by rewrite Z.add_mod_idemp_l by lia. Qed.

Lemma read_be_i32_put z r :
  read_be_i32 (put_be_32 z ++ r) = Ret (i32 z, r).
Proof.
  unfold read_be_i32, put_be_32. rewrite read_full_app' by apply be_bytes_length.
  cbn. rewrite be_val_be_bytes. by rewrite <- (i32_mod z).
Qed.

Lemma read_be_u32_put z r :
  read_be_u32 (put_be_32 z ++ r) = Ret (u32 z, r).
Proof.
  unfold read_be_u32, put_be_32. rewrite read_full_app' by apply be_bytes_length.
  cbn. by rewrite be_val_be_bytes.
Qed.

Lemma read_be_u64_put z r :
  read_be_u64 (put_be_64 z ++ r) = Ret (u64 z, r).
Proof.
  unfold read_be_u64, put_be_64. rewrite read_full_app' by apply be_bytes_length.
  cbn. by rewrite be_val_be_bytes.
Qed.

Lemma read_be_i32_inv r v r' :
  read_be_i32 r = Ret (v, r') → length r = (4 + length r')%nat.
Proof.
  unfold read_be_i32. intros H. inv_ret. destruct x as [b r1]. cbn in *. inv_ret.
  apply read_full_inv in H0 as [-> Hl]. rewrite length_app. lia.
Qed.

Lemma next_app a r : next (length a) (a ++ r) = (a, r).
Proof. unfold next. by rewrite take_app_length, drop_app_length. Qed.

Lemma next_app' n a r : length a = n → next n (a ++ r) = (a, r).
Proof. intros <-. apply next_app. Qed.

(** *** Readers of a prefix *)

(** On input [r] the reader [p] returns or fails but does not panic, and when
    it returns it has read a prefix [u] of [r] and does the same on [u]
    whatever follows. *)
Definition good {A} (p : bytes → outcome (A * bytes)) (r : bytes) : Prop :=
  match p r with
  | Ret (a, r') => ∃ u, r = u ++ r' ∧ ∀ s, p (u ++ s) = Ret (a, s)
  | Err _ => True
  | Panic _ => False
  end.

Lemma good_ret {A} (a : A) r : good (λ r, mret (a, r)) r.
Proof. by exists []. Qed.

Lemma good_bind {A B} (p : bytes → outcome (A * bytes)) (f : A → bytes → outcome (B * bytes)) r :
  good p r →
  (∀ a u r', r = u ++ r' → p r = Ret (a, r') → good (f a) r') →
  good (λ r, '(a, r) ← p r; f a r) r.
Proof.
  unfold good. intros Hp Hf. destruct (p r) as [[a r1]| |] eqn:E; try done.
  destruct Hp as (u & -> & Hu). specialize (Hf a u r1 eq_refl eq_refl). simpl.
  destruct (f a r1) as [[b r2]| |]; try done. destruct Hf as (u' & -> & Hu').
  exists (u ++ u'). split; [by rewrite app_assoc|]. intros s. rewrite <- app_assoc, Hu. apply Hu'.
Qed.

Lemma good_read_full n r : good (read_full n) r.
Proof.
  unfold good. destruct (read_full n r) as [[a r']| |] eqn:E; [|done|].
  - apply read_full_inv in E as [-> <-]. exists a. split; [done|]. intros s. apply read_full_app.
  - unfold read_full in E. case_bool_decide; [done|]. by destruct r.
Qed.

Lemma good_read_be_i32 r : good read_be_i32 r.
Proof. apply good_bind; [apply good_read_full|]. intros. apply good_ret. Qed.

Lemma good_read_be_u32 r : good read_be_u32 r.
Proof. apply good_bind; [apply good_read_full|]. intros. apply good_ret. Qed.

Lemma good_read_be_u64 r : good read_be_u64 r.
Proof. apply good_bind; [apply good_read_full|]. intros. apply good_ret. Qed.

Lemma good_Ret {A} (p : bytes → outcome (A * bytes)) r a r' :
  good p r → p r = Ret (a, r') → ∃ u, r = u ++ r' ∧ ∀ s, p (u ++ s) = Ret (a, s).
Proof. unfold good. intros Hp Hr. by rewrite Hr in Hp. Qed.

#[export] Hint Resolve good_ret good_read_full good_read_be_i32 good_read_be_u32
  good_read_be_u64 : bv.

(** Numbers whose bits do not overlap. *)
Lemma lor_pack a m k : 0 ≤ k → 0 ≤ m < 2 ^ k → Z.lor (Z.shiftl a k) m = a * 2 ^ k + m.
Proof.
  intros Hk Hm. rewrite Z.shiftl_mul_pow2 by done.
  assert (Z.land (a * 2 ^ k) m = 0) as Hz.
  { apply Z.bits_inj'. intros i Hi. rewrite Z.land_spec, Z.bits_0. destruct (decide (i < k)).
    - by rewrite Z.mul_pow2_bits_low.
    - destruct (decide (m = 0)) as [->|]; [by rewrite Z.bits_0, andb_false_r|].
      assert (Z.log2 m < k) by (apply Z.log2_lt_pow2; lia). rewrite (Z.bits_above_log2 m), andb_false_r by lia. done. }
  rewrite Z.add_nocarry_lxor by done. symmetry. by apply Z.lxor_lor.
Qed.
