(* ===== verification/Fips180.v ===== *)
(** * FIPS 180-4: what SHA-256 is

    The standard's definition of SHA-256, written from its text and without
    any definition of the code: the constants as fractional parts of roots of
    primes, the logical functions, padding, parsing, the message schedule and
    the compression loop.  Words are integers below [2^32]; rotation and shift
    are arithmetic.  [Sha256] proves that the code computes [SHA256]. *)

From Stdlib Require Import ZArith Lia.
From S2P Require Import Prelude Buffers.

Local Open Scope Z_scope.

Module Fips180.

(** ** Operations on words (sections 3.2 and 4.1.2) *)

Definition add (x y : Z) : Z := (x + y) mod 2 ^ 32.
Definition SHR (n x : Z) : Z := x / 2 ^ n.
(** The low [n] bits move to the top. *)
Definition ROTR (n x : Z) : Z := x / 2 ^ n + (x mod 2 ^ n) * 2 ^ (32 - n).
Definition Ch (x y z : Z) : Z := Z.lxor (Z.land x y) (Z.land (Z.lnot x) z).
Definition Maj (x y z : Z) : Z := Z.lxor (Z.lxor (Z.land x y) (Z.land x z)) (Z.land y z).
Definition Sigma0 (x : Z) : Z := Z.lxor (Z.lxor (ROTR 2 x) (ROTR 13 x)) (ROTR 22 x).
Definition Sigma1 (x : Z) : Z := Z.lxor (Z.lxor (ROTR 6 x) (ROTR 11 x)) (ROTR 25 x).
Definition sigma0 (x : Z) : Z := Z.lxor (Z.lxor (ROTR 7 x) (ROTR 18 x)) (SHR 3 x).
Definition sigma1 (x : Z) : Z := Z.lxor (Z.lxor (ROTR 17 x) (ROTR 19 x)) (SHR 10 x).

(** ** Constants (sections 4.2.2 and 5.3.3) *)

Definition is_prime (n : nat) : bool :=
  forallb (fun d => negb (Nat.eqb (n mod d) 0)) (seq 2 (n - 2)).

(** The first 64 primes are those up to 311. *)
Definition primes : list Z := map Z.of_nat (List.filter is_prime (seq 2 310)).

(** The greatest [r < 2^bits] with [r^k <= x], bit by bit. *)
Fixpoint root_from (bits : nat) (k x r : Z) : Z :=
  match bits with
  | O => r
  | S bits =>
      let r' := r + 2 ^ Z.of_nat bits in
      root_from bits k x (if r' ^ k <=? x then r' else r)
  end.

(** The first 32 bits of the fractional part of the [k]-th root of [p]. *)
Definition frac_root (k p : Z) : Z := root_from 40 k (p * 2 ^ (32 * k)) 0 mod 2 ^ 32.

(** The first thirty-two bits of the fractional parts of the cube roots of the
    first sixty-four primes. *)
Definition K : list Z := map (frac_root 3) primes.

(** The same of the square roots of the first eight primes. *)
Definition H0 : list Z := map (frac_root 2) (take 8 primes).

(** ** Padding and parsing (sections 5.1.1 and 5.2.1), for whole bytes *)

(** A one bit, the least number of zero bits that leaves 64 bits free in the
    last 512-bit block, and the length of the message in bits. *)
Definition pad (m : bytes) : bytes :=
  m ++ [x80] ++ zeros (Z.to_nat ((55 - len m) mod 64)) ++ be_bytes 8 (8 * len m).

(** Consecutive pieces of [n] bytes; [fuel] bounds their number. *)
Fixpoint cut (fuel n : nat) (b : bytes) : list bytes :=
  match fuel, b with
  | S fuel, _ :: _ => take n b :: cut fuel n (drop n b)
  | _, _ => []
  end.

Definition pieces (n : nat) (b : bytes) : list bytes := cut (length b) n b.

(** The sixteen words of a block. *)
Definition parse (block : bytes) : list Z := map be_val (pieces 4 block).

(** ** The hash computation (section 6.2.2) *)

(** [W_t] from the words before it, the latest first. *)
Definition W_next (ws : list Z) : Z :=
  add (add (add (sigma1 (nth 1 ws 0)) (nth 6 ws 0)) (sigma0 (nth 14 ws 0))) (nth 15 ws 0).

(** The message schedule: [W_0] to [W_15] are the words of the block. *)
Definition W (M : list Z) : list Z :=
  rev (Nat.iter 48 (fun ws => W_next ws :: ws) (rev M)).

(** One turn of the loop on the working variables [a] to [h]. *)
Definition turn (v : list Z) (kw : Z * Z) : list Z :=
  match v with
  | [a; b; c; d; e; f; g; h] =>
      let T1 := add (add (add (add h (Sigma1 e)) (Ch e f g)) kw.1) kw.2 in
      let T2 := add (Sigma0 a) (Maj a b c) in
      [add T1 T2; a; b; c; add d T1; e; f; g]
  | _ => v
  end.

(** The intermediate hash value after a block. *)
Definition compress (H : list Z) (block : bytes) : list Z :=
  zip_with add (fold_left turn (combine K (W (parse block))) H) H.

Definition SHA256 (m : bytes) : bytes :=
  concat (map (be_bytes 4) (fold_left compress (pieces 64 (pad m)) H0)).

(** ** Checks on the specification *)

(** There are 64 primes below 312, and the roots are the exact integer parts. *)
Lemma constants_exact :
  length primes = 64%nat ∧
  (∀ p, In p primes → let r := root_from 40 3 (p * 2 ^ 96) 0 in
    r ^ 3 ≤ p * 2 ^ 96 < (r + 1) ^ 3) ∧
  (∀ p, In p (take 8 primes) → let r := root_from 40 2 (p * 2 ^ 64) 0 in
    r ^ 2 ≤ p * 2 ^ 64 < (r + 1) ^ 2).
Proof.
  assert (Hall : ∀ k l, forallb (fun p => let r := root_from 40 k (p * 2 ^ (32 * k)) 0 in
      (r ^ k <=? p * 2 ^ (32 * k)) && (p * 2 ^ (32 * k) <? (r + 1) ^ k)) l = true →
    ∀ p, In p l → let r := root_from 40 k (p * 2 ^ (32 * k)) 0 in
      r ^ k ≤ p * 2 ^ (32 * k) < (r + 1) ^ k).
  { intros k l Hl p Hp. rewrite forallb_forall in Hl. specialize (Hl p Hp).
    apply andb_true_iff in Hl as [H1 H2]. apply Z.leb_le in H1. by apply Z.ltb_lt in H2. }
  split; [vm_compute; reflexivity|].
  split; [apply (Hall 3) | apply (Hall 2)]; vm_compute; reflexivity.
Qed.

End Fips180.
