(* ===== verification/Sha256.v ===== *)
(** * SHA-256 (crypto/fastsha256)

    [sha256.go] and the portable block step [sha256block.go]: the streaming
    digest with its 64-byte buffer, the padding of [checkSum], [Sum256] and
    [MidState256].  The block step is the Go one; the assembly versions for
    386 and amd64 are not modelled.  [Sum256_reference] shows that the
    streaming code computes SHA-256 as the standard defines it ([Fips180],
    which shares no definition with this file): [Write] and [checkSum] absorb
    the padded message ([checkSum_rep]) and a block step is a compression of
    the standard ([block_step_compress]). *)

From Stdlib Require Import ZArith Lia.
From S2P Require Import Prelude Buffers Fips180.

Local Open Scope Z_scope.

(** ** Constants *)

Definition Size : nat := 32.
Definition BlockSize : nat := 64.
Definition chunk : nat := 64.

Definition _K : list Z :=
  [0x428a2f98; 0x71374491; 0xb5c0fbcf; 0xe9b5dba5] ++ [0x3956c25b; 0x59f111f1; 0x923f82a4; 0xab1c5ed5] ++
  [0xd807aa98; 0x12835b01; 0x243185be; 0x550c7dc3] ++ [0x72be5d74; 0x80deb1fe; 0x9bdc06a7; 0xc19bf174] ++
  [0xe49b69c1; 0xefbe4786; 0x0fc19dc6; 0x240ca1cc] ++ [0x2de92c6f; 0x4a7484aa; 0x5cb0a9dc; 0x76f988da] ++
  [0x983e5152; 0xa831c66d; 0xb00327c8; 0xbf597fc7] ++ [0xc6e00bf3; 0xd5a79147; 0x06ca6351; 0x14292967] ++
  [0x27b70a85; 0x2e1b2138; 0x4d2c6dfc; 0x53380d13] ++ [0x650a7354; 0x766a0abb; 0x81c2c92e; 0x92722c85] ++
  [0xa2bfe8a1; 0xa81a664b; 0xc24b8b70; 0xc76c51a3] ++ [0xd192e819; 0xd6990624; 0xf40e3585; 0x106aa070] ++
  [0x19a4c116; 0x1e376c08; 0x2748774c; 0x34b0bcb5] ++ [0x391c0cb3; 0x4ed8aa4a; 0x5b9cca4f; 0x682e6ff3] ++
  [0x748f82ee; 0x78a5636f; 0x84c87814; 0x8cc70208] ++ [0x90befffa; 0xa4506ceb; 0xbef9a3f7; 0xc67178f2].

(** ** State *)

(** [[8]uint32]. *)
Record hwords := HW { h0 : Z; h1 : Z; h2 : Z; h3 : Z; h4 : Z; h5 : Z; h6 : Z; h7 : Z }.

Record digest := Digest { dh : hwords; dx : bytes; dnx : nat; dlen : Z }.

(** The initial hash words ([init0] to [init7]). *)
Definition inits : hwords :=
  HW 0x6A09E667 0xBB67AE85 0x3C6EF372 0xA54FF53A 0x510E527F 0x9B05688C 0x1F83D9AB 0x5BE0CD19.

Definition Reset (d : digest) : digest :=
  Digest inits (dx d) 0 0.

Definition New : digest := Reset (Digest (HW 0 0 0 0 0 0 0 0) (zeros chunk) 0 0).

(** ** The block step *)

(** [v>>n | v<<(32-n)] on [uint32]. *)
Definition rotr (n : Z) (v : Z) : Z := Z.lor (Z.shiftr v n) (u32 (Z.shiftl v (32 - n))).

(** The word [w[i]] for [i < 16], from the bytes of the chunk. *)
Definition load_word (p : bytes) (i : nat) : Z :=
  let j := (i * 4)%nat in
  let b k := byte_Z (nth (j + k) p x00) in
  Z.lor (Z.lor (Z.lor (Z.shiftl (b 0%nat) 24) (Z.shiftl (b 1%nat) 16))
    (Z.shiftl (b 2%nat) 8)) (b 3%nat).

(** The word [w[i]] for [i >= 16], from the ones before it. *)
Definition next_word (w : list Z) (i : nat) : Z :=
  let v1 := nth (i - 2) w 0 in
  let t1 := Z.lxor (Z.lxor (rotr 17 v1) (rotr 19 v1)) (Z.shiftr v1 10) in
  let v2 := nth (i - 15) w 0 in
  let t2 := Z.lxor (Z.lxor (rotr 7 v2) (rotr 18 v2)) (Z.shiftr v2 3) in
  u32 (t1 + nth (i - 7) w 0 + t2 + nth (i - 16) w 0).

Definition schedule (p : bytes) : list Z :=
  fold_left (fun w i => w ++ [next_word w i]) (seq 16 48) (map (load_word p) (seq 0 16)).

Definition round (w : list Z) (r : hwords) (i : nat) : hwords :=
  let '(HW a b c d e f g h) := r in
  let t1 := u32 (h + Z.lxor (Z.lxor (rotr 6 e) (rotr 11 e)) (rotr 25 e)
                 + Z.lxor (Z.land e f) (Z.land (2 ^ 32 - 1 - e) g)
                 + nth i _K 0 + nth i w 0) in
  let t2 := u32 (Z.lxor (Z.lxor (rotr 2 a) (rotr 13 a)) (rotr 22 a)
                 + Z.lxor (Z.lxor (Z.land a b) (Z.land a c)) (Z.land b c)) in
  HW (u32 (t1 + t2)) a b c (u32 (d + t1)) e f g.

Definition add_words (r s : hwords) : hwords :=
  HW (u32 (h0 r + h0 s)) (u32 (h1 r + h1 s)) (u32 (h2 r + h2 s)) (u32 (h3 r + h3 s))
     (u32 (h4 r + h4 s)) (u32 (h5 r + h5 s)) (u32 (h6 r + h6 s)) (u32 (h7 r + h7 s)).

(** One iteration of the loop of [block], on the first 64 bytes of [p]. *)
Definition block_step (h : hwords) (p : bytes) : hwords :=
  let w := schedule p in
  add_words h (fold_left (round w) (seq 0 64) h).

(** [for len(p) >= chunk]: one iteration per whole chunk of [p]. *)
Fixpoint block_loop (n : nat) (h : hwords) (p : bytes) : hwords :=
  match n with
  | O => h
  | S n => block_loop n (block_step h (take chunk p)) (drop chunk p)
  end.

Definition absorb (h : hwords) (p : bytes) : hwords :=
  block_loop (length p / chunk) h p.

Definition block (d : digest) (p : bytes) : digest :=
  Digest (absorb (dh d) p) (dx d) (dnx d) (dlen d).

(** ** The streaming interface *)

(** The first part of [Write]: top up the buffer. *)
Definition Write_fill (d : digest) (p : bytes) : digest * bytes :=
  if bool_decide (0 < dnx d)%nat then
    let n := Nat.min (chunk - dnx d) (length p) in
    let x := take (dnx d) (dx d) ++ go_copy (drop (dnx d) (dx d)) p in
    let d := Digest (dh d) x (dnx d + n) (dlen d) in
    let d := if bool_decide (dnx d = chunk)
             then let d := block d (dx d) in Digest (dh d) (dx d) 0 (dlen d)
             else d in
    (d, drop n p)
  else (d, p).

(** [n := len(p) &^ (chunk - 1)]. *)
Definition Write_blocks (d : digest) (p : bytes) : digest * bytes :=
  if bool_decide (chunk ≤ length p)%nat then
    let n := (length p / chunk * chunk)%nat in
    (block d (take n p), drop n p)
  else (d, p).

Definition Write (d : digest) (p : bytes) : digest :=
  let d := Digest (dh d) (dx d) (dnx d) (u64 (dlen d + len p)) in
  let '(d, p) := Write_fill d p in
  let '(d, p) := Write_blocks d p in
  if bool_decide (0 < length p)%nat
  then Digest (dh d) (go_copy (dx d) p) (Nat.min (length (dx d)) (length p)) (dlen d)
  else d.

(** The four bytes [checkSum] and [MidState256] store for one hash word. *)
Definition word_bytes (s : Z) : bytes :=
  [Z_byte (Z.shiftr s 24); Z_byte (Z.shiftr s 16); Z_byte (Z.shiftr s 8); Z_byte s].

Definition hwords_bytes (r : hwords) : bytes :=
  concat (map word_bytes [h0 r; h1 r; h2 r; h3 r; h4 r; h5 r; h6 r; h7 r]).

Definition checkSum (d : digest) : outcome bytes :=
  let l := dlen d in
  let tmp := x80 :: zeros 63 in
  let d := if bool_decide (l mod 64 < 56)
           then Write d (take (Z.to_nat (56 - l mod 64)) tmp)
           else Write d (take (Z.to_nat (64 + 56 - l mod 64)) tmp) in
  let l := u64 (Z.shiftl l 3) in
  let d := Write d (map (fun i => Z_byte (Z.shiftr l (56 - 8 * Z.of_nat i))) (seq 0 8)) in
  if bool_decide (dnx d ≠ 0%nat) then Panic "d.nx != 0" else mret (hwords_bytes (dh d)).

Definition Sum (d : digest) (i : bytes) : outcome bytes :=
  h ← checkSum d; mret (i ++ h).

Definition Sum256_go (data : bytes) : outcome bytes :=
  checkSum (Write (Reset (Digest (HW 0 0 0 0 0 0 0 0) (zeros chunk) 0 0)) data).

Definition MidState256 (data : bytes) : bytes :=
  let data := if bool_decide (BlockSize < length data)%nat then take BlockSize data else data in
  hwords_bytes (dh (Write New data)).

(** ** Correctness of the streaming code *)

(** What [checkSum] appends to a message of [n] bytes: a one bit, zero bits up
    to 56 bytes modulo 64, and the bit length as eight bytes. *)
Definition padding (n : nat) : bytes :=
  let r := (n mod 64)%nat in
  let k := if bool_decide (r < 56)%nat then (55 - r)%nat else (119 - r)%nat in
  x80 :: zeros k ++ be_bytes 8 (8 * Z.of_nat n).


#[global] Arguments block_step : simpl never.
#[global] Arguments chunk : simpl never.
#[global] Arguments hwords_bytes : simpl never.

Lemma chunk_64 : chunk = 64%nat.
Proof. done. Qed.

Lemma block_loop_app k h a b :
  length a = (k * chunk)%nat →
  ∀ n, block_loop (k + n) h (a ++ b) = block_loop n (block_loop k h a) b.
Proof.
  rewrite chunk_64. revert h a. induction k as [|k IH]; intros h a Ha n.
  - destruct a; [done|simpl in Ha; lia].
  - cbn [Nat.add block_loop]. rewrite chunk_64.
    rewrite take_app_le, drop_app_le by lia.
    apply IH. rewrite length_drop. lia.
Qed.

Lemma absorb_app h a b :
  (length a mod 64 = 0)%nat → absorb h (a ++ b) = absorb (absorb h a) b.
Proof.
  intros Ha. unfold absorb. rewrite chunk_64, length_app.
  pose proof (Nat.div_mod_eq (length a) 64) as Hd. rewrite Ha in Hd.
  replace ((length a + length b) / 64)%nat with (length a / 64 + length b / 64)%nat.
  - apply block_loop_app. rewrite chunk_64. lia.
  - rewrite Hd at 2. rewrite Nat.add_0_r, Nat.mul_comm, Nat.div_add_l by lia. done.
Qed.

Lemma absorb_short h a : (length a < 64)%nat → absorb h a = h.
Proof. intros. unfold absorb. by rewrite chunk_64, Nat.div_small. Qed.

(** [rep d m]: digest [d] is in the state reached by writing [m]: the whole
    chunks of [m] are absorbed and the rest is buffered. *)
Definition rep (d : digest) (m : bytes) : Prop :=
  ∃ a t, m = a ++ t ∧ (length a mod 64 = 0)%nat ∧ (length t < 64)%nat ∧
    dnx d = length t ∧ take (length t) (dx d) = t ∧ length (dx d) = 64%nat ∧
    dh d = absorb inits a ∧ dlen d = u64 (len m).

Lemma rep_New : rep New [].
Proof. exists [], []. repeat split; simpl; lia. Qed.

(** The state between the parts of [Write]: [m ++ p] is being written, [p] is
    what is left, and only the length field is already that of the whole. *)
Definition rep_mid (d : digest) (m p : bytes) (l : Z) : Prop :=
  ∃ a t, m = a ++ t ∧ (length a mod 64 = 0)%nat ∧ (length t < 64)%nat ∧
    dnx d = length t ∧ take (length t) (dx d) = t ∧ length (dx d) = 64%nat ∧
    dh d = absorb inits a ∧ dlen d = l ∧ (t = [] ∨ p = []).

Lemma Write_fill_rep d m p l d' p' :
  (∃ a t, m = a ++ t ∧ (length a mod 64 = 0)%nat ∧ (length t < 64)%nat ∧
    dnx d = length t ∧ take (length t) (dx d) = t ∧ length (dx d) = 64%nat ∧
    dh d = absorb inits a ∧ dlen d = l) →
  Write_fill d p = (d', p') →
  ∃ q, p = q ++ p' ∧ rep_mid d' (m ++ q) p' l.
Proof.
  intros (a & t & -> & Ha & Ht & Hn & Hx & Hxl & Hh & Hl) Hw.
  unfold Write_fill in Hw. rewrite chunk_64 in Hw. case_bool_decide as Hpos; cycle 1.
  { injection Hw as <- <-. exists []. rewrite app_nil_r. split; [done|].
    exists a, t. repeat split; auto. left. destruct t; simpl in *; [done|lia]. }
  rewrite Hn in Hw. cbn [dnx dx dh dlen] in Hw.
  set (n := Nat.min (64 - length t) (length p)) in *.
  assert (Hgc : take (length t) (dx d) ++ go_copy (drop (length t) (dx d)) p
                = t ++ take n p ++ drop (length t + n) (dx d)).
  { rewrite Hx. f_equal. unfold go_copy. rewrite length_drop, Hxl, drop_drop.
    destruct (decide (length p ≤ 64 - length t)%nat).
    - replace n with (length p) by lia. by rewrite !take_ge by lia.
    - replace n with (64 - length t)%nat by lia. f_equal.
      rewrite !drop_ge; [done|lia|lia]. }
  rewrite Hgc in Hw. case_bool_decide as Hfull; injection Hw as <- <-;
    exists (take n p); rewrite take_drop; (split; [done|]).
  - exists (a ++ t ++ take n p), []. cbn [dnx dx dh dlen block]. rewrite !app_nil_r.
    assert (Hc : length (t ++ take n p) = 64%nat) by (rewrite length_app, length_take; lia).
    repeat split; auto; try (simpl; lia).
    + by rewrite <- app_assoc.
    + rewrite length_app, Hc, Nat.Div0.add_mod, Ha. done.
    + rewrite !length_app, length_drop, length_take, Hxl. lia.
    + rewrite (drop_ge (dx d)), app_nil_r by lia. by rewrite (absorb_app _ a), Hh.
  - exists a, (t ++ take n p). cbn [dnx dx dh dlen].
    assert (Hc : length (t ++ take n p) = (length t + n)%nat)
      by (rewrite length_app, length_take; lia).
    rewrite Hc. repeat split; auto; try lia.
    + by rewrite app_assoc.
    + rewrite app_assoc, <- Hc. apply take_app_length.
    + rewrite !length_app, length_drop, length_take, Hxl. lia.
    + right. apply drop_ge. lia.
Qed.

Lemma Write_blocks_rep d m p l d' p' :
  rep_mid d m p l → Write_blocks d p = (d', p') →
  ∃ q, p = q ++ p' ∧ rep_mid d' (m ++ q) p' l ∧ (length p' < 64)%nat.
Proof.
  intros (a & t & -> & Ha & Ht & Hn & Hx & Hxl & Hh & Hl & Hor) Hw.
  unfold Write_blocks in Hw. rewrite chunk_64 in Hw. case_bool_decide as Hge; cycle 1.
  { injection Hw as <- <-. exists []. rewrite app_nil_r. split; [done|].
    split; [|lia]. exists a, t. repeat split; auto. }
  destruct Hor as [-> | ->]; [|simpl in Hge; lia].
  set (n := (length p / 64 * 64)%nat) in *. injection Hw as <- <-.
  pose proof (Nat.div_mod_eq (length p) 64) as Hd.
  pose proof (Nat.mod_upper_bound (length p) 64 ltac:(lia)) as Hm.
  assert (Hq : length (take n p) = n) by (rewrite length_take; lia).
  exists (take n p). rewrite take_drop, app_nil_r. split; [done|].
  split; [|rewrite length_drop; lia].
  exists (a ++ take n p), []. cbn [dnx dx dh dlen block]. rewrite app_nil_r.
  repeat split; auto.
  - rewrite length_app, Hq. unfold n. rewrite Nat.Div0.mod_add. done.
  - by rewrite (absorb_app _ a), Hh.
Qed.

Lemma Write_rep d m p : rep d m → rep (Write d p) (m ++ p).
Proof.
  intros (a & t & Hm & Ha & Ht & Hn & Hx & Hxl & Hh & Hl). unfold Write.
  set (d0 := Digest _ _ _ _).
  assert (Hlen : dlen d0 = u64 (len (m ++ p))).
  { cbn. rewrite Hl. unfold u64, len. rewrite length_app, Z.add_mod_idemp_l by lia.
    f_equal. lia. }
  destruct (Write_fill d0 p) as [d1 p1] eqn:E1.
  apply (Write_fill_rep _ m _ (dlen d0)) in E1 as (q1 & -> & Hr1).
  2: { exists a, t. repeat split; auto. }
  destruct (Write_blocks d1 p1) as [d2 p2] eqn:E2.
  apply (Write_blocks_rep _ _ _ _ _ _ Hr1) in E2 as (q2 & -> & Hr2 & Hp2).
  clear Hr1. destruct Hr2 as (b & s & Hm2 & Hb & Hs & Hn2 & Hx2 & Hxl2 & Hh2 & Hl2 & Hor).
  rewrite !app_assoc, Hm2. case_bool_decide as Hpos.
  - destruct Hor as [-> | ->]; [|simpl in Hpos; lia]. rewrite app_nil_r in Hm2.
    exists b, p2. rewrite app_nil_r. cbn [dnx dx dh dlen]. repeat split; auto.
    + lia.
    + unfold go_copy. rewrite Hxl2, (take_ge p2) by lia. apply take_app_length.
    + by rewrite go_copy_length.
    + rewrite Hl2, Hlen. by rewrite !app_assoc, Hm2.
  - destruct p2; [|simpl in Hpos; lia]. exists b, s. rewrite !app_nil_r.
    repeat split; auto. rewrite Hl2, Hlen. by rewrite !app_assoc, app_nil_r, Hm2.
Qed.

Lemma rep_nx d m : rep d m → dnx d = (length m mod 64)%nat.
Proof.
  intros (a & t & -> & Ha & Ht & Hn & _). rewrite length_app, Nat.Div0.add_mod, Ha.
  rewrite Nat.add_0_l, Nat.Div0.mod_mod, Nat.mod_small by lia. done.
Qed.

Lemma rep_absorbed d m : rep d m → (length m mod 64 = 0)%nat → dh d = absorb inits m.
Proof.
  intros Hr Hm. pose proof (rep_nx _ _ Hr) as Hn. rewrite Hm in Hn.
  destruct Hr as (a & t & -> & Ha & Ht & Hn' & _ & _ & Hh & _).
  rewrite Hn in Hn'. destruct t; [|done]. by rewrite app_nil_r.
Qed.

Lemma length_bytes_be z :
  map (fun i => Z_byte (Z.shiftr (u64 z) (56 - 8 * Z.of_nat i))) (seq 0 8) = be_bytes 8 z.
Proof.
  assert (H : be_bytes 8 z = be_bytes 8 (u64 z)).
  { rewrite <- (be_bytes_be_val (be_bytes 8 z)), be_bytes_length, be_val_be_bytes. done. }
  rewrite H. set (v := u64 z). unfold be_bytes. cbn [seq map]. unfold le_bytes. cbn [rev app].
  rewrite !Z.shiftr_div_pow2 by lia. rewrite !Z.div_div by lia.
  repeat f_equal; rewrite Z.div_1_r; done.
Qed.

Lemma padding_total n : ((n + length (padding n)) mod 64 = 0)%nat.
Proof.
  unfold padding. cbn [length]. rewrite length_app, length_zeros, be_bytes_length.
  pose proof (Nat.div_mod_eq n 64) as Hd.
  pose proof (Nat.mod_upper_bound n 64 ltac:(lia)) as Hm.
  case_bool_decide.
  - replace (n + S (55 - n mod 64 + 8))%nat with (0 + (n / 64 + 1) * 64)%nat by lia.
    by rewrite Nat.Div0.mod_add.
  - replace (n + S (119 - n mod 64 + 8))%nat with (0 + (n / 64 + 2) * 64)%nat by lia.
    by rewrite Nat.Div0.mod_add.
Qed.

Lemma u64_mod64 z : u64 z mod 64 = z mod 64.
Proof.
  unfold u64. change (2 ^ 64) with (64 * 2 ^ 58).
  rewrite Z.rem_mul_r by lia. rewrite Z.add_mod, (Z.mul_comm 64), Z.mod_mul, Z.add_0_r by lia.
  by rewrite !Z.mod_mod by lia.
Qed.

Lemma take_tmp k : (k ≤ 64)%nat → (0 < k)%nat → take k (x80 :: zeros 63) = x80 :: zeros (k - 1).
Proof.
  intros. destruct k; [lia|]. cbn [take]. unfold zeros. rewrite take_replicate.
  do 2 f_equal. lia.
Qed.

(** What [checkSum] writes is the padding, so its result is the padded message
    absorbed from the initial words, and its sanity check never panics. *)
Lemma checkSum_rep d m :
  rep d m → checkSum d = Ret (hwords_bytes (absorb inits (m ++ padding (length m)))).
Proof.
  intros Hr. unfold checkSum.
  assert (Hl : dlen d = u64 (len m)) by (destruct Hr as (? & ? & ?); intuition).
  set (r := (length m mod 64)%nat).
  assert (Hmod : dlen d mod 64 = Z.of_nat r).
  { rewrite Hl, u64_mod64. unfold r, len. by rewrite Nat2Z.inj_mod. }
  assert (Hrb : (r < 64)%nat) by (apply Nat.mod_upper_bound; lia).
  set (k := if bool_decide (r < 56)%nat then (55 - r)%nat else (119 - r)%nat).
  match goal with |- context [Write (if ?c then _ else _)] => set (d1 := if c then _ else _) end.
  assert (Hd1 : d1 = Write d (x80 :: zeros k)).
  { unfold d1, k. rewrite Hmod. do 2 case_bool_decide; try lia; rewrite take_tmp by lia;
      do 3 f_equal; lia. }
  rewrite Hd1, length_bytes_be.
  pose proof (Write_rep _ _ (be_bytes 8 (Z.shiftl (dlen d) 3)) (Write_rep _ _ (x80 :: zeros k) Hr)) as Hr2.
  assert (Hpad : (m ++ x80 :: zeros k) ++ be_bytes 8 (Z.shiftl (dlen d) 3)
                 = m ++ padding (length m)).
  { rewrite <- app_assoc. f_equal. unfold padding. fold r. fold k. cbn [app]. do 2 f_equal.
    rewrite Z.shiftl_mul_pow2, Hl by lia.
    rewrite <- (be_bytes_be_val (be_bytes 8 (8 * Z.of_nat (length m)))).
    rewrite <- (be_bytes_be_val (be_bytes 8 (u64 (len m) * 2 ^ 3))).
    rewrite !be_bytes_length, !be_val_be_bytes. f_equal. unfold u64, len.
    change (256 ^ Z.of_nat 8) with (2 ^ 64).
    rewrite Z.mul_mod_idemp_l by lia. f_equal. lia. }
  rewrite Hpad in Hr2. rewrite bool_decide_eq_false_2.
  - by rewrite (rep_absorbed _ _ Hr2) by (rewrite length_app; apply padding_total).
  - rewrite (rep_nx _ _ Hr2), length_app, padding_total. auto.
Qed.

(** ** The block step is the compression of the standard *)

Definition word (z : Z) : Prop := 0 ≤ z < 2 ^ 32.

(** The eight words of the state as the standard's list. *)
Definition hw_list (r : hwords) : list Z := [h0 r; h1 r; h2 r; h3 r; h4 r; h5 r; h6 r; h7 r].

Lemma word_u32 z : word (u32 z).
Proof. apply Z.mod_pos_bound. lia. Qed.

#[local] Hint Resolve word_u32 : core.

Lemma add_u32 x y : Fips180.add x y = u32 (x + y).
Proof. done. Qed.

Lemma add_comm_u32 x y : Fips180.add x y = u32 (y + x).
Proof. by rewrite Z.add_comm. Qed.

Lemma u32_add_l x y : u32 (u32 x + y) = u32 (x + y).
Proof. unfold u32. by rewrite Z.add_mod_idemp_l by lia. Qed.

Lemma add_l x y : Fips180.add (u32 x) y = u32 (x + y).
Proof. apply u32_add_l. Qed.

Lemma rotr_ROTR n x : 0 < n < 32 → word x → rotr n x = Fips180.ROTR n x.
Proof.
  intros Hn Hx. unfold rotr, Fips180.ROTR, word in *.
  assert (Hs : u32 (Z.shiftl x (32 - n)) = Z.shiftl (x mod 2 ^ n) (32 - n)).
  { unfold u32. rewrite !Z.shiftl_mul_pow2 by lia.
    replace (2 ^ 32) with (2 ^ n * 2 ^ (32 - n)) by (rewrite <- Z.pow_add_r by lia; f_equal; lia).
    by rewrite Z.mul_mod_distr_r by (apply Z.pow_nonzero; lia). }
  rewrite Hs, Z.lor_comm, Z.shiftr_div_pow2 by lia. rewrite lor_pack; [lia|lia|].
  split; [apply Z.div_pos; lia|]. apply Z.div_lt_upper_bound; [lia|].
  rewrite <- Z.pow_add_r by lia. replace (n + (32 - n)) with 32 by lia. apply Hx.
Qed.

Lemma land_not e g : word e → word g → Z.land (2 ^ 32 - 1 - e) g = Z.land (Z.lnot e) g.
Proof.
  intros He Hg. unfold word in *.
  assert (Hgo : g = Z.land (Z.ones 32) g).
  { rewrite Z.land_comm, Z.land_ones by lia. by rewrite Z.mod_small by lia. }
  assert (Hl : 2 ^ 32 - 1 - e = Z.land (Z.lnot e) (Z.ones 32)).
  { rewrite Z.land_ones by lia. pose proof (Z.add_lnot_diag e) as Hd.
    apply (Z.mod_unique _ _ (-1)); lia. }
  by rewrite Hl, <- Z.land_assoc, <- Hgo.
Qed.

Lemma round_turn w r i :
  Forall word (hw_list r) →
  hw_list (round w r i) = Fips180.turn (hw_list r) (nth i _K 0, nth i w 0) ∧
  Forall word (hw_list (round w r i)).
Proof.
  intros Hr. destruct r as [a b c d e f g h]. unfold hw_list in *.
  cbn [h0 h1 h2 h3 h4 h5 h6 h7] in *. rewrite !Forall_cons in Hr.
  destruct Hr as (Ha & Hb & Hc & Hd & He & Hf & Hg & Hh & _).
  unfold round, Fips180.turn. cbn [h0 h1 h2 h3 h4 h5 h6 h7 fst snd].
  rewrite (add_u32 h), (add_u32 (Fips180.Sigma0 a)), !add_l, (add_u32 d), u32_add_l.
  unfold Fips180.Sigma0, Fips180.Sigma1, Fips180.Ch, Fips180.Maj.
  rewrite land_not, !rotr_ROTR by (done || lia).
  split; [reflexivity|]. repeat (apply Forall_cons; split; [first [assumption|apply word_u32]|]). constructor.
Qed.

Lemma rounds_turns w n r i :
  Forall word (hw_list r) → (i + n ≤ length _K)%nat → (i + n ≤ length w)%nat →
  hw_list (fold_left (round w) (seq i n) r)
  = fold_left Fips180.turn (combine (take n (drop i _K)) (take n (drop i w))) (hw_list r) ∧
  Forall word (hw_list (fold_left (round w) (seq i n) r)).
Proof.
  revert i r. induction n as [|n IH]; intros i r Hr HK Hw; [done|].
  destruct (round_turn w r i Hr) as [Et Ht]. cbn [seq fold_left].
  destruct (IH (S i) (round w r i) Ht) as [-> Hf]; [lia|lia|].
  split; [|done]. rewrite Et.
  destruct (lookup_lt_is_Some_2 _K i) as [k Hk]; [lia|].
  destruct (lookup_lt_is_Some_2 w i) as [v Hv]; [lia|].
  rewrite (drop_S _K k i Hk), (drop_S w v i Hv). cbn [take combine fold_left].
  by rewrite (nth_lookup_Some _ _ _ _ Hk), (nth_lookup_Some _ _ _ _ Hv).
Qed.

Lemma nth_rev_back (ws : list Z) k :
  (k < length ws)%nat → nth (length ws - S k) (rev ws) 0 = nth k ws 0.
Proof. intros Hk. rewrite rev_nth by lia. f_equal. lia. Qed.

Lemma next_word_W ws :
  (16 ≤ length ws)%nat → Forall word ws →
  next_word (rev ws) (length ws) = Fips180.W_next ws.
Proof.
  intros Hl Hw. unfold next_word, Fips180.W_next.
  rewrite !nth_rev_back, (add_u32 (Fips180.sigma1 _)), !add_l by lia.
  unfold Fips180.sigma0, Fips180.sigma1.
  assert (Hn : ∀ k, (k < length ws)%nat → word (nth k ws 0)).
  { intros k Hk. destruct (lookup_lt_is_Some_2 ws k Hk) as [z Hz].
    rewrite (nth_lookup_Some _ _ _ _ Hz). by eapply Forall_lookup_1. }
  rewrite !rotr_ROTR by (try apply Hn; lia).
  by rewrite !Z.shiftr_div_pow2 by lia.
Qed.

Lemma schedule_iter ws n :
  (16 ≤ length ws)%nat → Forall word ws →
  fold_left (fun w i => w ++ [next_word w i]) (seq (length ws) n) (rev ws)
  = rev (Nat.iter n (fun ws => Fips180.W_next ws :: ws) ws).
Proof.
  revert ws. induction n as [|n IH]; intros ws Hl Hw; [done|].
  cbn [seq fold_left]. rewrite next_word_W by done.
  change (rev ws ++ [Fips180.W_next ws]) with (rev (Fips180.W_next ws :: ws)).
  rewrite Nat.iter_succ_r. apply (IH (Fips180.W_next ws :: ws)); [simpl; lia|].
  constructor; [apply word_u32|done].
Qed.

Lemma schedule_W M : length M = 16%nat → Forall word M →
  fold_left (fun w i => w ++ [next_word w i]) (seq 16 48) M = Fips180.W M ∧
  length (Fips180.W M) = 64%nat.
Proof.
  intros HM Hw. pose proof (schedule_iter (rev M) 48) as Hs.
  rewrite length_rev, rev_involutive, HM in Hs.
  unfold Fips180.W. split; [apply Hs; [lia|by apply Forall_rev]|]. rewrite length_rev.
  assert (Hi : ∀ n ws, length (Nat.iter n (fun ws => Fips180.W_next ws :: ws) ws)
                       = (n + length ws)%nat).
  { intros n ws. induction n as [|n IH]; [done|]. rewrite Nat.iter_succ. cbn [length Nat.add].
    by rewrite IH. }
  by rewrite Hi, length_rev, HM.
Qed.

Lemma be_val_4 b0 b1 b2 b3 :
  Z.lor (Z.lor (Z.lor (Z.shiftl (byte_Z b0) 24) (Z.shiftl (byte_Z b1) 16))
    (Z.shiftl (byte_Z b2) 8)) (byte_Z b3) = be_val [b0; b1; b2; b3].
Proof.
  pose proof (byte_Z_range b0). pose proof (byte_Z_range b1).
  pose proof (byte_Z_range b2). pose proof (byte_Z_range b3).
  rewrite <- !Z.lor_assoc.
  rewrite (Z.shiftl_mul_pow2 (byte_Z b1)), (Z.shiftl_mul_pow2 (byte_Z b2)) by lia.
  rewrite <- (Z.shiftl_mul_pow2 (byte_Z b2)), (lor_pack _ (byte_Z b3)) by lia.
  rewrite <- (Z.shiftl_mul_pow2 (byte_Z b1)), (lor_pack _ (_ + byte_Z b3)) by lia.
  rewrite lor_pack by lia. unfold be_val. cbn [rev app]. unfold le_val. lia.
Qed.

Lemma length_split fuel n b : (0 < n)%nat → (length b ≤ fuel)%nat →
  Forall (fun q => length q ≤ n)%nat (Fips180.cut fuel n b).
Proof.
  intros Hn. revert b. induction fuel as [|fuel IH]; intros b Hb; [constructor|].
  destruct b as [|x b]; [constructor|]. cbn [Fips180.cut]. constructor.
  - rewrite length_take. lia.
  - apply IH. rewrite length_drop. simpl in *. lia.
Qed.

Lemma parse_words p : length p = 64%nat →
  map (load_word p) (seq 0 16) = Fips180.parse p ∧ Forall word (Fips180.parse p) ∧
  length (Fips180.parse p) = 16%nat.
Proof.
  intros Hp. do 64 (destruct p as [|? p]; [discriminate|]). destruct p; [|discriminate].
  unfold Fips180.parse, Fips180.pieces. cbn [length Fips180.cut take drop map].
  split; [|split; [|done]].
  - cbn [seq map]. unfold load_word. cbn [Nat.mul Nat.add nth]. by rewrite !be_val_4.
  - repeat constructor; apply be_val_range || (eapply Z.lt_le_trans; [apply be_val_range|done]).
Qed.

Lemma constants_agree : _K = Fips180.K ∧ hw_list inits = Fips180.H0.
Proof. split; vm_compute; reflexivity. Qed.

Lemma block_step_compress r p :
  length p = 64%nat → Forall word (hw_list r) →
  hw_list (block_step r p) = Fips180.compress (hw_list r) p ∧
  Forall word (hw_list (block_step r p)).
Proof.
  intros Hp Hr. destruct (parse_words p Hp) as (Hw & Hword & Hlen).
  destruct (schedule_W _ Hlen Hword) as [Hs Hl].
  assert (Hsp : schedule p = Fips180.W (Fips180.parse p))
    by exact (eq_trans (f_equal (fold_left (fun w i => w ++ [next_word w i]) (seq 16 48)) Hw) Hs).
  clear Hs Hw. rename Hsp into Hs. rewrite <- Hs in Hl.
  unfold block_step. destruct (rounds_turns (schedule p) 64 r 0 Hr) as [Ef Hf].
  { apply Nat.leb_le. vm_compute. reflexivity. }
  { by rewrite Hl. }
  rewrite !drop_0, (take_ge (schedule p)) in Ef by lia.
  rewrite take_ge in Ef by (apply Nat.leb_le; vm_compute; reflexivity).
  destruct constants_agree as [EK _]. rewrite EK, Hs in Ef. rewrite Hs in *.
  unfold Fips180.compress. rewrite <- Ef.
  set (r' := fold_left _ _ r). destruct r, r'. split.
  - unfold hw_list, add_words. cbn [h0 h1 h2 h3 h4 h5 h6 h7 zip_with].
    by rewrite !add_comm_u32.
  - unfold hw_list, add_words. cbn [h0 h1 h2 h3 h4 h5 h6 h7]. repeat constructor; apply word_u32.
Qed.

(** ** The whole hash *)

Lemma padding_pad m : m ++ padding (length m) = Fips180.pad m.
Proof.
  unfold padding, Fips180.pad. do 2 f_equal. cbn [app]. f_equal. f_equal. f_equal.
  unfold len. pose proof (Nat.mod_upper_bound (length m) 64 ltac:(lia)) as Hr.
  pose proof (Nat.div_mod_eq (length m) 64) as Hd. set (r := (length m mod 64)%nat) in *.
  apply Nat2Z.inj. rewrite Z2Nat.id by (apply Z.mod_pos_bound; lia).
  case_bool_decide.
  - apply (Z.mod_unique _ _ (- Z.of_nat (length m / 64))); lia.
  - apply (Z.mod_unique _ _ (- Z.of_nat (length m / 64) - 1)); lia.
Qed.

#[local] Opaque block_step Fips180.compress.

Lemma fold_left_cons {A B} (f : A → B → A) b l a :
  fold_left f (b :: l) a = fold_left f l (f a b).
Proof. done. Qed.

Lemma split_S fuel n p :
  p ≠ [] → Fips180.cut (S fuel) n p = take n p :: Fips180.cut fuel n (drop n p).
Proof. by destruct p. Qed.

Lemma absorb_compress n p fuel r :
  length p = (n * 64)%nat → (length p ≤ fuel)%nat → Forall word (hw_list r) →
  hw_list (block_loop n r p) = fold_left Fips180.compress (Fips180.cut fuel 64 p) (hw_list r) ∧
  Forall word (hw_list (block_loop n r p)).
Proof.
  revert p fuel r. induction n as [|n IH]; intros p fuel r Hp Hf Hr.
  - destruct p; [|simpl in Hp; lia]. by destruct fuel.
  - destruct fuel as [|fuel]; [lia|]. cbn [block_loop]. rewrite chunk_64.
    assert (Ht : length (take 64 p) = 64%nat) by (rewrite length_take; lia).
    destruct (block_step_compress r (take 64 p) Ht Hr) as [Ec Hc].
    rewrite split_S by (intros ->; simpl in Hp; lia).
    destruct (IH (drop 64 p) fuel _ ltac:(rewrite length_drop; lia)
      ltac:(rewrite length_drop; lia) Hc) as [Ei Hw].
    split; [|exact Hw]. etransitivity; [exact Ei|]. by rewrite Ec, fold_left_cons.
Qed.

Lemma hwords_bytes_be r : hwords_bytes r = concat (map (be_bytes 4) (hw_list r)).
Proof.
  unfold hwords_bytes. fold (hw_list r). f_equal. apply map_ext. intros z.
  unfold word_bytes, be_bytes, le_bytes. cbn [rev app].
  rewrite !Z.shiftr_div_pow2, !Z.div_div by lia. done.
Qed.

Lemma Sum256_go_sha256 data : Sum256_go data = Ret (Fips180.SHA256 data).
Proof.
  unfold Sum256_go. rewrite (checkSum_rep _ data) by (apply (Write_rep _ []), rep_New).
  f_equal. unfold Fips180.SHA256, Fips180.pieces. rewrite padding_pad, hwords_bytes_be.
  do 2 f_equal. destruct constants_agree as [_ <-].
  pose proof (padding_total (length data)) as Hm.
  rewrite <- length_app, padding_pad in Hm. set (p := Fips180.pad data) in *.
  unfold absorb. rewrite chunk_64. apply absorb_compress; [|done|].
  - pose proof (Nat.div_mod_eq (length p) 64). lia.
  - apply (bool_decide_unpack _). vm_compute. exact I.
Qed.

(** ** Claims *)

(** C35. The SHA-256 of crypto/fastsha256 is the one of FIPS 180-4: for every
    message, [Sum256] returns, without reaching its [d.nx != 0] panic, the hash
    that the standard defines ([Fips180.SHA256], written from the text of the
    standard and sharing no definition with the code).  This covers the round
    constants and initial words, the block function, the buffering of [Write]
    with its whole-chunk fast path, the padding and the length encoding. *)
Theorem Sum256_reference (data : bytes) : Sum256_go data = Ret (Fips180.SHA256 data).
Proof. apply Sum256_go_sha256. Qed.
