(* ===== verification/Store.v ===== *)
(** * Key-value stores

    The client and the wallet keep their data in a buntdb database, which is
    an interface here: what they rely on is that a transaction is applied
    completely or not at all, that reads see the last write, and that a range
    holds the keys that are set, in their order.  Keys are those the programs
    print, by kind. *)

From S2P Require Import Prelude.

(** What a key holds after the writes [l], the last one winning. *)
Definition written {K V} `{EqDecision K} (l : list (K * V)) (k : K) (old : option V) : option V :=
  foldl (λ o '(k', v), if decide (k' = k) then Some v else o) old l.

Class KeyValue (K V : Type) `{EqDecision K} (DB : Type) := {
  db_get : DB → K → option V;
  (** A transaction of writes, and one of deletions; [Some] is the error. *)
  db_update : DB → list (K * V) → DB * option string;
  db_delete : DB → list K → DB * option string;
  (** All entries in the order of the keys. *)
  db_list : DB → list (K * V);
  db_get_update db l k :
    db_get (db_update db l).1 k = match (db_update db l).2 with
                                  | None => written l k (db_get db k)
                                  | Some _ => db_get db k
                                  end;
  db_get_delete db l k :
    db_get (db_delete db l).1 k = match (db_delete db l).2 with
                                  | None => if decide (k ∈ l) then None else db_get db k
                                  | Some _ => db_get db k
                                  end;
  db_list_get db k v : (k, v) ∈ db_list db ↔ db_get db k = Some v;
  db_list_keys db : NoDup (fst <$> db_list db);
}.

(** ** An instance: a finite map that never fails *)

Section Memory.
Context {K V : Type} `{Countable K}.

Definition memory_update (db : gmap K V) (l : list (K * V)) : gmap K V := foldl (λ m '(k, v), <[k := v]> m) db l.
Definition memory_delete (db : gmap K V) (l : list K) : gmap K V := foldl (λ m k, delete k m) db l.

Lemma memory_get_update db l k : memory_update db l !! k = written l k (db !! k).
Proof.
  unfold memory_update, written. revert db. induction l as [|[k' v] l IH]; intros db; [done|]. cbn [foldl]. rewrite IH. f_equal.
  destruct (decide (k' = k)) as [->|]; [by rewrite lookup_insert_eq|by rewrite lookup_insert_ne].
Qed.

Lemma memory_get_delete db l k : memory_delete db l !! k = if decide (k ∈ l) then None else db !! k.
Proof.
  unfold memory_delete. revert db. induction l as [|k' l IH]; intros db; cbn [foldl].
  - rewrite decide_False; [done|apply not_elem_of_nil].
  - rewrite IH. destruct (decide (k ∈ l)) as [Hin|Hni]; [rewrite decide_True by (by right); done|].
    destruct (decide (k = k')) as [->|Hne]; [rewrite decide_True by left; by rewrite lookup_delete_eq|].
    rewrite decide_False; [by rewrite lookup_delete_ne|]. by intros [->|?]%elem_of_cons.
Qed.

#[export] Program Instance memory_store : KeyValue K V (gmap K V) := {|
  db_get db k := db !! k;
  db_update db l := (memory_update db l, None);
  db_delete db l := (memory_delete db l, None);
  db_list db := map_to_list db;
|}.
Next Obligation. intros db l k. apply memory_get_update. Qed.
Next Obligation. intros db l k. apply memory_get_delete. Qed.
Next Obligation. intros db k v. apply elem_of_map_to_list. Qed.
Next Obligation. intros db. apply NoDup_fst_map_to_list. Qed.
End Memory.

(** ** Reading what was written *)

Section Written.
Context {K V : Type} `{EqDecision K}.
Implicit Types (l : list (K * V)) (k : K) (v : V) (o : option V).

Lemma written_not l k o : k ∉ map fst l → written l k o = o.
Proof.
  unfold written. revert o. induction l as [|[k' v] l IH]; intros o Hn; [done|]. cbn [foldl map fst] in *.
  apply not_elem_of_cons in Hn as [Hne Hn]. rewrite decide_False by congruence. by apply IH.
Qed.

Lemma written_cons k' v l k o :
  written ((k', v) :: l) k o = written l k (if decide (k' = k) then Some v else o).
Proof. done. Qed.
End Written.
