(* ===== verification/Crypto.v ===== *)
(** * Hashing as the other components see it (crypto/crypto.go, bitcoin/chainhash)

    [HashFunction] is the interface the tries and the wire formats are proved
    against; [fastsha256] discharges it with the SHA-256 code of [Sha256]. *)

From Stdlib Require Import ZArith Lia.
From S2P Require Import Prelude Buffers Sha256.

(** ** The interface *)

(** What [fastsha256] and [crypto.WitnessKeyAndValue] promise their callers. *)
Class HashFunction := {
  Sum256 : bytes → bytes;
  WitnessKeyAndValue : bytes → bytes → bytes;
  Sum256_length m : length (Sum256 m) = 32;
  WitnessKeyAndValue_spec k v : WitnessKeyAndValue k v = Sum256 (k ++ v);
}.

(** ** The implementation *)

(** [crypto.WitnessKeyAndValue]: the hasher written twice. *)
Definition WitnessKeyAndValue_go (key value : bytes) : outcome bytes :=
  Sum (Write (Write New key) value) [].

Definition returned (m : outcome bytes) : bytes :=
  match m with Ret h => h | _ => [] end.

Lemma Witness_go_sha256 k v : WitnessKeyAndValue_go k v = Sum256_go (k ++ v).
Proof.
  unfold WitnessKeyAndValue_go, Sum, Sum256_go. rewrite !(checkSum_rep _ (k ++ v)); [done| |].
  - apply (Write_rep _ []), rep_New.
  - apply Write_rep. apply (Write_rep _ []), rep_New.
Qed.

Lemma Sum256_go_returns m : ∃ h, Sum256_go m = Ret h ∧ length h = 32.
Proof.
  unfold Sum256_go. rewrite (checkSum_rep _ m) by (apply (Write_rep _ []), rep_New).
  eexists; split; [done|]. done.
Qed.

#[export] Program Instance fastsha256 : HashFunction := {|
  Sum256 data := returned (Sum256_go data);
  WitnessKeyAndValue k v := returned (WitnessKeyAndValue_go k v);
|}.
Next Obligation. intros m. cbv beta. by destruct (Sum256_go_returns m) as (h & -> & Hh). Qed.
Next Obligation. intros k v. cbv beta. by rewrite Witness_go_sha256. Qed.

(** ** bitcoin/chainhash *)

Definition HashSize : nat := 32.

Section Chainhash.
Context `{HashFunction}.

(** [HashB] and [HashH] (Go's [crypto/sha256] computes the same function). *)
Definition HashB (b : bytes) : bytes := Sum256 b.

Definition DoubleHashB (b : bytes) : bytes :=
  let first := Sum256 b in
  let second := Sum256 first in
  second.

Definition DoubleHashH (b : bytes) : bytes :=
  let first := Sum256 b in Sum256 first.

(** [a] and [b] are two messages with one digest. *)
Definition collides (a b : bytes) : Prop := a ≠ b ∧ Sum256 a = Sum256 b.

Lemma DoubleHashH_length b : length (DoubleHashH b) = 32.
Proof. apply Sum256_length. Qed.

Lemma Sum256_inj_or a b : Sum256 a = Sum256 b → a = b ∨ collides a b.
Proof. intros Hab. destruct (decide (a = b)) as [->|Hne]; [by left|by right]. Qed.

(** Equal double hashes: one of the two applications collides. *)
Lemma DoubleHashH_inj_or a b :
  DoubleHashH a = DoubleHashH b → a = b ∨ collides a b ∨ collides (Sum256 a) (Sum256 b).
Proof.
  unfold DoubleHashH. intros Hab. apply Sum256_inj_or in Hab as [Hab|?]; [|by auto].
  apply Sum256_inj_or in Hab as [?|?]; auto.
Qed.
End Chainhash.

(** [Hash.SetBytes] and [NewHash]: only 32-byte slices are hashes. *)
Definition SetBytes (newHash : bytes) : outcome bytes :=
  if bool_decide (length newHash ≠ HashSize)
  then Err "invalid hash length"
  else mret newHash.

Definition NewHash (newHash : bytes) : outcome bytes := SetBytes newHash.

(** [Hash.IsEqual] on pointers, [None] being nil. *)
Definition IsEqual (hash target : option bytes) : bool :=
  match hash, target with
  | None, None => true
  | None, _ => false
  | _, None => false
  | Some h, Some t => bytes_eqb h t
  end.

(** [Hash.CloneBytes]. *)
Definition CloneBytes (hash : bytes) : bytes := go_copy (zeros HashSize) hash.

#[global] Opaque Sum256_go WitnessKeyAndValue_go.

(** ** Claims *)

(** Writing a message in any two pieces is the same as writing it at once:
    [WitnessKeyAndValue(key, value)] is SHA-256 of [key || value]. *)
Theorem WitnessKeyAndValue_concat (key value : bytes) :
  WitnessKeyAndValue_go key value = Sum256_go (key ++ value).
Proof. by rewrite Witness_go_sha256. Qed.
