(* ===== verification/Utils.v ===== *)
(** * Bit access and small helpers (utils/utils.go) *)

From Stdlib Require Import ZArith Lia.
From S2P Require Import Prelude Buffers.

Definition CloneByteSlice (b : bytes) : bytes := go_copy (zeros (length b)) b.

Definition Max (x y : Z) : Z := if bool_decide (x < y)%Z then y else x.
Definition Min (x y : Z) : Z := if bool_decide (x > y)%Z then y else x.

(** The test [(x & (1 << (7 - bitIdx))) > 0] on one byte. *)
Definition bit_of (x : Byte.byte) (bitIdx : nat) : bool :=
  bool_decide (Z.land (byte_Z x) (Z.shiftl 1 (7 - Z.of_nat bitIdx)) > 0)%Z.

(** [GetBit(b, idx)]: bit 0 is the most significant bit of the first byte. *)
Definition GetBit (b : bytes) (idx : nat) : outcome bool :=
  let bitIdx := idx mod 8 in
  let byteIdx := (idx - bitIdx) / 8 in
  match b !! byteIdx with
  | Some x => mret (bit_of x bitIdx)
  | None => Panic out_of_range
  end.

(** ** The bit string of a key *)

Definition byte_bits (x : Byte.byte) : list bool := map (bit_of x) (seq 0 8).

Fixpoint key_bits (b : bytes) : list bool :=
  match b with
  | [] => []
  | x :: b => byte_bits x ++ key_bits b
  end.

Lemma byte_bits_length x : length (byte_bits x) = 8.
Proof. done. Qed.

Lemma key_bits_length b : length (key_bits b) = 8 * length b.
Proof.
  induction b as [|x b IH]; [done|]. cbn [key_bits length].
  rewrite length_app, IH, byte_bits_length. lia.
Qed.

Lemma bit_of_testbit x i :
  i < 8 → bit_of x i = Z.testbit (byte_Z x) (7 - Z.of_nat i).
Proof.
  intros Hi. unfold bit_of. set (j := (7 - Z.of_nat i)%Z).
  assert (0 ≤ j)%Z by lia.
  rewrite Z.shiftl_1_l. destruct (Z.testbit (byte_Z x) j) eqn:E.
  - apply bool_decide_eq_true.
    assert (Z.land (byte_Z x) (2 ^ j) ≠ 0)%Z as Hnz.
    { intros H0. apply (f_equal (fun z => Z.testbit z j)) in H0.
      rewrite Z.land_spec, E, Z.pow2_bits_true, Z.bits_0 in H0 by lia. done. }
    assert (0 ≤ Z.land (byte_Z x) (2 ^ j))%Z
      by (apply Z.land_nonneg; right; apply Z.pow_nonneg; lia). lia.
  - apply bool_decide_eq_false.
    assert (Z.land (byte_Z x) (2 ^ j) = 0)%Z as ->; [|lia].
    apply Z.bits_inj'. intros k Hk. rewrite Z.land_spec, Z.bits_0.
    destruct (decide (j = k)) as [<-|]; [by rewrite E|].
    rewrite Z.pow2_bits_false by lia. apply andb_false_r.
Qed.

Lemma byte_bits_inj x y : byte_bits x = byte_bits y → x = y.
Proof.
  intros Hb. apply byte_Z_inj, Z.bits_inj'. intros k Hk.
  destruct (decide (k < 8)%Z).
  - assert (Hl : byte_bits x !! Z.to_nat (7 - k) = byte_bits y !! Z.to_nat (7 - k)) by by rewrite Hb.
    unfold byte_bits in Hl. rewrite !list_lookup_fmap, !lookup_seq_lt in Hl by lia.
    cbn [fmap option_fmap option_map] in Hl. injection Hl as Hl.
    rewrite !bit_of_testbit in Hl by lia.
    replace (7 - Z.of_nat (Z.to_nat (7 - k)))%Z with k in Hl by lia. done.
  - pose proof (byte_Z_range x). pose proof (byte_Z_range y).
    assert (Hh : ∀ z, (0 ≤ z < 256)%Z → Z.testbit z k = false).
    { intros z Hz. rewrite <- (Z.mod_small z (2 ^ 8)) by lia.
      apply Z.mod_pow2_bits_high. lia. }
    by rewrite !Hh.
Qed.

Lemma key_bits_inj a b : length a = length b → key_bits a = key_bits b → a = b.
Proof.
  revert b. induction a as [|x a IH]; intros [|y b] Hl Hb; try done.
  cbn [key_bits] in Hb. apply app_inj_length in Hb as [Hx Hb]; [|done].
  f_equal; [by apply byte_bits_inj|]. apply IH; [simpl in Hl; lia|done].
Qed.

Lemma GetBit_lookup b i :
  GetBit b i = match key_bits b !! i with Some x => Ret x | None => Panic out_of_range end.
Proof.
  unfold GetBit. revert i. induction b as [|x b IH]; intros i.
  - done.
  - cbn [key_bits]. destruct (decide (i < 8)).
    + rewrite lookup_app_l by done. rewrite Nat.mod_small, Nat.sub_diag by lia.
      change ((x :: b) !! (0 / 8)%nat) with (Some x).
      unfold byte_bits. by rewrite list_lookup_fmap, lookup_seq_lt.
    + rewrite lookup_app_r by (rewrite byte_bits_length; lia). rewrite byte_bits_length.
      rewrite <- IH.
      assert (Hm : i mod 8 = (i - 8) mod 8).
      { replace i with (i - 8 + 1 * 8) at 1 by lia. apply Nat.Div0.mod_add. }
      assert (Hq : (i - i mod 8) / 8 = S ((i - 8 - (i - 8) mod 8) / 8)).
      { rewrite Hm. pose proof (Nat.div_mod_eq (i - 8) 8).
        replace (i - (i - 8) mod 8) with (i - 8 - (i - 8) mod 8 + 1 * 8)
          by (pose proof (Nat.Div0.mod_le (i - 8) 8); lia).
        rewrite Nat.div_add by lia. lia. }
      rewrite Hq, Hm. done.
Qed.

Lemma GetBit_ok b i : i < 8 * length b → ∃ x, GetBit b i = Ret x ∧ key_bits b !! i = Some x.
Proof.
  intros Hi. rewrite <- key_bits_length in Hi. apply lookup_lt_is_Some in Hi as [x Hx].
  exists x. by rewrite GetBit_lookup, Hx.
Qed.

(** [NextPowerOfTwo]: the least [e] with [1 << e >= n].  The shift is on [uint64]
    and gives 0 from [e = 64] on, so for [n > 2^63] the loop of the code does
    not end; that is [None]. *)
Fixpoint NextPowerOfTwo_loop (fuel : nat) (n : Z) (e : nat) : option nat :=
  match fuel with
  | O => None
  | S fuel =>
      if bool_decide (u64 (Z.shiftl 1 (Z.of_nat e)) < n)%Z
      then NextPowerOfTwo_loop fuel n (S e)
      else Some e
  end.

Definition NextPowerOfTwo (n : Z) : option nat := NextPowerOfTwo_loop 64 n 0.

(** [KeyHashFromPkScript]: the program of a version 0 P2WPKH or P2WSH script. *)
Definition KeyHashFromPkScript (pkscript : bytes) : option bytes :=
  if bool_decide (length pkscript = 22 ∧ take 2 pkscript = [x00; x14])
  then Some (drop 2 pkscript)
  else if bool_decide (length pkscript = 34 ∧ take 2 pkscript = [x00; x20])
  then Some (drop 2 pkscript)
  else None.

(** The constant of [init]: every chain of commitments starts with it. *)
Definition MaidenHash : bytes :=
  [x52;x3e;x59;xcf;xc5;x23;x5b;x91;x5d;xc8;x9d;xe1;x88;xd8;x74;x49;
   x45;x3b;x08;x3a;x8b;x7d;x97;xc1;xee;x64;xd8;x75;xda;x40;x33;x61].
