(* ===== verification/MerkleTheorems.v ===== *)
(** * Correctness of Merkle trees and inclusion proofs *)

From Stdlib Require Import ZArith Lia.
From S2P Require Import Prelude Buffers Sha256 Crypto Utils MerkleTree.

(** ** Integers *)

Lemma lor_pow2 a h : (0 ≤ a < 2 ^ Z.of_nat h)%Z → Z.lor a (2 ^ Z.of_nat h) = (a + 2 ^ Z.of_nat h)%Z.
Proof.
  intros Ha. pose proof (Z.add_lor_land a (2 ^ Z.of_nat h)) as Hadd.
  assert (Z.land a (2 ^ Z.of_nat h) = 0)%Z; [|lia].
  apply Z.bits_inj'. intros k Hk. rewrite Z.land_spec, Z.bits_0.
  destruct (decide (k = Z.of_nat h)) as [->|].
  - rewrite <- (Z.mod_small a (2 ^ Z.of_nat h)) by lia. by rewrite Z.mod_pow2_bits_high by lia.
  - rewrite Z.pow2_bits_false by lia. apply andb_false_r.
Qed.

Lemma lxor_even n : Z.lxor (2 * n) 1 = (2 * n + 1)%Z.
Proof.
  rewrite <- Z.add_nocarry_lxor; [done|]. apply Z.bits_inj'. intros k Hk.
  rewrite Z.land_spec, Z.bits_0. destruct (decide (k = 0)%Z) as [->|].
  - by rewrite Z.testbit_even_0.
  - change 1%Z with (2 ^ 0)%Z. rewrite Z.pow2_bits_false by lia. apply andb_false_r.
Qed.

Lemma lxor_odd n : Z.lxor (2 * n + 1) 1 = (2 * n)%Z.
Proof. rewrite <- lxor_even, Z.lxor_assoc, Z.lxor_nilpotent. apply Z.lxor_0_r. Qed.

Lemma land_even n : Z.land (2 * n) 1 = 0%Z.
Proof. change 1%Z with (Z.ones 1). rewrite Z.land_ones by lia. rewrite Z.mul_comm. by apply Z.mod_mul. Qed.

Lemma land_odd n : Z.land (2 * n + 1) 1 = 1%Z.
Proof.
  change 1%Z with (Z.ones 1) at 2. rewrite Z.land_ones by lia.
  rewrite Z.add_comm, Z.mul_comm. by rewrite Z.mod_add.
Qed.

(** The index of the parent. *)
Lemma next_idx_spec h idx :
  h < 63 → (0 ≤ idx < 2 * 2 ^ Z.of_nat h)%Z → next_idx h idx = (idx / 2 + 2 ^ Z.of_nat h)%Z.
Proof.
  intros Hh Hi. unfold next_idx. rewrite Z.shiftl_1_l, (Z.shiftr_div_pow2 idx 1) by lia.
  unfold u64. rewrite (Z.mod_small (2 ^ Z.of_nat h)).
  - apply lor_pow2. change (2 ^ 1)%Z with 2%Z. split; [by apply Z.div_pos; lia|].
    apply Z.div_lt_upper_bound; lia.
  - split; [lia|]. apply Z.pow_lt_mono_r; lia.
Qed.

(** ** Sizes *)

Lemma land_pred_pow2 n : (0 < n)%Z → Z.land n (n - 1) = 0%Z → n = (2 ^ Z.log2 n)%Z.
Proof.
  intros Hn Hl. destruct (Z.log2_spec_alt n Hn) as (r & Er & Hr). set (k := Z.log2 n) in *.
  pose proof (Z.log2_nonneg n) as Hk. fold k in Hk.
  destruct (decide (r = 0)%Z) as [->|]; [lia|]. exfalso.
  assert (Hb : ∀ m, (0 ≤ m < 2 ^ k)%Z → Z.testbit (2 ^ k + m) k = true).
  { intros m Hm. rewrite Z.testbit_true by lia.
    replace (2 ^ k + m)%Z with (m + 1 * 2 ^ k)%Z by lia. rewrite Z.div_add by lia.
    by rewrite Z.div_small by lia. }
  apply (f_equal (λ z, Z.testbit z k)) in Hl. rewrite Z.land_spec, Z.bits_0 in Hl.
  rewrite Er in Hl. replace (2 ^ k + r - 1)%Z with (2 ^ k + (r - 1))%Z in Hl by lia.
  rewrite !Hb in Hl by lia. done.
Qed.

Lemma nextPowerOfTwo_spec n b :
  (0 < n < 2 ^ b)%Z → (0 ≤ b)%Z →
  ∃ h, nextPowerOfTwo n = (2 ^ Z.of_nat h)%Z ∧ (n ≤ 2 ^ Z.of_nat h)%Z ∧ (Z.of_nat h ≤ b)%Z.
Proof.
  intros Hn Hb. pose proof (Z.log2_nonneg n) as Hk. pose proof (Z.log2_spec n ltac:(lia)) as Hs.
  assert (Z.log2 n < b)%Z by (apply Z.log2_lt_pow2; lia).
  unfold nextPowerOfTwo. case_bool_decide as Hl.
  - apply land_pred_pow2 in Hl; [|lia]. exists (Z.to_nat (Z.log2 n)).
    rewrite Z2Nat.id by lia. split; [done|]. split; [rewrite <- Hl; lia|lia].
  - exists (Z.to_nat (Z.log2 n + 1)). rewrite Z2Nat.id, Z.shiftl_1_l by lia.
    split; [done|]. split; [|lia]. rewrite Z.add_1_r. lia.
Qed.

Lemma calcTreeHeight_pow2 h : h < 63 → calcTreeHeight (2 ^ Z.of_nat h) = h.
Proof.
  intros Hh. unfold calcTreeHeight.
  assert (Hg : ∀ fuel e, e ≤ h → h - e < fuel →
    calcTreeHeight_loop fuel (2 ^ Z.of_nat h) e = h).
  { induction fuel as [|fuel IH]; intros e He Hf; [lia|]. simpl.
    rewrite Z.shiftl_1_l. unfold u64. rewrite Z.mod_small by (split; [lia|apply Z.pow_lt_mono_r; lia]).
    case_bool_decide as Hlt.
    - apply Z.pow_lt_mono_r_iff in Hlt; [|lia..]. apply IH; lia.
    - assert (¬ Z.of_nat e < Z.of_nat h)%Z by (intros H1; apply Hlt, Z.pow_lt_mono_r; lia). lia. }
  apply Hg; lia.
Qed.

(** ** Levels *)

Section Levels.
Context `{HashFunction}.

Fixpoint pair_up (l : list (option bytes)) : list (option bytes) :=
  match l with
  | a :: b :: l => parent a b :: pair_up l
  | _ => []
  end.

(** The array of a tree of height [h] over the level [l]. *)
Fixpoint levels (h : nat) (l : list (option bytes)) : list (option bytes) :=
  match h with
  | O => l
  | S h => l ++ levels h (pair_up l)
  end.

Lemma pair_up_length l k : length l = 2 * k → length (pair_up l) = k.
Proof.
  revert l. induction k as [|k IH]; intros l Hl.
  - by destruct l.
  - destruct l as [|a [|b l]]; simpl in Hl; [lia..|]. simpl. f_equal. apply IH. lia.
Qed.

Lemma pair_up_lookup l j a b :
  l !! (2 * j) = Some a → l !! (2 * j + 1) = Some b → pair_up l !! j = Some (parent a b).
Proof.
  revert l. induction j as [|j IH]; intros l Ha Hb.
  - destruct l as [|x [|y l]]; try done. simpl in *. congruence.
  - replace (2 * S j) with (S (S (2 * j))) in Ha by lia.
    replace (2 * S j + 1) with (S (S (2 * j + 1))) in Hb by lia.
    destruct l as [|x [|y l]]; try done. simpl in Ha, Hb |- *. by apply IH.
Qed.

Lemma levels_length h l : length l = 2 ^ h → length (levels h l) = 2 * 2 ^ h - 1.
Proof.
  revert l. induction h as [|h IH]; intros l Hl; simpl in *; [done|].
  rewrite length_app, IH by (apply pair_up_length; lia). pose proof (Nat.pow_nonzero 2 h). lia.
Qed.

(** The loop as a queue: it appends parents to the array so far. *)
Fixpoint grow (n i : nat) (a : list (option bytes)) : list (option bytes) :=
  match n with
  | O => a
  | S n => grow n (i + 2) (a ++ [parent (default None (a !! i)) (default None (a !! (i + 1)))])
  end.

Lemma lookup_padded (a : list (option bytes)) k i :
  default None ((a ++ replicate k None) !! i) = default None (a !! i).
Proof.
  destruct (decide (i < length a)).
  - by rewrite lookup_app_l.
  - rewrite lookup_app_r, (lookup_ge_None_2 a i) by lia.
    destruct (replicate k None !! (i - length a)) eqn:E; [|done].
    by apply lookup_replicate in E as [-> _].
Qed.

Lemma build_loop_grow n i a k :
  n ≤ k → build_loop n i (length a) (a ++ replicate k None) = grow n i a ++ replicate (k - n) None.
Proof.
  revert i a k. induction n as [|n IH]; intros i a k Hn; simpl.
  - by rewrite Nat.sub_0_r.
  - rewrite !lookup_padded. destruct k as [|k]; [lia|].
    set (x := parent _ _).
    assert (E : <[length a := x]> (a ++ replicate (S k) None) = (a ++ [x]) ++ replicate k None).
    { rewrite insert_app_r_alt, Nat.sub_diag by lia. simpl. by rewrite <- app_assoc. }
    rewrite E. replace (length a + 1) with (length (a ++ [x])) by (rewrite length_app; simpl; lia).
    rewrite IH by lia. done.
Qed.

Lemma grow_level k n p l q :
  length l = 2 * k →
  grow (k + n) (length p) (p ++ l ++ q) = grow n (length p + 2 * k) (p ++ l ++ q ++ pair_up l).
Proof.
  revert p l q. induction k as [|k IH]; intros p l q Hl.
  - destruct l; [|done]. simpl. by rewrite Nat.add_0_r, app_nil_r.
  - destruct l as [|a [|b l]]; simpl in Hl; [lia..|].
    change (S k + n) with (S (k + n)). cbn [grow].
    assert (E1 : (p ++ (a :: b :: l) ++ q) !! length p = Some a).
    { by rewrite lookup_app_r, Nat.sub_diag by lia. }
    assert (E2 : (p ++ (a :: b :: l) ++ q) !! (length p + 1) = Some b).
    { rewrite lookup_app_r by lia. by replace (length p + 1 - length p) with 1 by lia. }
    rewrite E1, E2. cbn [default].
    replace ((p ++ (a :: b :: l) ++ q) ++ [parent a b]) with ((p ++ [a; b]) ++ l ++ (q ++ [parent a b]))
      by (rewrite <- !app_assoc; done).
    replace (length p + 2) with (length (p ++ [a; b])) by (rewrite length_app; done).
    rewrite IH by lia. cbn [pair_up]. f_equal; [rewrite length_app; simpl; lia|].
    rewrite <- !app_assoc. done.
Qed.

Lemma grow_levels h p l :
  length l = 2 ^ h → grow (2 ^ h - 1) (length p) (p ++ l) = p ++ levels h l.
Proof.
  revert p l. induction h as [|h IH]; intros p l Hl; [done|].
  pose proof (Nat.pow_nonzero 2 h). simpl in Hl.
  replace (2 ^ S h - 1) with (2 ^ h + (2 ^ h - 1)) by (simpl; lia).
  pose proof (grow_level (2 ^ h) (2 ^ h - 1) p l []) as Hg. rewrite app_nil_r in Hg. rewrite Hg by lia.
  rewrite app_nil_l, app_assoc. replace (length p + 2 * 2 ^ h) with (length (p ++ l)) by (rewrite length_app; lia).
  rewrite IH by (apply pair_up_length; lia). simpl. by rewrite <- app_assoc.
Qed.

(** The array [BuildMerkleTreeStore] returns. *)
Lemma build_levels h l n :
  length l = n → n ≤ 2 ^ h →
  build_loop ((2 * 2 ^ h - 1) / 2) 0 (2 ^ h) (go_copy (replicate (2 * 2 ^ h - 1) None) l)
    = levels h (l ++ replicate (2 ^ h - n) None).
Proof.
  intros Hl Hn. pose proof (Nat.pow_nonzero 2 h).
  assert (E : go_copy (replicate (2 * 2 ^ h - 1) None) l
    = (l ++ replicate (2 ^ h - n) None) ++ replicate (2 ^ h - 1) None).
  { unfold go_copy. rewrite length_replicate, take_ge by lia. rewrite drop_replicate, <- app_assoc.
    f_equal. rewrite <- replicate_add. f_equal. lia. }
  rewrite E. replace ((2 * 2 ^ h - 1) / 2) with (2 ^ h - 1).
  2: { replace (2 * 2 ^ h - 1) with (1 + (2 ^ h - 1) * 2) by lia. by rewrite Nat.div_add by lia. }
  assert (Hlen : length (l ++ replicate (2 ^ h - n) None) = 2 ^ h).
  { rewrite length_app, length_replicate. lia. }
  rewrite <- Hlen at 2. rewrite build_loop_grow by done.
  rewrite Nat.sub_diag, app_nil_r. by apply (grow_levels h []).
Qed.

(** *** Occupied positions *)

(** The occupied positions of a level come first. *)
Definition packed (l : list (option bytes)) : Prop :=
  ∀ i j y, i ≤ j → l !! j = Some (Some y) → ∃ x, l !! i = Some (Some x).

Lemma packed_padded (l : list bytes) k : packed (map Some l ++ replicate k None).
Proof.
  intros i j y Hij Hj. apply lookup_app_Some in Hj as [Hj|[_ Hj]].
  - rewrite list_lookup_fmap in Hj. destruct (l !! j) as [z|] eqn:E; [|done].
    assert (i < length l) as Hi by (apply lookup_lt_Some in E; lia).
    apply lookup_lt_is_Some in Hi as [x Hx]. exists x.
    rewrite lookup_app_l by (rewrite length_map; apply lookup_lt_Some in Hx; lia).
    by rewrite list_lookup_fmap, Hx.
  - by apply lookup_replicate in Hj as [? _].
Qed.

Lemma pair_up_lookup_inv l j p :
  pair_up l !! j = Some p →
  ∃ a b, l !! (2 * j) = Some a ∧ l !! (2 * j + 1) = Some b ∧ p = parent a b.
Proof.
  revert l. induction j as [|j IH]; intros l Hp; destruct l as [|a [|b l]]; try done; simpl in Hp.
  - injection Hp as <-. by exists a, b.
  - apply IH in Hp. replace (2 * S j) with (S (S (2 * j))) by lia.
    by replace (S (S (2 * j)) + 1) with (S (S (2 * j + 1))) by lia.
Qed.

Lemma packed_pair_up l : packed l → packed (pair_up l).
Proof.
  intros Hl i j y Hij Hj. apply pair_up_lookup_inv in Hj as (a & b & Ha & Hb & Hp).
  destruct a as [a|]; [|done].
  destruct (Hl (2 * i) (2 * j) a) as [x Hx]; [lia|done|].
  destruct (l !! (2 * i + 1)) as [z|] eqn:Ez.
  - rewrite (pair_up_lookup l i _ _ Hx Ez). destruct z; simpl; eauto.
  - apply lookup_ge_None in Ez. apply lookup_lt_Some in Hb. lia.
Qed.

(** ** Proofs from the array *)

Lemma HashMerkleBranches_eq l r :
  length l = 32 → length r = 32 → HashMerkleBranches l r = DoubleHashH (l ++ r).
Proof.
  intros Hl Hr. unfold HashMerkleBranches, go_copy, HashSize. rewrite length_zeros.
  rewrite take_app_le, (take_ge l) by (rewrite ?length_take; lia).
  rewrite (take_ge l), drop_app_ge by lia. rewrite Hl.
  rewrite length_drop, length_drop, length_zeros. rewrite take_ge by lia.
  rewrite (drop_ge _ (length r)) by (rewrite !length_drop, length_zeros; lia).
  by rewrite app_nil_r.
Qed.

(** All hashes of a level have 32 bytes. *)
Definition hash_level (l : list (option bytes)) : Prop := ∀ i x, l !! i = Some (Some x) → length x = 32.

Lemma parent_length a b x : parent a b = Some x → length x = 32.
Proof. destruct a, b; simpl; intros [= <-]; apply DoubleHashH_length. Qed.

Lemma hash_level_pair_up l : hash_level (pair_up l).
Proof.
  intros i x Hx. apply pair_up_lookup_inv in Hx as (a & b & _ & _ & Hp).
  symmetry in Hp. by apply parent_length in Hp.
Qed.

Lemma tree_at_middle p l q (i : nat) v :
  l !! i = Some v → tree_at (p ++ l ++ q) (Z.of_nat (length p + i)) = Ret v.
Proof.
  intros Hv. unfold tree_at. rewrite Nat2Z.id, lookup_app_r by lia.
  replace (length p + i - length p) with i by lia.
  rewrite lookup_app_l by (by eapply lookup_lt_Some). by rewrite Hv.
Qed.

(** One step up: the sibling found, and the parent's value. *)
Lemma sibling_step p l q e j b x :
  length p = 2 * e → length l `mod` 2 = 0 → packed l → hash_level l →
  (b ≤ 1) → l !! (2 * j + b) = Some (Some x) →
  ∃ s, (sib ← tree_at (p ++ l ++ q) (Z.lxor (Z.of_nat (length p + (2 * j + b))) 1);
        match sib with
        | None => tree_at (p ++ l ++ q) (Z.of_nat (length p + (2 * j + b)))
        | Some _ => mret sib
        end) = Ret (Some s) ∧ length s = 32 ∧
    pair_up l !! j = Some (Some (if bool_decide (Z.land (Z.of_nat (length p + (2 * j + b))) 1 = 1)%Z
                                 then DoubleHashH (s ++ x) else DoubleHashH (x ++ s))).
Proof.
  intros Hp Hev Hpk Hlen Hb Hx. assert (b = 0 ∨ b = 1) as [->| ->] by lia.
  - replace (Z.of_nat (length p + (2 * j + 0))) with (2 * Z.of_nat (e + j))%Z by lia.
    rewrite lxor_even, land_even, bool_decide_eq_false_2 by done.
    assert (is_Some (l !! (2 * j + 1))) as [s Hs].
    { apply lookup_lt_is_Some. apply lookup_lt_Some in Hx.
      pose proof (Nat.div_mod_eq (length l) 2). lia. }
    rewrite Nat.add_0_r in Hx.
    replace (2 * Z.of_nat (e + j) + 1)%Z with (Z.of_nat (length p + (2 * j + 1))) by lia.
    rewrite (tree_at_middle p l q _ s Hs). rewrite (pair_up_lookup l j _ _ Hx Hs). cbn. destruct s as [s|].
    + exists s. rewrite <- HashMerkleBranches_eq by eauto. eauto.
    + exists x. replace (2 * Z.of_nat (e + j))%Z with (Z.of_nat (length p + 2 * j)) by lia.
      rewrite (tree_at_middle p l q _ _ Hx). rewrite <- HashMerkleBranches_eq by eauto. eauto.
  - replace (Z.of_nat (length p + (2 * j + 1))) with (2 * Z.of_nat (e + j) + 1)%Z by lia.
    rewrite lxor_odd, land_odd, bool_decide_eq_true_2 by done.
    destruct (Hpk (2 * j) (2 * j + 1) x) as [s Hs]; [lia|done|].
    replace (2 * Z.of_nat (e + j))%Z with (Z.of_nat (length p + 2 * j)) by lia.
    rewrite (tree_at_middle p l q _ _ Hs), (pair_up_lookup l j _ _ Hs Hx). cbn. exists s.
    rewrite <- HashMerkleBranches_eq by eauto. eauto.
Qed.

(** A hash in a proof has 32 bytes. *)
Definition hash_ok (s : option bytes) : Prop := ∀ y, s = Some y → length y = 32.

(** From any level to the root: [k] levels are left of a tree of height [h]. *)
Lemma proof_loop_spec h k p l i x :
  h < 63 → k ≤ h → length l = 2 ^ k → length p = 2 * 2 ^ h - 2 * 2 ^ k →
  packed l → hash_level l → l !! i = Some (Some x) →
  ∃ hs root, proof_loop k h (p ++ levels k l) (Z.of_nat (length p + i)) = Ret hs ∧
    length hs = k ∧ Forall hash_ok hs ∧ check_loop hs h (Z.of_nat (length p + i)) x = Ret root ∧
    last (levels k l) = Some (Some root).
Proof.
  intros Hh. revert p l i x. induction k as [|k IH]; intros p l i x Hk Hl Hp Hpk Hlen Hx.
  - exists [], x. simpl in Hl. destruct l as [|a [|b l]]; try done. by destruct i; [injection Hx as ->|done].
  - pose proof (Nat.pow_nonzero 2 k). assert (2 ^ S k ≤ 2 ^ h) by (apply Nat.pow_le_mono_r; lia).
    simpl in Hl, Hp, H1.
    set (j := i / 2). set (b := i mod 2).
    assert (Ei : i = 2 * j + b) by apply Nat.div_mod_eq.
    assert (b ≤ 1) by (pose proof (Nat.mod_upper_bound i 2); unfold b; lia).
    destruct (sibling_step p l (levels k (pair_up l)) (2 ^ h - 2 * 2 ^ k) j b x) as (s & Hs & Hsl & Hj); auto; [lia| |by rewrite <- Ei|].
    { rewrite Hl. replace (2 ^ k + (2 ^ k + 0)) with (0 + 2 ^ k * 2) by lia. by rewrite Nat.Div0.mod_add. }
    rewrite <- Ei in Hs, Hj.
    assert (Hi : i < 2 * 2 ^ k) by (apply lookup_lt_Some in Hx; lia).
    assert (Hpow : (2 ^ Z.of_nat h)%Z = Z.of_nat (2 ^ h)) by (by rewrite Nat2Z.inj_pow).
    assert (Hnext : next_idx h (Z.of_nat (length p + i)) = Z.of_nat (length (p ++ l) + j)).
    { rewrite next_idx_spec by lia. rewrite Hpow, length_app.
      replace (Z.of_nat (length p + i)) with (Z.of_nat b + Z.of_nat (2 ^ h - 2 * 2 ^ k + j) * 2)%Z by lia.
      rewrite Z.div_add by lia. rewrite Z.div_small by lia. lia. }
    destruct (IH (p ++ l) (pair_up l) j (if bool_decide (Z.land (Z.of_nat (length p + i)) 1 = 1)%Z
                                 then DoubleHashH (s ++ x) else DoubleHashH (x ++ s)))
      as (hs & root & Hpl & Hn & Hok & Hc & Hlast); auto using packed_pair_up, hash_level_pair_up.
    { lia. } { apply pair_up_length. lia. } { rewrite length_app. lia. }
    exists (Some s :: hs), root. cbn [proof_loop levels].
    split.
    { destruct (tree_at (p ++ l ++ levels k (pair_up l)) (Z.lxor (Z.of_nat (length p + i)) 1)) as [sib| |]; try done.
      cbn [mbind outcome_bind] in Hs |- *. rewrite Hs. cbn [mbind outcome_bind].
      rewrite Hnext, app_assoc, Hpl. done. }
    split; [simpl; lia|]. split; [constructor; [intros ? [= <-]|]; done|].
    split; [cbn [check_loop]; by rewrite Hnext|].
    rewrite last_app, Hlast. done.
Qed.

(** ** Two proofs for one position *)

(** The messages hashed by [Check]. *)
Fixpoint check_messages (hs : list (option bytes)) (h : nat) (idx : Z) (hash : bytes) : list bytes :=
  match hs with
  | Some s :: hs =>
      let m := if bool_decide (Z.land idx 1 = 1)%Z then s ++ hash else hash ++ s in
      m :: check_messages hs h (next_idx h idx) (DoubleHashH m)
  | _ => []
  end.

(** Two different messages with one double hash. *)
Definition double_collides (a b : bytes) : Prop := a ≠ b ∧ DoubleHashH a = DoubleHashH b.

Definition paths_collide (m m' : list bytes) : Prop :=
  ∃ k a b, m !! k = Some a ∧ m' !! k = Some b ∧ double_collides a b.

Lemma check_loop_inj h idx hs hs' x x' root :
  length hs = length hs' → length x = 32 → length x' = 32 →
  Forall hash_ok hs → Forall hash_ok hs' →
  check_loop hs h idx x = Ret root → check_loop hs' h idx x' = Ret root →
  x = x' ∨ paths_collide (check_messages hs h idx x) (check_messages hs' h idx x').
Proof.
  revert hs' idx x x'. induction hs as [|s hs IH]; intros hs' idx x x' Hl Hx Hx' Hh Hh' Hc Hc';
    destruct hs' as [|s' hs']; try done.
  - left. injection Hc as ->. by injection Hc' as ->.
  - destruct s as [s|], s' as [s'|]; try done. cbn [check_loop check_messages] in *.
    inversion_clear Hh as [|? ? Hs Hh1]. inversion_clear Hh' as [|? ? Hs' Hh1'].
    specialize (Hs _ eq_refl). specialize (Hs' _ eq_refl).
    set (m := if bool_decide (Z.land idx 1 = 1)%Z then s ++ x else x ++ s).
    set (m' := if bool_decide (Z.land idx 1 = 1)%Z then s' ++ x' else x' ++ s').
    assert (Em : DoubleHashH m = if bool_decide (Z.land idx 1 = 1)%Z then DoubleHashH (s ++ x) else DoubleHashH (x ++ s))
      by (unfold m; by case_match).
    assert (Em' : DoubleHashH m' = if bool_decide (Z.land idx 1 = 1)%Z then DoubleHashH (s' ++ x') else DoubleHashH (x' ++ s'))
      by (unfold m'; by case_match).
    rewrite <- Em in Hc. rewrite <- Em' in Hc'. injection Hl as Hl.
    destruct (IH hs' (next_idx h idx) (DoubleHashH m) (DoubleHashH m')) as [Heq|(k & a & b & Ha & Hb & Hab)];
      auto using DoubleHashH_length.
    + destruct (decide (m = m')) as [Emm|Hne].
      * left. unfold m, m' in Emm. case_bool_decide; apply app_inj_length in Emm; try congruence; tauto.
      * right. by exists 0, m, m'.
    + right. by exists (S k), a, b.
Qed.
End Levels.

(** ** Claims *)

Section Claims.
Context `{HashFunction}.

(** The hashes of the transactions as the tree uses them. *)
Definition base_hashes (witness : bool) (txs : list Tx) : list bytes :=
  imap (λ i tx, base_hash witness i tx) txs.

Lemma build_spec txs witness :
  txs ≠ [] → (len txs < 2 ^ 40)%Z →
  ∃ h, h < 41 ∧ length txs ≤ 2 ^ h ∧
    BuildMerkleTreeStore txs witness
      = Ret (levels h (map Some (base_hashes witness txs) ++ replicate (2 ^ h - length txs) None)).
Proof.
  intros Hne Hlt.
  assert (0 < len txs)%Z by (destruct txs; [done|unfold len; simpl; lia]).
  destruct (nextPowerOfTwo_spec (len txs) 40) as (h & Eh & Hle & Hh); [lia..|].
  assert (Hpow : (2 ^ Z.of_nat h)%Z = Z.of_nat (2 ^ h)) by (by rewrite Nat2Z.inj_pow).
  pose proof (Nat.pow_nonzero 2 h).
  exists h. split; [lia|]. split; [unfold len in Hle; lia|].
  unfold BuildMerkleTreeStore. rewrite Eh, bool_decide_eq_false_2 by lia.
  replace (Z.to_nat (2 ^ Z.of_nat h * 2 - 1)) with (2 * 2 ^ h - 1) by lia.
  replace (Z.to_nat (2 ^ Z.of_nat h)) with (2 ^ h) by lia.
  assert (E : imap (λ i tx, Some (base_hash witness i tx)) txs = map Some (base_hashes witness txs)).
  { unfold base_hashes. symmetry. apply fmap_imap. }
  rewrite E. rewrite (build_levels h _ (length txs)); [done| |unfold len in Hle; lia].
  rewrite length_map. unfold base_hashes. by rewrite length_imap.
Qed.

Lemma merkle_check_honest txs witness (idx : nat) x :
  (len txs < 2 ^ 40)%Z → base_hashes witness txs !! idx = Some x →
  Forall (λ y, length y = 32) (base_hashes witness txs) →
  ∃ tree root p, BuildMerkleTreeStore txs witness = Ret tree ∧ last tree = Some (Some root) ∧
    NewMerkleProof tree (Z.of_nat idx) = Ret p ∧ Position p = Z.of_nat idx ∧
    Forall hash_ok (Hashes p) ∧
    check_loop (Hashes p) (length (Hashes p)) (Position p) x = Ret root.
Proof.
  intros Hlt Hx Hlens. assert (idx < length txs) as Hidx.
  { apply lookup_lt_Some in Hx. unfold base_hashes in Hx. by rewrite length_imap in Hx. }
  destruct (build_spec txs witness) as (h & Hh & Hle & Hb); [by destruct txs; [simpl in Hidx; lia|]|done|].
  set (l := map Some (base_hashes witness txs) ++ replicate (2 ^ h - length txs) None) in *.
  assert (Hll : length l = 2 ^ h).
  { unfold l, base_hashes. rewrite length_app, length_map, length_imap, length_replicate. lia. }
  destruct (proof_loop_spec h h [] l idx x) as (hs & root & Hp & Hn & Hok & Hc & Hlast); auto; [lia|simpl; lia| | | |].
  { apply packed_padded. }
  { intros i y Hy. unfold l in Hy. apply lookup_app_Some in Hy as [Hy|[_ Hy]].
    - rewrite list_lookup_fmap in Hy. destruct (base_hashes witness txs !! i) eqn:E; [|done].
      injection Hy as <-. exact (Forall_lookup_1 _ _ _ _ Hlens E).
    - by apply lookup_replicate in Hy as [? _]. }
  { unfold l. rewrite lookup_app_l by (rewrite length_map; by eapply lookup_lt_Some).
    by rewrite list_lookup_fmap, Hx. }
  simpl in Hp, Hc. exists (levels h l), root, (MkMerkleProof (Z.of_nat idx) hs).
  split; [done|]. split; [done|]. split; [|by simpl; rewrite Hn].
  unfold NewMerkleProof.
  assert (E : calcTreeHeight ((len (levels h l) + 1) / 2) = h).
  { unfold len. rewrite (levels_length h l Hll). pose proof (Nat.pow_nonzero 2 h).
    replace (Z.of_nat (2 * 2 ^ h - 1) + 1)%Z with (Z.of_nat (2 ^ h) * 2)%Z by lia.
    rewrite Z.div_mul by lia. rewrite Nat2Z.inj_pow. apply calcTreeHeight_pow2. lia. }
  rewrite E, Hp. done.
Qed.

(** Inclusion proofs are complete. For a block of fewer than 2^40 transactions with
    32-byte hashes, the proof made from its Merkle tree for any transaction
    is made without a panic and [Check] accepts it with the tree's root,
    for the plain and for the witness tree. *)
Theorem merkle_proof_complete (txs : list Tx) (witness : bool) (idx : nat) (x : bytes)
  (Hlt : (len txs < 2 ^ 40)%Z) (Hx : base_hashes witness txs !! idx = Some x)
  (Hlens : Forall (λ y, length y = 32) (base_hashes witness txs)) :
  ∃ tree root p, BuildMerkleTreeStore txs witness = Ret tree ∧ last tree = Some (Some root) ∧
    NewMerkleProof tree (Z.of_nat idx) = Ret p ∧ MerkleProof_Check p x root = Ret true.
Proof.
  destruct (merkle_check_honest txs witness idx x Hlt Hx Hlens) as (tree & root & p & Hb & Hl & Hp & _ & _ & Hc).
  exists tree, root, p. repeat (split; [done|]). unfold MerkleProof_Check. rewrite Hc.
  cbn. by rewrite bytes_eqb_refl.
Qed.

(** C15. Inclusion proofs are sound. A proof of the same position and length as the
    block's own proof for transaction [idx], with 32-byte hashes, that
    [Check] accepts for a 32-byte hash [y] and the block's root, is for that
    transaction's hash, unless the messages hashed by the two checks collide
    at some step. *)
Theorem merkle_proof_sound (txs : list Tx) (witness : bool) (idx : nat) (x y : bytes)
  (tree : list (option bytes)) (root : bytes) (p q : MerkleProof)
  (Hlt : (len txs < 2 ^ 40)%Z) (Hx : base_hashes witness txs !! idx = Some x)
  (Hlens : Forall (λ z, length z = 32) (base_hashes witness txs))
  (Hb : BuildMerkleTreeStore txs witness = Ret tree) (Hr : last tree = Some (Some root))
  (Hp : NewMerkleProof tree (Z.of_nat idx) = Ret p)
  (Hpos : Position q = Z.of_nat idx) (Hlen : length (Hashes q) = length (Hashes p))
  (Hqh : Forall hash_ok (Hashes q)) (Hy : length y = 32)
  (Hc : MerkleProof_Check q y root = Ret true) :
  y = x ∨ paths_collide (check_messages (Hashes q) (length (Hashes q)) (Position q) y)
                        (check_messages (Hashes p) (length (Hashes p)) (Position p) x).
Proof.
  destruct (merkle_check_honest txs witness idx x Hlt Hx Hlens) as (tree' & root' & p' & Hb' & Hl' & Hp' & Hpos' & Hph & Hc').
  rewrite Hb in Hb'. injection Hb' as <-. rewrite Hr in Hl'. injection Hl' as <-.
  rewrite Hp in Hp'. injection Hp' as <-.
  unfold MerkleProof_Check in Hc. apply bind_Ret_inv in Hc as (r & Hq & Hc). injection Hc as Hc.
  apply bytes_eqb_true in Hc as ->. rewrite Hpos, Hpos', Hlen in *.
  apply (check_loop_inj _ _ _ _ _ _ root); auto. by eapply (Forall_lookup_1 _ _ _ _ Hlens).
Qed.
End Claims.

(** ** Serialization *)

Definition proof_ok (m : MerkleProof) : Prop :=
  (0 ≤ Position m < 2 ^ 64)%Z ∧ Forall (λ s, ∃ h, s = Some h ∧ length h = 32) (Hashes m).

Lemma hashes_bytes_spec hs :
  Forall (λ s, ∃ h, s = Some h ∧ length h = 32) hs →
  ∃ b, hashes_bytes hs = Ret b ∧ length b = 32 * length hs ∧
    ∀ fuel, length hs < fuel → hashes_from_bytes fuel b = hs.
Proof.
  induction 1 as [|s hs (h & -> & Hh) Hhs (b & Hb & Hl & Hf)].
  - exists []. repeat split; auto. intros fuel Hfuel. by destruct fuel.
  - exists (h ++ b). simpl. rewrite Hb. split; [done|]. rewrite length_app.
    split; [lia|]. intros fuel Hfuel. destruct fuel as [|fuel]; [lia|]. cbn [hashes_from_bytes].
    rewrite bool_decide_eq_false_2 by (rewrite length_app; lia). rewrite next_app' by done.
    unfold NewHash, SetBytes. rewrite bool_decide_eq_false_2 by (intros Hn; by apply Hn).
    cbn. f_equal. apply Hf. lia.
Qed.

Lemma MerkleProof_roundtrip m :
  proof_ok m → ∃ b, MerkleProof_Bytes m = Ret b ∧ length b = 8 + 32 * length (Hashes m) ∧
    NewMerkleProofFromBytes b = m.
Proof.
  intros [Hp Hh]. destruct (hashes_bytes_spec _ Hh) as (b & Hb & Hl & Hf).
  exists (put_be_64 (Position m) ++ b). unfold MerkleProof_Bytes. rewrite Hb. split; [done|].
  split; [rewrite length_app, Hl; by rewrite put_be_64_length|].
  unfold NewMerkleProofFromBytes. rewrite read_be_u64_put. unfold u64. rewrite Z.mod_small by lia.
  destruct m as [pos hs]. simpl in *. f_equal. destruct hs as [|h hs].
  - by destruct b.
  - apply Hf. rewrite Hl. simpl. lia.
Qed.

(** ** Instances *)

Definition sample_txs : list Tx :=
  [MkTx (replicate 32 x01) (replicate 32 x11); MkTx (replicate 32 x02) (replicate 32 x12);
   MkTx (replicate 32 x03) (replicate 32 x13)].

Lemma sample_lens w : Forall (λ z, length z = 32) (base_hashes w sample_txs).
Proof. destruct w; repeat constructor. Qed.

Definition sample_tree : list (option bytes) :=
  match BuildMerkleTreeStore sample_txs false with Ret t => t | _ => [] end.
Definition sample_root : bytes := default [] (default None (last sample_tree)).
Definition sample_proof : MerkleProof :=
  match NewMerkleProof sample_tree 2 with Ret p => p | _ => MkMerkleProof 0 [] end.

Definition hash_okb (s : option bytes) : bool :=
  match s with Some y => bool_decide (length y = 32) | None => true end.

Lemma sample_proof_ok : Forall hash_ok (Hashes sample_proof).
Proof.
  assert (E : forallb hash_okb (Hashes sample_proof) = true) by (vm_compute; reflexivity).
  apply Forall_forall. intros s Hs y ->. rewrite forallb_forall in E.
  apply list_elem_of_In, E, bool_decide_eq_true in Hs. done.
Qed.

Lemma merkle_proof_complete_witness :
  ∃ tree root p, BuildMerkleTreeStore sample_txs true = Ret tree ∧ last tree = Some (Some root) ∧
    NewMerkleProof tree 2 = Ret p ∧ MerkleProof_Check p (replicate 32 x13) root = Ret true.
Proof. apply (merkle_proof_complete sample_txs true 2); [reflexivity|reflexivity|apply sample_lens]. Defined.

Lemma merkle_proof_sound_witness :
  replicate 32 x03 = replicate 32 x03 ∨
  paths_collide (check_messages (Hashes sample_proof) (length (Hashes sample_proof)) (Position sample_proof) (replicate 32 x03))
    (check_messages (Hashes sample_proof) (length (Hashes sample_proof)) (Position sample_proof) (replicate 32 x03)).
Proof.
  apply (merkle_proof_sound sample_txs false 2 (replicate 32 x03) (replicate 32 x03)
           sample_tree sample_root sample_proof sample_proof);
    [reflexivity|reflexivity|apply sample_lens|vm_compute; reflexivity..
    |apply sample_proof_ok|reflexivity|vm_compute; reflexivity].
Defined.
