(* ===== verification/WireCommon.v ===== *)
(** * Variable-length integers, log statements and message framing
      (wire/common.go, log.go, conn.go)

    Readers are functions on the unread bytes; the free list of buffers that
    [binarySerializer] borrows from only saves allocations and is left out. *)

From Stdlib Require Import ZArith Lia.
From S2P Require Import Prelude Buffers Sha256 Crypto Utils.

Local Open Scope Z_scope.

(** ** Fixed-width integers *)

Definition Uint8 (r : bytes) : outcome (Z * bytes) := '(b, r) ← read_full 1 r; mret (le_val b, r).
Definition Uint16 (r : bytes) : outcome (Z * bytes) := '(b, r) ← read_full 2 r; mret (le_val b, r).
Definition Uint32 (r : bytes) : outcome (Z * bytes) := '(b, r) ← read_full 4 r; mret (le_val b, r).
Definition Uint64 (r : bytes) : outcome (Z * bytes) := '(b, r) ← read_full 8 r; mret (le_val b, r).

Definition PutUint8 (val : Z) : bytes := le_bytes 1 val.
Definition PutUint16 (val : Z) : bytes := le_bytes 2 val.
Definition PutUint32 (val : Z) : bytes := le_bytes 4 val.
Definition PutUint64 (val : Z) : bytes := le_bytes 8 val.

(** ** Variable-length integers *)

Definition errNonCanonicalVarInt : string := "ReadVarInt: errNonCanonicalVarInt".

Definition ReadVarInt (r : bytes) : outcome (Z * bytes) :=
  '(discriminant, r) ← Uint8 r;
  if bool_decide (discriminant = 0xff) then
    '(rv, r) ← Uint64 r;
    if bool_decide (rv < 0x100000000) then Err errNonCanonicalVarInt else mret (rv, r)
  else if bool_decide (discriminant = 0xfe) then
    '(rv, r) ← Uint32 r;
    if bool_decide (rv < 0x10000) then Err errNonCanonicalVarInt else mret (rv, r)
  else if bool_decide (discriminant = 0xfd) then
    '(rv, r) ← Uint16 r;
    if bool_decide (rv < 0xfd) then Err errNonCanonicalVarInt else mret (rv, r)
  else mret (discriminant, r).

Definition MaxUint16 : Z := 0xffff.
Definition MaxUint32 : Z := 0xffffffff.

Definition WriteVarInt (val : Z) : bytes :=
  if bool_decide (val < 0xfd) then PutUint8 (u8 val)
  else if bool_decide (val ≤ MaxUint16) then PutUint8 0xfd ++ PutUint16 (u16 val)
  else if bool_decide (val ≤ MaxUint32) then PutUint8 0xfe ++ PutUint32 (u32 val)
  else PutUint8 0xff ++ PutUint64 val.

Definition VarIntSerializeSize (val : Z) : Z :=
  if bool_decide (val < 0xfd) then 1
  else if bool_decide (val ≤ MaxUint16) then 3
  else if bool_decide (val ≤ MaxUint32) then 5
  else 9.

(** ** Variable-length byte arrays *)

(** The largest allocation of the Go runtime on a 64-bit platform; [make] panics
    above it. *)
Definition maxAlloc : Z := 2 ^ 48.

(** [make([]byte, count)]. *)
Definition make_bytes (count : Z) : outcome unit :=
  if bool_decide (count > maxAlloc) then Panic "makeslice: len out of range" else mret tt.

(** The parameters [maxAllowed] and [fieldName] are not used by the code. *)
Definition ReadVarBytes (maxAllowed : Z) (fieldName : string) (r : bytes) : outcome (bytes * bytes) :=
  '(count, r) ← ReadVarInt r;
  _ ← make_bytes count;
  read_full (Z.to_nat count) r.

Definition WriteVarBytes (b : bytes) : bytes := WriteVarInt (u64 (len b)) ++ b.

(** [randomUint64]: big endian, from the given source. *)
Definition randomUint64 (r : bytes) : outcome (Z * bytes) := read_be_u64 r.

(** ** Log statements *)

Record CreateLogStatement := MkCreateLogStatement {
  ControllingKey : bytes;     (** 33 bytes *)
  InitialStatement : bytes
}.

Record SignedCreateLogStatement := MkSignedCreateLogStatement {
  scls_Signature : bytes;     (** 64 bytes *)
  CreateStatement : CreateLogStatement
}.

Record LogStatement := MkLogStatement {
  LogID : bytes;              (** 32 bytes *)
  Index : Z;                  (** uint64 *)
  ls_Statement : bytes
}.

Record SignedLogStatement := MkSignedLogStatement {
  sls_Signature : bytes;      (** 64 bytes *)
  Statement : LogStatement
}.

Definition NewSignedCreateLogStatement (controllingKey initialStatement : bytes) : SignedCreateLogStatement :=
  MkSignedCreateLogStatement (zeros 64) (MkCreateLogStatement controllingKey initialStatement).

Definition NewSignedLogStatement (index : Z) (logID statement : bytes) : SignedLogStatement :=
  MkSignedLogStatement (zeros 64) (MkLogStatement logID index statement).

Definition LogStatement_Bytes (ls : LogStatement) : bytes :=
  LogID ls ++ WriteVarInt (Index ls) ++ WriteVarBytes (ls_Statement ls).

Definition SignedLogStatement_Bytes (sls : SignedLogStatement) : bytes :=
  sls_Signature sls ++ LogStatement_Bytes (Statement sls).

Definition CreateLogStatement_Bytes (cls : CreateLogStatement) : bytes :=
  ControllingKey cls ++ WriteVarBytes (InitialStatement cls).

Definition SignedCreateLogStatement_Bytes (scls : SignedCreateLogStatement) : bytes :=
  scls_Signature scls ++ CreateLogStatement_Bytes (CreateStatement scls).

(** The result of the first [Read] is ignored: a short input leaves zeros. *)
Definition NewLogStatementFromBytes (b : bytes) : outcome LogStatement :=
  let '(id, buf) := next 32 b in
  '(idx, buf) ← ReadVarInt buf;
  '(statement, buf) ← ReadVarBytes 256 "statement" buf;
  mret (MkLogStatement (go_copy (zeros 32) id) idx statement).

(** [buf.Read(x[:])] into an array of [n] bytes, and the test that it is full. *)
Definition read_array (n : nat) (b : bytes) : outcome (bytes * bytes) :=
  '(x, buf) ← buf_read n b;
  if bool_decide (length x < n)%nat then Err "Unexpected end of buffer" else mret (x, buf).

Definition NewSignedLogStatementFromBytes (b : bytes) : outcome SignedLogStatement :=
  '(sig, buf) ← read_array 64 b;
  statement ← NewLogStatementFromBytes buf;
  mret (MkSignedLogStatement sig statement).

Definition NewCreateLogStatementFromBytes (b : bytes) : outcome CreateLogStatement :=
  '(key, buf) ← read_array 33 b;
  '(statement, buf) ← ReadVarBytes 256 "statement" buf;
  mret (MkCreateLogStatement key statement).

Definition NewSignedCreateLogStatementFromBytes (b : bytes) : outcome SignedCreateLogStatement :=
  '(sig, buf) ← read_array 64 b;
  createStatement ← NewCreateLogStatementFromBytes buf;
  mret (MkSignedCreateLogStatement sig createStatement).

(** [crypto.VerifySig(plainText, pubKey, csig)] is a parameter. *)
Section Signatures.
Context (VerifySig : bytes → bytes → bytes → outcome unit).

Definition SignedCreateLogStatement_VerifySignature (scls : SignedCreateLogStatement) : outcome unit :=
  VerifySig (CreateLogStatement_Bytes (CreateStatement scls)) (ControllingKey (CreateStatement scls))
    (scls_Signature scls).

Definition SignedLogStatement_VerifySignature (sls : SignedLogStatement) (controllingPubKey : bytes) : outcome unit :=
  VerifySig (LogStatement_Bytes (Statement sls)) controllingPubKey (sls_Signature sls).
End Signatures.

(** ** Framing *)

(** A message on the wire: its type, its length and its payload.  The bytes of one
    [WriteMessage] are contiguous because it holds the write lock. *)
Definition WriteMessage (t : Byte.byte) (m : bytes) : bytes :=
  [t] ++ put_be_32 (u32 (len m)) ++ m.

Definition ReadNextMessage (r : bytes) : outcome ((Byte.byte * bytes) * bytes) :=
  '(bType, r) ← read_full 1 r;
  '(bLen, r) ← read_full 4 r;
  let l := be_val bLen in
  '(bMsg, r) ← (if bool_decide (l > 0) then read_full (Z.to_nat l) r else mret ([], r));
  mret ((default x00 (head bType), bMsg), r).

(** Reading messages until the connection ends: those read, and the error. *)
Fixpoint read_messages (fuel : nat) (r : bytes) : list (Byte.byte * bytes) * string :=
  match fuel with
  | O => ([], EOF)
  | S fuel =>
      match ReadNextMessage r with
      | Ret (m, r) => let '(ms, e) := read_messages fuel r in (m :: ms, e)
      | Err e => ([], e)
      | Panic e => ([], e)
      end
  end.
