(* ===== verification/MptNode.v ===== *)
(** * Nodes of the Merkle Prefix Trie (mpt/node.go, stub.go,
      dictionaryleafnode.go, emptyleafnode.go, interiornode.go)

    A value of the Go interface type [Node] is nil or a pointer to one of four
    structs.  Every node of a trie has one parent, so the pointers form a tree
    and a mutating method becomes a function from the node to its new state;
    the empty leaf, which is shared, has no fields.  Calling a method on a nil
    [Node] panics.  [GetHash] fills the hash caches and therefore returns the
    updated node with the hash.  Byte slices are values here: the nodes copy
    the slices they are built from, except [SetValue], which keeps its
    argument; the one caller for which that matters is the server's [Commit],
    where it is modelled ([Server]). *)

From Stdlib Require Import ZArith Lia.
From S2P Require Import Prelude Buffers Sha256 Crypto Utils.

(** ** Data *)

(** [NodeType]: the type byte of a serialized node. *)
Definition NodeTypeStub : Byte.byte := x00.
Definition NodeTypeDictionaryLeaf : Byte.byte := x01.
Definition NodeTypeEmptyLeaf : Byte.byte := x02.
Definition NodeTypeInterior : Byte.byte := x03.

Record Stub := MkStub { stub_hash : bytes }.

Record DictionaryLeafNode := MkDLN {
  dln_key : bytes;
  dln_value : bytes;
  dln_commitmentHash : bytes;
  dln_changed : bool;
  dln_recalculateHash : bool
}.

Inductive Node : Type :=
| NilNode
| StubNode (s : Stub)
| DictionaryLeaf (dln : DictionaryLeafNode)
| EmptyLeaf
| Interior (hash : bytes) (recalculateHash changed : bool) (leftChild rightChild : Node).

#[export] Instance Stub_eq_dec : EqDecision Stub.
Proof. solve_decision. Defined.
#[export] Instance DictionaryLeafNode_eq_dec : EqDecision DictionaryLeafNode.
Proof. solve_decision. Defined.
#[export] Instance Node_eq_dec : EqDecision Node.
Proof. solve_decision. Defined.

Definition is_nil (n : Node) : bool := match n with NilNode => true | _ => false end.

(** ** Constructors *)

Definition NewStub (hash : bytes) : Stub := MkStub (go_copy (zeros (length hash)) hash).

Definition NewDictionaryLeafNode (key value : bytes) : DictionaryLeafNode :=
  MkDLN (go_copy (zeros (length key)) key) (go_copy (zeros (length value)) value)
    (zeros 32) true true.

Definition NewDictionaryLeafNodeCachedHash (key value hash : bytes) : DictionaryLeafNode :=
  MkDLN (go_copy (zeros (length key)) key) (go_copy (zeros (length value)) value)
    (go_copy (zeros 32) hash) true false.

Definition NewEmptyLeafNode : Node := EmptyLeaf.

Definition NewInteriorNode (leftChild rightChild : Node) : Node :=
  Interior (zeros 32) true true leftChild rightChild.

Definition NewInteriorNodeWithCachedHash (leftChild rightChild : Node) (hash : bytes) : Node :=
  Interior (go_copy (zeros 32) hash) false true leftChild rightChild.

(** ** Predicates and accessors *)

Definition IsLeaf (n : Node) : outcome bool :=
  match n with
  | NilNode => Panic nil_deref
  | StubNode _ | Interior _ _ _ _ _ => mret false
  | DictionaryLeaf _ | EmptyLeaf => mret true
  end.

Definition IsEmpty (n : Node) : outcome bool :=
  match n with
  | NilNode => Panic nil_deref
  | EmptyLeaf => mret true
  | _ => mret false
  end.

Definition IsStub (n : Node) : outcome bool :=
  match n with
  | NilNode => Panic nil_deref
  | StubNode _ => mret true
  | _ => mret false
  end.

Definition GetKey (n : Node) : outcome bytes :=
  match n with
  | NilNode => Panic nil_deref
  | DictionaryLeaf d => mret (dln_key d)
  | _ => mret []
  end.

(** [None] is the nil slice. *)
Definition GetValue (n : Node) : outcome (option bytes) :=
  match n with
  | NilNode => Panic nil_deref
  | DictionaryLeaf d => mret (Some (dln_value d))
  | _ => mret None
  end.

Definition GetLeftChild (n : Node) : outcome Node :=
  match n with
  | NilNode => Panic nil_deref
  | Interior _ _ _ l _ => mret l
  | _ => mret NilNode
  end.

Definition GetRightChild (n : Node) : outcome Node :=
  match n with
  | NilNode => Panic nil_deref
  | Interior _ _ _ _ r => mret r
  | _ => mret NilNode
  end.

Definition HasLeft (leftChild : Node) : bool := negb (is_nil leftChild).
Definition HasRight (rightChild : Node) : bool := negb (is_nil rightChild).

Definition Changed (n : Node) : outcome bool :=
  match n with
  | NilNode => Panic nil_deref
  | Interior _ _ ch _ _ => mret ch
  | DictionaryLeaf d => mret (dln_changed d)
  | StubNode _ | EmptyLeaf => mret false
  end.

(** ** Mutators *)

Definition DictionaryLeafNode_SetValue (d : DictionaryLeafNode) (value : bytes) : DictionaryLeafNode :=
  if negb (bytes_eqb (dln_value d) value)
  then MkDLN (dln_key d) value (dln_commitmentHash d) true true
  else d.

Definition SetValue (n : Node) (value : bytes) : outcome Node :=
  match n with
  | NilNode => Panic nil_deref
  | DictionaryLeaf d => mret (DictionaryLeaf (DictionaryLeafNode_SetValue d value))
  | StubNode _ => Panic "Cannot set the value of a stub"
  | EmptyLeaf => Panic "Cannot set value of an empty leaf node"
  | Interior _ _ _ _ _ => Panic "Cannot set value of an interior node"
  end.

Definition SetLeftChild (n : Node) (child : Node) : outcome Node :=
  match n with
  | NilNode => Panic nil_deref
  | Interior h _ _ _ r => mret (Interior h true true child r)
  | DictionaryLeaf _ => Panic "Cannot set children of a leaf node"
  | EmptyLeaf => Panic "Cannot set children of an empty leaf node"
  | StubNode _ => Panic "Cannot set children of a stub"
  end.

Definition SetRightChild (n : Node) (child : Node) : outcome Node :=
  match n with
  | NilNode => Panic nil_deref
  | Interior h _ _ l _ => mret (Interior h true true l child)
  | DictionaryLeaf _ => Panic "Cannot set children of a leaf node"
  | EmptyLeaf => Panic "Cannot set children of an empty leaf node"
  | StubNode _ => Panic "Cannot set children of a stub"
  end.

Definition DictionaryLeafNode_MarkChangedAll (d : DictionaryLeafNode) : DictionaryLeafNode :=
  MkDLN (dln_key d) (dln_value d) (dln_commitmentHash d) true (dln_recalculateHash d).

Definition DictionaryLeafNode_MarkUnchangedAll (d : DictionaryLeafNode) : DictionaryLeafNode :=
  MkDLN (dln_key d) (dln_value d) (dln_commitmentHash d) false (dln_recalculateHash d).

Fixpoint MarkChangedAll (n : Node) : outcome Node :=
  match n with
  | NilNode => Panic nil_deref
  | StubNode _ | EmptyLeaf => mret n
  | DictionaryLeaf d => mret (DictionaryLeaf (DictionaryLeafNode_MarkChangedAll d))
  | Interior h rc ch l r =>
      cl ← Changed l;
      l ← (if negb cl then MarkChangedAll l else mret l);
      cr ← Changed r;
      r ← (if negb cr then MarkChangedAll r else mret r);
      mret (Interior h rc true l r)
  end.

Fixpoint MarkUnchangedAll (n : Node) : outcome Node :=
  match n with
  | NilNode => Panic nil_deref
  | StubNode _ | EmptyLeaf => mret n
  | DictionaryLeaf d => mret (DictionaryLeaf (DictionaryLeafNode_MarkUnchangedAll d))
  | Interior h rc ch l r =>
      cl ← Changed l;
      l ← (if (cl : bool) then MarkUnchangedAll l else mret l);
      cr ← Changed r;
      r ← (if (cr : bool) then MarkUnchangedAll r else mret r);
      mret (Interior h rc false l r)
  end.

(** [Dispose]: the slices become nil (the empty list) and the children nil. *)
Definition DictionaryLeafNode_Dispose (d : DictionaryLeafNode) : DictionaryLeafNode :=
  MkDLN [] [] [] (dln_changed d) (dln_recalculateHash d).

Fixpoint Dispose (n : Node) : outcome Node :=
  match n with
  | NilNode => Panic nil_deref
  | StubNode _ => mret (StubNode (MkStub []))
  | EmptyLeaf => mret EmptyLeaf
  | DictionaryLeaf d => mret (DictionaryLeaf (DictionaryLeafNode_Dispose d))
  | Interior h rc ch l r =>
      _ ← Dispose l;
      _ ← Dispose r;
      mret (Interior [] false false NilNode NilNode)
  end.

(** ** Hashes *)

Section Hashes.
Context `{HashFunction}.

Definition emptyLeafNodeHash : bytes := zeros 32.

Definition DictionaryLeafNode_GetHash (d : DictionaryLeafNode) : bytes * DictionaryLeafNode :=
  let d := if dln_recalculateHash d
           then MkDLN (dln_key d) (dln_value d)
                  (go_copy (dln_commitmentHash d) (WitnessKeyAndValue (dln_key d) (dln_value d)))
                  (dln_changed d) false
           else d in
  (dln_commitmentHash d, d).

(** The two goroutines of [InteriorNode.GetHash] work on disjoint subtrees
    and are joined before their results are used. *)
Fixpoint GetHash (n : Node) : outcome (bytes * Node) :=
  match n with
  | NilNode => Panic nil_deref
  | StubNode s => mret (stub_hash s, n)
  | EmptyLeaf => mret (emptyLeafNodeHash, n)
  | DictionaryLeaf d =>
      let '(h, d) := DictionaryLeafNode_GetHash d in mret (h, DictionaryLeaf d)
  | Interior h rc ch l r =>
      if rc then
        '(leftHash, l) ← (if is_nil l then mret ([], l) else GetHash l);
        '(rightHash, r) ← (if is_nil r then mret ([], r) else GetHash r);
        let h := go_copy h (Sum256 (leftHash ++ rightHash)) in
        mret (h, Interior h false ch l r)
      else mret (h, n)
  end.

Fixpoint CountHashesRequiredForGetHash (n : Node) : outcome Z :=
  match n with
  | NilNode => Panic nil_deref
  | StubNode _ => Panic "Cannot count hashes for a stub"
  | EmptyLeaf => mret 0%Z
  | DictionaryLeaf d => mret (if dln_recalculateHash d then 1%Z else 0%Z)
  | Interior _ rc _ l r =>
      if rc then
        cl ← CountHashesRequiredForGetHash l;
        cr ← CountHashesRequiredForGetHash r;
        mret (1 + cl + cr)%Z
      else mret 0%Z
  end.
End Hashes.

(** ** Counting *)

(** Nil children count nothing. *)
Fixpoint NodesInSubtree (n : Node) : outcome Z :=
  match n with
  | NilNode => Panic nil_deref
  | StubNode _ => Panic "cannot determine size of subtree rooted at a stub"
  | EmptyLeaf | DictionaryLeaf _ => mret 1%Z
  | Interior _ _ _ l r =>
      cl ← (if is_nil l then mret 0%Z else NodesInSubtree l);
      cr ← (if is_nil r then mret 0%Z else NodesInSubtree r);
      mret (1 + cl + cr)%Z
  end.

Fixpoint InteriorNodesInSubtree (n : Node) : outcome Z :=
  match n with
  | NilNode => Panic nil_deref
  | StubNode _ => Panic "cannot determine number of interior nodes in subtree rooted at a stub"
  | EmptyLeaf | DictionaryLeaf _ => mret 0%Z
  | Interior _ _ _ l r =>
      cl ← (if is_nil l then mret 0%Z else InteriorNodesInSubtree l);
      cr ← (if is_nil r then mret 0%Z else InteriorNodesInSubtree r);
      mret (1 + cl + cr)%Z
  end.

Fixpoint EmptyLeafNodesInSubtree (n : Node) : outcome Z :=
  match n with
  | NilNode => Panic nil_deref
  | StubNode _ => Panic "cannot determine number of empty leaf nodes in subtree rooted at a stub"
  | EmptyLeaf => mret 1%Z
  | DictionaryLeaf _ => mret 0%Z
  | Interior _ _ _ l r =>
      cl ← (if is_nil l then mret 0%Z else EmptyLeafNodesInSubtree l);
      cr ← (if is_nil r then mret 0%Z else EmptyLeafNodesInSubtree r);
      mret (cl + cr)%Z
  end.

Fixpoint NonEmptyLeafNodesInSubtree (n : Node) : outcome Z :=
  match n with
  | NilNode => Panic nil_deref
  | StubNode _ => Panic "cannot determine number of non-empty leaf nodes in subtree rooted at a stub"
  | EmptyLeaf => mret 0%Z
  | DictionaryLeaf _ => mret 1%Z
  | Interior _ _ _ l r =>
      cl ← (if is_nil l then mret 0%Z else NonEmptyLeafNodesInSubtree l);
      cr ← (if is_nil r then mret 0%Z else NonEmptyLeafNodesInSubtree r);
      mret (cl + cr)%Z
  end.

(** A stub is no leaf and has no children, so its height panics on nil. *)
Fixpoint GetNodeHeight (n : Node) : outcome Z :=
  match n with
  | NilNode | StubNode _ => Panic nil_deref
  | EmptyLeaf | DictionaryLeaf _ => mret 0%Z
  | Interior _ _ _ l r =>
      hl ← GetNodeHeight l;
      hr ← GetNodeHeight r;
      mret (Max hl hr + 1)%Z
  end.

(** ** Structural equality *)

Definition Stub_Equals (s : Stub) (n : Node) : bool :=
  match n with
  | StubNode s2 => bytes_eqb (stub_hash s2) (stub_hash s)
  | _ => false
  end.

Definition DictionaryLeafNode_Equals (d : DictionaryLeafNode) (n : Node) : bool :=
  match n with
  | DictionaryLeaf d2 =>
      bytes_eqb (dln_key d2) (dln_key d) && bytes_eqb (dln_value d2) (dln_value d)
  | _ => false
  end.

Definition EmptyLeafNode_Equals (n : Node) : bool :=
  match n with EmptyLeaf => true | _ => false end.

(** [a.Equals(b)] for a non-nil [a]; nil children of [a] are handled by the
    interior node. *)
Fixpoint Equals (a b : Node) : bool :=
  match a with
  | NilNode => false
  | StubNode s => Stub_Equals s b
  | DictionaryLeaf d => DictionaryLeafNode_Equals d b
  | EmptyLeaf => EmptyLeafNode_Equals b
  | Interior _ _ _ l r =>
      match b with
      | Interior _ _ _ l2 r2 =>
          if is_nil l && negb (is_nil l2) then false
          else if is_nil r && negb (is_nil r2) then false
          else if negb (is_nil l) && negb (Equals l l2) then false
          else if negb (is_nil r) && negb (Equals r r2) then false
          else true
      | _ => false
      end
  end.

(** ** Copies *)

Fixpoint DeepCopy (n : Node) : outcome Node :=
  match n with
  | NilNode => Panic nil_deref
  | StubNode s => mret (StubNode (NewStub (stub_hash s)))
  | EmptyLeaf => mret EmptyLeaf
  | DictionaryLeaf d =>
      mret (DictionaryLeaf (NewDictionaryLeafNodeCachedHash (dln_key d) (dln_value d)
                              (dln_commitmentHash d)))
  | Interior h _ _ l r =>
      l ← (if is_nil l then mret NilNode else DeepCopy l);
      r ← (if is_nil r then mret NilNode else DeepCopy r);
      mret (NewInteriorNodeWithCachedHash l r h)
  end.

(** ** Updates *)

(** [UpdateNode(n, n2)]: an interior [n2] is merged with the children of [n]
    (nil when [n] is nil or no interior node), anything else replaces [n]. *)
Definition child_left (n : Node) : Node :=
  match n with Interior _ _ _ l _ => l | _ => NilNode end.
Definition child_right (n : Node) : Node :=
  match n with Interior _ _ _ _ r => r | _ => NilNode end.

Fixpoint UpdateNode (n n2 : Node) : Node :=
  match n2 with
  | Interior _ _ _ l2 r2 =>
      let left := child_left n in
      let right := child_right n in
      let left := if HasLeft l2 then UpdateNode left l2 else left in
      let right := if HasRight r2 then UpdateNode right r2 else right in
      NewInteriorNode left right
  | _ => n2
  end.
