(* ===== verification/MptSpec.v ===== *)
(** * What a node stands for

    The abstract views the theorems on tries are stated with: the tree without
    its caches and flags (Go's structural equality [Equals]), the Merkle hash
    a node has by definition, the key-value map it holds, and the invariants
    on hash caches, change flags and trie shape. *)

From Stdlib Require Import ZArith Lia.
From S2P Require Import Prelude Buffers Sha256 Crypto Utils MptNode.

(** ** Structural equality *)

Fixpoint erase (n : Node) : Node :=
  match n with
  | DictionaryLeaf d => DictionaryLeaf (MkDLN (dln_key d) (dln_value d) [] false false)
  | Interior _ _ _ l r => Interior [] false false (erase l) (erase r)
  | _ => n
  end.

(** Wrapped, so that [rewrite] treats it as a setoid relation. *)
Inductive node_eqv (a b : Node) : Prop := NodeEqv (Heq : erase a = erase b).

#[export] Instance Node_equiv : Equiv Node := node_eqv.

Lemma equiv_erase (a b : Node) : a ≡ b ↔ erase a = erase b.
Proof. split; [by intros []|by constructor]. Qed.

#[export] Instance Node_equivalence : Equivalence (≡@{Node}).
Proof.
  split.
  - intros a. by apply equiv_erase.
  - intros a b. rewrite !equiv_erase. congruence.
  - intros a b c. rewrite !equiv_erase. congruence.
Qed.

#[export] Instance Interior_proper h rc ch :
  Proper ((≡) ==> (≡) ==> (≡@{Node})) (Interior h rc ch).
Proof. intros ? ? Hl ? ? Hr. rewrite equiv_erase in *. simpl. congruence. Qed.

Lemma Interior_equiv h rc ch h' rc' ch' l r l' r' :
  l ≡ l' → r ≡ r' → Interior h rc ch l r ≡ Interior h' rc' ch' l' r'.
Proof. rewrite !equiv_erase. simpl. congruence. Qed.

Lemma equiv_Interior_inv h rc ch l r n :
  Interior h rc ch l r ≡ n →
  ∃ h' rc' ch' l' r', n = Interior h' rc' ch' l' r' ∧ l ≡ l' ∧ r ≡ r'.
Proof.
  rewrite equiv_erase. destruct n; simpl; intros Heq; try discriminate Heq.
  injection Heq as Hl Hr. do 5 eexists. by rewrite !equiv_erase.
Qed.

Lemma equiv_nil n : NilNode ≡ n ↔ n = NilNode.
Proof. rewrite equiv_erase. destruct n; simpl; split; intros; congruence. Qed.

Lemma leaf_equiv d d' :
  DictionaryLeaf d ≡ DictionaryLeaf d' ↔ dln_key d = dln_key d' ∧ dln_value d = dln_value d'.
Proof.
  rewrite equiv_erase. destruct d, d'. simpl. split; [intros Heq; by injection Heq|].
  by intros [-> ->].
Qed.

Lemma is_nil_true n : is_nil n = true ↔ n = NilNode.
Proof. destruct n; simpl; split; intros; congruence. Qed.

Lemma is_nil_false n : is_nil n = false ↔ n ≠ NilNode.
Proof. destruct n; simpl; split; intros; congruence. Qed.

Lemma erase_nil n : erase n = NilNode ↔ n = NilNode.
Proof. destruct n; simpl; split; intros; congruence. Qed.

(** The code's [Equals] decides the equivalence. *)
Lemma Equals_spec a b : a ≠ NilNode → Equals a b = true ↔ a ≡ b.
Proof.
  setoid_rewrite equiv_erase. revert b. induction a as [|s|d| |h rc ch l IHl r IHr];
    intros b Ha; try done; destruct b as [|s2|d2| |h2 rc2 ch2 l2 r2]; simpl; try done.
  - destruct s, s2. simpl. rewrite bytes_eqb_true. split; intros; congruence.
  - rewrite andb_true_iff, !bytes_eqb_true. split; [intros [-> ->]; done|].
    intros Heq. injection Heq. done.
  - assert (Hc : ∀ x y, (is_nil x = true ∨ (∀ b, x ≠ NilNode → Equals x b = true ↔ erase x = erase b)) →
        (is_nil x && negb (is_nil y) = false ∧ negb (is_nil x) && negb (Equals x y) = false)
        ↔ erase x = erase y).
    { intros x y Hx. destruct (is_nil x) eqn:Ex; simpl.
      - apply is_nil_true in Ex as ->. destruct y; simpl; split; intros; intuition congruence.
      - destruct Hx as [|Hx]; [done|]. apply is_nil_false in Ex.
        rewrite <- Hx by done. destruct (Equals x y); simpl; intuition congruence. }
    assert (Hl := Hc l l2 (or_intror (λ b, IHl b))). assert (Hr := Hc r r2 (or_intror (λ b, IHr b))).
    split.
    + intros Heq. repeat case_match; try discriminate Heq.
      f_equal; [apply Hl|apply Hr]; done.
    + intros Heq. injection Heq as El Er.
      apply Hl in El as [-> ->]. by apply Hr in Er as [-> ->].
Qed.

(** ** The Merkle hash *)

Section Spec.
Context `{HashFunction}.

(** The hash a node has by definition; a nil child contributes no bytes. *)
Fixpoint hashOf (n : Node) : bytes :=
  match n with
  | NilNode => []
  | StubNode s => stub_hash s
  | DictionaryLeaf d => WitnessKeyAndValue (dln_key d) (dln_value d)
  | EmptyLeaf => zeros 32
  | Interior _ _ _ l r => Sum256 (hashOf l ++ hashOf r)
  end.

#[export] Instance hashOf_proper : Proper ((≡) ==> (=)) hashOf.
Proof.
  intros a b Hab. apply equiv_erase in Hab. revert b Hab.
  induction a as [|s|d| |h rc ch l IHl r IHr]; intros b Heq; destruct b; simpl in *;
    try discriminate Heq; try done.
  - by injection Heq as ->.
  - injection Heq as -> ->. done.
  - injection Heq as El Er. by rewrite (IHl _ El), (IHr _ Er).
Qed.

Lemma Witness_length k v : length (WitnessKeyAndValue k v) = 32.
Proof. rewrite WitnessKeyAndValue_spec. apply Sum256_length. Qed.

(** *** Caches *)

(** No hash has to be recalculated. *)
Fixpoint clean (n : Node) : Prop :=
  match n with
  | DictionaryLeaf d => dln_recalculateHash d = false
  | Interior _ rc _ l r => rc = false ∧ clean l ∧ clean r
  | _ => True
  end.

(** The cache invariant: hash buffers have 32 bytes, a node that is not
    marked for recalculation holds its hash, and nothing below it is marked. *)
Fixpoint cache_ok (n : Node) : Prop :=
  match n with
  | NilNode | StubNode _ | EmptyLeaf => True
  | DictionaryLeaf d =>
      length (dln_commitmentHash d) = 32 ∧
      (dln_recalculateHash d = false → dln_commitmentHash d = hashOf n)
  | Interior h rc _ l r =>
      length h = 32 ∧ (rc = false → h = hashOf n ∧ clean l ∧ clean r) ∧
      cache_ok l ∧ cache_ok r
  end.

Lemma cache_ok_new_interior l r :
  cache_ok l → cache_ok r → cache_ok (NewInteriorNode l r).
Proof. intros. simpl. repeat split; auto; congruence. Qed.

Lemma cache_ok_new_leaf k v : cache_ok (DictionaryLeaf (NewDictionaryLeafNode k v)).
Proof. simpl. split; [done|congruence]. Qed.

Lemma cache_ok_touch h rc ch l r l' r' rc' ch' :
  cache_ok (Interior h rc ch l r) → cache_ok l' → cache_ok r' → rc' = true →
  cache_ok (Interior h rc' ch' l' r').
Proof. simpl. intros (? & _ & _ & _) ? ? ->. repeat split; auto; congruence. Qed.

(** [GetHash] returns the Merkle hash, leaves the tree unchanged up to
    caches and clears every recalculation mark. *)
Lemma GetHash_spec n :
  cache_ok n → n ≠ NilNode →
  ∃ n', GetHash n = Ret (hashOf n, n') ∧ n' ≡ n ∧ cache_ok n' ∧ clean n'.
Proof.
  induction n as [|s|d| |h rc ch l IHl r IHr]; intros Hc Hn.
  - done.
  - exists (StubNode s). done.
  - destruct d as [k v ch cd rc]. simpl in Hc. destruct Hc as [Hl Hc]. simpl in *.
    unfold DictionaryLeafNode_GetHash. simpl. destruct rc; simpl.
    + rewrite go_copy_same by (by rewrite Witness_length).
      eexists; repeat split; simpl; auto using Witness_length.
    + rewrite Hc by done. eexists; repeat split; simpl; auto using Witness_length.
  - exists EmptyLeaf. done.
  - simpl in Hc. destruct Hc as (Hl & Hcache & Hcl & Hcr). simpl.
    destruct rc; cycle 1.
    { destruct (Hcache eq_refl) as (Hh & Hl1 & Hl2). rewrite Hh.
      eexists; repeat split; simpl; auto. rewrite <- Hh. done. }
    assert (Hchild : ∀ x, cache_ok x → (x ≠ NilNode →
        ∃ x', GetHash x = Ret (hashOf x, x') ∧ x' ≡ x ∧ cache_ok x' ∧ clean x') →
        ∃ x', (if is_nil x then mret ([], x) else GetHash x) = Ret (hashOf x, x')
              ∧ x' ≡ x ∧ cache_ok x' ∧ clean x').
    { intros x Hx IH. destruct (is_nil x) eqn:E.
      - apply is_nil_true in E as ->. by exists NilNode.
      - apply is_nil_false in E. by apply IH. }
    destruct (Hchild l Hcl (IHl Hcl)) as (l' & -> & El & Cl & Kl).
    destruct (Hchild r Hcr (IHr Hcr)) as (r' & -> & Er & Cr & Kr). simpl.
    rewrite go_copy_same by (by rewrite Sum256_length, Hl).
    eexists; split; [reflexivity|]. split; [by apply Interior_equiv|].
    simpl. rewrite Sum256_length, (hashOf_proper _ _ El), (hashOf_proper _ _ Er). auto 10.
Qed.

(** A copy of a tree without pending recalculations is the tree, caches
    included, with every node marked as changed. *)
Lemma DeepCopy_spec n :
  cache_ok n → clean n → n ≠ NilNode →
  ∃ n', DeepCopy n = Ret n' ∧ n' ≡ n ∧ cache_ok n' ∧ clean n'.
Proof.
  induction n as [|s|d| |h rc ch l IHl r IHr]; intros Hc Hk Hn.
  - done.
  - eexists; split; [reflexivity|]. destruct s. unfold NewStub; simpl.
    rewrite go_copy_same by (by rewrite length_zeros). done.
  - destruct d as [k v c cd rc]. simpl in *. destruct Hc as [Hl Hc]. specialize (Hc Hk).
    eexists; split; [reflexivity|]. unfold NewDictionaryLeafNodeCachedHash. simpl.
    rewrite !go_copy_same by (by rewrite ?length_zeros). subst. by rewrite leaf_equiv.
  - exists EmptyLeaf. done.
  - simpl in Hc, Hk. destruct Hc as (Hl & Hcache & Hcl & Hcr), Hk as (-> & Kl & Kr).
    destruct (Hcache eq_refl) as (Hh & _).
    assert (Hchild : ∀ x, cache_ok x → clean x → (x ≠ NilNode →
        ∃ x', DeepCopy x = Ret x' ∧ x' ≡ x ∧ cache_ok x' ∧ clean x') →
        ∃ x', (if is_nil x then mret NilNode else DeepCopy x) = Ret x'
              ∧ x' ≡ x ∧ cache_ok x' ∧ clean x').
    { intros x Hx Hkx IH. destruct (is_nil x) eqn:E.
      - apply is_nil_true in E as ->. by exists NilNode.
      - apply is_nil_false in E. by apply IH. }
    destruct (Hchild l Hcl Kl (IHl Hcl Kl)) as (l' & El & Ell & Cl & Kl').
    destruct (Hchild r Hcr Kr (IHr Hcr Kr)) as (r' & Er & Err & Cr & Kr').
    simpl. rewrite El, Er. simpl. eexists; split; [reflexivity|].
    unfold NewInteriorNodeWithCachedHash. rewrite go_copy_same by done.
    split; [by apply Interior_equiv|]. simpl. rewrite (hashOf_proper _ _ Ell), (hashOf_proper _ _ Err). auto 10.
Qed.

Lemma clean_count n :
  clean n → ∀ c, CountHashesRequiredForGetHash n = Ret c → c = 0%Z.
Proof.
  destruct n; simpl; intros Hk c Hc; try (by inv_ret).
  - rewrite Hk in Hc. by inv_ret.
  - destruct Hk as (-> & _). by inv_ret.
Qed.

(** *** Change flags *)

(** Nothing in the tree is marked as changed. *)
Fixpoint unchanged (n : Node) : Prop :=
  match n with
  | DictionaryLeaf d => dln_changed d = false
  | Interior _ _ ch l r => ch = false ∧ unchanged l ∧ unchanged r
  | _ => True
  end.

(** An unchanged interior node has no changed node below it. *)
Fixpoint flags_ok (n : Node) : Prop :=
  match n with
  | Interior _ _ ch l r => (ch = false → unchanged l ∧ unchanged r) ∧ flags_ok l ∧ flags_ok r
  | _ => True
  end.
End Spec.

(** ** The map a trie holds *)

Fixpoint entries (n : Node) : gmap bytes bytes :=
  match n with
  | DictionaryLeaf d => {[dln_key d := dln_value d]}
  | Interior _ _ _ l r => entries l ∪ entries r
  | _ => ∅
  end.

#[export] Instance entries_proper : Proper ((≡) ==> (=)) entries.
Proof.
  intros a b Hab. apply equiv_erase in Hab. revert b Hab.
  induction a as [|s|d| |h rc ch l IHl r IHr]; intros b Heq; destruct b; simpl in *;
    try discriminate Heq; try done.
  - by injection Heq as -> ->.
  - injection Heq as El Er. by rewrite (IHl _ El), (IHr _ Er).
Qed.

(** ** Trie shape *)

Definition is_leaf (n : Node) : bool :=
  match n with DictionaryLeaf _ | EmptyLeaf => true | _ => false end.
Definition is_empty (n : Node) : bool := match n with EmptyLeaf => true | _ => false end.

(** A node below the root with an empty child and a leaf as the other one is
    pulled up by [deleteHelper] and never built by [insertHelper]. *)
Definition canonical (l r : Node) : Prop :=
  (is_empty l = true → is_leaf r = false) ∧ (is_empty r = true → is_leaf l = false).

(** [wf L p n]: [n] is the subtree of a canonical full trie reached by the bits
    [p], all keys having [L] bytes; no stubs and no nil children. *)
Fixpoint wf (L : nat) (p : list bool) (n : Node) : Prop :=
  match n with
  | EmptyLeaf => True
  | DictionaryLeaf d => length (dln_key d) = L ∧ p `prefix_of` key_bits (dln_key d)
  | Interior _ _ _ l r => wf L (p ++ [false]) l ∧ wf L (p ++ [true]) r ∧ canonical l r
  | _ => False
  end.

(** The root is always an interior node and may have empty children. *)
Definition wf_root (L : nat) (n : Node) : Prop :=
  match n with
  | Interior _ _ _ l r => wf L [false] l ∧ wf L [true] r
  | _ => False
  end.

(** No nil pointer in the tree (stubs are allowed). *)
Fixpoint no_nil (n : Node) : Prop :=
  match n with
  | NilNode => False
  | Interior _ _ _ l r => no_nil l ∧ no_nil r
  | _ => True
  end.

Lemma wf_no_nil L p n : wf L p n → no_nil n.
Proof.
  revert p. induction n as [|s|d| |h rc ch l IHl r IHr]; intros p Hwf; try done.
  destruct Hwf as (Hl & Hr & _). split; eauto.
Qed.

Lemma wf_root_no_nil L n : wf_root L n → no_nil n.
Proof. intros Hwf. destruct n; try done. destruct Hwf. split; eauto using wf_no_nil. Qed.
