(* ===== verification/MptTrie.v ===== *)
(** * Tries as maps

    The lemmas behind the theorems of [MptTheorems]: the keys below a node
    share its bit prefix, lookups and updates follow the map [entries], the
    cache and flag invariants are kept, and canonical tries with equal maps
    are structurally equal. *)

From Stdlib Require Import ZArith Lia.
From S2P Require Import Prelude Buffers Sha256 Crypto Utils MptNode MptSpec FullMPT.

(** ** Prefixes *)

Lemma prefix_snoc {A} (p l : list A) b :
  p `prefix_of` l → l !! length p = Some b → (p ++ [b]) `prefix_of` l.
Proof.
  intros [k ->] Hb. rewrite lookup_app_r, Nat.sub_diag in Hb by done.
  destruct k as [|x k]; [done|]. injection Hb as ->. exists k. by rewrite <- app_assoc.
Qed.

Lemma prefix_snoc_lookup {A} (p l : list A) b :
  (p ++ [b]) `prefix_of` l → l !! length p = Some b.
Proof.
  intros [k ->]. rewrite <- app_assoc, lookup_app_r, Nat.sub_diag by done. done.
Qed.

Lemma prefix_snoc_l {A} (p l : list A) b : (p ++ [b]) `prefix_of` l → p `prefix_of` l.
Proof. intros [k ->]. exists (b :: k). by rewrite <- app_assoc. Qed.

Lemma prefix_snoc_length {A} (p l : list A) b :
  (p ++ [b]) `prefix_of` l → length p < length l.
Proof. intros Hp%prefix_length. rewrite length_app in Hp. simpl in Hp. lia. Qed.

(** The next bit of a key on the path [p]. *)
Lemma GetBit_path L p key :
  length key = L → p `prefix_of` key_bits key → length p < 8 * L →
  ∃ b, GetBit key (length p) = Ret b ∧ (p ++ [b]) `prefix_of` key_bits key.
Proof.
  intros HL Hp Hlt. destruct (GetBit_ok key (length p)) as (b & Hb & Hl); [lia|].
  exists b. split; [done|]. by apply prefix_snoc.
Qed.

(** ** Entries of a well-formed subtree *)

Lemma wf_entries L p n k v :
  wf L p n → entries n !! k = Some v → length k = L ∧ p `prefix_of` key_bits k.
Proof.
  revert p. induction n as [|s|d| |h rc ch l IHl r IHr]; intros p Hwf Hk; simpl in *;
    try (by rewrite lookup_empty in Hk).
  - apply lookup_singleton_Some in Hk as [<- <-]. done.
  - destruct Hwf as (Hl & Hr & _). apply lookup_union_Some_raw in Hk as [Hk|[_ Hk]].
    + destruct (IHl _ Hl Hk). eauto using prefix_snoc_l.
    + destruct (IHr _ Hr Hk). eauto using prefix_snoc_l.
Qed.

Lemma wf_entries_other L p n k b :
  wf L (p ++ [b]) n → (p ++ [negb b]) `prefix_of` key_bits k → entries n !! k = None.
Proof.
  intros Hwf Hk. destruct (entries n !! k) as [v|] eqn:E; [|done].
  apply (wf_entries _ _ _ _ _ Hwf) in E as [_ Hp].
  apply prefix_snoc_lookup in Hk, Hp. rewrite Hk in Hp. by destruct b.
Qed.

Lemma lookup_union_is_Some_l (m1 m2 : gmap bytes bytes) k :
  is_Some (m1 !! k) → is_Some ((m1 ∪ m2) !! k).
Proof. intros Hk. apply lookup_union_is_Some. by left. Qed.

Lemma lookup_union_is_Some_r (m1 m2 : gmap bytes bytes) k :
  is_Some (m2 !! k) → is_Some ((m1 ∪ m2) !! k).
Proof. intros Hk. apply lookup_union_is_Some. by right. Qed.

Lemma wf_nonempty L p n :
  wf L p n → is_empty n = false → ∃ k, is_Some (entries n !! k).
Proof.
  revert p. induction n as [|s|d| |h rc ch l IHl r IHr]; intros p Hwf He; try done.
  - exists (dln_key d). simpl. rewrite lookup_singleton_eq. eauto.
  - simpl in Hwf |- *. destruct Hwf as (Hl & Hr & [Hc1 Hc2]).
    destruct (is_empty l) eqn:El.
    + assert (is_empty r = false) as Er by (specialize (Hc1 eq_refl); by destruct r).
      destruct (IHr _ Hr Er) as [k Hk]. exists k. by apply lookup_union_is_Some_r.
    + destruct (IHl _ Hl eq_refl) as [k Hk]. exists k. by apply lookup_union_is_Some_l.
Qed.

(** A canonical node below the root that is no leaf has at least two entries. *)
Lemma wf_two L p n :
  wf L p n → is_leaf n = false →
  ∃ k1 k2, k1 ≠ k2 ∧ is_Some (entries n !! k1) ∧ is_Some (entries n !! k2).
Proof.
  revert p. induction n as [|s|d| |h rc ch l IHl r IHr]; intros p Hwf Hleaf; try done.
  simpl in Hwf |- *. destruct Hwf as (Hl & Hr & [Hc1 Hc2]).
  destruct (is_empty l) eqn:El; [|destruct (is_empty r) eqn:Er].
  - destruct (IHr _ Hr (Hc1 eq_refl)) as (k1 & k2 & Hne & H1 & H2).
    exists k1, k2. eauto using lookup_union_is_Some_r.
  - destruct (IHl _ Hl (Hc2 eq_refl)) as (k1 & k2 & Hne & H1 & H2).
    exists k1, k2. eauto using lookup_union_is_Some_l.
  - destruct (wf_nonempty _ _ _ Hl El) as [k1 H1], (wf_nonempty _ _ _ Hr Er) as [k2 H2].
    exists k1, k2. split; [|eauto using lookup_union_is_Some_l, lookup_union_is_Some_r].
    intros <-. destruct H1 as [v1 H1], H2 as [v2 H2].
    apply (wf_entries _ _ _ _ _ Hl) in H1 as [_ H1].
    apply (wf_entries _ _ _ _ _ Hr) in H2 as [_ H2].
    apply prefix_snoc_lookup in H1, H2. congruence.
Qed.

Lemma wf_depth L p h rc ch l r :
  wf L p (Interior h rc ch l r) → length p < 8 * L.
Proof.
  intros Hwf. destruct (wf_two _ _ _ Hwf) as (k & _ & _ & [v Hk] & _); [done|].
  assert (∃ b, (p ++ [b]) `prefix_of` key_bits k ∧ length k = L) as (b & Hp & <-).
  { destruct Hwf as (Hl & Hr & _). simpl in Hk. apply lookup_union_Some_raw in Hk as [Hk|[_ Hk]].
    - exists false. by apply (wf_entries _ _ _ _ _ Hl) in Hk as [].
    - exists true. by apply (wf_entries _ _ _ _ _ Hr) in Hk as []. }
  apply prefix_snoc_length in Hp. by rewrite key_bits_length in Hp.
Qed.

(** ** Canonical tries with equal maps are structurally equal *)

Lemma union_left L p l r k :
  wf L (p ++ [true]) r → (p ++ [false]) `prefix_of` key_bits k →
  (entries l ∪ entries r) !! k = entries l !! k.
Proof.
  intros Hr Hk. apply (wf_entries_other L p r k true Hr) in Hk. rewrite lookup_union, Hk.
  by destruct (entries l !! k).
Qed.

Lemma union_right L p l r k :
  wf L (p ++ [false]) l → (p ++ [true]) `prefix_of` key_bits k →
  (entries l ∪ entries r) !! k = entries r !! k.
Proof.
  intros Hl Hk. apply (wf_entries_other L p l k false Hl) in Hk. by rewrite lookup_union_r.
Qed.

Lemma wf_entries_none L p n k :
  wf L p n → ¬ p `prefix_of` key_bits k → entries n !! k = None.
Proof.
  intros Hwf Hp. destruct (entries n !! k) eqn:E; [|done].
  by apply (wf_entries _ _ _ _ _ Hwf) in E as [_ ?].
Qed.

(** The entries of the two children are determined by those of the node. *)
Lemma entries_children L p l r l' r' :
  wf L (p ++ [false]) l → wf L (p ++ [true]) r →
  wf L (p ++ [false]) l' → wf L (p ++ [true]) r' →
  entries l ∪ entries r = entries l' ∪ entries r' →
  entries l = entries l' ∧ entries r = entries r'.
Proof.
  intros Hl Hr Hl' Hr' Heq. split; apply map_eq; intros k.
  - destruct (decide ((p ++ [false]) `prefix_of` key_bits k)) as [Hk|Hk].
    + by rewrite <- (union_left L p l r k), Heq, (union_left L p l' r' k).
    + by rewrite !(wf_entries_none L (p ++ [false])).
  - destruct (decide ((p ++ [true]) `prefix_of` key_bits k)) as [Hk|Hk].
    + by rewrite <- (union_right L p l r k), Heq, (union_right L p l' r' k).
    + by rewrite !(wf_entries_none L (p ++ [true])).
Qed.

Lemma canonical_unique L p n n' :
  wf L p n → wf L p n' → entries n = entries n' → n ≡ n'.
Proof.
  revert p n'. induction n as [|s|d| |h rc ch l IHl r IHr]; intros p n' Hwf Hwf' Heq;
    try (by destruct Hwf).
  - destruct n' as [|s|d'| |h' rc' ch' l' r']; try done.
    + apply leaf_equiv. simpl in Heq. apply (f_equal (lookup (dln_key d))) in Heq as Hk.
      rewrite lookup_singleton_eq in Hk. symmetry in Hk. by apply lookup_singleton_Some in Hk as [-> ->].
    + destruct (wf_two _ _ _ Hwf' eq_refl) as (k1 & k2 & Hne & [v1 H1] & [v2 H2]).
      rewrite <- Heq in H1, H2. simpl in H1, H2.
      apply lookup_singleton_Some in H1 as [? _], H2 as [? _]. congruence.
  - destruct (is_empty n') eqn:E; [by destruct n'|].
    destruct (wf_nonempty _ _ _ Hwf' E) as [k [v Hk]]. rewrite <- Heq in Hk. done.
  - destruct n' as [|s|d'| |h' rc' ch' l' r']; try (by destruct Hwf').
    + destruct (wf_two _ _ _ Hwf eq_refl) as (k1 & k2 & Hne & [v1 H1] & [v2 H2]).
      rewrite Heq in H1, H2. simpl in H1, H2.
      apply lookup_singleton_Some in H1 as [? _], H2 as [? _]. congruence.
    + destruct (wf_two _ _ _ Hwf eq_refl) as (k1 & _ & _ & [v1 H1] & _).
      by rewrite Heq in H1.
    + destruct Hwf as (Hl & Hr & _), Hwf' as (Hl' & Hr' & _).
      destruct (entries_children _ _ _ _ _ _ Hl Hr Hl' Hr' Heq) as [El Er].
      apply Interior_equiv; eauto.
Qed.

Lemma canonical_root_unique L n n' :
  wf_root L n → wf_root L n' → entries n = entries n' → n ≡ n'.
Proof.
  intros Hwf Hwf' Heq. destruct n as [| | | |h rc ch l r]; try (by destruct Hwf).
  destruct n' as [| | | |h' rc' ch' l' r']; try (by destruct Hwf').
  destruct Hwf as [Hl Hr], Hwf' as [Hl' Hr'].
  destruct (entries_children L [] l r l' r') as [El Er]; auto.
  apply Interior_equiv; eauto using canonical_unique.
Qed.

(** ** Get *)

Lemma getHelper_spec L p n key :
  wf L p n → length key = L → p `prefix_of` key_bits key →
  getHelper n key (length p) = Ret (entries n !! key).
Proof.
  revert p. induction n as [|s|d| |h rc ch l IHl r IHr]; intros p Hwf HL Hp; try done.
  - simpl. destruct (bytes_eqb (dln_key d) key) eqn:E.
    + apply bytes_eqb_true in E as <-. by rewrite lookup_singleton_eq.
    + apply bytes_eqb_false in E. by rewrite lookup_singleton_ne.
  - destruct (GetBit_path L p key HL Hp (wf_depth _ _ _ _ _ _ _ Hwf)) as (b & Hb & Hpb).
    destruct Hwf as (Hl & Hr & _). cbn [getHelper entries]. rewrite Hb. cbn.
    replace (S (length p)) with (length (p ++ [b])) by (rewrite length_app; simpl; lia).
    destruct b.
    + rewrite (IHr _ Hr HL Hpb). by rewrite (union_right L p).
    + rewrite (IHl _ Hl HL Hpb). by rewrite (union_left L p).
Qed.

(** ** Split *)

(** [split] satisfies the recursion of the Go code. *)
Lemma split_unfold a b i :
  split a b i =
    (bitA ← GetBit (dln_key a) i;
     bitB ← GetBit (dln_key b) i;
     if Bool.eqb bitA bitB then
       res ← split a b (S i);
       if (bitA : bool) then mret (NewInteriorNode NewEmptyLeafNode res)
       else mret (NewInteriorNode res NewEmptyLeafNode)
     else if (bitA : bool) then mret (NewInteriorNode (DictionaryLeaf b) (DictionaryLeaf a))
     else mret (NewInteriorNode (DictionaryLeaf a) (DictionaryLeaf b))).
Proof.
  unfold split. destruct (8 * length (dln_key a) - i) as [|f] eqn:E.
  - cbn [split_loop]. rewrite (GetBit_lookup (dln_key a)).
    rewrite (lookup_ge_None_2 (key_bits (dln_key a))) by (rewrite key_bits_length; lia). done.
  - replace (8 * length (dln_key a) - S i) with f by lia. done.
Qed.

Lemma split_spec L p a b :
  wf L p (DictionaryLeaf a) → wf L p (DictionaryLeaf b) → dln_key a ≠ dln_key b →
  ∃ n, split a b (length p) = Ret n ∧ wf L p n ∧ is_leaf n = false ∧
    entries n = <[dln_key b := dln_value b]> {[dln_key a := dln_value a]}.
Proof.
  intros Ha Hb Hne. remember (8 * L - length p) as m eqn:Em.
  revert p Ha Hb Em. induction m as [|m IH]; intros p [HaL Ha] [HbL Hb] Em.
  { exfalso. apply Hne, key_bits_inj; [congruence|].
    assert (∀ k, length k = L → p `prefix_of` key_bits k → key_bits k = p) as Hp.
    { intros k Hk [s Hs]. assert (length s = 0) as ->%length_zero_iff_nil.
      { apply (f_equal length) in Hs. rewrite key_bits_length, length_app in Hs. lia. }
      by rewrite Hs, app_nil_r. }
    by rewrite (Hp _ HaL Ha), (Hp _ HbL Hb). }
  rewrite split_unfold.
  destruct (GetBit_path L p (dln_key a)) as (ba & -> & Hpa); auto; [lia|].
  destruct (GetBit_path L p (dln_key b)) as (bb & -> & Hpb); auto; [lia|]. cbn [mbind outcome_bind].
  destruct (Bool.eqb ba bb) eqn:Eb.
  - apply eqb_prop in Eb as <-.
    assert (Hlen : S (length p) = length (p ++ [ba])) by (rewrite length_app; simpl; lia).
    rewrite Hlen. destruct (IH (p ++ [ba])) as (res & -> & Hwf & Hleaf & He); [done|done|lia|].
    cbn. destruct ba; eexists; (split; [reflexivity|]); simpl; rewrite He;
      repeat split; auto; try (by destruct res).
    + by rewrite (left_id_L ∅ (∪)).
    + by rewrite (right_id_L ∅ (∪)).
  - apply eqb_false_iff in Eb. destruct ba; eexists; (split; [reflexivity|]); simpl;
      destruct bb; try done; repeat split; auto; try congruence.
    + by rewrite <- insert_union_singleton_l.
    + rewrite map_union_comm.
      * by rewrite <- insert_union_singleton_l.
      * apply map_disjoint_singleton_l. by rewrite lookup_singleton_ne.
Qed.

(** ** Insert *)

Lemma new_leaf_key k v : dln_key (NewDictionaryLeafNode k v) = k.
Proof. simpl. by rewrite go_copy_same by (by rewrite length_zeros). Qed.
Lemma new_leaf_value k v : dln_value (NewDictionaryLeafNode k v) = v.
Proof. simpl. by rewrite go_copy_same by (by rewrite length_zeros). Qed.

Lemma DictionaryLeafNode_SetValue_spec d v :
  dln_key (DictionaryLeafNode_SetValue d v) = dln_key d ∧
  dln_value (DictionaryLeafNode_SetValue d v) = v.
Proof.
  unfold DictionaryLeafNode_SetValue. destruct (bytes_eqb (dln_value d) v) eqn:E; simpl; [|done].
  by apply bytes_eqb_true in E.
Qed.

Lemma insertHelper_spec L p n key value :
  0 < L → wf L p n → length key = L → p `prefix_of` key_bits key →
  ∃ n', insertHelper key value (length p) n = Ret n' ∧ wf L p n' ∧
    is_empty n' = false ∧ (is_leaf n = false → is_leaf n' = false) ∧
    entries n' = <[key := value]> (entries n).
Proof.
  intros HLpos. revert p. induction n as [|s|d| |h rc ch l IHl r IHr]; intros p Hwf HL Hp; try done.
  - simpl. destruct (bytes_eqb (dln_key d) key) eqn:E.
    + apply bytes_eqb_true in E as <-.
      destruct (DictionaryLeafNode_SetValue_spec d value) as [Hk Hv].
      eexists; split; [reflexivity|]. simpl. rewrite Hk, Hv. repeat split; auto.
      by rewrite insert_singleton_eq.
    + apply bytes_eqb_false in E. destruct Hwf as [Hdl Hdp].
      destruct (split_spec L p (DictionaryLeafNode_MarkChangedAll d) (NewDictionaryLeafNode key value))
        as (n' & Hn & Hwf & Hleaf & He); [done| |by rewrite new_leaf_key|].
      { split; by rewrite new_leaf_key. }
      rewrite new_leaf_key, new_leaf_value in He.
      exists n'. repeat split; auto. by destruct n'.
  - simpl. destruct (bytes_eqb [] key) eqn:E.
    { apply bytes_eqb_true in E as <-. simpl in HL. lia. }
    eexists; split; [reflexivity|]. simpl. rewrite !go_copy_same by (by rewrite length_zeros).
    repeat split; auto.
  - destruct (GetBit_path L p key HL Hp (wf_depth _ _ _ _ _ _ _ Hwf)) as (b & Hb & Hpb).
    destruct Hwf as (Hl & Hr & [Hc1 Hc2]). cbn [insertHelper]. rewrite Hb. cbn [mbind outcome_bind].
    replace (S (length p)) with (length (p ++ [b])) by (rewrite length_app; simpl; lia).
    destruct b.
    + destruct (IHr _ Hr HL Hpb) as (r' & -> & Hwf' & Hem & Hlf & He). cbn.
      eexists; split; [reflexivity|]. simpl. rewrite He. repeat split; auto; try congruence.
      rewrite insert_union_r; [done|]. by apply (wf_entries_other L p l key false).
    + destruct (IHl _ Hl HL Hpb) as (l' & -> & Hwf' & Hem & Hlf & He). cbn.
      eexists; split; [reflexivity|]. simpl. rewrite He. repeat split; auto; try congruence.
      by rewrite insert_union_l.
Qed.

Lemma insert_root_spec L n key value :
  0 < L → wf_root L n → length key = L →
  ∃ n', insertHelper key value 0 n = Ret n' ∧ wf_root L n' ∧
    entries n' = <[key := value]> (entries n).
Proof.
  intros HLpos Hwf HL. destruct n as [| | | |h rc ch l r]; try done. destruct Hwf as [Hl Hr].
  destruct (GetBit_path L [] key) as (b & Hb & Hpb); auto using prefix_nil; [simpl; lia|].
  simpl in Hb. cbn [insertHelper]. rewrite Hb. cbn [mbind outcome_bind]. destruct b.
  - destruct (insertHelper_spec L [true] r key value) as (r' & Er & Hwf' & _ & _ & He); auto.
    simpl in Er. rewrite Er. eexists; split; [reflexivity|]. simpl. rewrite He. split; [done|].
    rewrite insert_union_r; [done|]. by apply (wf_entries_other L [] l key false).
  - destruct (insertHelper_spec L [false] l key value) as (l' & El & Hwf' & _ & _ & He); auto.
    simpl in El. rewrite El. eexists; split; [reflexivity|]. simpl. rewrite He. split; [done|].
    by rewrite insert_union_l.
Qed.

(** ** Delete *)

Lemma IsLeaf_wf L p n : wf L p n → IsLeaf n = Ret (is_leaf n).
Proof. by destruct n. Qed.
Lemma IsEmpty_wf L p n : wf L p n → IsEmpty n = Ret (is_empty n).
Proof. by destruct n. Qed.

(** Marking a leaf as changed keeps its contents. *)
Lemma MarkChangedAll_leaf L p n :
  wf L p n → is_leaf n = true →
  ∃ n', MarkChangedAll n = Ret n' ∧ is_leaf n' = true ∧ n' ≡ n.
Proof.
  intros Hwf Hl. destruct n; try done; (eexists; split; [reflexivity|]); simpl.
  - split; [done|]. by apply leaf_equiv.
  - done.
Qed.

Lemma wf_equiv_leaf L p n n' :
  wf L p n → is_leaf n' = true → n' ≡ n → wf L p n' ∧ entries n' = entries n.
Proof.
  intros Hwf Hl He. split; [|by rewrite He].
  destruct n'; try done. destruct n; try (by apply equiv_erase in He).
  apply leaf_equiv in He as [Hk _]. simpl in *. by rewrite Hk.
Qed.

(** A leaf below a bit [b] is a leaf above it. *)
Lemma wf_leaf_up L p b n : wf L (p ++ [b]) n → is_leaf n = true → wf L p n.
Proof. intros Hwf Hl. destruct n; try done. destruct Hwf. split; eauto using prefix_snoc_l. Qed.

Lemma entries_empty n : is_empty n = true → entries n = ∅.
Proof. by destruct n. Qed.

(** Children by the bit they are reached by. *)
Definition node_of (h : bytes) (b : bool) (child sibling : Node) : Node :=
  if b then Interior h true true sibling child else Interior h true true child sibling.

Lemma entries_disjoint L p b c s :
  wf L (p ++ [b]) c → wf L (p ++ [negb b]) s → entries c ##ₘ entries s.
Proof.
  intros Hc Hs. apply map_disjoint_spec. intros k x y Hx Hy.
  apply (wf_entries _ _ _ _ _ Hs) in Hy as [_ Hy].
  by rewrite (wf_entries_other L p c k b Hc Hy) in Hx.
Qed.

Lemma entries_node_of L p h b c s :
  wf L (p ++ [b]) c → wf L (p ++ [negb b]) s →
  entries (node_of h b c s) = entries s ∪ entries c.
Proof.
  intros Hc Hs. destruct b; simpl; [done|].
  apply map_union_comm. by eapply (entries_disjoint L p false).
Qed.

(** The end of [deleteHelper] below the root, for either side: a leaf whose
    sibling is empty is pulled up, otherwise the interior node is kept. *)
Lemma delete_tail L p h b c s :
  wf L (p ++ [b]) c → wf L (p ++ [negb b]) s →
  ∃ n', (sEmpty ← IsEmpty s; cLeaf ← IsLeaf c;
         if sEmpty && cLeaf && negb false then mret c
         else cEmpty ← IsEmpty c; sLeaf ← IsLeaf s;
              if cEmpty && sLeaf && negb false then MarkChangedAll s
              else mret (node_of h b c s)) = Ret n'
    ∧ wf L p n' ∧ entries n' = entries s ∪ entries c.
Proof.
  intros Hc Hs.
  rewrite (IsEmpty_wf _ _ _ Hs), (IsLeaf_wf _ _ _ Hc), (IsEmpty_wf _ _ _ Hc), (IsLeaf_wf _ _ _ Hs).
  cbn [mbind outcome_bind negb]. rewrite !andb_true_r.
  destruct (is_empty s && is_leaf c) eqn:E1; [|destruct (is_empty c && is_leaf s) eqn:E2].
  - apply andb_true_iff in E1 as [E1 E1']. exists c. split; [done|].
    split; [by eapply wf_leaf_up|]. by rewrite (entries_empty _ E1), (left_id_L ∅ (∪)).
  - apply andb_true_iff in E2 as [E2 E2'].
    destruct (MarkChangedAll_leaf _ _ _ Hs E2') as (s' & -> & Hs' & Eq).
    destruct (wf_equiv_leaf _ _ _ _ Hs Hs' Eq) as [Hws Es]. exists s'.
    split; [done|]. split; [by eapply wf_leaf_up|].
    by rewrite (entries_empty _ E2), (right_id_L ∅ (∪)).
  - eexists; split; [reflexivity|]. split; [|by eapply entries_node_of].
    assert (is_empty s = true → is_leaf c = false) by (intros Ht; by rewrite Ht in E1).
    assert (is_empty c = true → is_leaf s = false) by (intros Ht; by rewrite Ht in E2).
    by destruct b.
Qed.

Lemma delete_entries L p b c s c' key :
  wf L (p ++ [negb b]) s → (p ++ [b]) `prefix_of` key_bits key →
  entries c' = delete key (entries c) →
  entries s ∪ entries c' = delete key (entries s ∪ entries c).
Proof.
  intros Hs Hk He. rewrite delete_union, He. f_equal. symmetry. apply delete_id.
  apply (wf_entries_other L p s key (negb b) Hs). by rewrite negb_involutive.
Qed.

Lemma deleteHelper_spec L p n key :
  0 < L → wf L p n → length key = L → p `prefix_of` key_bits key →
  ∃ n', deleteHelper key (length p) n false = Ret n' ∧ wf L p n' ∧
    entries n' = delete key (entries n).
Proof.
  intros HLpos. revert p.
  induction n as [|s|d| |h rc ch l IHl r IHr]; intros p Hwf HL Hp; try done.
  - simpl. destruct (bytes_eqb (dln_key d) key) eqn:E; (eexists; split; [reflexivity|]); simpl.
    + apply bytes_eqb_true in E as <-. by rewrite delete_singleton_eq.
    + apply bytes_eqb_false in E. by rewrite delete_singleton_ne.
  - eexists; split; [reflexivity|]. simpl. by rewrite delete_empty.
  - destruct (GetBit_path L p key HL Hp (wf_depth _ _ _ _ _ _ _ Hwf)) as (b & Hb & Hpb).
    destruct Hwf as (Hl & Hr & Hcan). cbn [deleteHelper]. rewrite Hb. cbn [mbind outcome_bind].
    replace (S (length p)) with (length (p ++ [b])) by (rewrite length_app; simpl; lia).
    destruct b.
    + destruct (IHr _ Hr HL Hpb) as (r' & -> & Hwf' & He). cbn [mbind outcome_bind].
      destruct (delete_tail L p h true r' l) as (n' & Hn & Hwn & Hen); [done|done|].
      exists n'. split; [exact Hn|]. split; [done|]. rewrite Hen.
      by apply (delete_entries L p true).
    + destruct (IHl _ Hl HL Hpb) as (l' & -> & Hwf' & He). cbn [mbind outcome_bind].
      destruct (delete_tail L p h false l' r) as (n' & Hn & Hwn & Hen); [done|done|].
      exists n'. split; [exact Hn|]. split; [done|]. rewrite Hen.
      rewrite (delete_entries L p false l r l' key) by done.
      simpl. f_equal. apply map_union_comm. symmetry. by apply (entries_disjoint L p false).
Qed.

Lemma delete_root_spec L n key :
  0 < L → wf_root L n → length key = L →
  ∃ n', deleteHelper key 0 n true = Ret n' ∧ wf_root L n' ∧
    entries n' = delete key (entries n).
Proof.
  intros HLpos Hwf HL. destruct n as [| | | |h rc ch l r]; try done. destruct Hwf as [Hl Hr].
  destruct (GetBit_path L [] key) as (b & Hb & Hpb); auto using prefix_nil; [simpl; lia|].
  simpl in Hb. cbn [deleteHelper]. rewrite Hb. cbn [mbind outcome_bind]. destruct b.
  - destruct (deleteHelper_spec L [true] r key) as (r' & Er & Hwf' & He); auto.
    simpl in Er. rewrite Er. cbn [mbind outcome_bind].
    rewrite (IsEmpty_wf _ _ _ Hl), (IsLeaf_wf _ _ _ Hwf'), (IsEmpty_wf _ _ _ Hwf'), (IsLeaf_wf _ _ _ Hl).
    cbn [mbind outcome_bind negb]. rewrite !andb_false_r.
    eexists; split; [reflexivity|]. simpl. split; [done|]. rewrite delete_union, He. f_equal.
    symmetry. apply delete_id. by apply (wf_entries_other L [] l key false).
  - destruct (deleteHelper_spec L [false] l key) as (l' & El & Hwf' & He); auto.
    simpl in El. rewrite El. cbn [mbind outcome_bind].
    rewrite (IsEmpty_wf _ _ _ Hr), (IsLeaf_wf _ _ _ Hwf'), (IsEmpty_wf _ _ _ Hwf'), (IsLeaf_wf _ _ _ Hr).
    cbn [mbind outcome_bind negb]. rewrite !andb_false_r.
    eexists; split; [reflexivity|]. simpl. split; [done|]. rewrite delete_union, He. f_equal.
    symmetry. apply delete_id. by apply (wf_entries_other L [] r key true).
Qed.
