(* ===== verification/MptInv.v ===== *)
(** * Cache and flag invariants of the full trie

    Every operation of [FullMPT] keeps the hash caches right and the change
    flags closed upwards; [valid] collects the invariants of a trie between
    two operations. *)

From Stdlib Require Import ZArith Lia.
From S2P Require Import Prelude Buffers Sha256 Crypto Utils MptNode MptSpec FullMPT MptTrie.

Section Inv.
Context `{HashFunction}.

(** Caches and flags together: what the mutators preserve. *)
Definition marks_ok (n : Node) : Prop := cache_ok n ∧ flags_ok n.

Lemma marks_new_leaf k v : marks_ok (DictionaryLeaf (NewDictionaryLeafNode k v)).
Proof. split; [apply cache_ok_new_leaf|done]. Qed.

Lemma marks_empty : marks_ok EmptyLeaf.
Proof. done. Qed.

(** A node marked for recalculation and as changed, over good children. *)
Lemma marks_touched h l r :
  length h = 32 → marks_ok l → marks_ok r → marks_ok (Interior h true true l r).
Proof.
  intros Hh [Cl Fl] [Cr Fr]. split; simpl; repeat split; auto; congruence.
Qed.

Lemma marks_children h rc ch l r :
  marks_ok (Interior h rc ch l r) → length h = 32 ∧ marks_ok l ∧ marks_ok r.
Proof. intros [(? & _ & ? & ?) (_ & ? & ?)]. done. Qed.

Lemma marks_MarkChanged_leaf d :
  marks_ok (DictionaryLeaf d) → marks_ok (DictionaryLeaf (DictionaryLeafNode_MarkChangedAll d)).
Proof. intros [C _]. split; [|done]. by destruct d. Qed.

Lemma marks_SetValue d v :
  marks_ok (DictionaryLeaf d) → marks_ok (DictionaryLeaf (DictionaryLeafNode_SetValue d v)).
Proof.
  intros [C _]. split; [|done]. unfold DictionaryLeafNode_SetValue.
  destruct (bytes_eqb (dln_value d) v); [done|]. simpl in *. split; [tauto|congruence].
Qed.

#[local] Hint Resolve marks_new_leaf marks_empty marks_touched marks_MarkChanged_leaf
  marks_SetValue length_zeros : bv.

Lemma marks_split_loop f a b i n :
  split_loop f a b i = Ret n →
  marks_ok (DictionaryLeaf a) → marks_ok (DictionaryLeaf b) → marks_ok n.
Proof.
  revert i n. induction f as [|f IH]; intros i n Hs Ha Hb; [done|]. simpl in Hs.
  apply bind_Ret_inv in Hs as (x & _ & Hs). apply bind_Ret_inv in Hs as (y & _ & Hs).
  destruct (Bool.eqb x y).
  - apply bind_Ret_inv in Hs as (res & Hres & Hs). apply IH in Hres; [|done..].
    destruct x; injection Hs as <-; apply marks_touched; auto with bv.
  - destruct x; injection Hs as <-; apply marks_touched; auto with bv.
Qed.

Lemma marks_insertHelper key value i n n' :
  insertHelper key value i n = Ret n' → marks_ok n → marks_ok n'.
Proof.
  revert i n'. induction n as [|s|d| |h rc ch l IHl r IHr]; intros i n' Hi Hm; simpl in Hi.
  - done.
  - by apply bind_Ret_inv in Hi as (? & _ & ?).
  - case_match; [injection Hi as <-; auto with bv|].
    eapply marks_split_loop; [exact Hi|auto with bv..].
  - case_match; [done|]. injection Hi as <-. auto with bv.
  - apply marks_children in Hm as (Hh & Hl & Hr).
    apply bind_Ret_inv in Hi as ([] & _ & Hi);
      apply bind_Ret_inv in Hi as (c & Hc & Hi); injection Hi as <-; eauto with bv.
Qed.

Lemma marks_deleteHelper key i n root n' :
  deleteHelper key i n root = Ret n' → marks_ok n → marks_ok n'.
Proof.
  revert i root n'. induction n as [|s|d| |h rc ch l IHl r IHr];
    intros i root n' Hd Hm; simpl in Hd.
  - done.
  - by apply bind_Ret_inv in Hd as (? & _ & ?).
  - injection Hd as <-. case_match; auto with bv.
  - injection Hd as <-. auto with bv.
  - apply marks_children in Hm as (Hh & Hl & Hr).
    assert (Hleaf : ∀ x b y, IsLeaf x = Ret b → b = true → MarkChangedAll x = Ret y →
      marks_ok x → marks_ok y).
    { intros x b y Hx -> Hy Hmx. destruct x; simpl in *; try done;
        injection Hy as <-; auto with bv. }
    apply bind_Ret_inv in Hd as ([] & _ & Hd);
      apply bind_Ret_inv in Hd as (c & Hc & Hd);
      apply bind_Ret_inv in Hd as (sE & _ & Hd);
      apply bind_Ret_inv in Hd as (cL & _ & Hd);
      (destruct (sE && cL && negb root); [injection Hd as <-; by eauto|]);
      apply bind_Ret_inv in Hd as (cE & _ & Hd);
      apply bind_Ret_inv in Hd as (sL & HsL & Hd);
      (destruct (cE && sL && negb root) eqn:E;
        [apply andb_true_iff in E as [[_ E]%andb_true_iff _]; eauto
        |injection Hd as <-; eauto with bv]).
Qed.

(** [MarkUnchangedAll] only descends into changed children; with the flag
    invariant that clears the whole tree. *)
Lemma MarkUnchangedAll_spec n :
  no_nil n → flags_ok n →
  ∃ n', MarkUnchangedAll n = Ret n' ∧ unchanged n' ∧ n' ≡ n ∧ flags_ok n'.
Proof.
  assert (Hun : ∀ x, unchanged x → flags_ok x).
  { induction x; simpl; tauto. }
  assert (Hch : ∀ x, no_nil x → flags_ok x →
      (∃ x', MarkUnchangedAll x = Ret x' ∧ unchanged x' ∧ x' ≡ x ∧ flags_ok x') →
      ∃ x', (c ← Changed x; if (c : bool) then MarkUnchangedAll x else mret x) = Ret x'
            ∧ unchanged x' ∧ x' ≡ x ∧ flags_ok x').
  { intros x Hx Hf IH. destruct x as [|s|d| |h rc ch l r]; try done.
    - simpl. destruct (dln_changed d) eqn:E; [done|]. by exists (DictionaryLeaf d).
    - simpl in Hf |- *. destruct ch; [done|]. eexists; split; [reflexivity|].
      simpl. destruct Hf as (Hf & ? & ?). destruct (Hf eq_refl). auto 10. }
  induction n as [|s|d| |h rc ch l IHl r IHr]; intros Hwf Hf; try done.
  - by exists (StubNode s).
  - eexists; split; [reflexivity|]. by rewrite leaf_equiv.
  - by exists EmptyLeaf.
  - destruct Hwf as (Hl & Hr), Hf as (_ & Fl & Fr).
    destruct (Hch l Hl Fl (IHl Hl Fl)) as (l' & El & Ul & Ql & Gl).
    destruct (Hch r Hr Fr (IHr Hr Fr)) as (r' & Er & Ur & Qr & Gr).
    exists (Interior h rc false l' r').
    assert (Hcomp : MarkUnchangedAll (Interior h rc ch l r) =
        (l' ← (c ← Changed l; if (c : bool) then MarkUnchangedAll l else mret l);
         r' ← (c ← Changed r; if (c : bool) then MarkUnchangedAll r else mret r);
         mret (Interior h rc false l' r'))).
    { simpl. destruct (Changed l) as [[]| |]; simpl; auto.
      - destruct (MarkUnchangedAll l); simpl; auto. by destruct (Changed r).
      - by destruct (Changed r). }
    rewrite Hcomp, El, Er. split; [done|]. split; [done|]. split; [by apply Interior_equiv|done].
Qed.

(** Marking touches no cache. *)
Lemma cache_MarkUnchangedAll n n' :
  MarkUnchangedAll n = Ret n' →
  (cache_ok n → cache_ok n') ∧ (clean n → clean n') ∧ n' ≡ n.
Proof.
  revert n'. induction n as [|s|d| |h rc ch l IHl r IHr]; intros n' Hm; simpl in Hm;
    try (by inv_ret).
  assert (Hch : ∀ x c x', (∀ n', MarkUnchangedAll x = Ret n' →
      (cache_ok x → cache_ok n') ∧ (clean x → clean n') ∧ n' ≡ x) →
      (if (c : bool) then MarkUnchangedAll x else mret x) = Ret x' →
      (cache_ok x → cache_ok x') ∧ (clean x → clean x') ∧ x' ≡ x).
  { intros x c x' IH Hx. destruct c; [by apply IH|]. by injection Hx as <-. }
  apply bind_Ret_inv in Hm as (cl & _ & Hm). apply bind_Ret_inv in Hm as (l' & Hl & Hm).
  apply bind_Ret_inv in Hm as (cr & _ & Hm). apply bind_Ret_inv in Hm as (r' & Hr & Hm).
  injection Hm as <-. apply Hch in Hl as (Cl & Kl & El); [|done].
  apply Hch in Hr as (Cr & Kr & Er); [|done].
  split; [|split; [simpl; tauto|by apply Interior_equiv]].
  simpl. rewrite (hashOf_proper _ _ El), (hashOf_proper _ _ Er). tauto.
Qed.
End Inv.
