(* ===== verification/MptTheorems.v ===== *)
(** * Correctness of the full trie

    [FullMPT] refines a finite map from keys to values: whatever sequence of
    operations is run, the trie holds the map the sequence describes, and the
    commitment is a function of that map. *)

From Stdlib Require Import ZArith Lia.
From S2P Require Import Prelude Buffers Sha256 Crypto Utils MptNode MptSpec FullMPT MptTrie MptInv.

(** ** The abstract dictionary *)

(** The operations a client of [FullMPT] can interleave. *)
Inductive op :=
| OInsert (key value : bytes)
| ODelete (key : bytes)
| OCommitment
| OReset.

Definition op_key_ok (L : nat) (o : op) : Prop :=
  match o with
  | OInsert k _ | ODelete k => length k = L
  | _ => True
  end.

(** The specification: a map; commitments and resets do not change it. *)
Definition spec_op (o : op) (m : gmap bytes bytes) : gmap bytes bytes :=
  match o with
  | OInsert k v => <[k := v]> m
  | ODelete k => delete k m
  | _ => m
  end.

Section Dictionary.
Context `{HashFunction}.

Definition run_op (o : op) (fm : FullMPT) : outcome FullMPT :=
  match o with
  | OInsert k v => Insert fm k v
  | ODelete k => Delete fm k
  | OCommitment => '(_, fm) ← Commitment fm; mret fm
  | OReset => Reset fm
  end.

Definition run (ops : list op) (fm : FullMPT) : outcome FullMPT :=
  foldl (fun acc o => acc ≫= run_op o) (Ret fm) ops.

(** The invariant of a trie between two operations. *)
Definition valid (L : nat) (fm : FullMPT) : Prop :=
  wf_root L (fm_root fm) ∧ marks_ok (fm_root fm).

(** ** One operation *)

Lemma valid_New L : valid L NewFullMPT.
Proof. split; [done|]. apply marks_touched; auto using marks_empty. Qed.

Lemma Insert_spec L fm key value :
  0 < L → valid L fm → length key = L →
  ∃ fm', Insert fm key value = Ret fm' ∧ valid L fm' ∧
    entries (fm_root fm') = <[key := value]> (entries (fm_root fm)).
Proof.
  intros HL [Hwf Hm] Hk. destruct (insert_root_spec L (fm_root fm) key value) as (n & Hn & Hwn & He); auto.
  exists (MkFullMPT n). unfold Insert. rewrite Hn. split; [done|].
  split; [split; [done|]|done]. by eapply marks_insertHelper.
Qed.

Lemma Delete_spec L fm key :
  0 < L → valid L fm → length key = L →
  ∃ fm', Delete fm key = Ret fm' ∧ valid L fm' ∧
    entries (fm_root fm') = delete key (entries (fm_root fm)).
Proof.
  intros HL [Hwf Hm] Hk. destruct (delete_root_spec L (fm_root fm) key) as (n & Hn & Hwn & He); auto.
  exists (MkFullMPT n). unfold Delete. rewrite Hn. split; [done|].
  split; [split; [done|]|done]. by eapply marks_deleteHelper.
Qed.

Lemma Get_wf L fm key :
  0 < L → wf_root L (fm_root fm) → length key = L → Get fm key = Ret (entries (fm_root fm) !! key).
Proof.
  intros HL Hwf Hk. unfold Get. destruct (fm_root fm) as [| | | |h rc ch l r]; try done.
  destruct Hwf as [Hl Hr].
  destruct (GetBit_path L [] key) as (b & Hb & Hpb); auto using prefix_nil; [simpl; lia|].
  simpl in Hb. cbn [getHelper]. rewrite Hb. simpl. destruct b.
  - rewrite (union_right L []) by done. by apply (getHelper_spec L [true]).
  - rewrite (union_left L []) by done. by apply (getHelper_spec L [false]).
Qed.

Lemma Get_spec L fm key :
  0 < L → valid L fm → length key = L → Get fm key = Ret (entries (fm_root fm) !! key).
Proof. intros HL [Hwf _]. by apply Get_wf. Qed.

(** Structural equality carries the shape invariants over. *)
Lemma wf_proper L p n n' : n ≡ n' → wf L p n → wf L p n'.
Proof.
  revert p n'. induction n as [|s|d| |h rc ch l IHl r IHr]; intros p n' He Hwf; try done.
  - destruct n'; try (by apply equiv_erase in He). apply leaf_equiv in He as [Hk _].
    simpl in *. by rewrite <- Hk.
  - apply equiv_erase in He. by destruct n'.
  - apply equiv_Interior_inv in He as (h' & rc' & ch' & l' & r' & -> & El & Er).
    destruct Hwf as (Hl & Hr & Hc1 & Hc2).
    assert (Hsh : ∀ x y, x ≡ y → is_empty x = is_empty y ∧ is_leaf x = is_leaf y).
    { intros x y Hxy. apply equiv_erase in Hxy. by destruct x, y. }
    destruct (Hsh _ _ El) as [E1 E2], (Hsh _ _ Er) as [E3 E4].
    simpl. unfold canonical. rewrite <- E1, <- E2, <- E3, <- E4.
    split; [by eauto|]. split; [by eauto|done].
Qed.

Lemma wf_root_proper L n n' : n ≡ n' → wf_root L n → wf_root L n'.
Proof.
  intros He Hwf. destruct n; try done.
  apply equiv_Interior_inv in He as (h' & rc' & ch' & l' & r' & -> & El & Er).
  destruct Hwf. split; by eapply wf_proper.
Qed.

Lemma wf_root_not_nil L n : wf_root L n → n ≠ NilNode.
Proof. by destruct n. Qed.

(** The tree without its hash caches; [GetHash] changes nothing else. *)
Fixpoint strip (n : Node) : Node :=
  match n with
  | DictionaryLeaf d => DictionaryLeaf (MkDLN (dln_key d) (dln_value d) [] (dln_changed d) false)
  | Interior _ _ ch l r => Interior [] false ch (strip l) (strip r)
  | _ => n
  end.

Lemma unchanged_strip n : unchanged (strip n) ↔ unchanged n.
Proof. induction n; simpl; tauto. Qed.

Lemma flags_strip n : flags_ok (strip n) ↔ flags_ok n.
Proof. induction n; simpl; rewrite ?unchanged_strip; tauto. Qed.

Lemma GetHash_strip n h n' : GetHash n = Ret (h, n') → strip n' = strip n.
Proof.
  revert h n'. induction n as [|s|d| |h0 rc ch l IHl r IHr]; intros h n' Hg; simpl in Hg;
    try (by inv_ret).
  - unfold DictionaryLeafNode_GetHash in Hg.
    destruct (dln_recalculateHash d); injection Hg as <- <-; done.
  - destruct rc; [|by injection Hg as <- <-].
    apply bind_Ret_inv in Hg as ([hl l'] & Hgl & Hg).
    apply bind_Ret_inv in Hg as ([hr r'] & Hgr & Hg). injection Hg as <- <-. simpl. f_equal.
    + destruct (is_nil l); [by inv_ret|eauto].
    + destruct (is_nil r); [by inv_ret|eauto].
Qed.

Lemma flags_GetHash n h n' : GetHash n = Ret (h, n') → flags_ok n → flags_ok n'.
Proof. intros Hg. by rewrite <- flags_strip, <- (flags_strip n'), (GetHash_strip _ _ _ Hg). Qed.

Lemma Commitment_spec L fm :
  valid L fm →
  ∃ fm', Commitment fm = Ret (hashOf (fm_root fm), fm') ∧ valid L fm' ∧
    fm_root fm' ≡ fm_root fm ∧ clean (fm_root fm').
Proof.
  intros [Hwf [Hc Hf]]. destruct (GetHash_spec (fm_root fm)) as (n & Hn & Heq & Hcn & Hk);
    eauto using wf_root_not_nil.
  exists (MkFullMPT n). unfold Commitment. rewrite Hn. split; [done|].
  split; [|done]. split; [|split]; simpl.
  - eapply wf_root_proper; [|done]. by symmetry.
  - done.
  - by eapply flags_GetHash.
Qed.

Lemma Reset_spec L fm :
  valid L fm →
  ∃ fm', Reset fm = Ret fm' ∧ valid L fm' ∧ fm_root fm' ≡ fm_root fm ∧ unchanged (fm_root fm').
Proof.
  intros [Hwf [Hc Hf]]. destruct (MarkUnchangedAll_spec (fm_root fm)) as (n & Hn & Hu & He & Hfn);
    eauto using wf_root_no_nil.
  exists (MkFullMPT n). unfold Reset. rewrite Hn. split; [done|]. split; [|done].
  destruct (cache_MarkUnchangedAll _ _ Hn) as (Hcn & _ & _). split; [|by split; auto].
  eapply wf_root_proper; [|done]. by symmetry.
Qed.

(** ** Sequences of operations *)

Lemma run_op_spec L o fm :
  0 < L → op_key_ok L o → valid L fm →
  ∃ fm', run_op o fm = Ret fm' ∧ valid L fm' ∧
    entries (fm_root fm') = spec_op o (entries (fm_root fm)).
Proof.
  intros HL Hk Hv. destruct o as [k v|k| |]; simpl in *.
  - by apply Insert_spec.
  - by apply Delete_spec.
  - destruct (Commitment_spec L fm Hv) as (fm' & -> & Hv' & He & _). simpl.
    exists fm'. by rewrite (entries_proper _ _ He).
  - destruct (Reset_spec L fm Hv) as (fm' & -> & Hv' & He & _).
    exists fm'. by rewrite (entries_proper _ _ He).
Qed.

Lemma run_cons o ops fm fm' : run_op o fm = Ret fm' → run (o :: ops) fm = run ops fm'.
Proof. intros Ho. unfold run. simpl. by rewrite Ho. Qed.

Lemma run_spec L ops fm :
  0 < L → Forall (op_key_ok L) ops → valid L fm →
  ∃ fm', run ops fm = Ret fm' ∧ valid L fm' ∧
    entries (fm_root fm') = foldl (flip spec_op) (entries (fm_root fm)) ops.
Proof.
  intros HL Hops. revert fm. induction Hops as [|o ops Ho Hops IH]; intros fm Hv.
  - by exists fm.
  - destruct (run_op_spec L o fm) as (fm1 & Hr1 & Hv1 & He1); auto.
    destruct (IH fm1 Hv1) as (fm' & Hr & Hv' & He). exists fm'.
    rewrite (run_cons _ _ _ _ Hr1). split; [done|]. split; [done|].
    rewrite He, He1. done.
Qed.
End Dictionary.

(** ** Counting *)

Lemma counts_spec L p n :
  wf L p n ∨ (wf_root L n ∧ p = []) →
  ∃ i e d, NodesInSubtree n = Ret (i + e + d)%Z ∧ InteriorNodesInSubtree n = Ret i ∧
    EmptyLeafNodesInSubtree n = Ret e ∧ NonEmptyLeafNodesInSubtree n = Ret d ∧
    d = Z.of_nat (size (entries n)) ∧ (e + d = i + 1)%Z.
Proof.
  revert p. induction n as [|s|d| |h rc ch l IHl r IHr]; intros p Hwf;
    try (by destruct Hwf as [?|[? _]]).
  - exists 0%Z, 0%Z, 1%Z. simpl. by rewrite map_size_singleton.
  - exists 0%Z, 1%Z, 0%Z. simpl. by rewrite map_size_empty.
  - assert (wf L (p ++ [false]) l ∧ wf L (p ++ [true]) r) as [Hl Hr].
    { destruct Hwf as [(? & ? & _)|[[? ?] ->]]; done. }
    destruct (IHl (p ++ [false])) as (i1 & e1 & d1 & N1 & I1 & E1 & D1 & S1 & Q1); [by left|].
    destruct (IHr (p ++ [true])) as (i2 & e2 & d2 & N2 & I2 & E2 & D2 & S2 & Q2); [by left|].
    assert (is_nil l = false) as Nl by by destruct l.
    assert (is_nil r = false) as Nr by by destruct r.
    exists (1 + i1 + i2)%Z, (e1 + e2)%Z, (d1 + d2)%Z. simpl. rewrite Nl, Nr.
    rewrite N1, N2, I1, I2, E1, E2, D1, D2. simpl.
    rewrite map_size_disj_union by (by apply (entries_disjoint L p false)).
    repeat split; [f_equal; lia|lia|lia].
Qed.

Lemma height_spec L p n :
  wf L p n → length p ≤ 8 * L →
  ∃ h, GetNodeHeight n = Ret h ∧ (0 ≤ h ∧ h + Z.of_nat (length p) ≤ 8 * Z.of_nat L)%Z.
Proof.
  revert p. induction n as [|s|d| |h rc ch l IHl r IHr]; intros p Hwf Hp; try done.
  - exists 0%Z. split; [done|lia].
  - exists 0%Z. split; [done|lia].
  - pose proof (wf_depth _ _ _ _ _ _ _ Hwf) as Hd. destruct Hwf as (Hl & Hr & _).
    destruct (IHl _ Hl) as (hl & El & Bl); [rewrite length_app; simpl; lia|].
    destruct (IHr _ Hr) as (hr & Er & Br); [rewrite length_app; simpl; lia|].
    exists (Max hl hr + 1)%Z. simpl. rewrite El, Er. split; [done|].
    rewrite length_app in Bl, Br. simpl in Bl, Br. unfold Max. case_bool_decide; lia.
Qed.

(** ** Claims *)

Section Claims.
Context `{HashFunction}.

(** C1. Refinement. Any sequence of insertions, deletions, commitments and
    resets with keys of one non-zero length [L], run from the empty trie,
    succeeds (no panic), keeps the invariants, and afterwards [Get] answers
    every key of that length as the map built by the same insertions and
    deletions does. *)
Theorem run_refines_map (L : nat) (ops : list op)
  (HL : 0 < L) (Hops : Forall (op_key_ok L) ops) :
  ∃ fm, run ops NewFullMPT = Ret fm ∧ valid L fm ∧
    entries (fm_root fm) = foldl (flip spec_op) ∅ ops ∧
    ∀ key, length key = L → Get fm key = Ret (foldl (flip spec_op) ∅ ops !! key).
Proof.
  destruct (run_spec L ops NewFullMPT) as (fm & Hr & Hv & He); auto using valid_New.
  exists fm. repeat split; try apply Hv; auto.
  intros key Hk. rewrite (Get_spec L) by done. by rewrite He.
Qed.

(** C14. History independence. Two sequences of operations that describe the
    same map lead to tries that are equal for the code's [Equals] and have
    the same commitment, whatever the order of the insertions, the values
    and keys that came and went, and the commitments and resets in between. *)
Theorem commitment_history_independent (L : nat) (ops1 ops2 : list op)
  (HL : 0 < L) (H1 : Forall (op_key_ok L) ops1) (H2 : Forall (op_key_ok L) ops2)
  (Hmap : foldl (flip spec_op) ∅ ops1 = foldl (flip spec_op) ∅ ops2) :
  ∃ fm1 fm2 fm1' fm2' c,
    run ops1 NewFullMPT = Ret fm1 ∧ run ops2 NewFullMPT = Ret fm2 ∧
    Equals (fm_root fm1) (fm_root fm2) = true ∧
    Commitment fm1 = Ret (c, fm1') ∧ Commitment fm2 = Ret (c, fm2').
Proof.
  destruct (run_spec L ops1 NewFullMPT) as (fm1 & Hr1 & Hv1 & He1); auto using valid_New.
  destruct (run_spec L ops2 NewFullMPT) as (fm2 & Hr2 & Hv2 & He2); auto using valid_New.
  assert (Heq : fm_root fm1 ≡ fm_root fm2).
  { apply (canonical_root_unique L); [apply Hv1|apply Hv2|]. rewrite He1, He2. apply Hmap. }
  destruct (Commitment_spec L fm1 Hv1) as (fm1' & Hc1 & _).
  destruct (Commitment_spec L fm2 Hv2) as (fm2' & Hc2 & _).
  exists fm1, fm2, fm1', fm2', (hashOf (fm_root fm1)).
  rewrite Hc1, Hc2, (hashOf_proper _ _ Heq).
  repeat split; auto. apply Equals_spec; [|done]. eapply wf_root_not_nil, Hv1.
Qed.

(** Lazy hashing. On a trie that satisfies the invariants, [Commitment]
    returns the Merkle hash of the current contents whatever is cached,
    changes the trie only in its caches, and leaves no hash to recalculate:
    [CountRecalculations] is then 0 and a second [Commitment] returns the
    same hash from the cache. *)
Theorem Commitment_lazy (L : nat) (fm : FullMPT) (Hv : valid L fm) :
  ∃ fm', Commitment fm = Ret (hashOf (fm_root fm), fm') ∧
    fm_root fm' ≡ fm_root fm ∧ valid L fm' ∧
    CountRecalculations fm' = Ret 0%Z ∧
    Commitment fm' = Ret (hashOf (fm_root fm), fm').
Proof.
  destruct (Commitment_spec L fm Hv) as (fm' & Hc & Hv' & Heq & Hk).
  exists fm'. split; [done|]. split; [done|]. split; [done|].
  destruct fm' as [[| | | |h rc ch l r]]; try (by destruct Hv' as [[] _]).
  destruct Hv' as [_ [Hcache _]]. simpl in *. destruct Hk as (-> & _).
  unfold CountRecalculations, Commitment. simpl. split; [done|].
  destruct Hcache as (_ & Hh & _). destruct (Hh eq_refl) as [-> _].
  by rewrite <- (hashOf_proper _ _ Heq).
Qed.

(** Counts and height. For a valid trie over [L]-byte keys, [Size] is the
    number of keys in the map, the node counts add up as in a full binary
    tree, and [MaxHeight] is at most the number of bits of a key. *)
Theorem trie_counts (L : nat) (fm : FullMPT) (HL : 0 < L) (Hv : valid L fm) :
  ∃ i e h,
    Size fm = Ret (Z.of_nat (size (entries (fm_root fm)))) ∧
    CountInteriorNodes fm = Ret i ∧ CountEmptyLeafNodes fm = Ret e ∧
    CountNodes fm = Ret (i + e + Z.of_nat (size (entries (fm_root fm))))%Z ∧
    (e + Z.of_nat (size (entries (fm_root fm))) = i + 1)%Z ∧
    MaxHeight fm = Ret h ∧ (0 < h ≤ 8 * Z.of_nat L)%Z.
Proof.
  destruct Hv as [Hwf _]. destruct (counts_spec L [] (fm_root fm)) as (i & e & d & N & I & E & D & -> & Q).
  { by right. }
  destruct fm as [[| | | |hh rc ch l r]]; try done. destruct Hwf as [Hl Hr].
  destruct (height_spec L [false] l Hl) as (hl & El & Bl); [simpl; lia|].
  destruct (height_spec L [true] r Hr) as (hr & Er & Br); [simpl; lia|].
  exists i, e, (Max hl hr + 1)%Z. unfold Size, CountInteriorNodes, CountEmptyLeafNodes, CountNodes.
  repeat split; auto.
  - unfold MaxHeight. simpl. by rewrite El, Er.
  - unfold Max. case_bool_decide; lia.
  - simpl in Bl, Br. unfold Max. case_bool_decide; lia.
Qed.

(** Copies. [Copy] of a trie without pending recalculations, as [Commit]
    takes it right after [Commitment], is a valid trie that is structurally
    equal and has the same commitment without rehashing anything. *)
Theorem Copy_after_Commitment (L : nat) (fm : FullMPT) (Hv : valid L fm) :
  ∃ c fm1 fm2, Commitment fm = Ret (c, fm1) ∧ Copy fm1 = Ret fm2 ∧
    wf_root L (fm_root fm2) ∧ cache_ok (fm_root fm2) ∧
    entries (fm_root fm2) = entries (fm_root fm) ∧
    CountRecalculations fm2 = Ret 0%Z ∧ Commitment fm2 = Ret (c, fm2).
Proof.
  destruct (Commitment_spec L fm Hv) as (fm1 & Hc & [Hwf1 [Hcache1 _]] & Heq & Hk).
  destruct (DeepCopy_spec (fm_root fm1)) as (n & Hn & En & Hcn & Hkn); eauto using wf_root_not_nil.
  assert (Hwn : wf_root L n) by (eapply wf_root_proper; [symmetry; exact En|done]).
  destruct n as [| | | |h rc ch l r]; try done.
  exists (hashOf (fm_root fm)), fm1, (MkFullMPT (Interior h rc ch l r)).
  split; [done|]. unfold Copy. rewrite Hn. split; [done|]. split; [done|]. split; [done|].
  split; [cbn [fm_root]; rewrite (entries_proper _ _ En); by apply entries_proper|].
  destruct Hkn as (-> & _), Hcn as (_ & Hh & _). destruct (Hh eq_refl) as [-> _].
  split; [done|]. unfold Commitment. cbn [fm_root GetHash mbind outcome_bind mret outcome_ret].
  do 2 f_equal. rewrite <- (hashOf_proper _ _ Heq). apply (hashOf_proper _ _ En).
Qed.
End Claims.

(** ** Instances *)

(** Four one-byte keys, one of them inserted twice and one deleted. *)
Definition sample_ops : list op :=
  [OInsert [x10] [x01]; OInsert [x90] [x02]; OCommitment; OInsert [x11] [x03];
   OReset; OInsert [x10] [x04]; ODelete [x90]; OInsert [xf0] [x05]].
Definition sample_ops' : list op :=
  [OInsert [xf0] [x05]; OInsert [x11] [x03]; OInsert [x10] [x04]].

(** The trie [run] returns, [NewFullMPT] if it fails. *)
Definition trie_of `{HashFunction} (ops : list op) : FullMPT :=
  match run ops NewFullMPT with Ret fm => fm | _ => NewFullMPT end.

Lemma sample_keys : Forall (op_key_ok 1) sample_ops ∧ Forall (op_key_ok 1) sample_ops'.
Proof. split; repeat constructor. Qed.

Lemma trie_of_valid `{HashFunction} L ops :
  0 < L → Forall (op_key_ok L) ops → valid L (trie_of ops).
Proof.
  intros HL Hops. destruct (run_spec L ops NewFullMPT) as (fm & Hr & Hv & _); auto using valid_New.
  unfold trie_of. by rewrite Hr.
Qed.

Lemma run_refines_map_witness : ∃ fm, run sample_ops NewFullMPT = Ret fm ∧ valid 1 fm ∧
    entries (fm_root fm) = foldl (flip spec_op) ∅ sample_ops ∧
    ∀ key, length key = 1 → Get fm key = Ret (foldl (flip spec_op) ∅ sample_ops !! key).
Proof. apply (run_refines_map 1 sample_ops); [lia|apply sample_keys]. Defined.

Lemma commitment_history_independent_witness :
  foldl (flip spec_op) ∅ sample_ops = foldl (flip spec_op) ∅ sample_ops' ∧
  ∃ fm1 fm2 fm1' fm2' c,
    run sample_ops NewFullMPT = Ret fm1 ∧ run sample_ops' NewFullMPT = Ret fm2 ∧
    Equals (fm_root fm1) (fm_root fm2) = true ∧
    Commitment fm1 = Ret (c, fm1') ∧ Commitment fm2 = Ret (c, fm2').
Proof.
  assert (E : foldl (flip spec_op) ∅ sample_ops = foldl (flip spec_op) ∅ sample_ops').
  { apply (bool_decide_unpack _). vm_compute. exact I. }
  split; [exact E|].
  apply (commitment_history_independent 1 sample_ops sample_ops'); [lia|apply sample_keys..|exact E].
Defined.

Lemma Commitment_lazy_witness :
  valid 1 (trie_of sample_ops) ∧
  ∃ fm', Commitment (trie_of sample_ops) = Ret (hashOf (fm_root (trie_of sample_ops)), fm') ∧
    fm_root fm' ≡ fm_root (trie_of sample_ops) ∧ valid 1 fm' ∧
    CountRecalculations fm' = Ret 0%Z ∧
    Commitment fm' = Ret (hashOf (fm_root (trie_of sample_ops)), fm').
Proof.
  assert (Hv : valid 1 (trie_of sample_ops)) by (apply trie_of_valid; [lia|apply sample_keys]).
  split; [exact Hv|]. apply (Commitment_lazy 1 _ Hv).
Defined.

Lemma trie_counts_witness :
  valid 1 (trie_of sample_ops) ∧ ∃ i e h,
    Size (trie_of sample_ops) = Ret 3%Z ∧
    CountInteriorNodes (trie_of sample_ops) = Ret i ∧ CountEmptyLeafNodes (trie_of sample_ops) = Ret e ∧
    CountNodes (trie_of sample_ops) = Ret (i + e + 3)%Z ∧ (e + 3 = i + 1)%Z ∧
    MaxHeight (trie_of sample_ops) = Ret h ∧ (0 < h ≤ 8)%Z.
Proof.
  assert (Hv : valid 1 (trie_of sample_ops)) by (apply trie_of_valid; [lia|apply sample_keys]).
  split; [exact Hv|].
  assert (E : size (entries (fm_root (trie_of sample_ops))) = 3) by (vm_compute; reflexivity).
  pose proof (trie_counts 1 _ ltac:(lia) Hv) as Hc. rewrite E in Hc. exact Hc.
Defined.

Lemma Copy_after_Commitment_witness :
  valid 1 (trie_of sample_ops) ∧
  ∃ c fm1 fm2, Commitment (trie_of sample_ops) = Ret (c, fm1) ∧ Copy fm1 = Ret fm2 ∧
    wf_root 1 (fm_root fm2) ∧ cache_ok (fm_root fm2) ∧
    entries (fm_root fm2) = entries (fm_root (trie_of sample_ops)) ∧
    CountRecalculations fm2 = Ret 0%Z ∧ Commitment fm2 = Ret (c, fm2).
Proof.
  assert (Hv : valid 1 (trie_of sample_ops)) by (apply trie_of_valid; [lia|apply sample_keys]).
  split; [exact Hv|]. apply (Copy_after_Commitment 1 _ Hv).
Defined.
