(* ===== verification/MptBinding.v ===== *)
(** * What a commitment binds

    Two tries with one commitment hold the same map, or they exhibit one of
    three things: two colliding messages hashed in them, a hashed message with digest 0
    (the hash of the empty leaf), or a leaf in one trie whose key and value
    are the child hashes of an interior node of the other.  The first two are
    infeasible to find; the third is not, because leaf and interior hashes are
    not separated: [second_map_same_commitment] gives two different maps with
    the same commitment. *)

From Stdlib Require Import ZArith Lia.
From S2P Require Import Prelude Buffers Sha256 Crypto Utils MptNode MptSpec FullMPT MptTrie MptInv MptTheorems.

(** The nodes of a tree. *)
Inductive in_tree (x : Node) : Node → Prop :=
| in_here : in_tree x x
| in_left h rc ch l r : in_tree x l → in_tree x (Interior h rc ch l r)
| in_right h rc ch l r : in_tree x r → in_tree x (Interior h rc ch l r).

#[export] Hint Constructors in_tree : bv.

Lemma in_tree_trans a b c : in_tree a b → in_tree b c → in_tree a c.
Proof. intros Hab Hbc. induction Hbc; auto with bv. Qed.

Section Binding.
Context `{HashFunction}.

(** The messages hashed to compute the hash of a tree. *)
Fixpoint hashed (n : Node) : list bytes :=
  match n with
  | DictionaryLeaf d => [dln_key d ++ dln_value d]
  | Interior _ _ _ l r => (hashOf l ++ hashOf r) :: hashed l ++ hashed r
  | _ => []
  end.

Lemma hashed_mono a b : in_tree a b → hashed a ⊆ hashed b.
Proof. induction 1; simpl; [done|set_solver..]. Qed.

(** A collision between a message hashed in [a] and one hashed in [b]. *)
Definition collision_in (a b : Node) : Prop :=
  ∃ x y, x ∈ hashed a ∧ y ∈ hashed b ∧ collides x y.

(** A message hashed in [a] or [b] whose digest is the hash of the empty leaf. *)
Definition zero_in (a b : Node) : Prop :=
  ∃ x, x ∈ hashed a ++ hashed b ∧ Sum256 x = zeros 32.

(** A leaf of [a] and an interior node of [b] that hash the same 64 bytes. *)
Definition leaf_as_interior (a b : Node) : Prop :=
  ∃ d h rc ch l r,
    in_tree (DictionaryLeaf d) a ∧ in_tree (Interior h rc ch l r) b ∧
    dln_key d ++ dln_value d = hashOf l ++ hashOf r.

Definition ambiguous (a b : Node) : Prop :=
  collision_in a b ∨ zero_in a b ∨ leaf_as_interior a b ∨ leaf_as_interior b a.

Lemma ambiguous_mono a b a' b' :
  in_tree a a' → in_tree b b' → ambiguous a b → ambiguous a' b'.
Proof.
  intros Ha Hb. pose proof (hashed_mono _ _ Ha). pose proof (hashed_mono _ _ Hb).
  intros [(x & y & ? & ? & ?)|[(x & ? & ?)|[Hx|Hx]]].
  - left. exists x, y. set_solver.
  - right; left. exists x. rewrite elem_of_app in *. split; [naive_solver|done].
  - right; right; left. destruct Hx as (d & h1 & rc1 & ch1 & l & r1 & ? & ? & ?).
    exists d, h1, rc1, ch1, l, r1. eauto using in_tree_trans.
  - right; right; right. destruct Hx as (d & h1 & rc1 & ch1 & l & r1 & ? & ? & ?).
    exists d, h1, rc1, ch1, l, r1. eauto using in_tree_trans.
Qed.

Lemma ambiguous_sym a b : ambiguous a b → ambiguous b a.
Proof.
  intros [(x & y & ? & ? & ? & ?)|[(x & ? & ?)|[Hx|Hx]]].
  - left. exists y, x. unfold collides. auto.
  - right; left. exists x. rewrite elem_of_app in *. split; [tauto|done].
  - by right; right; right.
  - by right; right; left.
Qed.

Lemma hashOf_length L p n : wf L p n → length (hashOf n) = 32.
Proof. destruct n; simpl; intros; try done; auto using Witness_length, Sum256_length. Qed.

(** What an equation between two hashes says about the nodes at their tops. *)
Lemma leaf_leaf_ambiguous d d' :
  hashOf (DictionaryLeaf d) = hashOf (DictionaryLeaf d') →
  dln_key d ++ dln_value d = dln_key d' ++ dln_value d' ∨
  ambiguous (DictionaryLeaf d) (DictionaryLeaf d').
Proof.
  simpl. rewrite !WitnessKeyAndValue_spec. intros [Heq|?]%Sum256_inj_or; [by left|].
  right; left. do 2 eexists. split; [by left|]. split; [by left|done].
Qed.

Lemma leaf_interior_ambiguous d h rc ch l r :
  hashOf (DictionaryLeaf d) = hashOf (Interior h rc ch l r) →
  ambiguous (DictionaryLeaf d) (Interior h rc ch l r).
Proof.
  simpl. rewrite WitnessKeyAndValue_spec. intros [Heq|?]%Sum256_inj_or.
  - right; right; left. exists d, h, rc, ch, l, r. auto with bv.
  - left. do 2 eexists. split; [by left|]. split; [by left|done].
Qed.

Lemma interior_interior_ambiguous h rc ch l r h' rc' ch' l' r' :
  hashOf (Interior h rc ch l r) = hashOf (Interior h' rc' ch' l' r') →
  hashOf l ++ hashOf r = hashOf l' ++ hashOf r' ∨
  ambiguous (Interior h rc ch l r) (Interior h' rc' ch' l' r').
Proof.
  simpl. intros [Heq|?]%Sum256_inj_or; [by left|].
  right; left. do 2 eexists. split; [by left|]. split; [by left|done].
Qed.

Lemma empty_ambiguous n :
  hashOf n = zeros 32 →
  match n with DictionaryLeaf _ | Interior _ _ _ _ _ => ambiguous n EmptyLeaf | _ => True end.
Proof.
  destruct n as [|s|d| |h rc ch l r]; try done; simpl; rewrite ?WitnessKeyAndValue_spec; intros Heq;
    right; left; eexists; (split; [by left|done]).
Qed.

Lemma hash_binding L p n n' :
  wf L p n → wf L p n' → hashOf n = hashOf n' → n ≡ n' ∨ ambiguous n n'.
Proof.
  revert p n'. induction n as [|s|d| |h rc ch l IHl r IHr]; intros p n' Hwf Hwf' Heq; try done;
    destruct n' as [|s|d'| |h' rc' ch' l' r']; try done.
  - apply leaf_leaf_ambiguous in Heq as [Heq|?]; [|by right]. left.
    apply leaf_equiv. apply app_inj_length in Heq; [done|]. destruct Hwf, Hwf'. congruence.
  - right. by apply (empty_ambiguous (DictionaryLeaf d)).
  - right. by apply leaf_interior_ambiguous.
  - right. by apply ambiguous_sym, (empty_ambiguous (DictionaryLeaf d')).
  - by left.
  - right. by apply ambiguous_sym, (empty_ambiguous (Interior h' rc' ch' l' r')).
  - right. by apply ambiguous_sym, leaf_interior_ambiguous.
  - right. by apply (empty_ambiguous (Interior h rc ch l r)).
  - apply interior_interior_ambiguous in Heq as [Heq|?]; [|by right].
    destruct Hwf as (Hl & Hr & _), Hwf' as (Hl' & Hr' & _).
    apply app_inj_length in Heq as [Eql Eqr]; [|by rewrite !(hashOf_length L (p ++ [false]))].
    destruct (IHl _ _ Hl Hl' Eql) as [El|?]; [|right; by apply (ambiguous_mono l l'); auto with bv].
    destruct (IHr _ _ Hr Hr' Eqr) as [Er|?]; [|right; by apply (ambiguous_mono r r'); auto with bv].
    left. by apply Interior_equiv.
Qed.

Lemma hash_binding_root L n n' :
  wf_root L n → wf_root L n' → hashOf n = hashOf n' → n ≡ n' ∨ ambiguous n n'.
Proof.
  intros Hwf Hwf' Heq. destruct n as [| | | |h rc ch l r]; try done.
  destruct n' as [| | | |h' rc' ch' l' r']; try done.
  destruct Hwf as [Hl Hr], Hwf' as [Hl' Hr'].
  apply interior_interior_ambiguous in Heq as [Heq|?]; [|by right].
  apply app_inj_length in Heq as [Eql Eqr]; [|by rewrite !(hashOf_length L [false])].
  destruct (hash_binding _ _ _ _ Hl Hl' Eql) as [El|?]; [|right; by apply (ambiguous_mono l l'); auto with bv].
  destruct (hash_binding _ _ _ _ Hr Hr' Eqr) as [Er|?]; [|right; by apply (ambiguous_mono r r'); auto with bv].
  left. by apply Interior_equiv.
Qed.
End Binding.

(** ** Claims *)

(** C6. Binding. If [FullMPT.Commitment] returns the same commitment for two
    valid tries over [L]-byte keys, then either they hold the same map, or among the messages
    hashed in them there are two that collide or one whose digest is all
    zeros, or a leaf of one has as key and value, concatenated, the child
    hashes of an interior node of the other. *)
Theorem commitment_binding `{HashFunction} (L : nat) (fm1 fm2 fm1' fm2' : FullMPT) (c : bytes)
  (H1 : valid L fm1) (H2 : valid L fm2)
  (Hc1 : Commitment fm1 = Ret (c, fm1')) (Hc2 : Commitment fm2 = Ret (c, fm2')) :
  entries (fm_root fm1) = entries (fm_root fm2) ∨ ambiguous (fm_root fm1) (fm_root fm2).
Proof.
  destruct (Commitment_spec L fm1 H1) as (m1 & E1 & _). rewrite E1 in Hc1.
  destruct (Commitment_spec L fm2 H2) as (m2 & E2 & _). rewrite E2 in Hc2.
  assert (Heq : hashOf (fm_root fm1) = hashOf (fm_root fm2)) by congruence.
  destruct (hash_binding_root L (fm_root fm1) (fm_root fm2)) as [He|?]; auto.
  - apply H1.
  - apply H2.
  - left. by rewrite He.
Qed.

Definition k_left : bytes := zeros 32.
Definition k_right : bytes := x40 :: zeros 31.
Definition v_left : bytes := replicate 32 x02.

(** Two entries below the left half of the trie. *)
Definition two_entries : list op := [OInsert k_left v_left; OInsert k_right (zeros 32)].

(** One entry: the hashes of those two leaves. *)
Definition one_entry : list op :=
  [OInsert (WitnessKeyAndValue k_left v_left) (WitnessKeyAndValue k_right (zeros 32))].

Definition commitment_after (ops : list op) : outcome bytes :=
  fm ← run ops NewFullMPT; '(h, _) ← Commitment fm; mret h.

(** The commitment is not binding between a leaf and an interior node: a
    trie with two entries and a trie with one entry, both built by [Insert]
    from 32-byte keys and values, have the same SHA-256 commitment, because
    H(key || value) and H(left || right) are computed the same way. The
    comment on [FullMPT.Commitment] says a second set of mappings with the same
    commitment is infeasible to find. *)
Theorem second_map_same_commitment :
  Forall (op_key_ok 32) two_entries ∧ Forall (op_key_ok 32) one_entry ∧
  foldl (flip spec_op) ∅ two_entries ≠ foldl (flip spec_op) ∅ one_entry ∧
  ∃ c, commitment_after two_entries = Ret c ∧ commitment_after one_entry = Ret c.
Proof.
  split; [repeat constructor|]. split.
  { apply Forall_singleton, Witness_length. }
  split.
  - intros Heq. apply (f_equal (lookup k_left)) in Heq. unfold two_entries, one_entry in Heq.
    simpl in Heq. rewrite lookup_insert_ne, lookup_insert_eq in Heq by done.
    rewrite lookup_insert_ne in Heq; [done|].
    intros Hw. apply (f_equal head) in Hw. by vm_compute in Hw.
  - exists (returned (commitment_after two_entries)). by vm_compute.
Qed.

Lemma commitment_binding_witness :
  valid 1 (trie_of sample_ops) ∧ valid 1 (trie_of sample_ops') ∧
  ∃ c m1 m2, Commitment (trie_of sample_ops) = Ret (c, m1) ∧
    Commitment (trie_of sample_ops') = Ret (c, m2) ∧
    (entries (fm_root (trie_of sample_ops)) = entries (fm_root (trie_of sample_ops')) ∨
     ambiguous (fm_root (trie_of sample_ops)) (fm_root (trie_of sample_ops'))).
Proof.
  assert (H1 : valid 1 (trie_of sample_ops)) by (apply trie_of_valid; [lia|apply sample_keys]).
  assert (H2 : valid 1 (trie_of sample_ops')) by (apply trie_of_valid; [lia|apply sample_keys]).
  split; [exact H1|]. split; [exact H2|].
  destruct (Commitment_spec 1 _ H1) as (m1 & E1 & _).
  destruct (Commitment_spec 1 _ H2) as (m2 & E2 & _).
  assert (Eh : hashOf (fm_root (trie_of sample_ops')) = hashOf (fm_root (trie_of sample_ops)))
    by (vm_compute; reflexivity).
  rewrite Eh in E2. exists (hashOf (fm_root (trie_of sample_ops))), m1, m2.
  split; [exact E1|]. split; [exact E2|].
  exact (commitment_binding 1 _ _ _ _ _ H1 H2 E1 E2).
Defined.
