(* ===== verification/MptSerialize.v ===== *)
(** * Serialization of nodes and tries (mpt/node.go, stub.go,
      dictionaryleafnode.go, interiornode.go, fullmpt.go)

    Writers are modelled by the bytes they receive, readers by the bytes that
    are left ([bytes.Buffer]).  Deserialization is recursive on the input: each
    call of [DeserializeNode] consumes its type byte, so the length of the
    input bounds the number of nested calls and is the fuel. *)

From Stdlib Require Import ZArith Lia.
From S2P Require Import Prelude Buffers Sha256 Crypto Utils MptNode MptSpec FullMPT MptTrie MptInv MptTheorems.

(** ** Sizes and writers *)

Definition Stub_ByteSize (s : Stub) : Z := 5 + len (stub_hash s).
Definition DictionaryLeafNode_ByteSize (d : DictionaryLeafNode) : Z :=
  9 + len (dln_key d) + len (dln_value d).

(** The nil case stands for the tests of the interior node; the method is
    never called on a nil [Node] otherwise. *)
Fixpoint ByteSize (n : Node) : Z :=
  match n with
  | NilNode => 0
  | StubNode s => Stub_ByteSize s
  | DictionaryLeaf d => DictionaryLeafNode_ByteSize d
  | EmptyLeaf => 1
  | Interior _ _ _ l r =>
      9 + (if negb (is_nil l) then ByteSize l else 0)
        + (if negb (is_nil r) then ByteSize r else 0)
  end.

Definition Stub_Serialize (s : Stub) : bytes :=
  [NodeTypeStub] ++ put_be_32 (i32 (len (stub_hash s))) ++ stub_hash s.

Definition DictionaryLeafNode_Serialize (d : DictionaryLeafNode) : bytes :=
  [NodeTypeDictionaryLeaf] ++
  put_be_32 (i32 (len (dln_key d))) ++ dln_key d ++
  put_be_32 (i32 (len (dln_value d))) ++ dln_value d.

Fixpoint Serialize (n : Node) : bytes :=
  match n with
  | NilNode => []
  | StubNode s => Stub_Serialize s
  | DictionaryLeaf d => DictionaryLeafNode_Serialize d
  | EmptyLeaf => [NodeTypeEmptyLeaf]
  | Interior _ _ _ l r =>
      [NodeTypeInterior] ++
      (if negb (is_nil l) then put_be_32 (i32 (ByteSize l)) ++ Serialize l else put_be_32 (i32 0)) ++
      (if negb (is_nil r) then put_be_32 (i32 (ByteSize r)) ++ Serialize r else put_be_32 (i32 0))
  end.

(** ** Readers *)

(** The common step of the leaf and stub readers: a length prefix and that many
    bytes, read with one [Read]. *)
Definition read_field (short_msg missing_msg : string) (r : bytes) : outcome (bytes * bytes) :=
  '(iLen, r) ← read_be_i32 r;
  if bool_decide (iLen > 0)%Z then
    '(b, r) ← buf_read (Z.to_nat iLen) r;
    if bool_decide (i32 (len b) ≠ iLen) then Err short_msg else mret (b, r)
  else Err missing_msg.

Definition DeserializeNewStub (r : bytes) : outcome (Stub * bytes) :=
  '(stub, r) ← read_field "Specified length of stub not present in buffer"
                 "Dictionary leaf node needs a stub of at least 1 byte" r;
  mret (NewStub stub, r).

Definition DeserializeNewDictionaryLeafNode (r : bytes) : outcome (DictionaryLeafNode * bytes) :=
  '(key, r) ← read_field "Specified length of key not present in buffer"
                "Dictionary leaf node needs a key of at least 1 byte" r;
  '(value, r) ← read_field "Specified length of value not present in buffer"
                  "Dictionary leaf node needs a value of at least 1 byte" r;
  mret (NewDictionaryLeafNode key value, r).

(** One child of an interior node: a length, of which only the sign matters,
    and the node if there is one; [deserializeNode] is [DeserializeNode]. *)
Definition read_child (deserializeNode : bytes → outcome (Node * bytes)) (r : bytes)
    : outcome (Node * bytes) :=
  '(iLen, r) ← read_be_i32 r;
  if bool_decide (iLen > 0)%Z then deserializeNode r else mret (NilNode, r).

Definition DeserializeNewInteriorNode (deserializeNode : bytes → outcome (Node * bytes))
    (r : bytes) : outcome (Node * bytes) :=
  '(leftNode, r) ← read_child deserializeNode r;
  '(rightNode, r) ← read_child deserializeNode r;
  mret (NewInteriorNode leftNode rightNode, r).

Definition out_of_fuel : string := "out of fuel".

Fixpoint DeserializeNode_fuel (fuel : nat) (r : bytes) : outcome (Node * bytes) :=
  match fuel with
  | O => Panic out_of_fuel
  | S fuel =>
      '(typeByte, r) ← buf_read 1 r;
      match typeByte with
      | [t] =>
          if bool_decide (t = NodeTypeStub) then
            '(s, r) ← DeserializeNewStub r; mret (StubNode s, r)
          else if bool_decide (t = NodeTypeDictionaryLeaf) then
            '(d, r) ← DeserializeNewDictionaryLeafNode r; mret (DictionaryLeaf d, r)
          else if bool_decide (t = NodeTypeEmptyLeaf) then mret (NewEmptyLeafNode, r)
          else if bool_decide (t = NodeTypeInterior) then
            DeserializeNewInteriorNode (DeserializeNode_fuel fuel) r
          else Err "Unknown leaf type"
      | _ => Err "Unable to read type byte"
      end
  end.

Definition DeserializeNode (r : bytes) : outcome (Node * bytes) :=
  DeserializeNode_fuel (S (length r)) r.

Definition UpdateNodeFromReader (n : Node) (r : bytes) : outcome (Node * bytes) :=
  '(n2, r) ← DeserializeNode r; mret (UpdateNode n n2, r).

(** ** The full trie *)

Definition FullMPT_ByteSize (fm : FullMPT) : Z := ByteSize (fm_root fm).
Definition FullMPT_Serialize (fm : FullMPT) : bytes := Serialize (fm_root fm).
Definition FullMPT_Bytes (fm : FullMPT) : bytes := FullMPT_Serialize fm.

Definition root_of (possibleRoot : Node) : outcome Node :=
  match possibleRoot with
  | Interior _ _ _ _ _ => mret possibleRoot
  | _ => Err "The passed byte array is no valid tree"
  end.

Definition DeserializeNewFullMPT (r : bytes) : outcome (FullMPT * bytes) :=
  '(possibleRoot, r) ← DeserializeNode r;
  root ← root_of possibleRoot;
  mret (newFullMPTWithRoot root, r).

(** ** What can be written *)

(** A field that survives its [int32] length prefix. *)
Definition field_ok (b : bytes) : Prop := b ≠ [] ∧ (len b < 2 ^ 31)%Z.

Fixpoint serializable (n : Node) : Prop :=
  match n with
  | NilNode => False
  | StubNode s => field_ok (stub_hash s)
  | DictionaryLeaf d => field_ok (dln_key d) ∧ field_ok (dln_value d)
  | EmptyLeaf => True
  | Interior _ _ _ l r =>
      (is_nil l = true ∨ serializable l ∧ (ByteSize l < 2 ^ 31)%Z) ∧
      (is_nil r = true ∨ serializable r ∧ (ByteSize r < 2 ^ 31)%Z)
  end.

(** A node as the readers build it: all hashes pending, all marked changed. *)
Fixpoint fresh (n : Node) : Node :=
  match n with
  | DictionaryLeaf d => DictionaryLeaf (MkDLN (dln_key d) (dln_value d) (zeros 32) true true)
  | Interior _ _ _ l r => Interior (zeros 32) true true (fresh l) (fresh r)
  | _ => n
  end.

Lemma fresh_equiv n : fresh n ≡ n.
Proof.
  induction n as [|s|d| |h rc ch l IHl r IHr]; simpl; try done.
  by apply Interior_equiv.
Qed.

Lemma is_nil_fresh n : is_nil (fresh n) = is_nil n.
Proof. by destruct n. Qed.

(** ** Sizes *)

Lemma ByteSize_nonneg n : (0 ≤ ByteSize n)%Z.
Proof.
  induction n as [|s|d| |h rc ch l IHl r IHr]; simpl;
    unfold Stub_ByteSize, DictionaryLeafNode_ByteSize, len; repeat case_match; lia.
Qed.

Lemma ByteSize_pos n : n ≠ NilNode → (0 < ByteSize n)%Z.
Proof.
  destruct n as [|s|d| |h rc ch l r]; simpl; unfold Stub_ByteSize, DictionaryLeafNode_ByteSize, len;
    intros Hn; try (done || lia).
  pose proof (ByteSize_nonneg l). pose proof (ByteSize_nonneg r). repeat case_match; lia.
Qed.

Lemma Serialize_length n : len (Serialize n) = ByteSize n.
Proof.
  unfold len. induction n as [|s|d| |h rc ch l IHl r IHr]; try done.
  - simpl. unfold Stub_ByteSize, len. autorewrite with bvlen. lia.
  - simpl. unfold DictionaryLeafNode_ByteSize, len. autorewrite with bvlen. lia.
  - cbn [Serialize ByteSize]. destruct (negb (is_nil l)), (negb (is_nil r));
      autorewrite with bvlen; lia.
Qed.

(** ** Round trips *)

Lemma read_field_put e1 e2 b rest :
  field_ok b → read_field e1 e2 (put_be_32 (i32 (len b)) ++ b ++ rest) = Ret (b, rest).
Proof.
  intros [Hne Hl]. assert (0 < len b)%Z by (destruct b; [done|unfold len; simpl; lia]).
  assert (Hi : i32 (len b) = len b) by (apply i32_small; lia).
  unfold read_field. rewrite read_be_i32_put, Hi. cbn. rewrite Hi.
  rewrite bool_decide_eq_true_2 by lia. unfold len. rewrite Nat2Z.id, buf_read_app by done.
  cbn. rewrite bool_decide_eq_false_2; [done|]. intros Hn. by apply Hn.
Qed.

Lemma go_copy_zeros b : go_copy (zeros (length b)) b = b.
Proof. apply go_copy_same. by rewrite length_zeros. Qed.

(** What an interior node writes for a child. *)
Definition child_bytes (n : Node) : bytes :=
  if negb (is_nil n) then put_be_32 (i32 (ByteSize n)) ++ Serialize n else put_be_32 (i32 0).

Lemma read_child_bytes f n rest :
  (is_nil n = true ∨ serializable n ∧ (ByteSize n < 2 ^ 31)%Z) →
  (serializable n → f (Serialize n ++ rest) = Ret (fresh n, rest)) →
  read_child f (child_bytes n ++ rest) = Ret (fresh n, rest).
Proof.
  intros Hn Hf. unfold read_child, child_bytes. destruct (is_nil n) eqn:E; simpl negb; cbv iota.
  - apply is_nil_true in E as ->. by rewrite read_be_i32_put.
  - destruct Hn as [|[Hs Hb]]; [done|]. apply is_nil_false in E.
    pose proof (ByteSize_pos n E). assert (Hi : i32 (ByteSize n) = ByteSize n) by (apply i32_small; lia).
    rewrite <- app_assoc, read_be_i32_put, Hi. cbn. rewrite Hi, bool_decide_eq_true_2 by lia. auto.
Qed.

Lemma child_bytes_length n : serializable n → length (Serialize n) < length (child_bytes n).
Proof. intros Hs. destruct n; [done|..]; unfold child_bytes; simpl negb; cbv iota;
  rewrite length_app, put_be_32_length; lia. Qed.

Lemma DeserializeNode_fuel_Serialize fuel n rest :
  serializable n → length (Serialize n) ≤ fuel →
  DeserializeNode_fuel fuel (Serialize n ++ rest) = Ret (fresh n, rest).
Proof.
  revert fuel rest. induction n as [|s|d| |h rc ch l IHl r IHr]; intros fuel rest Hs Hf; [done|..];
    (destruct fuel as [|fuel]; [simpl in Hf; lia|]).
  - change (('(s0, r) ← DeserializeNewStub ((put_be_32 (i32 (len (stub_hash s))) ++ stub_hash s) ++ rest);
             mret (StubNode s0, r)) = Ret (StubNode s, rest)).
    unfold DeserializeNewStub. rewrite <- app_assoc, read_field_put by done. cbn.
    unfold NewStub. rewrite go_copy_zeros. by destruct s.
  - destruct Hs as [Hk Hv].
    change (('(d0, r) ← DeserializeNewDictionaryLeafNode ((put_be_32 (i32 (len (dln_key d))) ++ dln_key d ++
               put_be_32 (i32 (len (dln_value d))) ++ dln_value d) ++ rest);
             mret (DictionaryLeaf d0, r)) = Ret (fresh (DictionaryLeaf d), rest)).
    unfold DeserializeNewDictionaryLeafNode. rewrite <- !app_assoc, read_field_put by done. cbn. rewrite read_field_put by done. cbn.
    unfold NewDictionaryLeafNode. by rewrite !go_copy_zeros.
  - done.
  - destruct Hs as [Hl Hr]. change (Serialize (Interior h rc ch l r))
      with (NodeTypeInterior :: child_bytes l ++ child_bytes r) in *.
    cbn [length] in Hf. rewrite length_app in Hf.
    change (DeserializeNewInteriorNode (DeserializeNode_fuel fuel) ((child_bytes l ++ child_bytes r) ++ rest)
      = Ret (fresh (Interior h rc ch l r), rest)).
    unfold DeserializeNewInteriorNode. rewrite <- app_assoc, read_child_bytes; [..|done|].
    + cbn. rewrite read_child_bytes; [done..|]. intros Hsr. apply IHr; [done|].
      pose proof (child_bytes_length r Hsr). lia.
    + intros Hsl. apply IHl; [done|]. pose proof (child_bytes_length l Hsl). lia.
Qed.

Lemma DeserializeNode_Serialize n rest :
  serializable n → DeserializeNode (Serialize n ++ rest) = Ret (fresh n, rest).
Proof. intros Hs. apply DeserializeNode_fuel_Serialize; [done|]. rewrite length_app. lia. Qed.

(** ** Termination and malformed input *)

Lemma good_read_field e1 e2 r : good (read_field e1 e2) r.
Proof.
  apply good_bind; [apply good_read_be_i32|]. intros iLen u r' -> Hr. unfold good.
  case_bool_decide as Hpos; [|done].
  assert (iLen < 2 ^ 31)%Z as Hlt.
  { unfold read_be_i32 in Hr. apply bind_Ret_inv in Hr as ([b r1] & _ & Hr). inv_ret.
    unfold i32. pose proof (Z.mod_pos_bound (be_val b + 2 ^ 31) (2 ^ 32)). lia. }
  destruct (buf_read (Z.to_nat iLen) r') as [[b r2]| |] eqn:E; simpl; [|done|].
  - apply buf_read_length in E as [-> Hl]. rewrite i32_small by (unfold len; lia).
    case_bool_decide as Hb; [done|]. simpl. exists b. split; [done|].
    assert (b ≠ []) by (intros ->; unfold len in Hb; simpl in Hb; lia). intros s.
    replace (Z.to_nat iLen) with (length b) by (unfold len in Hb; lia).
    rewrite buf_read_app by done. simpl. rewrite i32_small by (unfold len; lia).
    rewrite bool_decide_eq_false_2; [done|]. auto.
  - by destruct r', (Z.to_nat iLen).
Qed.

Lemma good_read_child f r :
  (∀ u r', r = u ++ r' → good f r') → good (read_child f) r.
Proof.
  intros Hf. apply good_bind; [apply good_read_be_i32|]. intros iLen u r' Hr _.
  unfold good. case_bool_decide; [by apply Hf in Hr|]. by apply good_ret.
Qed.

(** What follows the type byte. *)
Definition after_type (fuel : nat) (t : Byte.byte) (r : bytes) : outcome (Node * bytes) :=
  if bool_decide (t = NodeTypeStub) then
    '(s, r) ← DeserializeNewStub r; mret (StubNode s, r)
  else if bool_decide (t = NodeTypeDictionaryLeaf) then
    '(d, r) ← DeserializeNewDictionaryLeafNode r; mret (DictionaryLeaf d, r)
  else if bool_decide (t = NodeTypeEmptyLeaf) then mret (NewEmptyLeafNode, r)
  else if bool_decide (t = NodeTypeInterior) then
    DeserializeNewInteriorNode (DeserializeNode_fuel fuel) r
  else Err "Unknown leaf type".

Lemma DeserializeNode_fuel_cons fuel t r :
  DeserializeNode_fuel (S fuel) (t :: r) = after_type fuel t r.
Proof. done. Qed.

(** More input than fuel is never needed, and no input makes the reader panic. *)
Lemma DeserializeNode_fuel_good fuel r : length r < fuel → good (DeserializeNode_fuel fuel) r.
Proof.
  revert r. induction fuel as [|fuel IH]; intros r Hr; [lia|].
  destruct r as [|t r]; [done|]. simpl in Hr.
  assert (good (after_type fuel t) r) as Hg.
  { unfold after_type. repeat case_bool_decide; auto using good_ret; [..|done].
    - apply good_bind; auto using good_ret. apply good_bind; auto using good_ret, good_read_field.
    - apply good_bind; auto using good_ret. apply good_bind; auto using good_read_field.
      intros. apply good_bind; auto using good_ret, good_read_field.
    - assert (∀ u r', r = u ++ r' → good (read_child (DeserializeNode_fuel fuel)) r') as Hc.
      { intros u r' ->. apply good_read_child. intros u' r2 ->. apply IH.
        rewrite !length_app in Hr. lia. }
      apply good_bind; [by apply (Hc [])|]. intros l u r' Hr' _.
      apply good_bind; eauto using good_ret. }
  unfold good in Hg |- *. rewrite DeserializeNode_fuel_cons.
  destruct (after_type fuel t r) as [[n r']| |]; try done.
  destruct Hg as (u & -> & Hu). exists (t :: u). split; [done|]. intros s. apply Hu.
Qed.

(** Extra fuel changes nothing once the reader has finished. *)
Lemma DeserializeNode_fuel_more fuel k r :
  (∀ p, DeserializeNode_fuel fuel r ≠ Panic p) →
  DeserializeNode_fuel (fuel + k) r = DeserializeNode_fuel fuel r.
Proof.
  assert (Hc : ∀ f g r, (∀ r, (∀ p, f r ≠ Panic p) → g r = f r) →
    (∀ p, read_child f r ≠ Panic p) → read_child g r = read_child f r).
  { intros f g r0 Hfg Hp. unfold read_child in *.
    destruct (read_be_i32 r0) as [[iLen r1]| |]; try done. simpl in *.
    case_bool_decide; [|done]. by apply Hfg. }
  revert r. induction fuel as [|fuel IH]; intros r Hp; [by destruct (Hp out_of_fuel)|].
  destruct r as [|t r]; [done|]. cbn [Nat.add]. rewrite !DeserializeNode_fuel_cons in *. unfold after_type in *.
  repeat (case_bool_decide; [done|]). case_bool_decide; [|done].
  unfold DeserializeNewInteriorNode in *.
  rewrite (Hc (DeserializeNode_fuel fuel) (DeserializeNode_fuel (fuel + k)) r) by
    (auto; intros p E; apply (Hp p); by rewrite E).
  destruct (read_child (DeserializeNode_fuel fuel) r) as [[l r1]| |]; try done. simpl in *.
  by rewrite (Hc (DeserializeNode_fuel fuel) (DeserializeNode_fuel (fuel + k)) r1) by
    (auto; intros p E; apply (Hp p); by rewrite E).
Qed.

Lemma DeserializeNode_good r : good DeserializeNode r.
Proof.
  assert (Hf := DeserializeNode_fuel_good (S (length r)) r (Nat.lt_succ_diag_r _)).
  unfold good in Hf |- *. fold (DeserializeNode r) in Hf.
  destruct (DeserializeNode r) as [[n r']| |]; try done. destruct Hf as (u & -> & Hu).
  exists u. split; [done|]. intros s. rewrite <- (Hu s). unfold DeserializeNode.
  assert (∀ r p, DeserializeNode_fuel (S (length r)) r ≠ Panic p) as Hnp.
  { intros r0 p E. pose proof (DeserializeNode_fuel_good (S (length r0)) r0 (Nat.lt_succ_diag_r _)) as G.
    unfold good in G. by rewrite E in G. }
  set (a := S (length (u ++ s))). set (b := S (length (u ++ r'))).
  rewrite <- (DeserializeNode_fuel_more a b) by apply Hnp.
  rewrite <- (DeserializeNode_fuel_more b a) by (intros p E; unfold b in E; by rewrite Hu in E).
  f_equal. lia.
Qed.

(** ** Tries *)

Lemma children_writable L p h rc ch l r :
  wf L (p ++ [false]) l → wf L (p ++ [true]) r →
  map_Forall (λ _ v, v ≠ []) (entries (Interior h rc ch l r)) →
  (ByteSize (Interior h rc ch l r) < 2 ^ 31)%Z →
  (map_Forall (λ _ v, v ≠ []) (entries l) ∧ (ByteSize l < 2 ^ 31)%Z) ∧
  (map_Forall (λ _ v, v ≠ []) (entries r) ∧ (ByteSize r < 2 ^ 31)%Z).
Proof.
  simpl. intros Hl Hr Hv Hb. pose proof (ByteSize_nonneg l). pose proof (ByteSize_nonneg r).
  assert (Hd : entries l ##ₘ entries r) by (by apply (entries_disjoint L p false)).
  apply map_Forall_union in Hv as [Vl Vr]; [|done].
  assert (Nl : is_nil l = false) by by destruct l.
  assert (Nr : is_nil r = false) by by destruct r.
  rewrite Nl, Nr in Hb. simpl in Hb. repeat split; auto; lia.
Qed.

Lemma wf_serializable L p n :
  0 < L → wf L p n → map_Forall (λ _ v, v ≠ []) (entries n) → (ByteSize n < 2 ^ 31)%Z →
  serializable n.
Proof.
  intros HL. revert p. induction n as [|s|d| |h rc ch l IHl r IHr]; intros p Hwf Hv Hb; try done.
  - destruct Hwf as [Hk _]. simpl in Hb, Hv. unfold DictionaryLeafNode_ByteSize, len in Hb.
    apply map_Forall_singleton in Hv. unfold serializable, field_ok, len.
    repeat split; [intros E; rewrite E in Hk; simpl in Hk; lia|lia|done|lia].
  - destruct Hwf as (Hl & Hr & _).
    destruct (children_writable L p h rc ch l r) as [[] []]; auto. split; right; eauto.
Qed.

Lemma wf_root_serializable L n :
  0 < L → wf_root L n → map_Forall (λ _ v, v ≠ []) (entries n) → (ByteSize n < 2 ^ 31)%Z →
  serializable n.
Proof.
  intros HL Hwf Hv Hb. destruct n as [| | | |h rc ch l r]; try done. destruct Hwf as [Hl Hr].
  destruct (children_writable L [] h rc ch l r) as [[] []]; auto.
  split; right; eauto using wf_serializable.
Qed.

Lemma marks_fresh `{HashFunction} n : marks_ok (fresh n).
Proof.
  induction n as [|s|d| |h rc ch l [Cl Fl] r [Cr Fr]]; by split.
Qed.

(** ** Claims *)

Section Claims.
Context `{HashFunction}.

(** Saved tries. For a valid trie over keys of [L > 0] bytes whose values
    are not empty and whose encoding is shorter than 2 GiB, [Bytes] has
    length [ByteSize], and reading it back, whatever follows it in the
    buffer, consumes exactly those bytes and gives a valid trie that is
    structurally equal and therefore holds the same map and has the same
    commitment. *)
Theorem FullMPT_roundtrip (L : nat) (fm : FullMPT) (rest : bytes)
  (HL : 0 < L) (Hv : valid L fm) (Hne : map_Forall (λ _ v, v ≠ []) (entries (fm_root fm)))
  (Hb : (FullMPT_ByteSize fm < 2 ^ 31)%Z) :
  len (FullMPT_Bytes fm) = FullMPT_ByteSize fm ∧
  ∃ fm', DeserializeNewFullMPT (FullMPT_Bytes fm ++ rest) = Ret (fm', rest) ∧ valid L fm' ∧
    Equals (fm_root fm') (fm_root fm) = true ∧
    entries (fm_root fm') = entries (fm_root fm) ∧
    ∃ c fm1 fm2, Commitment fm = Ret (c, fm1) ∧ Commitment fm' = Ret (c, fm2).
Proof.
  split; [apply Serialize_length|]. destruct Hv as [Hwf Hm].
  exists (MkFullMPT (fresh (fm_root fm))). unfold DeserializeNewFullMPT, FullMPT_Bytes, FullMPT_Serialize.
  rewrite DeserializeNode_Serialize by (by apply (wf_root_serializable L)).
  assert (He := fresh_equiv (fm_root fm)).
  assert (Hv' : valid L (MkFullMPT (fresh (fm_root fm)))).
  { split; [|apply marks_fresh]. eapply wf_root_proper; [symmetry; exact He|done]. }
  split; [by destruct fm as [[]]|]. split; [done|].
  split; [apply Equals_spec; [by eapply wf_root_not_nil, Hv'|done]|].
  split; [by apply entries_proper|].
  destruct (Commitment_spec L fm) as (fm1 & C1 & _); [by split|].
  destruct (Commitment_spec L _ Hv') as (fm2 & C2 & _).
  exists (hashOf (fm_root fm)), fm1, fm2. split; [done|]. rewrite C2. cbn [fm_root].
  by rewrite (hashOf_proper _ _ He).
Qed.
End Claims.

(** Total reader. On every input [DeserializeNode] terminates with a node
    or an error and never panics; when it returns a node it has read a
    non-empty prefix of the input, and returns the same node for that prefix
    followed by anything else. *)
Theorem DeserializeNode_total (r : bytes) :
  match DeserializeNode r with
  | Ret (n, r') => ∃ u, u ≠ [] ∧ r = u ++ r' ∧ ∀ s, DeserializeNode (u ++ s) = Ret (n, s)
  | Err _ => True
  | Panic _ => False
  end.
Proof.
  pose proof (DeserializeNode_good r) as Hg. unfold good in Hg.
  destruct (DeserializeNode r) as [[n r']| |]; try done. destruct Hg as (u & -> & Hu).
  exists u. split; [|done]. intros ->. specialize (Hu []). done.
Qed.

(** Truncation. A proper prefix of the encoding of a node is rejected with
    an error. *)
Theorem DeserializeNode_truncated (n : Node) (k : nat)
  (Hs : serializable n) (Hk : k < length (Serialize n)) :
  ∃ e, DeserializeNode (take k (Serialize n)) = Err e.
Proof.
  pose proof (DeserializeNode_good (take k (Serialize n))) as Hg. unfold good in Hg.
  destruct (DeserializeNode (take k (Serialize n))) as [[n' r']|e|] eqn:E; [|by exists e|done].
  exfalso. destruct Hg as (u & Hu & Hall).
  specialize (Hall (r' ++ drop k (Serialize n))).
  rewrite app_assoc, <- Hu, take_drop in Hall.
  pose proof (DeserializeNode_Serialize n [] Hs) as Hd. rewrite app_nil_r, Hall in Hd.
  injection Hd as _ Hd. apply app_eq_nil in Hd as [_ Hd].
  apply (f_equal length) in Hd. rewrite length_drop in Hd. simpl in Hd. lia.
Qed.

(** ** Instances *)

Lemma sample_values : map_Forall (λ _ v, v ≠ []) (entries (fm_root (trie_of sample_ops))).
Proof. apply (bool_decide_unpack _). vm_compute. exact I. Qed.

Lemma FullMPT_roundtrip_witness :
  (FullMPT_ByteSize (trie_of sample_ops) < 2 ^ 31)%Z ∧
  len (FullMPT_Bytes (trie_of sample_ops)) = FullMPT_ByteSize (trie_of sample_ops) ∧
  ∃ fm', DeserializeNewFullMPT (FullMPT_Bytes (trie_of sample_ops) ++ [xff]) = Ret (fm', [xff]) ∧
    valid 1 fm' ∧ Equals (fm_root fm') (fm_root (trie_of sample_ops)) = true ∧
    entries (fm_root fm') = entries (fm_root (trie_of sample_ops)) ∧
    ∃ c fm1 fm2, Commitment (trie_of sample_ops) = Ret (c, fm1) ∧ Commitment fm' = Ret (c, fm2).
Proof.
  assert (Hb : (FullMPT_ByteSize (trie_of sample_ops) < 2 ^ 31)%Z) by (vm_compute; reflexivity).
  split; [exact Hb|].
  apply (FullMPT_roundtrip 1); [lia|apply trie_of_valid; [lia|apply sample_keys]|apply sample_values|exact Hb].
Defined.

Definition sample_leaf : Node := DictionaryLeaf (NewDictionaryLeafNode [x01; x02] [x03]).

Lemma DeserializeNode_truncated_witness :
  serializable sample_leaf ∧ ∃ e, DeserializeNode (take 8 (Serialize sample_leaf)) = Err e.
Proof.
  assert (Hs : serializable sample_leaf) by (repeat split; (discriminate || reflexivity)).
  split; [exact Hs|]. apply (DeserializeNode_truncated sample_leaf 8 Hs). simpl. lia.
Defined.
