(* ===== verification/PartialMPT.v ===== *)
(** * Partial tries: proofs for a set of keys (mpt/partialmpt.go)

    [copyMultiplePaths] calls [GetHash] on the nodes of the full trie, which
    fills their caches; the definitions return the full trie in that state
    next to the copy.  [go_copy] of the copied hash makes the caches of the
    partial trie independent of it. *)

From Stdlib Require Import ZArith Lia.
From S2P Require Import Prelude Buffers Sha256 Crypto Utils MptNode MptSpec FullMPT MptTrie MptInv MptTheorems MptSerialize.

Record PartialMPT := MkPartialMPT { pm_root : Node }.

(** The loop that divides the keys: those with bit 0 at [i] and those with bit 1,
    in order. *)
Fixpoint partition_keys (keys : list bytes) (i : nat) : outcome (list bytes * list bytes) :=
  match keys with
  | [] => mret ([], [])
  | key :: keys =>
      bit ← GetBit key i;
      '(matchLeft, matchRight) ← partition_keys keys i;
      mret (if (bit : bool) then (matchLeft, key :: matchRight) else (key :: matchLeft, matchRight))
  end.

(** The assertion that a node is an [InteriorNode]. *)
Definition as_interior (n : Node) : outcome Node :=
  match n with
  | Interior _ _ _ _ _ => mret n
  | _ => Panic "interface conversion"
  end.

Section Partial.
Context `{HashFunction}.

(** [copyMultiplePaths(matchingKeys, copyNode, i - 1)]: the copy, and the node
    it was taken from. *)
Fixpoint copyMultiplePaths (matchingKeys : list bytes) (copyNode : Node) (i : nat)
    : outcome (Node * Node) :=
  match matchingKeys with
  | [] =>
      empty ← IsEmpty copyNode;
      if (empty : bool) then mret (NewEmptyLeafNode, copyNode)
      else '(h, copyNode) ← GetHash copyNode; mret (StubNode (NewStub h), copyNode)
  | _ :: _ =>
      match copyNode with
      | NilNode => Panic nil_deref
      | EmptyLeaf => mret (NewEmptyLeafNode, copyNode)
      | DictionaryLeaf d =>
          let '(h, d) := DictionaryLeafNode_GetHash d in
          mret (DictionaryLeaf (NewDictionaryLeafNodeCachedHash (dln_key d) (dln_value d) h), DictionaryLeaf d)
      | StubNode _ =>
          '(matchLeft, matchRight) ← partition_keys matchingKeys i;
          Panic nil_deref
      | Interior h rc ch l r =>
          '(matchLeft, matchRight) ← partition_keys matchingKeys i;
          '(leftChild, l) ← copyMultiplePaths matchLeft l (S i);
          '(rightChild, r) ← copyMultiplePaths matchRight r (S i);
          '(hash, copyNode) ← GetHash (Interior h rc ch l r);
          mret (NewInteriorNodeWithCachedHash leftChild rightChild hash, copyNode)
      end
  end.

(** [NewPartialMPT]: only the root and the hashes of its children. *)
Definition NewPartialMPT (fm : FullMPT) : outcome (PartialMPT * FullMPT) :=
  match fm_root fm with
  | Interior h rc ch l r =>
      '(hl, l) ← GetHash l;
      '(hr, r) ← GetHash r;
      mret (MkPartialMPT (NewInteriorNode (StubNode (NewStub hl)) (StubNode (NewStub hr))),
            MkFullMPT (Interior h rc ch l r))
  | _ => Panic nil_deref
  end.

Definition NewPartialMPTIncludingKey (fm : FullMPT) (key : bytes) : outcome (PartialMPT * FullMPT) :=
  '(root, full) ← copyMultiplePaths [key] (fm_root fm) 0;
  root ← as_interior root;
  mret (MkPartialMPT root, MkFullMPT full).

Definition NewPartialMPTIncludingKeys (fm : FullMPT) (keys : list bytes) : outcome (PartialMPT * FullMPT) :=
  if bool_decide (len keys = 0)%Z then Err "Can't create a partial MPT from 0 keys`"
  else
    '(root, full) ← copyMultiplePaths keys (fm_root fm) 0;
    root ← as_interior root;
    mret (MkPartialMPT root, MkFullMPT full).

Definition newPartialMPTWithRoot (root : Node) : PartialMPT := MkPartialMPT root.

Fixpoint partialGetHelper (currentNode : Node) (key : bytes) (i : nat) : outcome (option bytes) :=
  match currentNode with
  | NilNode => Panic nil_deref
  | StubNode _ => Err "Stub encountered"
  | DictionaryLeaf d => mret (if bytes_eqb (dln_key d) key then Some (dln_value d) else None)
  | EmptyLeaf => mret None
  | Interior _ _ _ l r =>
      bit ← GetBit key i;
      if (bit : bool) then partialGetHelper r key (S i) else partialGetHelper l key (S i)
  end.

Definition PartialMPT_Get (pm : PartialMPT) (key : bytes) : outcome (option bytes) :=
  partialGetHelper (pm_root pm) key 0.

Definition PartialMPT_Commitment (pm : PartialMPT) : outcome (bytes * PartialMPT) :=
  '(h, root) ← GetHash (pm_root pm);
  mret (h, MkPartialMPT root).

Definition PartialMPT_Dispose (pm : PartialMPT) : outcome PartialMPT :=
  root ← Dispose (pm_root pm);
  mret (MkPartialMPT root).
End Partial.

Definition PartialMPT_ByteSize (pm : PartialMPT) : Z := ByteSize (pm_root pm).
Definition PartialMPT_Serialize (pm : PartialMPT) : bytes := Serialize (pm_root pm).
Definition PartialMPT_Bytes (pm : PartialMPT) : bytes := PartialMPT_Serialize pm.

Definition DeserializeNewPartialMPT (r : bytes) : outcome (PartialMPT * bytes) :=
  '(possibleRoot, r) ← DeserializeNode r;
  root ← root_of possibleRoot;
  mret (newPartialMPTWithRoot root, r).
