(* ===== verification/PartialTheorems.v ===== *)
(** * Proofs for keys: completeness and soundness

    A partial trie made from a full one is the full one with subtrees replaced
    by stubs of their hashes ([prunes]); it has the same commitment and
    answers the included keys.  Conversely, whatever tree a client is given,
    if its commitment is that of a trie, its answers are the trie's, up to the
    ambiguities of [MptBinding] and leaves with keys of another length. *)

From Stdlib Require Import ZArith Lia.
From S2P Require Import Prelude Buffers Sha256 Crypto Utils MptNode MptSpec FullMPT MptTrie MptInv MptTheorems MptBinding MptSerialize PartialMPT.

(** ** Caches of the full trie *)

Section Caches.
Context `{HashFunction}.

(** [n'] is [n] with some hashes filled in. *)
Definition rehashed (n n' : Node) : Prop := strip n' = strip n ∧ cache_ok n'.

Lemma strip_equiv n n' : strip n' = strip n → n' ≡ n.
Proof.
  assert (He : ∀ x, erase x = erase (strip x)).
  { induction x as [|s|d| |h rc ch l IHl r IHr]; simpl; congruence. }
  intros Hs. apply equiv_erase. rewrite (He n), (He n'). congruence.
Qed.

Lemma rehashed_refl n : cache_ok n → rehashed n n.
Proof. by split. Qed.

Lemma rehashed_trans a b c : rehashed a b → rehashed b c → rehashed a c.
Proof. intros [E1 _] [E2 C]. split; [congruence|done]. Qed.

Lemma rehashed_equiv n n' : rehashed n n' → n' ≡ n.
Proof. intros []. by apply strip_equiv. Qed.

Lemma GetHash_rehashed n :
  cache_ok n → n ≠ NilNode →
  ∃ n', GetHash n = Ret (hashOf n, n') ∧ rehashed n n' ∧ clean n'.
Proof.
  intros Hc Hn. destruct (GetHash_spec n Hc Hn) as (n' & Hg & _ & Hc' & Hk).
  exists n'. split; [done|]. split; [|done]. split; [by eapply GetHash_strip|done].
Qed.

(** A node over rehashed children still has a good cache: the hash is valid
    or pending as before. *)
Lemma rehashed_interior h rc ch l r l' r' :
  cache_ok (Interior h rc ch l r) → rehashed l l' → rehashed r r' →
  (clean l → clean l') → (clean r → clean r') →
  rehashed (Interior h rc ch l r) (Interior h rc ch l' r').
Proof.
  intros (Hh & Hcache & _ & _) Hl Hr Kl Kr. pose proof (rehashed_equiv _ _ Hl) as El.
  pose proof (rehashed_equiv _ _ Hr) as Er. destruct Hl as [Sl Cl], Hr as [Sr Cr].
  split; simpl; [congruence|]. split; [done|]. split; [|done].
  intros Hrc. destruct (Hcache Hrc) as (-> & ? & ?).
  simpl. by rewrite (hashOf_proper _ _ El), (hashOf_proper _ _ Er); auto.
Qed.
End Caches.

(** ** Subtrees and whole tries *)

(** [n] is a subtree at path [p], or the root of a trie. *)
Definition wfr (L : nat) (p : list bool) (n : Node) : Prop :=
  wf L p n ∨ (p = [] ∧ wf_root L n).

Lemma wfr_children L p h rc ch l r :
  0 < L → wfr L p (Interior h rc ch l r) →
  wf L (p ++ [false]) l ∧ wf L (p ++ [true]) r ∧ length p < 8 * L.
Proof.
  intros HL [Hwf|[-> [Hl Hr]]].
  - pose proof (wf_depth _ _ _ _ _ _ _ Hwf). by destruct Hwf as (? & ? & _).
  - simpl. repeat split; auto. lia.
Qed.

Lemma wfr_not_nil L p n : wfr L p n → n ≠ NilNode.
Proof. intros [Hwf|[_ Hwf]]; by destruct n. Qed.

Lemma GetBit_snoc k p b : (p ++ [b]) `prefix_of` key_bits k → GetBit k (length p) = Ret b.
Proof. intros Hp. by rewrite GetBit_lookup, (prefix_snoc_lookup _ _ _ Hp). Qed.

Lemma length_snoc {A} (p : list A) b : length (p ++ [b]) = S (length p).
Proof. rewrite length_app. simpl. lia. Qed.

(** ** Dividing keys *)

Definition key_at (L : nat) (p : list bool) (k : bytes) : Prop :=
  length k = L ∧ p `prefix_of` key_bits k.

Lemma partition_keys_spec L p keys :
  length p < 8 * L → Forall (key_at L p) keys →
  ∃ ml mr, partition_keys keys (length p) = Ret (ml, mr) ∧
    Forall (key_at L (p ++ [false])) ml ∧ Forall (key_at L (p ++ [true])) mr ∧
    ∀ k, k ∈ keys ↔ k ∈ ml ∨ k ∈ mr.
Proof.
  intros Hlt. induction 1 as [|k keys [Hk Hp] Hkeys (ml & mr & E & Hml & Hmr & Hin)].
  - exists [], []. repeat split; auto. set_solver.
  - destruct (GetBit_path L p k Hk Hp Hlt) as (b & Hb & Hpb). simpl. rewrite Hb, E. simpl.
    destruct b; do 2 eexists; (split; [reflexivity|]).
    + split; [done|]. split; [by constructor|]. set_solver.
    + split; [by constructor|]. split; [done|]. set_solver.
Qed.

(** ** Pruned trees *)

Section Pruning.
Context `{HashFunction}.

(** [prunes n m]: [m] is [n] with some subtrees replaced by stubs. *)
Inductive prunes : Node → Node → Prop :=
| prunes_stub n : n ≠ NilNode → prunes n (StubNode (MkStub (hashOf n)))
| prunes_empty : prunes EmptyLeaf EmptyLeaf
| prunes_leaf d d' : dln_key d' = dln_key d → dln_value d' = dln_value d →
    prunes (DictionaryLeaf d) (DictionaryLeaf d')
| prunes_interior h rc ch l r h' rc' ch' l' r' :
    prunes l l' → prunes r r' → prunes (Interior h rc ch l r) (Interior h' rc' ch' l' r').

Lemma prunes_hash n m : prunes n m → hashOf m = hashOf n.
Proof. induction 1; simpl; congruence. Qed.

Lemma prunes_not_nil n m : prunes n m → m ≠ NilNode.
Proof. by destruct 1. Qed.

Lemma prunes_equiv_l n n' m : n ≡ n' → prunes n m → prunes n' m.
Proof.
  intros He Hp. revert n' He. induction Hp as [n Hn| |d d' Hk Hv|h rc ch l r h' rc' ch' l' r' Hl IHl Hr IHr];
    intros n' He.
  - rewrite (hashOf_proper _ _ He). constructor. intros ->. symmetry in He. by apply equiv_nil in He.
  - apply equiv_erase in He. destruct n'; try done. constructor.
  - destruct n'; try (by apply equiv_erase in He). apply leaf_equiv in He as [E1 E2].
    constructor; congruence.
  - apply equiv_Interior_inv in He as (h2 & rc2 & ch2 & l2 & r2 & -> & El & Er).
    constructor; auto.
Qed.

Lemma prunes_equiv_r n m m' : m ≡ m' → prunes n m → prunes n m'.
Proof.
  intros He Hp. revert m' He. induction Hp as [n Hn| |d d' Hk Hv|h rc ch l r h' rc' ch' l' r' Hl IHl Hr IHr];
    intros m' He.
  - apply equiv_erase in He. destruct m'; try done. injection He as <-. by constructor.
  - apply equiv_erase in He. destruct m'; try done. constructor.
  - destruct m'; try (by apply equiv_erase in He). apply leaf_equiv in He as [E1 E2].
    constructor; congruence.
  - apply equiv_Interior_inv in He as (h2 & rc2 & ch2 & l2 & r2 & -> & El & Er).
    constructor; auto.
Qed.

(** A pruned trie answers as the trie or says that it cannot. *)
Lemma prunes_get L p n m key :
  0 < L → prunes n m → wfr L p n → length key = L → p `prefix_of` key_bits key →
  partialGetHelper m key (length p) = Ret (entries n !! key) ∨
  partialGetHelper m key (length p) = Err "Stub encountered".
Proof.
  intros Hpos Hp. revert p. induction Hp as [n Hn| |d d' Hk Hv|h rc ch l r h' rc' ch' l' r' Hl IHl Hr IHr];
    intros p Hwf HL Hpre.
  - by right.
  - by left.
  - left. simpl. rewrite Hk, Hv. destruct (bytes_eqb (dln_key d) key) eqn:E.
    + apply bytes_eqb_true in E as <-. by rewrite lookup_singleton_eq.
    + apply bytes_eqb_false in E. by rewrite lookup_singleton_ne.
  - destruct (wfr_children _ _ _ _ _ _ _ Hpos Hwf) as (Wl & Wr & Hlt).
    destruct (GetBit_path L p key HL Hpre Hlt) as (b & Hb & Hpb).
    simpl. rewrite Hb. simpl. destruct b.
    + rewrite <- (length_snoc p true). rewrite (union_right L p) by done. apply IHr; auto. by left.
    + rewrite <- (length_snoc p false). rewrite (union_left L p) by done. apply IHl; auto. by left.
Qed.

(** [shows keys i n m]: at depth [i], [m] is [n] with subtrees that lead to none of
    [keys] possibly replaced by stubs; where [n] has no node, neither has [m]. *)
Inductive shows : list bytes → nat → Node → Node → Prop :=
| shows_nil keys i : shows keys i NilNode NilNode
| shows_stub i n : n ≠ NilNode → shows [] i n (StubNode (MkStub (hashOf n)))
| shows_empty keys i : shows keys i EmptyLeaf EmptyLeaf
| shows_leaf keys i d d' : dln_key d' = dln_key d → dln_value d' = dln_value d →
    shows keys i (DictionaryLeaf d) (DictionaryLeaf d')
| shows_interior keys i kl kr h rc ch l r h' rc' ch' l' r' :
    partition_keys keys i = Ret (kl, kr) → shows kl (S i) l l' → shows kr (S i) r r' →
    shows keys i (Interior h rc ch l r) (Interior h' rc' ch' l' r').

Lemma shows_prunes keys i n m : shows keys i n m → no_nil n → prunes n m.
Proof.
  induction 1 as [| | | |keys i kl kr h rc ch l r h' rc' ch' l' r' Hp Hl IHl Hr IHr]; intros Hn;
    try (by constructor); try done.
  destruct Hn. constructor; auto.
Qed.

Lemma shows_equiv keys i n n' m : n ≡ n' → shows keys i n m → shows keys i n' m.
Proof.
  intros He Hs. revert n' He.
  induction Hs as [| |n Hn|keys i d d' Hk Hv|keys i kl kr h rc ch l r h' rc' ch' l' r' Hp Hl IHl Hr IHr];
    intros n' He.
  - apply equiv_nil in He as ->. constructor.
  - rewrite (hashOf_proper _ _ He). constructor. intros ->. symmetry in He. by apply equiv_nil in He.
  - apply equiv_erase in He. destruct n'; try done. constructor.
  - destruct n'; try (by apply equiv_erase in He). apply leaf_equiv in He as [E1 E2].
    constructor; congruence.
  - apply equiv_Interior_inv in He as (h2 & rc2 & ch2 & l2 & r2 & -> & El & Er).
    econstructor; eauto.
Qed.

(** The keys shown are answered. *)
Lemma shows_get L p keys n m key :
  0 < L → wfr L p n → Forall (key_at L p) keys → shows keys (length p) n m → key ∈ keys →
  partialGetHelper m key (length p) = Ret (entries n !! key).
Proof.
  intros HL. revert p keys m. induction n as [|s|d| |h rc ch l IHl r IHr]; intros p keys m Hwf Hk Hs Hin;
    inversion Hs as [| | |? ? ? ? Hdk Hdv|]; subst; try (by apply elem_of_nil in Hin).
  - by destruct Hwf as [|[]].
  - simpl. rewrite Hdk, Hdv. destruct (bytes_eqb (dln_key d) key) eqn:E.
    + apply bytes_eqb_true in E as <-. by rewrite lookup_singleton_eq.
    + apply bytes_eqb_false in E. by rewrite lookup_singleton_ne.
  - done.
  - destruct (wfr_children _ _ _ _ _ _ _ HL Hwf) as (Wl & Wr & Hlt).
    match goal with Hq : partition_keys _ _ = Ret (?a, ?b) |- _ => rename a into kl, b into kr end.
    destruct (partition_keys_spec L p keys Hlt Hk) as (ml & mr & Ep & Hml & Hmr & Hsplit).
    assert (ml = kl ∧ mr = kr) as [-> ->] by (split; congruence). simpl. destruct (proj1 (Hsplit key) Hin) as [Hkey|Hkey].
    + pose proof (proj1 (Forall_forall _ _) Hml _ Hkey) as [_ Hpre].
      rewrite (GetBit_snoc _ _ _ Hpre), (union_left L p) by done. simpl.
      rewrite <- (length_snoc p false). apply (IHl _ kl); auto; [by left|by rewrite length_snoc].
    + pose proof (proj1 (Forall_forall _ _) Hmr _ Hkey) as [_ Hpre].
      rewrite (GetBit_snoc _ _ _ Hpre), (union_right L p) by done. simpl.
      rewrite <- (length_snoc p true). apply (IHr _ kr); auto; [by left|by rewrite length_snoc].
Qed.

(** ** [copyMultiplePaths] *)

Lemma copyMultiplePaths_none n i :
  cache_ok n → n ≠ NilNode →
  ∃ m n', copyMultiplePaths [] n i = Ret (m, n') ∧ rehashed n n' ∧ (clean n → clean n') ∧
    shows [] i n m ∧ cache_ok m ∧ clean m.
Proof.
  intros Hc Hn. destruct (is_empty n) eqn:E.
  - destruct n; try done. exists EmptyLeaf, EmptyLeaf. repeat split; constructor.
  - destruct (GetHash_rehashed n Hc Hn) as (n' & Hg & Hr & Hk).
    exists (StubNode (NewStub (hashOf n))), n'. split.
    { destruct n; try done; cbn [copyMultiplePaths IsEmpty mbind outcome_bind mret outcome_ret];
        by rewrite Hg. }
    unfold NewStub. rewrite go_copy_zeros. repeat split; try apply Hr; auto. by constructor.
Qed.

Lemma copyMultiplePaths_spec L p n keys :
  0 < L → wfr L p n → cache_ok n → Forall (key_at L p) keys →
  ∃ m n', copyMultiplePaths keys n (length p) = Ret (m, n') ∧ rehashed n n' ∧
    (clean n → clean n') ∧ shows keys (length p) n m ∧ cache_ok m ∧ clean m.
Proof.
  intros HL. revert p keys. induction n as [|s|d| |h rc ch l IHl r IHr]; intros p keys Hwf Hc Hk;
    (destruct keys as [|k0 keys]; [by apply copyMultiplePaths_none; [|by eapply wfr_not_nil]|]).
  - by destruct Hwf as [|[]].
  - by destruct Hwf as [|[]].
  - destruct (GetHash_rehashed _ Hc) as (n' & Hg & R & K); [done|].
    cbn [GetHash copyMultiplePaths] in Hg |- *.
    destruct (DictionaryLeafNode_GetHash d) as [hd d'] eqn:Eg. injection Hg as -> <-.
    pose proof (rehashed_equiv _ _ R) as He. apply leaf_equiv in He as [Ek Ev].
    exists (DictionaryLeaf (NewDictionaryLeafNodeCachedHash (dln_key d') (dln_value d')
              (WitnessKeyAndValue (dln_key d) (dln_value d)))), (DictionaryLeaf d').
    unfold NewDictionaryLeafNodeCachedHash. rewrite !go_copy_zeros, Ek, Ev.
    rewrite go_copy_same by (by rewrite Witness_length).
    split; [done|]. split; [done|]. split; [done|]. split; [by constructor|].
    split; [by simpl; auto using Witness_length|done].
  - exists EmptyLeaf, EmptyLeaf. simpl. repeat split; auto; constructor.
  - destruct (wfr_children _ _ _ _ _ _ _ HL Hwf) as (Wl & Wr & Hlt).
    destruct (partition_keys_spec L p (k0 :: keys) Hlt Hk) as (ml & mr & Ep & Hml & Hmr & Hin).
    pose proof Hc as (Hh & _ & Hcl & Hcr).
    destruct (IHl (p ++ [false]) ml) as (ml' & l' & El & Rl & Kl & Pl & Cl & Ql); auto; [by left|].
    destruct (IHr (p ++ [true]) mr) as (mr' & r' & Er & Rr & Kr & Pr & Cr & Qr); auto; [by left|].
    rewrite length_snoc in El, Er, Pl, Pr.
    pose proof (rehashed_interior h rc ch l r l' r' Hc Rl Rr Kl Kr) as R.
    destruct (GetHash_rehashed (Interior h rc ch l' r')) as (n' & Hg & R' & K'); [apply R|done|].
    rewrite (hashOf_proper _ _ (rehashed_equiv _ _ R)) in Hg.
    exists (NewInteriorNodeWithCachedHash ml' mr' (hashOf (Interior h rc ch l r))), n'.
    split.
    { cbn [copyMultiplePaths]. rewrite Ep. cbn [mbind outcome_bind]. rewrite El.
      cbn [mbind outcome_bind]. rewrite Er. cbn [mbind outcome_bind]. by rewrite Hg. }
    split; [by eapply rehashed_trans|]. split; [done|]. split; [by econstructor|].
    unfold NewInteriorNodeWithCachedHash. rewrite go_copy_same by apply Sum256_length.
    split; [|done]. simpl. rewrite Sum256_length.
    rewrite (prunes_hash l ml'), (prunes_hash r mr'); [done|..].
    + eapply shows_prunes; [exact Pr|]. by eapply wf_no_nil.
    + eapply shows_prunes; [exact Pl|]. by eapply wf_no_nil.
Qed.
End Pruning.

(** ** Transport *)

#[export] Instance partialGetHelper_proper :
  Proper ((≡) ==> (=) ==> (=) ==> (=)) partialGetHelper.
Proof.
  intros n n' He key ? <- i ? <-. revert n' i He.
  induction n as [|s|d| |h rc ch l IHl r IHr]; intros n' i He;
    try (apply equiv_erase in He; by destruct n').
  - destruct n'; try (by apply equiv_erase in He). apply leaf_equiv in He as [Ek Ev]. simpl.
    by rewrite Ek, Ev.
  - apply equiv_Interior_inv in He as (h2 & rc2 & ch2 & l2 & r2 & -> & El & Er). simpl.
    destruct (GetBit key i) as [[]| |]; simpl; auto.
Qed.

Lemma field_32 b : length b = 32 → field_ok b.
Proof. intros Hb. split; [by intros ->|]. unfold len. rewrite Hb. lia. Qed.

Lemma prunes_serializable `{HashFunction} L p n m :
  0 < L → prunes n m → wfr L p n → map_Forall (λ _ v, v ≠ []) (entries n) →
  (ByteSize m < 2 ^ 31)%Z → serializable m.
Proof.
  intros HL Hp. revert p.
  induction Hp as [n Hn| |d d' Hk Hv|h rc ch l r h' rc' ch' l' r' Hl IHl Hr IHr]; intros p Hwf Hne Hb.
  - apply field_32. destruct Hwf as [Hwf|[_ Hwf]]; [by eapply hashOf_length|].
    destruct n; try done. apply Sum256_length.
  - done.
  - apply (wf_serializable L p); [done| |by simpl; rewrite Hk, Hv|done].
    destruct Hwf as [Hwf|[_ ?]]; [|done]. simpl. by rewrite Hk.
  - destruct (wfr_children _ _ _ _ _ _ _ HL Hwf) as (Wl & Wr & _). simpl in Hne, Hb.
    apply map_Forall_union in Hne as [Vl Vr]; [|by apply (entries_disjoint L p false)].
    pose proof (ByteSize_nonneg l'). pose proof (ByteSize_nonneg r').
    assert (Nl : is_nil l' = false) by (by destruct Hl).
    assert (Nr : is_nil r' = false) by (by destruct Hr).
    rewrite Nl, Nr in Hb. simpl in Hb. simpl. rewrite Nl, Nr.
    split; right; (split; [|lia]); [eapply IHl|eapply IHr]; eauto; try (by left); lia.
Qed.

(** Trees built by the readers have no cached hash. *)
Lemma DeserializeNode_cache `{HashFunction} r n r' :
  DeserializeNode r = Ret (n, r') → cache_ok n.
Proof.
  unfold DeserializeNode. generalize (S (length r)) as fuel. intros fuel. revert r n r'.
  induction fuel as [|fuel IH]; intros r n r' Hd; [done|]. destruct r as [|t r]; [done|].
  rewrite DeserializeNode_fuel_cons in Hd. unfold after_type in Hd.
  repeat case_bool_decide; [..|done].
  - apply bind_Ret_inv in Hd as ([s r1] & _ & Hd). by injection Hd as <- _.
  - apply bind_Ret_inv in Hd as ([d r1] & Hd' & Hd). injection Hd as <- _.
    unfold DeserializeNewDictionaryLeafNode in Hd'.
    apply bind_Ret_inv in Hd' as ([k r2] & _ & Hd'). apply bind_Ret_inv in Hd' as ([v r3] & _ & Hd').
    injection Hd' as <- _. apply cache_ok_new_leaf.
  - by injection Hd as <- _.
  - assert (Hch : ∀ x c y, read_child (DeserializeNode_fuel fuel) x = Ret (c, y) → cache_ok c).
    { intros x c y Hc. unfold read_child in Hc. apply bind_Ret_inv in Hc as ([i x1] & _ & Hc).
      case_bool_decide; [eauto|by injection Hc as <- _]. }
    apply bind_Ret_inv in Hd as ([l r1] & Hl & Hd). apply bind_Ret_inv in Hd as ([rr r2] & Hr & Hd).
    injection Hd as <- _. apply cache_ok_new_interior; eauto.
Qed.

Lemma DeserializeNewPartialMPT_cache `{HashFunction} r pm rest :
  DeserializeNewPartialMPT r = Ret (pm, rest) → cache_ok (pm_root pm) ∧ pm_root pm ≠ NilNode.
Proof.
  unfold DeserializeNewPartialMPT. intros Hd. apply bind_Ret_inv in Hd as ([n r1] & Hn & Hd).
  apply bind_Ret_inv in Hd as (n' & Hr & Hd). injection Hd as <- _.
  apply DeserializeNode_cache in Hn. destruct n; try done. by injection Hr as <-.
Qed.

(** ** Soundness *)

Section Soundness.
Context `{HashFunction}.

(** A leaf whose key does not have the length of the trie's keys. *)
Definition odd_leaf (L : nat) (m : Node) : Prop :=
  ∃ d, in_tree (DictionaryLeaf d) m ∧ length (dln_key d) ≠ L.

Lemma odd_leaf_mono L a b : in_tree a b → odd_leaf L a → odd_leaf L b.
Proof. intros Hab (d & Hd & Hl). exists d. eauto using in_tree_trans. Qed.

(** What the client ends up with when the hashes agree. *)
Definition answer_ok (L : nat) (m n : Node) (key : bytes) (v : option bytes) : Prop :=
  v = entries n !! key ∨ ambiguous m n ∨ odd_leaf L m.

Lemma answer_mono L m n m' n' key v :
  in_tree m m' → in_tree n n' → entries n' !! key = entries n !! key →
  answer_ok L m n key v → answer_ok L m' n' key v.
Proof.
  intros Hm Hn He [->|[?|?]]; [by left|right; left|right; right].
  - by eapply ambiguous_mono.
  - by eapply odd_leaf_mono.
Qed.

Lemma Get_hash_length m key i v :
  partialGetHelper m key i = Ret v → length (hashOf m) = 32.
Proof. destruct m; simpl; intros; try done; auto using Witness_length, Sum256_length. Qed.

Lemma sound_get L p m n key v :
  0 < L → wfr L p n → length key = L → p `prefix_of` key_bits key →
  hashOf m = hashOf n → partialGetHelper m key (length p) = Ret v → answer_ok L m n key v.
Proof.
  intros HL. revert p n. induction m as [|s|d| |h rc ch l IHl r IHr]; intros p n Hwf Hk Hp Heq Hg; try done.
  - destruct n as [|s|d'| |h' rc' ch' l' r']; try (by destruct Hwf as [|[]]).
    + apply leaf_leaf_ambiguous in Heq as [Heq|?]; [|by right; left].
      destruct (decide (length (dln_key d) = L)) as [Hd|Hd]; [|right; right; exists d; auto with bv].
      destruct Hwf as [[Hd' _]|[_ []]]. apply app_inj_length in Heq as [Ek Ev]; [|congruence].
      left. simpl in Hg. injection Hg as <-. rewrite Ek, Ev. simpl.
      destruct (bytes_eqb (dln_key d') key) eqn:E.
      * apply bytes_eqb_true in E as <-. by rewrite lookup_singleton_eq.
      * apply bytes_eqb_false in E. by rewrite lookup_singleton_ne.
    + right; left. by apply (empty_ambiguous (DictionaryLeaf d)).
    + right; left. by apply leaf_interior_ambiguous.
  - destruct n as [|s|d'| |h' rc' ch' l' r']; try (by destruct Hwf as [|[]]).
    + right; left. by apply ambiguous_sym, (empty_ambiguous (DictionaryLeaf d')).
    + left. by injection Hg as <-.
    + right; left. by apply ambiguous_sym, (empty_ambiguous (Interior h' rc' ch' l' r')).
  - destruct n as [|s|d'| |h' rc' ch' l' r']; try (by destruct Hwf as [|[]]).
    + right; left. by apply ambiguous_sym, leaf_interior_ambiguous.
    + right; left. by apply (empty_ambiguous (Interior h rc ch l r)).
    + apply interior_interior_ambiguous in Heq as [Heq|?]; [|by right; left].
      destruct (wfr_children _ _ _ _ _ _ _ HL Hwf) as (Wl & Wr & Hlt).
      destruct (GetBit_path L p key Hk Hp Hlt) as (b & Hb & Hpb).
      simpl in Hg. rewrite Hb in Hg. simpl in Hg.
      pose proof (hashOf_length _ _ _ Wl) as Ll. pose proof (hashOf_length _ _ _ Wr) as Lr. destruct b.
      * apply app_inj_2 in Heq as [_ Heq]; [|by rewrite Lr, (Get_hash_length _ _ _ _ Hg)].
        apply (answer_mono L r r'); auto with bv; [by apply (union_right L p)|].
        apply (IHr (p ++ [true])); auto; [by left|by rewrite length_snoc].
      * apply app_inj_1 in Heq as [Heq _]; [|by rewrite Ll, (Get_hash_length _ _ _ _ Hg)].
        apply (answer_mono L l l'); auto with bv; [by apply (union_left L p)|].
        apply (IHl (p ++ [false])); auto; [by left|by rewrite length_snoc].
Qed.
End Soundness.

Lemma shows_interior_root `{HashFunction} L keys n m :
  keys ≠ [] → wf_root L n → shows keys 0 n m → as_interior m = Ret m.
Proof. intros Hne Hwf Hs. by destruct Hs. Qed.

(** The state of a client: a partial trie that shows [keys] in a full trie. *)
Definition tracks `{HashFunction} (keys : list bytes) (fm : FullMPT) (pm : PartialMPT) : Prop :=
  shows keys 0 (fm_root fm) (pm_root pm) ∧ cache_ok (pm_root pm).

Lemma tracks_prunes `{HashFunction} L keys fm pm :
  wf_root L (fm_root fm) → tracks keys fm pm → prunes (fm_root fm) (pm_root pm).
Proof. intros Hwf [Hs _]. eapply shows_prunes; [exact Hs|]. by eapply wf_root_no_nil. Qed.

Lemma tracks_commitment `{HashFunction} L keys fm pm :
  wf_root L (fm_root fm) → tracks keys fm pm →
  ∃ pm', PartialMPT_Commitment pm = Ret (hashOf (fm_root fm), pm').
Proof.
  intros Hwf Ht. pose proof (tracks_prunes _ _ _ _ Hwf Ht) as P. destruct Ht as [_ C].
  destruct (GetHash_spec (pm_root pm) C (prunes_not_nil _ _ P)) as (m' & Hg & _).
  exists (MkPartialMPT m'). unfold PartialMPT_Commitment. by rewrite Hg, (prunes_hash _ _ P).
Qed.

Lemma tracks_get `{HashFunction} L keys fm pm key :
  0 < L → valid L fm → Forall (λ k, length k = L) keys → tracks keys fm pm → key ∈ keys →
  PartialMPT_Get pm key = Get fm key.
Proof.
  intros HL Hv Hk [Hs _] Hin. rewrite (Get_spec L); [|done..|by apply (proj1 (Forall_forall _ _) Hk)].
  apply (shows_get L [] keys); auto; [right; by destruct Hv|].
  eapply Forall_impl; [exact Hk|]. intros k Hl. split; [done|apply prefix_nil].
Qed.

(** Written and read back, a partial trie has the same contents and good caches. *)
Lemma tracks_transport `{HashFunction} L keys fm pm rest :
  0 < L → valid L fm → keys ≠ [] → map_Forall (λ _ v, v ≠ []) (entries (fm_root fm)) → tracks keys fm pm →
  (PartialMPT_ByteSize pm < 2 ^ 31)%Z →
  ∃ pm2, DeserializeNewPartialMPT (PartialMPT_Bytes pm ++ rest) = Ret (pm2, rest) ∧
    pm_root pm2 ≡ pm_root pm ∧ cache_ok (pm_root pm2).
Proof.
  intros HL [Hwf _] Hne Hvals T Hb. pose proof (tracks_prunes L _ _ _ Hwf T) as P. destruct T as [Ts _].
  pose proof (shows_interior_root L keys _ _ Hne Hwf Ts) as Hi.
  assert (Hs : serializable (pm_root pm)) by (eapply (prunes_serializable L []); eauto; by right).
  exists (MkPartialMPT (fresh (pm_root pm))). split; [|split; [apply fresh_equiv|apply marks_fresh]].
  unfold DeserializeNewPartialMPT, PartialMPT_Bytes, PartialMPT_Serialize.
  rewrite DeserializeNode_Serialize by done. cbn [mbind outcome_bind].
  unfold as_interior in Hi. by destruct (pm_root pm).
Qed.

Lemma include_keys_spec `{HashFunction} L fm keys :
  0 < L → valid L fm → keys ≠ [] → Forall (λ k, length k = L) keys →
  ∃ pm fm', NewPartialMPTIncludingKeys fm keys = Ret (pm, fm') ∧ valid L fm' ∧
    rehashed (fm_root fm) (fm_root fm') ∧ tracks keys fm pm.
Proof.
  intros HL Hv Hne Hkeys. pose proof Hv as [Hwf [Hc Hf]].
  destruct (copyMultiplePaths_spec L [] (fm_root fm) keys)
    as (m & n' & E & R & _ & P & C & _); auto; [by right| |].
  { eapply Forall_impl; [exact Hkeys|]. intros k Hk. split; [done|apply prefix_nil]. }
  exists (MkPartialMPT m), (MkFullMPT n'). simpl in E, P.
  split.
  { unfold NewPartialMPTIncludingKeys. rewrite bool_decide_eq_false_2 by (by destruct keys).
    rewrite E. simpl. by rewrite (shows_interior_root L _ _ _ Hne Hwf P). }
  split; [|done]. pose proof (rehashed_equiv _ _ R) as He. destruct R as [S C'].
  split; [eapply wf_root_proper; [symmetry; exact He|done]|]. split; [done|].
  apply flags_strip. cbn [fm_root]. rewrite S. by apply flags_strip.
Qed.

(** ** Claims *)

Section Claims.
Context `{HashFunction}.

(** Proofs are complete. For a valid trie and at least one key, all of the
    trie's key length, [NewPartialMPTIncludingKeys] succeeds, leaves the full
    trie as it was up to filled caches, and returns a partial trie with the
    same commitment; it answers [Get] on the included keys as the full trie
    does, and on any other key it gives the full trie's answer or the error
    "Stub encountered", never a wrong answer. *)
Theorem partial_complete (L : nat) (fm : FullMPT) (keys : list bytes)
  (HL : 0 < L) (Hv : valid L fm) (Hne : keys ≠ []) (Hkeys : Forall (λ k, length k = L) keys) :
  ∃ pm fm' c pm1 fm1,
    NewPartialMPTIncludingKeys fm keys = Ret (pm, fm') ∧ valid L fm' ∧ fm_root fm' ≡ fm_root fm ∧
    PartialMPT_Commitment pm = Ret (c, pm1) ∧ Commitment fm = Ret (c, fm1) ∧
    (∀ key, key ∈ keys → PartialMPT_Get pm key = Get fm key) ∧
    (∀ key, length key = L →
       PartialMPT_Get pm key = Get fm key ∨ PartialMPT_Get pm key = Err "Stub encountered").
Proof.
  destruct (include_keys_spec L fm keys) as (pm & fm' & E & Hv' & R & T); auto.
  pose proof Hv as [Hwf _]. pose proof (tracks_prunes L _ _ _ Hwf T) as P.
  destruct (tracks_commitment L _ _ _ Hwf T) as (pm1 & Hg).
  destruct (Commitment_spec L fm Hv) as (fm1 & Hc1 & _).
  exists pm, fm', (hashOf (fm_root fm)), pm1, fm1.
  split; [done|]. split; [done|]. split; [by apply rehashed_equiv|]. split; [done|]. split; [done|].
  split; [by intros; apply (tracks_get L keys)|]. intros key Hk. rewrite (Get_spec L) by done.
  apply (prunes_get L []); auto using prefix_nil. by right.
Qed.

(** Proofs travel. The bytes of such a partial trie, when the stored values
    are not empty and the encoding is shorter than 2 GiB, are read back by
    the client into a partial trie that has the same commitment and gives the
    same answer to every [Get]. *)
Theorem partial_transport (L : nat) (fm fm' : FullMPT) (keys : list bytes) (pm : PartialMPT) (rest : bytes)
  (HL : 0 < L) (Hv : valid L fm) (Hne : keys ≠ []) (Hkeys : Forall (λ k, length k = L) keys)
  (Hvals : map_Forall (λ _ v, v ≠ []) (entries (fm_root fm)))
  (Hpm : NewPartialMPTIncludingKeys fm keys = Ret (pm, fm'))
  (Hb : (PartialMPT_ByteSize pm < 2 ^ 31)%Z) :
  ∃ pm2, DeserializeNewPartialMPT (PartialMPT_Bytes pm ++ rest) = Ret (pm2, rest) ∧
    (∀ key, PartialMPT_Get pm2 key = PartialMPT_Get pm key) ∧
    ∃ c x y, PartialMPT_Commitment pm = Ret (c, x) ∧ PartialMPT_Commitment pm2 = Ret (c, y).
Proof.
  destruct (include_keys_spec L fm keys) as (pm0 & fm0 & E & _ & _ & T); auto.
  rewrite E in Hpm. injection Hpm as -> ->. pose proof Hv as [Hwf _].
  destruct (tracks_transport L keys fm pm rest) as (pm2 & Hd & He & C2); auto.
  exists pm2. split; [done|]. split. { intros key. unfold PartialMPT_Get. by rewrite He. }
  pose proof (tracks_prunes L _ _ _ Hwf T) as P. pose proof T as [_ C].
  destruct (GetHash_spec (pm_root pm) C (prunes_not_nil _ _ P)) as (m1 & Hg1 & _).
  destruct (GetHash_spec (pm_root pm2) C2) as (m2 & Hg2 & _).
  { intros E0. rewrite E0 in He. apply equiv_nil in He. by apply (prunes_not_nil _ _ P). }
  exists (hashOf (pm_root pm)), (MkPartialMPT m1), (MkPartialMPT m2).
  unfold PartialMPT_Commitment. rewrite Hg1, Hg2. by rewrite (hashOf_proper _ _ He).
Qed.

(** C3. Proofs are sound. Whatever bytes a client receives: if they parse as a
    partial trie whose commitment is that of a valid trie, and [Get] on it
    returns an answer for a key of the trie's key length, then that is the
    trie's answer, unless the received tree and the trie exhibit a collision,
    a preimage of the empty hash or a leaf that reads as an interior node, or
    the received tree has a leaf whose key has another length. *)
Theorem partial_sound (L : nat) (fm fm1 : FullMPT) (r rest c : bytes) (pm pm1 : PartialMPT)
  (key : bytes) (v : option bytes)
  (HL : 0 < L) (Hv : valid L fm) (Hk : length key = L)
  (Hd : DeserializeNewPartialMPT r = Ret (pm, rest))
  (Hc : Commitment fm = Ret (c, fm1)) (Hcp : PartialMPT_Commitment pm = Ret (c, pm1))
  (Hg : PartialMPT_Get pm key = Ret v) :
  Get fm key = Ret v ∨ ambiguous (pm_root pm) (fm_root fm) ∨ odd_leaf L (pm_root pm).
Proof.
  destruct (DeserializeNewPartialMPT_cache _ _ _ Hd) as [Hcache Hn].
  destruct (Commitment_spec L fm Hv) as (fm2 & Hc2 & _). rewrite Hc2 in Hc. injection Hc as <- _.
  destruct (GetHash_spec _ Hcache Hn) as (m & Hm & _).
  unfold PartialMPT_Commitment in Hcp. rewrite Hm in Hcp. injection Hcp as Heq _.
  rewrite (Get_spec L) by done.
  destruct (sound_get L [] (pm_root pm) (fm_root fm) key v) as [->|Ho]; auto using prefix_nil.
  right. by destruct Hv.
Qed.
End Claims.

(** *** The length of leaf keys is not checked *)

Definition forged_key : bytes := zeros 32.
Definition forged_value : bytes := replicate 32 x01.

(** A trie with one entry, and the tree a server could send instead of it: its
    leaf has the last byte of the key moved to the value. *)
Definition honest_trie : FullMPT := trie_of [OInsert forged_key forged_value].
Definition forged_tree : Node :=
  NewInteriorNode (DictionaryLeaf (NewDictionaryLeafNode (zeros 31) (x00 :: forged_value))) EmptyLeaf.

(** A key that is present can be shown as absent: the bytes of [forged_tree]
    parse as a partial trie with the commitment of [honest_trie], the trie
    maps the key to its value, and [Get] on the received partial trie reports
    that the key is not mapped. *)
Theorem absence_forgeable :
  ∃ pm pm1 fm1 c,
    DeserializeNewPartialMPT (Serialize forged_tree) = Ret (pm, []) ∧
    PartialMPT_Commitment pm = Ret (c, pm1) ∧ Commitment honest_trie = Ret (c, fm1) ∧
    Get honest_trie forged_key = Ret (Some forged_value) ∧
    PartialMPT_Get pm forged_key = Ret None.
Proof.
  exists (MkPartialMPT forged_tree),
    (match PartialMPT_Commitment (MkPartialMPT forged_tree) with Ret (_, p) => p | _ => MkPartialMPT NilNode end),
    (match Commitment honest_trie with Ret (_, f) => f | _ => NewFullMPT end),
    (match Commitment honest_trie with Ret (c, _) => c | _ => [] end).
  repeat split; vm_compute; reflexivity.
Qed.

(** ** Instances *)

Definition sample_keys_asked : list bytes := [[x10]; [x90]].
Definition sample_partial : PartialMPT :=
  match NewPartialMPTIncludingKeys (trie_of sample_ops) sample_keys_asked with
  | Ret (pm, _) => pm
  | _ => MkPartialMPT NilNode
  end.
Definition sample_full : FullMPT :=
  match NewPartialMPTIncludingKeys (trie_of sample_ops) sample_keys_asked with
  | Ret (_, fm) => fm
  | _ => NewFullMPT
  end.

Lemma sample_trie_valid : valid 1 (trie_of sample_ops).
Proof. apply trie_of_valid; [lia|apply sample_keys]. Qed.

Lemma partial_complete_witness : ∃ pm fm' c pm1 fm1,
  NewPartialMPTIncludingKeys (trie_of sample_ops) sample_keys_asked = Ret (pm, fm') ∧ valid 1 fm' ∧
  fm_root fm' ≡ fm_root (trie_of sample_ops) ∧
  PartialMPT_Commitment pm = Ret (c, pm1) ∧ Commitment (trie_of sample_ops) = Ret (c, fm1) ∧
  (∀ key, key ∈ sample_keys_asked → PartialMPT_Get pm key = Get (trie_of sample_ops) key) ∧
  (∀ key, length key = 1 → PartialMPT_Get pm key = Get (trie_of sample_ops) key ∨
     PartialMPT_Get pm key = Err "Stub encountered").
Proof.
  apply (partial_complete 1); [lia|apply sample_trie_valid|discriminate|repeat constructor].
Defined.

Lemma partial_transport_witness :
  (PartialMPT_ByteSize sample_partial < 2 ^ 31)%Z ∧
  ∃ pm2, DeserializeNewPartialMPT (PartialMPT_Bytes sample_partial ++ []) = Ret (pm2, []) ∧
    (∀ key, PartialMPT_Get pm2 key = PartialMPT_Get sample_partial key) ∧
    ∃ c x y, PartialMPT_Commitment sample_partial = Ret (c, x) ∧ PartialMPT_Commitment pm2 = Ret (c, y).
Proof.
  assert (Hb : (PartialMPT_ByteSize sample_partial < 2 ^ 31)%Z) by (vm_compute; reflexivity).
  split; [exact Hb|].
  apply (partial_transport 1 (trie_of sample_ops) sample_full sample_keys_asked); [lia|apply sample_trie_valid|
    discriminate|repeat constructor|apply sample_values|vm_compute; reflexivity|exact Hb].
Defined.

Lemma partial_sound_witness :
  Get (trie_of sample_ops) [x10] = Ret (Some [x04]) ∨
  ambiguous (fresh (pm_root sample_partial)) (fm_root (trie_of sample_ops)) ∨
  odd_leaf 1 (fresh (pm_root sample_partial)).
Proof.
  apply (partial_sound 1 (trie_of sample_ops)
    (match Commitment (trie_of sample_ops) with Ret (_, f) => f | _ => NewFullMPT end)
    (PartialMPT_Bytes sample_partial) []
    (match Commitment (trie_of sample_ops) with Ret (c, _) => c | _ => [] end)
    (MkPartialMPT (fresh (pm_root sample_partial)))
    (match PartialMPT_Commitment (MkPartialMPT (fresh (pm_root sample_partial))) with
     | Ret (_, p) => p | _ => MkPartialMPT NilNode end) [x10]);
  [lia|apply sample_trie_valid|reflexivity|vm_compute; reflexivity..].
Defined.
