(* ===== verification/DeltaMPT.v ===== *)
(** * Deltas and client updates (mpt/deltampt.go, partialmpt.go)

    The server computes the changes since the last [Reset] as a delta, cuts it
    down to what a client needs for its keys, and the client merges the result
    into its partial trie.  The theorems follow a client through such an
    update.  They also show where it goes wrong: [EmptyLeafNode.Changed] is
    always false, so an empty leaf that appears at a place where the client
    has none is not sent. *)

From Stdlib Require Import ZArith Lia.
From S2P Require Import Prelude Buffers Sha256 Crypto Utils MptNode MptSpec FullMPT MptTrie MptInv MptTheorems MptBinding MptSerialize PartialMPT PartialTheorems.

Record DeltaMPT := MkDeltaMPT { dm_root : Node }.

Section Delta.
Context `{HashFunction}.

(** [copyChangesOnlyHelper]: the copy, and the node of the full trie after the
    calls of [GetHash] on it. *)
Fixpoint copyChangesOnlyHelper (currentNode : Node) : outcome (Node * Node) :=
  match currentNode with
  | NilNode => Panic nil_deref
  | Interior h rc true l r =>
      '(leftChild, l) ← copyChangesOnlyHelper l;
      '(rightChild, r) ← copyChangesOnlyHelper r;
      '(hash, currentNode) ← GetHash (Interior h rc true l r);
      mret (NewInteriorNodeWithCachedHash leftChild rightChild hash, currentNode)
  | DictionaryLeaf d =>
      let '(h, d') := DictionaryLeafNode_GetHash d in
      if negb (dln_changed d) then mret (StubNode (NewStub h), DictionaryLeaf d')
      else mret (DictionaryLeaf (NewDictionaryLeafNodeCachedHash (dln_key d') (dln_value d') h),
                 DictionaryLeaf d')
  | StubNode _ | EmptyLeaf | Interior _ _ false _ _ =>
      '(h, currentNode) ← GetHash currentNode;
      mret (StubNode (NewStub h), currentNode)
  end.

(** The children of the root are copied whether or not the root has changed. *)
Definition NewDeltaMPT (fm : FullMPT) : outcome (DeltaMPT * FullMPT) :=
  match fm_root fm with
  | Interior h rc ch l r =>
      '(leftChild, l) ← copyChangesOnlyHelper l;
      '(rightChild, r) ← copyChangesOnlyHelper r;
      mret (MkDeltaMPT (NewInteriorNode leftChild rightChild), MkFullMPT (Interior h rc ch l r))
  | _ => Panic nil_deref
  end.

(** [getUpdatesHelper(keys, currentNode, i - 1)]: the updates, and the node of the
    delta after the calls of [GetHash] on it. *)
Fixpoint getUpdatesHelper (keys : list bytes) (currentNode : Node) (i : nat) : outcome (Node * Node) :=
  match currentNode with
  | NilNode => Panic nil_deref
  | StubNode _ => mret (NilNode, currentNode)
  | EmptyLeaf => mret (NewEmptyLeafNode, currentNode)
  | DictionaryLeaf d =>
      let '(h, d') := DictionaryLeafNode_GetHash d in
      match keys with
      | [] => mret (StubNode (NewStub h), DictionaryLeaf d')
      | _ :: _ =>
          mret (DictionaryLeaf (NewDictionaryLeafNodeCachedHash (dln_key d') (dln_value d') h),
                DictionaryLeaf d')
      end
  | Interior h rc ch l r =>
      match keys with
      | [] =>
          '(hash, currentNode) ← GetHash currentNode;
          mret (StubNode (NewStub hash), currentNode)
      | _ :: _ =>
          '(matchLeft, matchRight) ← partition_keys keys i;
          '(leftChild, l) ← getUpdatesHelper matchLeft l (S i);
          '(rightChild, r) ← getUpdatesHelper matchRight r (S i);
          '(hash, currentNode) ← GetHash (Interior h rc ch l r);
          mret (NewInteriorNodeWithCachedHash leftChild rightChild hash, currentNode)
      end
  end.

Definition GetUpdatesForKeys (dm : DeltaMPT) (keys : list bytes) : outcome (DeltaMPT * DeltaMPT) :=
  '(root, dm) ← getUpdatesHelper keys (dm_root dm) 0;
  root ← as_interior root;
  mret (MkDeltaMPT root, MkDeltaMPT dm).

Definition GetUpdatesForKey (dm : DeltaMPT) (key : bytes) : outcome (DeltaMPT * DeltaMPT) :=
  GetUpdatesForKeys dm [key].

Definition DeltaMPT_Dispose (dm : DeltaMPT) : outcome DeltaMPT :=
  root ← Dispose (dm_root dm);
  mret (MkDeltaMPT root).
End Delta.

Definition DeltaMPT_ByteSize (dm : DeltaMPT) : Z := ByteSize (dm_root dm).
Definition DeltaMPT_Serialize (dm : DeltaMPT) : bytes := Serialize (dm_root dm).
Definition DeltaMPT_Bytes (dm : DeltaMPT) : bytes := DeltaMPT_Serialize dm.

Definition DeltaMPT_Copy (dm : DeltaMPT) : outcome DeltaMPT :=
  copiedRoot ← DeepCopy (dm_root dm);
  root ← as_interior copiedRoot;
  mret (MkDeltaMPT root).

Definition DeserializeNewDeltaMPT (r : bytes) : outcome (DeltaMPT * bytes) :=
  '(possibleRoot, r) ← DeserializeNode r;
  root ← root_of possibleRoot;
  mret (MkDeltaMPT root, r).

(** [PartialMPT.ProcessUpdates] and [ProcessUpdatesFromReader]. *)
Definition ProcessUpdates (pm : PartialMPT) (delta : DeltaMPT) : outcome PartialMPT :=
  newRoot ← as_interior (UpdateNode (pm_root pm) (dm_root delta));
  mret (MkPartialMPT newRoot).

Definition ProcessUpdatesFromReader (pm : PartialMPT) (r : bytes) : outcome (PartialMPT * bytes) :=
  '(dmpt, r) ← DeserializeNewDeltaMPT r;
  pm ← ProcessUpdates pm dmpt;
  mret (pm, r).
