(* ===== verification/DeltaTheorems.v ===== *)
(** * Clients that follow updates

    Correctness of the update path from the server's full trie to a client's
    partial trie, for updates that change the values of existing keys, and
    the cases in which the client is left with a wrong trie. *)

From Stdlib Require Import ZArith Lia.
From S2P Require Import Prelude Buffers Sha256 Crypto Utils MptNode MptSpec FullMPT MptTrie MptInv MptTheorems MptBinding MptSerialize PartialMPT PartialTheorems DeltaMPT.

(** ** What has changed since the last [Reset] *)

(** [evolved n0 n]: every node of [n] that is not marked as changed is the node [n0]
    has at the same place (nil if it has none). *)
Fixpoint evolved (n0 n : Node) : Prop :=
  match n with
  | Interior _ _ true l r => evolved (child_left n0) l ∧ evolved (child_right n0) r
  | DictionaryLeaf d => dln_changed d = true ∨ n0 ≡ n
  | _ => n0 ≡ n
  end.

Lemma child_left_proper n n' : n ≡ n' → child_left n ≡ child_left n'.
Proof.
  intros He. destruct n; destruct n'; try (by apply equiv_erase in He); try done.
  apply equiv_Interior_inv in He as (? & ? & ? & ? & ? & Heq & El & Er). by injection Heq as -> -> -> -> ->.
Qed.

Lemma child_right_proper n n' : n ≡ n' → child_right n ≡ child_right n'.
Proof.
  intros He. destruct n; destruct n'; try (by apply equiv_erase in He); try done.
  apply equiv_Interior_inv in He as (? & ? & ? & ? & ? & Heq & El & Er). by injection Heq as -> -> -> -> ->.
Qed.

(** Marking more nodes as changed is harmless. *)
Lemma evolved_equiv n0 n : n0 ≡ n → evolved n0 n.
Proof.
  revert n0. induction n as [|s|d| |h rc ch l IHl r IHr]; intros n0 He; try done; [by right|].
  destruct ch; [|done]. split.
  - apply IHl. apply (child_left_proper _ _ He).
  - apply IHr. apply (child_right_proper _ _ He).
Qed.

Lemma evolved_children n0 h rc ch l r :
  evolved n0 (Interior h rc ch l r) → evolved (child_left n0) l ∧ evolved (child_right n0) r.
Proof.
  destruct ch; [done|]. intros He. split; apply evolved_equiv.
  - apply (child_left_proper _ _ He).
  - apply (child_right_proper _ _ He).
Qed.

Lemma evolved_strip n0 n n' : strip n = strip n' → evolved n0 n → evolved n0 n'.
Proof.
  revert n0 n'. induction n as [|s|d| |h rc ch l IHl r IHr]; intros n0 n' Hs Hev;
    pose proof (strip_equiv _ _ Hs) as He; destruct n'; try discriminate Hs; try done; simpl in *.
  - by rewrite Hev.
  - injection Hs as Hk Hv Hc. destruct Hev as [Hev|Hev]; [left; congruence|right]. by rewrite Hev.
  - injection Hs as Hc Hl Hr. subst changed. destruct ch.
    + destruct Hev. split; eauto.
    + by rewrite Hev.
Qed.

(** Setting the value of an existing key. *)
Lemma insertHelper_evolved L p n0 n key value n' :
  0 < L → wf L p n → length key = L → p `prefix_of` key_bits key →
  is_Some (entries n !! key) → evolved n0 n →
  insertHelper key value (length p) n = Ret n' → evolved n0 n'.
Proof.
  intros HL. revert p n0 n'. induction n as [|s|d| |h rc ch l IHl r IHr];
    intros p n0 n' Hwf Hk Hp [v Hin] Hev Hi; try done.
  - simpl in Hin. apply lookup_singleton_Some in Hin as [Hkd _]. simpl in Hi.
    rewrite Hkd, bytes_eqb_refl in Hi. injection Hi as <-. unfold DictionaryLeafNode_SetValue.
    destruct (bytes_eqb (dln_value d) value); [done|]. by left.
  - destruct (GetBit_path L p key Hk Hp (wf_depth _ _ _ _ _ _ _ Hwf)) as (b & Hb & Hpb).
    destruct Hwf as (Wl & Wr & _). apply evolved_children in Hev as [Hl Hr].
    cbn [insertHelper] in Hi. rewrite Hb in Hi. cbn [mbind outcome_bind] in Hi. simpl in Hin. destruct b.
    + apply bind_Ret_inv in Hi as (r' & Er & Hi). injection Hi as <-. split; [done|].
      rewrite (union_right L p) in Hin by done. rewrite <- (length_snoc p true) in Er. eauto.
    + apply bind_Ret_inv in Hi as (l' & El & Hi). injection Hi as <-. split; [|done].
      rewrite (union_left L p) in Hin by done. rewrite <- (length_snoc p false) in El. eauto.
Qed.

Lemma Insert_evolved L fm0 fm key value fm' :
  0 < L → wf_root L (fm_root fm) → length key = L → is_Some (entries (fm_root fm) !! key) →
  evolved fm0 (fm_root fm) → Insert fm key value = Ret fm' → evolved fm0 (fm_root fm').
Proof.
  intros HL Hwf Hk [v Hin] Hev Hi. apply bind_Ret_inv in Hi as (n' & Hi & Hr). injection Hr as <-.
  simpl. destruct (fm_root fm) as [| | | |h rc ch l r]; try done. destruct Hwf as [Wl Wr].
  destruct (GetBit_path L [] key) as (b & Hb & Hpb); auto using prefix_nil; [simpl; lia|].
  apply evolved_children in Hev as [Hl Hr]. simpl in Hb.
  cbn [insertHelper] in Hi. rewrite Hb in Hi. cbn [mbind outcome_bind] in Hi. simpl in Hin. destruct b.
  - apply bind_Ret_inv in Hi as (r' & Er & Hi). injection Hi as <-. split; [done|].
    rewrite (union_right L []) in Hin by done. apply (insertHelper_evolved L [true] _ r key value); eauto.
  - apply bind_Ret_inv in Hi as (l' & El & Hi). injection Hi as <-. split; [|done].
    rewrite (union_left L []) in Hin by done. apply (insertHelper_evolved L [false] _ l key value); eauto.
Qed.

(** ** The delta *)

Section Delta.
Context `{HashFunction}.

(** What [copyChangesOnlyHelper] returns. *)
Fixpoint delta (n : Node) : Node :=
  match n with
  | DictionaryLeaf d =>
      if dln_changed d
      then DictionaryLeaf (MkDLN (dln_key d) (dln_value d) (hashOf n) true false)
      else StubNode (MkStub (hashOf n))
  | Interior _ _ true l r => Interior (hashOf n) false true (delta l) (delta r)
  | _ => StubNode (MkStub (hashOf n))
  end.

Lemma delta_prunes L p n : wf L p n → prunes n (delta n).
Proof.
  revert p. induction n as [|s|d| |h rc ch l IHl r IHr]; intros p Hwf; try done.
  - simpl. destruct (dln_changed d); by constructor.
  - by constructor.
  - destruct Hwf as (Wl & Wr & _). destruct ch; [constructor; eauto|by constructor].
Qed.

Lemma delta_cache L p n : wf L p n → cache_ok (delta n) ∧ clean (delta n).
Proof.
  revert p. induction n as [|s|d| |h rc ch l IHl r IHr]; intros p Hwf; try done.
  - simpl. destruct (dln_changed d); [|done]. simpl. auto using Witness_length.
  - destruct Hwf as (Wl & Wr & _). destruct ch; [|done]. simpl.
    rewrite (prunes_hash l (delta l)), (prunes_hash r (delta r)) by (by eapply delta_prunes).
    destruct (IHl _ Wl), (IHr _ Wr). rewrite Sum256_length. auto 10.
Qed.

(** One [GetHash] on a leaf. *)
Lemma leaf_GetHash d :
  cache_ok (DictionaryLeaf d) →
  ∃ d', DictionaryLeafNode_GetHash d = (hashOf (DictionaryLeaf d), d') ∧
    rehashed (DictionaryLeaf d) (DictionaryLeaf d') ∧ clean (DictionaryLeaf d') ∧
    dln_key d' = dln_key d ∧ dln_value d' = dln_value d.
Proof.
  intros Hc. destruct (GetHash_rehashed _ Hc) as (n' & Hg & R & K); [done|]. cbn [GetHash] in Hg.
  destruct (DictionaryLeafNode_GetHash d) as [hd d'] eqn:Eg. injection Hg as -> <-.
  exists d'. pose proof (rehashed_equiv _ _ R) as He. apply leaf_equiv in He. done.
Qed.

Lemma cached_leaf k v h :
  length h = 32 → NewDictionaryLeafNodeCachedHash k v h = MkDLN k v h true false.
Proof.
  intros Hh. unfold NewDictionaryLeafNodeCachedHash. rewrite !go_copy_zeros.
  by rewrite go_copy_same.
Qed.

Lemma NewStub_eq h : NewStub h = MkStub h.
Proof. unfold NewStub. by rewrite go_copy_zeros. Qed.

Lemma copyChangesOnlyHelper_spec L p n :
  wf L p n → cache_ok n →
  ∃ n', copyChangesOnlyHelper n = Ret (delta n, n') ∧ rehashed n n' ∧ (clean n → clean n').
Proof.
  revert p. induction n as [|s|d| |h rc ch l IHl r IHr]; intros p Hwf Hc; try done.
  - destruct (leaf_GetHash d Hc) as (d' & Eg & R & K & Ek & Ev). exists (DictionaryLeaf d').
    split; [|done]. cbn [copyChangesOnlyHelper delta]. rewrite Eg.
    destruct (dln_changed d); simpl negb; cbv iota; [|by rewrite NewStub_eq].
    by rewrite cached_leaf, Ek, Ev by apply Witness_length.
  - by exists EmptyLeaf.
  - destruct Hwf as (Wl & Wr & _). pose proof Hc as (Hh & _ & Cl & Cr). destruct ch; cycle 1.
    { destruct (GetHash_rehashed _ Hc) as (n' & Hg & R & K); [done|]. exists n'. split; [|done].
      cbn [copyChangesOnlyHelper delta]. by rewrite Hg; cbn; rewrite NewStub_eq. }
    destruct (IHl _ Wl Cl) as (l' & El & Rl & Kl). destruct (IHr _ Wr Cr) as (r' & Er & Rr & Kr).
    pose proof (rehashed_interior h rc true l r l' r' Hc Rl Rr Kl Kr) as R.
    destruct (GetHash_rehashed (Interior h rc true l' r')) as (n' & Hg & R' & K'); [apply R|done|].
    rewrite (hashOf_proper _ _ (rehashed_equiv _ _ R)) in Hg. exists n'.
    split; [|split; [by eapply rehashed_trans|done]].
    cbn [copyChangesOnlyHelper]. rewrite El. cbn [mbind outcome_bind]. rewrite Er. cbn [mbind outcome_bind].
    rewrite Hg. cbn [mbind outcome_bind]. unfold NewInteriorNodeWithCachedHash.
    by rewrite go_copy_same by apply Sum256_length.
Qed.
End Delta.

(** ** One update of a client *)

Fixpoint nonempty_fields (n : Node) : Prop :=
  match n with
  | StubNode s => stub_hash s ≠ []
  | DictionaryLeaf d => dln_key d ≠ [] ∧ dln_value d ≠ []
  | Interior _ _ _ l r => nonempty_fields l ∧ nonempty_fields r
  | _ => True
  end.

Lemma nonempty_serializable n :
  nonempty_fields n → n ≠ NilNode → (ByteSize n < 2 ^ 31)%Z → serializable n.
Proof.
  induction n as [|s|d| |h rc ch l IHl r IHr]; intros Hf Hn Hb; try done.
  - split; [done|]. simpl in Hb. unfold Stub_ByteSize in Hb. lia.
  - destruct Hf. simpl in Hb. unfold DictionaryLeafNode_ByteSize, len in Hb.
    split; (split; [done|unfold len; lia]).
  - destruct Hf as [Fl Fr]. simpl in Hb.
    pose proof (ByteSize_nonneg l). pose proof (ByteSize_nonneg r). split.
    + destruct (is_nil l) eqn:E; [by left|right]. apply is_nil_false in E. simpl in Hb.
      split; [apply IHl; auto|]; repeat case_match; lia.
    + destruct (is_nil r) eqn:E; [by left|right]. apply is_nil_false in E. simpl in Hb.
      split; [apply IHr; auto|]; repeat case_match; lia.
Qed.

Lemma wf_nonempty_fields L p n :
  0 < L → wfr L p n → map_Forall (λ _ v, v ≠ []) (entries n) → nonempty_fields n.
Proof.
  intros HL. revert p. induction n as [|s|d| |h rc ch l IHl r IHr]; intros p Hwf Hv; try done.
  - by destruct Hwf as [|[]].
  - destruct Hwf as [[Hk _]|[_ []]]. simpl in Hv. apply map_Forall_singleton in Hv. simpl.
    split; [|done]. intros E. rewrite E in Hk. simpl in Hk. lia.
  - destruct (wfr_children _ _ _ _ _ _ _ HL Hwf) as (Wl & Wr & _). simpl in Hv.
    apply map_Forall_union in Hv as [Vl Vr]; [|by apply (entries_disjoint L p false)].
    split; [eapply IHl|eapply IHr]; eauto; by left.
Qed.

Section Follow.
Context `{HashFunction}.

(** The update a client gets for [keys] from the node [d] of a delta, merged into its
    node [m], shows the keys in [n1]. *)
Definition followed (keys : list bytes) (i : nat) (n1 d m : Node) : Prop :=
  ∃ u d', getUpdatesHelper keys d i = Ret (u, d') ∧ rehashed d d' ∧ (clean d → clean d') ∧
    (nonempty_fields n1 → nonempty_fields u) ∧
    shows keys i n1 (if HasLeft u then UpdateNode m u else m) ∧
    cache_ok (if HasLeft u then UpdateNode m u else m).

Lemma followed_unchanged keys i n0 n1 m :
  n0 ≡ n1 → shows keys i n0 m → cache_ok m → followed keys i n1 (StubNode (MkStub (hashOf n1))) m.
Proof.
  intros He Hs Hc. exists NilNode, (StubNode (MkStub (hashOf n1))).
  repeat split; auto. simpl. by eapply shows_equiv.
Qed.

(** No key of the client leads to the changed node: it gets a stub. *)
Lemma followed_stub L p i n1 d m :
  wf L p n1 → prunes n1 d → cache_ok d → is_empty d = false → (∀ s, d ≠ StubNode s) →
  followed [] i n1 d m.
Proof.
  intros Hwf P Hc He Hs. destruct (GetHash_rehashed d Hc (prunes_not_nil _ _ P)) as (d' & Hg & R & K).
  exists (StubNode (MkStub (hashOf n1))), d'.
  assert (hashOf n1 ≠ []).
  { intros E. pose proof (hashOf_length _ _ _ Hwf) as Hl. by rewrite E in Hl. }
  split; [|repeat split; try apply R; auto; simpl; constructor; by destruct n1].
  rewrite <- (prunes_hash _ _ P), <- NewStub_eq. destruct d as [|s|dd| |h rc ch l r]; try done.
  - by destruct (Hs s).
  - cbn [GetHash getUpdatesHelper] in Hg |- *. destruct (DictionaryLeafNode_GetHash dd). by injection Hg as -> ->.
  - cbn [getUpdatesHelper]. by rewrite Hg.
Qed.

Lemma shows_children keys i kl kr n0 m :
  keys ≠ [] → partition_keys keys i = Ret (kl, kr) → shows keys i n0 m →
  shows kl (S i) (child_left n0) (child_left m) ∧ shows kr (S i) (child_right n0) (child_right m).
Proof.
  intros Hne Hp Hs. destruct Hs as [| | | |keys i kl' kr' h rc ch l r h' rc' ch' l' r' Hp' Hl Hr];
    try done; try (split; constructor).
  rewrite Hp in Hp'. by injection Hp' as -> ->.
Qed.

Lemma cache_children m : cache_ok m → cache_ok (child_left m) ∧ cache_ok (child_right m).
Proof. destruct m; try done. by intros (_ & _ & ? & ?). Qed.

Lemma followed_interior keys i kl kr h rc ch l r hd rcd chd dl dr m :
  keys ≠ [] → partition_keys keys i = Ret (kl, kr) →
  cache_ok (Interior hd rcd chd dl dr) →
  followed kl (S i) l dl (child_left m) → followed kr (S i) r dr (child_right m) →
  followed keys i (Interior h rc ch l r) (Interior hd rcd chd dl dr) m.
Proof.
  intros Hne Hp Hc (ul & dl' & Gl & Rl & Kl & Fl & Sl & Cl) (ur & dr' & Gr & Rr & Kr & Fr & Sr & Cr).
  pose proof (rehashed_interior hd rcd chd dl dr dl' dr' Hc Rl Rr Kl Kr) as R.
  destruct (GetHash_rehashed (Interior hd rcd chd dl' dr')) as (d' & Hg & R' & K'); [apply R|done|].
  exists (NewInteriorNodeWithCachedHash ul ur (hashOf (Interior hd rcd chd dl' dr'))), d'.
  split.
  { cbn [getUpdatesHelper]. destruct keys; [done|]. rewrite Hp. cbn [mbind outcome_bind]. rewrite Gl.
    cbn [mbind outcome_bind]. rewrite Gr. cbn [mbind outcome_bind]. by rewrite Hg. }
  split; [by eapply rehashed_trans|]. split; [done|].
  split; [intros []; split; auto|]. cbn [HasLeft is_nil negb NewInteriorNodeWithCachedHash UpdateNode].
  split; [by econstructor|]. by apply cache_ok_new_interior.
Qed.

Lemma update_subtree L p n1 n0 m keys :
  0 < L → wf L p n1 → evolved n0 n1 → Forall (key_at L p) keys →
  shows keys (length p) n0 m → cache_ok m → followed keys (length p) n1 (delta n1) m.
Proof.
  intros HL. revert p n0 m keys. induction n1 as [|s|d| |h rc ch l IHl r IHr];
    intros p n0 m keys Hwf Hev Hk Hs Hc; try done.
  - pose proof (delta_prunes _ _ _ Hwf) as P. destruct (delta_cache _ _ _ Hwf) as [C _].
    simpl in P, C |- *. destruct (dln_changed d) eqn:E; cycle 1.
    { destruct Hev as [Hev|Hev]; [congruence|]. by eapply followed_unchanged. }
    destruct keys as [|k keys]; [by eapply (followed_stub L p)|].
    set (d1 := MkDLN _ _ _ _ _) in *. destruct (leaf_GetHash d1 C) as (d' & Eg & R & K & Ek & Ev).
    exists (DictionaryLeaf (MkDLN (dln_key d) (dln_value d) (hashOf (DictionaryLeaf d1)) true false)),
      (DictionaryLeaf d').
    split; [cbn [getUpdatesHelper]; by rewrite Eg, cached_leaf, Ek, Ev by apply Witness_length|].
    split; [done|]. split; [done|]. split; [done|]. simpl. split; [by constructor|].
    auto using Witness_length.
  - by eapply followed_unchanged.
  - destruct ch; [|by eapply followed_unchanged]. pose proof (wf_depth _ _ _ _ _ _ _ Hwf) as Hlt.
    pose proof (delta_prunes _ _ _ Hwf) as P. destruct (delta_cache _ _ _ Hwf) as [C _].
    destruct (decide (keys = [])) as [->|Hne]; [by apply (followed_stub L p)|].
    destruct (partition_keys_spec L p keys Hlt Hk) as (kl & kr & Ep & Hkl & Hkr & _).
    destruct (shows_children _ _ _ _ _ _ Hne Ep Hs) as [Sl Sr].
    destruct (cache_children _ Hc) as [Cl Cr]. destruct Hwf as (Wl & Wr & _), Hev as [El Er].
    apply (followed_interior _ _ kl kr); auto.
    + rewrite <- (length_snoc p false). apply (IHl _ (child_left n0)); auto. by rewrite length_snoc.
    + rewrite <- (length_snoc p true). apply (IHr _ (child_right n0)); auto. by rewrite length_snoc.
Qed.

(** The whole update, from the full trie to the client. *)
Lemma update_client L keys fm0 fm1 pm :
  0 < L → valid L fm1 → keys ≠ [] → Forall (λ k, length k = L) keys →
  evolved (fm_root fm0) (fm_root fm1) → tracks keys fm0 pm →
  ∃ dm fm2 upd dm' pm',
    NewDeltaMPT fm1 = Ret (dm, fm2) ∧ rehashed (fm_root fm1) (fm_root fm2) ∧
    prunes (fm_root fm1) (dm_root dm) ∧ cache_ok (dm_root dm) ∧
    GetUpdatesForKeys dm keys = Ret (upd, dm') ∧ ProcessUpdates pm upd = Ret pm' ∧
    tracks keys fm1 pm' ∧
    (nonempty_fields (fm_root fm1) → nonempty_fields (dm_root upd)) ∧ dm_root upd ≠ NilNode.
Proof.
  intros HL [Hwf [Hc Hf]] Hne Hk Hev [Hs Hcm].
  assert (Hk0 : Forall (key_at L []) keys).
  { eapply Forall_impl; [exact Hk|]. intros k Hl. split; [done|apply prefix_nil]. }
  destruct fm1 as [n1]. simpl in *. destruct n1 as [| | | |h rc ch l r]; try done.
  destruct Hwf as [Wl Wr]. apply evolved_children in Hev as [El Er].
  pose proof Hc as (Hh & _ & Cl & Cr).
  destruct (copyChangesOnlyHelper_spec L [false] l Wl Cl) as (l' & Dl & Rl & Kl).
  destruct (copyChangesOnlyHelper_spec L [true] r Wr Cr) as (r' & Dr & Rr & Kr).
  destruct (delta_cache L [false] l Wl) as [CDl _]. destruct (delta_cache L [true] r Wr) as [CDr _].
  pose proof (cache_ok_new_interior _ _ CDl CDr) as Cd.
  destruct (partition_keys_spec L [] keys) as (kl & kr & Ep & Hkl & Hkr & _); [simpl; lia|done|].
  destruct (shows_children _ _ _ _ _ _ Hne Ep Hs) as [Sl Sr]. destruct (cache_children _ Hcm) as [Cml Cmr].
  destruct (followed_interior keys 0 kl kr h rc ch l r (zeros 32) true true (delta l) (delta r) (pm_root pm))
    as (u & d' & Gu & Ru & _ & Fu & Su & Cu); auto.
  { by apply (update_subtree L [false] l (child_left (fm_root fm0))). }
  { by apply (update_subtree L [true] r (child_right (fm_root fm0))). }
  assert (as_interior u = Ret u ∧ u ≠ NilNode) as [Hint Hnil].
  { cbn [getUpdatesHelper] in Gu. destruct keys; [done|].
    repeat (apply bind_Ret_inv in Gu as ([? ?] & _ & Gu)). injection Gu as <- _. done. }
  assert (HasLeft u = true) as HL' by (unfold HasLeft; by destruct u). rewrite HL' in Su, Cu.
  exists (MkDeltaMPT (NewInteriorNode (delta l) (delta r))), (MkFullMPT (Interior h rc ch l' r')),
    (MkDeltaMPT u), (MkDeltaMPT d'), (MkPartialMPT (UpdateNode (pm_root pm) u)).
  split. { unfold NewDeltaMPT. cbn [fm_root]. rewrite Dl. cbn [mbind outcome_bind]. by rewrite Dr. }
  split; [by apply rehashed_interior|].
  split; [constructor; by eapply delta_prunes|]. split; [done|].
  split. { unfold GetUpdatesForKeys, NewInteriorNode. cbn [dm_root]. rewrite Gu. cbn [mbind outcome_bind]. by rewrite Hint. }
  split; [|done]. unfold ProcessUpdates. cbn [dm_root].
  rewrite (shows_interior_root L keys (Interior h rc ch l r)); done.
Qed.
End Follow.

(** ** Rounds of updates *)

(** Between two commitments the server applies [ops] to its trie; then it computes the
    delta, sends the client the part for its keys, and resets the trie. *)
Definition update_round `{HashFunction} (keys : list bytes) (ops : list op) (st : FullMPT * PartialMPT)
    : outcome (FullMPT * PartialMPT) :=
  let '(fm, pm) := st in
  fm ← run ops fm;
  '(dm, fm) ← NewDeltaMPT fm;
  '(upd, _) ← GetUpdatesForKeys dm keys;
  pm ← ProcessUpdates pm upd;
  fm ← Reset fm;
  mret (fm, pm).

Definition update_rounds `{HashFunction} (keys : list bytes) (rounds : list (list op))
    (st : FullMPT * PartialMPT) : outcome (FullMPT * PartialMPT) :=
  foldl (λ acc ops, acc ≫= update_round keys ops) (Ret st) rounds.

(** An operation that sets the value of a key of [m]. *)
Definition sets_existing (m : gmap bytes bytes) (o : op) : Prop :=
  match o with OInsert k _ => is_Some (m !! k) | _ => False end.

Section Rounds.
Context `{HashFunction}.

Lemma wf_root_key L n k : wf_root L n → is_Some (entries n !! k) → length k = L.
Proof.
  intros Hwf [v Hk]. destruct n as [| | | |h rc ch l r]; try done. destruct Hwf as [Hl Hr].
  simpl in Hk. apply lookup_union_Some_raw in Hk as [Hk|[_ Hk]].
  - by apply (wf_entries _ _ _ _ _ Hl) in Hk as [].
  - by apply (wf_entries _ _ _ _ _ Hr) in Hk as [].
Qed.

Lemma run_updates L n0 m ops fm :
  0 < L → valid L fm → evolved n0 (fm_root fm) → (∀ k, is_Some (m !! k) → is_Some (entries (fm_root fm) !! k)) →
  Forall (sets_existing m) ops →
  ∃ fm1, run ops fm = Ret fm1 ∧ valid L fm1 ∧ evolved n0 (fm_root fm1) ∧
    entries (fm_root fm1) = foldl (flip spec_op) (entries (fm_root fm)) ops ∧
    (∀ k, is_Some (m !! k) → is_Some (entries (fm_root fm1) !! k)).
Proof.
  intros HL Hv Hev Hdom Hops. revert fm Hv Hev Hdom. induction Hops as [|o ops Ho Hops IH]; intros fm Hv Hev Hdom.
  - exists fm. auto.
  - destruct o as [k v| | |]; try done. simpl in Ho. apply Hdom in Ho.
    assert (Hk : length k = L) by (eapply wf_root_key; [by destruct Hv|done]).
    destruct (Insert_spec L fm k v HL Hv Hk) as (fm1 & Hi & Hv1 & He1).
    destruct (IH fm1) as (fm2 & Hr & Hv2 & Hev2 & He2 & Hd2); auto.
    + apply (Insert_evolved L n0 fm k v); auto. apply Hv.
    + intros k' Hk'. rewrite He1. destruct (decide (k = k')) as [->|]; [by rewrite lookup_insert_eq|].
      rewrite lookup_insert_ne by done. auto.
    + exists fm2. rewrite (run_cons (OInsert k v) _ _ fm1) by done.
      split; [done|]. split; [done|]. split; [done|]. split; [by rewrite He2, He1|done].
Qed.

Lemma update_round_spec L keys m ops fm pm :
  0 < L → valid L fm → keys ≠ [] → Forall (λ k, length k = L) keys → tracks keys fm pm →
  (∀ k, is_Some (m !! k) → is_Some (entries (fm_root fm) !! k)) → Forall (sets_existing m) ops →
  ∃ fm' pm', update_round keys ops (fm, pm) = Ret (fm', pm') ∧ valid L fm' ∧ tracks keys fm' pm' ∧
    entries (fm_root fm') = foldl (flip spec_op) (entries (fm_root fm)) ops ∧
    (∀ k, is_Some (m !! k) → is_Some (entries (fm_root fm') !! k)).
Proof.
  intros HL Hv Hne Hk Ht Hdom Hops.
  destruct (run_updates L (fm_root fm) m ops fm) as (fm1 & Hr & Hv1 & Hev & He & Hd); auto using evolved_equiv.
  destruct (update_client L keys fm fm1 pm) as (dm & fm2 & upd & dm' & pm' & ED & R & _ & _ & EU & EP & T & _); auto.
  pose proof (rehashed_equiv _ _ R) as E2.
  assert (Hv2 : valid L fm2).
  { destruct R as [S C], Hv1 as [W1 [_ F1]]. split; [eapply wf_root_proper; [symmetry; exact E2|done]|].
    split; [done|]. apply flags_strip. rewrite S. by apply flags_strip. }
  destruct (Reset_spec L fm2 Hv2) as (fm3 & ER & Hv3 & E3 & _).
  assert (E : fm_root fm3 ≡ fm_root fm1) by (by rewrite E3).
  exists fm3, pm'. split.
  { unfold update_round. rewrite Hr. cbn [mbind outcome_bind]. rewrite ED. cbn [mbind outcome_bind].
    rewrite EU. cbn [mbind outcome_bind]. rewrite EP. cbn [mbind outcome_bind]. by rewrite ER. }
  split; [done|]. split.
  { destruct T as [Ts Tc]. split; [|done]. eapply shows_equiv; [|exact Ts]. by symmetry. }
  by rewrite (entries_proper _ _ E).
Qed.

Lemma update_rounds_spec L keys m rounds fm pm :
  0 < L → valid L fm → keys ≠ [] → Forall (λ k, length k = L) keys → tracks keys fm pm →
  (∀ k, is_Some (m !! k) → is_Some (entries (fm_root fm) !! k)) → Forall (Forall (sets_existing m)) rounds →
  ∃ fm' pm', update_rounds keys rounds (fm, pm) = Ret (fm', pm') ∧ valid L fm' ∧ tracks keys fm' pm' ∧
    entries (fm_root fm') = foldl (flip spec_op) (entries (fm_root fm)) (concat rounds).
Proof.
  intros HL Hv Hne Hk Ht Hdom Hr. revert fm pm Hv Ht Hdom.
  induction Hr as [|ops rounds Ho Hr IH]; intros fm pm Hv Ht Hdom.
  - by exists fm, pm.
  - destruct (update_round_spec L keys m ops fm pm) as (fm1 & pm1 & E1 & Hv1 & Ht1 & He1 & Hd1); auto.
    destruct (IH fm1 pm1) as (fm2 & pm2 & E2 & Hv2 & Ht2 & He2); auto.
    exists fm2, pm2. unfold update_rounds in *. cbn [foldl mbind outcome_bind]. rewrite E1.
    split; [done|]. split; [done|]. split; [done|]. simpl. by rewrite foldl_app, He2, He1.
Qed.

(** Merging an update that was read from bytes. *)
Lemma UpdateNode_equiv m u u' : u ≡ u' → UpdateNode m u ≡ UpdateNode m u'.
Proof.
  revert m u'. induction u as [|s|d| |h rc ch l IHl r IHr]; intros m u' He;
    try (destruct u'; by apply equiv_erase in He).
  apply equiv_Interior_inv in He as (h' & rc' & ch' & l' & r' & -> & El & Er). simpl.
  assert (∀ x y, x ≡ y → HasLeft x = HasLeft y) as Hh.
  { intros x y Hxy. apply equiv_erase in Hxy. by destruct x, y. }
  rewrite (Hh _ _ El). unfold HasRight. fold (HasLeft r) (HasLeft r'). rewrite (Hh _ _ Er).
  apply Interior_equiv; case_match; auto.
Qed.

Lemma UpdateNode_cache m u : cache_ok m → cache_ok u → cache_ok (UpdateNode m u).
Proof.
  revert m. induction u as [|s|d| |h rc ch l IHl r IHr]; intros m Hm Hu; try done.
  destruct Hu as (_ & _ & Hl & Hr). destruct (cache_children _ Hm) as [Ml Mr].
  cbn [UpdateNode]. apply cache_ok_new_interior; case_match; auto.
Qed.

Lemma shows_equiv_r keys i n m m' : m ≡ m' → shows keys i n m → shows keys i n m'.
Proof.
  intros He Hs. revert m' He.
  induction Hs as [| |n Hn|keys i d d' Hk Hv|keys i kl kr h rc ch l r h' rc' ch' l' r' Hp Hl IHl Hr IHr];
    intros m' He.
  - apply equiv_nil in He as ->. constructor.
  - apply equiv_erase in He. destruct m'; try done. injection He as <-. by constructor.
  - apply equiv_erase in He. destruct m'; try done. constructor.
  - destruct m'; try (by apply equiv_erase in He). apply leaf_equiv in He as [E1 E2].
    constructor; congruence.
  - apply equiv_Interior_inv in He as (h2 & rc2 & ch2 & l2 & r2 & -> & El & Er).
    econstructor; eauto.
Qed.

Lemma GetUpdates_interior dm keys upd dm' :
  GetUpdatesForKeys dm keys = Ret (upd, dm') → as_interior (dm_root upd) = Ret (dm_root upd).
Proof.
  intros Hu. apply bind_Ret_inv in Hu as ([u0 d0] & _ & Hu). apply bind_Ret_inv in Hu as (u1 & Hi & Hu).
  injection Hu as <- _. destruct u0; try discriminate Hi. by injection Hi as <-.
Qed.

Lemma read_update keys fm1 pm upd pm' rest :
  serializable (dm_root upd) → as_interior (dm_root upd) = Ret (dm_root upd) →
  cache_ok (pm_root pm) → ProcessUpdates pm upd = Ret pm' → tracks keys fm1 pm' →
  ∃ pm2, ProcessUpdatesFromReader pm (DeltaMPT_Bytes upd ++ rest) = Ret (pm2, rest) ∧ tracks keys fm1 pm2.
Proof.
  intros Hs Hi Hc Hp [Ts _]. exists (MkPartialMPT (UpdateNode (pm_root pm) (fresh (dm_root upd)))).
  unfold ProcessUpdates in Hp. apply bind_Ret_inv in Hp as (x & Hx & Hp). injection Hp as <-.
  assert (x = UpdateNode (pm_root pm) (dm_root upd)) as ->.
  { unfold as_interior in Hx. destruct (UpdateNode (pm_root pm) (dm_root upd)); try discriminate Hx.
    by injection Hx as <-. }
  split.
  - unfold ProcessUpdatesFromReader, DeserializeNewDeltaMPT, DeltaMPT_Bytes, DeltaMPT_Serialize.
    rewrite DeserializeNode_Serialize by done. by destruct (dm_root upd).
  - split; cbn [pm_root] in *.
    + eapply shows_equiv_r; [|exact Ts]. apply UpdateNode_equiv. symmetry. apply fresh_equiv.
    + apply UpdateNode_cache; [done|apply marks_fresh].
Qed.
End Rounds.

(** ** Claims *)

Section Claims.
Context `{HashFunction}.

(** The delta of a valid trie is computed without error, leaves the trie as it was
    up to filled caches, and has the commitment of the trie. *)
Theorem delta_commitment (L : nat) (fm : FullMPT) (Hv : valid L fm) :
  ∃ dm fm' c dm1 fm1, NewDeltaMPT fm = Ret (dm, fm') ∧ fm_root fm' ≡ fm_root fm ∧ cache_ok (fm_root fm') ∧
    GetHash (dm_root dm) = Ret (c, dm1) ∧ Commitment fm = Ret (c, fm1).
Proof.
  destruct (Commitment_spec L fm Hv) as (fm1 & Hc1 & _). destruct Hv as [Hwf [Hc Hf]].
  destruct fm as [n]. simpl in *. destruct n as [| | | |h rc ch l r]; try done. destruct Hwf as [Wl Wr].
  pose proof Hc as (Hh & _ & Cl & Cr).
  destruct (copyChangesOnlyHelper_spec L [false] l Wl Cl) as (l' & Dl & Rl & Kl).
  destruct (copyChangesOnlyHelper_spec L [true] r Wr Cr) as (r' & Dr & Rr & Kr).
  pose proof (rehashed_interior h rc ch l r l' r' Hc Rl Rr Kl Kr) as R.
  destruct (GetHash_spec (NewInteriorNode (delta l) (delta r))) as (dm1 & Hg & _); [|done|].
  { apply cache_ok_new_interior; by eapply delta_cache. }
  exists (MkDeltaMPT (NewInteriorNode (delta l) (delta r))), (MkFullMPT (Interior h rc ch l' r')),
    (hashOf (Interior h rc ch l r)), dm1, fm1.
  split. { unfold NewDeltaMPT. cbn [fm_root]. rewrite Dl. cbn [mbind outcome_bind]. by rewrite Dr. }
  split; [by apply rehashed_equiv|]. split; [apply R|]. split; [|done]. cbn [dm_root]. rewrite Hg.
  do 2 f_equal. simpl. by rewrite (prunes_hash l (delta l)), (prunes_hash r (delta r)) by (by eapply delta_prunes).
Qed.

(** C5. Clients follow value updates. A client that got a partial trie for its keys
    from a valid trie stays in step through any number of rounds in which
    the server sets values of existing keys: every step of every round
    succeeds, and afterwards the client's commitment is the server's and
    [Get] on its keys gives the value in the map the updates describe. *)
Theorem client_follows (L : nat) (fm fm' : FullMPT) (keys : list bytes) (pm : PartialMPT)
  (rounds : list (list op))
  (HL : 0 < L) (Hv : valid L fm) (Hne : keys ≠ []) (Hk : Forall (λ k, length k = L) keys)
  (Hpm : NewPartialMPTIncludingKeys fm keys = Ret (pm, fm'))
  (Hr : Forall (Forall (sets_existing (entries (fm_root fm)))) rounds) :
  ∃ fm1 pm1 c pm2 fm2, update_rounds keys rounds (fm', pm) = Ret (fm1, pm1) ∧ valid L fm1 ∧
    entries (fm_root fm1) = foldl (flip spec_op) (entries (fm_root fm)) (concat rounds) ∧
    PartialMPT_Commitment pm1 = Ret (c, pm2) ∧ Commitment fm1 = Ret (c, fm2) ∧
    ∀ key, key ∈ keys → PartialMPT_Get pm1 key = Ret (entries (fm_root fm1) !! key).
Proof.
  destruct (include_keys_spec L fm keys) as (pm0 & fm0 & E & Hv0 & R & T); auto.
  rewrite E in Hpm. injection Hpm as -> ->. pose proof (rehashed_equiv _ _ R) as He.
  destruct (update_rounds_spec L keys (entries (fm_root fm)) rounds fm' pm)
    as (fm1 & pm1 & Eu & Hv1 & T1 & He1); auto.
  { destruct T as [Ts Tc]. split; [|done]. eapply shows_equiv; [|exact Ts]. by symmetry. }
  { intros k. by rewrite He. }
  destruct (tracks_commitment L keys fm1 pm1) as (pm2 & Hc2); [apply Hv1|done|].
  destruct (Commitment_spec L fm1 Hv1) as (fm2 & Hc1 & _).
  exists fm1, pm1, (hashOf (fm_root fm1)), pm2, fm2. rewrite He in He1. repeat (split; [done|]).
  intros key Hin. rewrite (tracks_get L keys fm1 pm1) by done.
  apply (Get_spec L); auto. by apply (proj1 (Forall_forall _ _) Hk).
Qed.

(** Updates travel. In one such round the client can read its update from the bytes
    the server sends, followed by anything, when the stored values are not
    empty and the encoding is shorter than 2 GiB: it consumes exactly those
    bytes and ends with the server's commitment and values. *)
Theorem client_follows_bytes (L : nat) (fm fm' fm1 fm2 : FullMPT) (keys : list bytes) (pm : PartialMPT)
  (ops : list op) (dm upd dm' : DeltaMPT) (rest : bytes)
  (HL : 0 < L) (Hv : valid L fm) (Hne : keys ≠ []) (Hk : Forall (λ k, length k = L) keys)
  (Hpm : NewPartialMPTIncludingKeys fm keys = Ret (pm, fm'))
  (Ho : Forall (sets_existing (entries (fm_root fm))) ops)
  (Hrun : run ops fm' = Ret fm1) (Hd : NewDeltaMPT fm1 = Ret (dm, fm2))
  (Hu : GetUpdatesForKeys dm keys = Ret (upd, dm'))
  (Hvals : map_Forall (λ _ v, v ≠ []) (entries (fm_root fm1)))
  (Hb : (DeltaMPT_ByteSize upd < 2 ^ 31)%Z) :
  ∃ pm1 c x y, ProcessUpdatesFromReader pm (DeltaMPT_Bytes upd ++ rest) = Ret (pm1, rest) ∧
    PartialMPT_Commitment pm1 = Ret (c, x) ∧ Commitment fm1 = Ret (c, y) ∧
    ∀ key, key ∈ keys → PartialMPT_Get pm1 key = Get fm1 key.
Proof.
  destruct (include_keys_spec L fm keys) as (pm0 & fm0 & E & Hv0 & R & T); auto.
  rewrite E in Hpm. injection Hpm as -> ->. pose proof (rehashed_equiv _ _ R) as He.
  assert (T' : tracks keys fm' pm).
  { destruct T as [Ts Tc]. split; [|done]. eapply shows_equiv; [|exact Ts]. by symmetry. }
  destruct (run_updates L (fm_root fm') (entries (fm_root fm)) ops fm') as (fm3 & Hr & Hv1 & Hev & _); auto.
  { by apply evolved_equiv. }
  { intros k. by rewrite He. }
  rewrite Hrun in Hr. injection Hr as <-.
  destruct (update_client L keys fm' fm1 pm)
    as (dm0 & fm4 & upd0 & dm0' & pm' & ED & _ & _ & _ & EU & EP & T1 & Fu & Hn); auto.
  rewrite Hd in ED. injection ED as <- <-. rewrite Hu in EU. injection EU as <- <-.
  destruct (read_update keys fm1 pm upd pm' rest) as (pm2 & E2 & T2); auto.
  { apply nonempty_serializable; auto. apply Fu. apply (wf_nonempty_fields L []); auto. right. by destruct Hv1. }
  { by eapply GetUpdates_interior. }
  { apply T'. }
  destruct (tracks_commitment L keys fm1 pm2) as (x & Hx); [apply Hv1|done|].
  destruct (Commitment_spec L fm1 Hv1) as (y & Hy & _).
  exists pm2, (hashOf (fm_root fm1)), x, y. repeat (split; [done|]).
  intros key Hin. by apply (tracks_get L keys).
Qed.
End Claims.

(** *** Updates that are lost *)

(** The commitments of the server and of the client after one round of [ops], from a
    trie with the entries of [start], for a client with [keys]. *)
Definition commitments_after (start : list op) (keys : list bytes) (ops : list op)
    : outcome (bytes * bytes) :=
  fm ← run start NewFullMPT;
  fm ← Reset fm;
  '(pm, fm) ← NewPartialMPTIncludingKeys fm keys;
  '(fm, pm) ← update_round keys ops (fm, pm);
  '(c, _) ← Commitment fm;
  '(c', _) ← PartialMPT_Commitment pm;
  mret (c, c').

Definition start_two : list op := [OInsert [x00] [x01]; OInsert [x80] [x02]].

(** Both commitments exist and differ. *)
Definition out_of_step (r : outcome (bytes * bytes)) : bool :=
  match r with Ret (c, c') => negb (bytes_eqb c c') | _ => false end.

(** Empty leaves are not sent. A client that tracks key 00 ends the round with a
    commitment other than the server's when the server inserts the new key 01,
    which shares seven bits with it (the empty leaves of the split are
    missing), and when the server deletes the key (the client keeps it). *)
Theorem empty_leaves_lost :
  out_of_step (commitments_after start_two [[x00]] [OInsert [x01] [x03]]) = true ∧
  out_of_step (commitments_after start_two [[x00]] [ODelete [x00]]) = true.
Proof. split; vm_compute; reflexivity. Qed.

(** ** Instances *)

Definition two_trie : FullMPT := trie_of start_two.
Definition two_partial : PartialMPT :=
  match NewPartialMPTIncludingKeys two_trie [[x00]] with Ret (pm, _) => pm | _ => MkPartialMPT NilNode end.
Definition two_full : FullMPT :=
  match NewPartialMPTIncludingKeys two_trie [[x00]] with Ret (_, fm) => fm | _ => NewFullMPT end.
Definition two_updated : FullMPT :=
  match run [OInsert [x00] [x07]] two_full with Ret fm => fm | _ => NewFullMPT end.
Definition two_delta : DeltaMPT * FullMPT :=
  match NewDeltaMPT two_updated with Ret x => x | _ => (MkDeltaMPT NilNode, NewFullMPT) end.
Definition two_update : DeltaMPT * DeltaMPT :=
  match GetUpdatesForKeys (fst two_delta) [[x00]] with Ret x => x | _ => (MkDeltaMPT NilNode, MkDeltaMPT NilNode) end.

Lemma two_valid : valid 1 two_trie.
Proof. apply trie_of_valid; [lia|]. repeat constructor. Qed.

Lemma two_sets k v : k = [x00] ∨ k = [x80] → sets_existing (entries (fm_root two_trie)) (OInsert k v).
Proof. intros [->| ->]; vm_compute; eauto. Qed.

Lemma delta_commitment_witness :
  ∃ dm fm' c dm1 fm1, NewDeltaMPT two_trie = Ret (dm, fm') ∧ fm_root fm' ≡ fm_root two_trie ∧
    cache_ok (fm_root fm') ∧ GetHash (dm_root dm) = Ret (c, dm1) ∧ Commitment two_trie = Ret (c, fm1).
Proof. apply (delta_commitment 1 two_trie two_valid). Defined.

Definition two_rounds : list (list op) := [[OInsert [x80] [x05]]; [OInsert [x00] [x06]; OInsert [x80] [x07]]].

Lemma client_follows_witness :
  ∃ fm1 pm1 c pm2 fm2, update_rounds [[x00]] two_rounds (two_full, two_partial) = Ret (fm1, pm1) ∧
    valid 1 fm1 ∧
    entries (fm_root fm1) = foldl (flip spec_op) (entries (fm_root two_trie)) (concat two_rounds) ∧
    PartialMPT_Commitment pm1 = Ret (c, pm2) ∧ Commitment fm1 = Ret (c, fm2) ∧
    ∀ key, key ∈ [[x00]] → PartialMPT_Get pm1 key = Ret (entries (fm_root fm1) !! key).
Proof.
  apply (client_follows 1 two_trie two_full); [lia|apply two_valid|discriminate|repeat constructor
    |vm_compute; reflexivity|repeat constructor; apply two_sets; tauto].
Defined.

Lemma client_follows_bytes_witness :
  ∃ pm1 c x y, ProcessUpdatesFromReader two_partial (DeltaMPT_Bytes (fst two_update) ++ [xff]) = Ret (pm1, [xff]) ∧
    PartialMPT_Commitment pm1 = Ret (c, x) ∧ Commitment two_updated = Ret (c, y) ∧
    ∀ key, key ∈ [[x00]] → PartialMPT_Get pm1 key = Get two_updated key.
Proof.
  apply (client_follows_bytes 1 two_trie two_full two_updated (snd two_delta) [[x00]] two_partial
    [OInsert [x00] [x07]] (fst two_delta) (fst two_update) (snd two_update));
  [lia|apply two_valid|discriminate|repeat constructor|vm_compute; reflexivity
  |constructor; [apply two_sets; tauto|constructor]|vm_compute; reflexivity..| |vm_compute; reflexivity].
  apply (bool_decide_unpack _). vm_compute. exact I.
Defined.
