(* ===== verification/WireTypes.v ===== *)
(** * Commitments, foreign statements and message payloads (wire/types.go, msg.go)

    The readers of this file ignore the errors of [binary.Read] and never
    return one; what they do on short and malformed input is written out: a
    failed read leaves the variable as it was and has consumed the rest of the
    buffer, and a negative count given to [Next] or [make] panics. *)

From Stdlib Require Import ZArith Lia.
From S2P Require Import Prelude Buffers Sha256 Crypto Utils MerkleTree MerkleTheorems WireCommon MptNode MptSpec FullMPT MptSerialize PartialMPT.

Local Open Scope Z_scope.

(** ** Reads that ignore errors *)

Definition read_i32_or (old : Z) (r : bytes) : Z * bytes :=
  match read_be_i32 r with Ret x => x | _ => (old, []) end.
Definition read_u32_or (old : Z) (r : bytes) : Z * bytes :=
  match read_be_u32 r with Ret x => x | _ => (old, []) end.
Definition read_u64_or (old : Z) (r : bytes) : Z * bytes :=
  match read_be_u64 r with Ret x => x | _ => (old, []) end.

(** [buf.Next(n)] for an [int] that may be negative. *)
Definition next_int (n : Z) (r : bytes) : outcome (bytes * bytes) :=
  if bool_decide (n < 0) then Panic "slice bounds out of range" else mret (next (Z.to_nat n) r).

(** ** Commitments *)

(** [TxHash] and [IncludedInBlock] are pointers, [None] being nil. *)
Record Commitment := MkCommitment {
  c_Commitment : bytes;              (** 32 bytes *)
  TxHash : option bytes;
  TriggeredAtBlockHeight : Z;        (** int *)
  IncludedInBlock : option bytes;
  c_MerkleProof : MerkleProof;
  RawTx : bytes
}.

(** A nil hash is written as zeros. *)
Definition hash_or_zeros (h : option bytes) : bytes := default (zeros 32) h.

Definition Commitment_Bytes (c : Commitment) : outcome bytes :=
  merkleProofBytes ← MerkleProof_Bytes (c_MerkleProof c);
  mret (c_Commitment c ++ hash_or_zeros (TxHash c) ++ put_be_32 (i32 (TriggeredAtBlockHeight c)) ++
        hash_or_zeros (IncludedInBlock c) ++ put_be_32 (i32 (len merkleProofBytes)) ++
        merkleProofBytes ++ RawTx c).

(** Zeros are read as nil. *)
Definition hash_of_bytes (b : bytes) : option bytes :=
  if negb (bytes_eqb (zeros 32) b)
  then match NewHash b with Ret h => Some h | _ => None end
  else None.

Definition CommitmentFromBytes (b : bytes) : outcome Commitment :=
  let '(b1, buf) := next 32 b in
  let commitment := go_copy (zeros 32) b1 in
  let '(b2, buf) := next 32 buf in
  let txHash := hash_of_bytes (go_copy (zeros 32) b2) in
  let '(height, buf) := read_i32_or 0 buf in
  let '(b3, buf) := next 32 buf in
  let includedInBlock := hash_of_bytes (go_copy (zeros 32) b3) in
  let '(i, buf) := read_i32_or height buf in
  '(proofBytes, buf) ← next_int i buf;
  mret (MkCommitment commitment txHash height includedInBlock (NewMerkleProofFromBytes proofBytes) buf).

Definition NewCommitment (c : bytes) (txhash : option bytes) (rawTx : bytes) (triggerHeight : Z) : Commitment :=
  MkCommitment c txhash triggerHeight None (MkMerkleProof 0 []) rawTx.

(** ** Foreign statements *)

Record ForeignStatement := MkForeignStatement {
  fs_InitialStatement : bool;
  fs_LogID : bytes;                  (** 32 bytes *)
  StatementPreimage : bytes;
  fs_Signature : bytes;              (** 64 bytes *)
  PubKey : bytes;                    (** 33 bytes *)
  fs_Index : Z;                      (** uint64 *)
  fs_Proof : option PartialMPT
}.

Definition ForeignStatement_Bytes (f : ForeignStatement) : bytes :=
  [if fs_InitialStatement f then x01 else x00] ++ fs_LogID f ++ fs_Signature f ++ PubKey f ++
  put_be_64 (fs_Index f) ++ put_be_32 (u32 (len (StatementPreimage f))) ++ StatementPreimage f ++
  match fs_Proof f with
  | None => put_be_32 0
  | Some p => put_be_32 (u32 (PartialMPT_ByteSize p)) ++ PartialMPT_Serialize p
  end.

(** A proof that does not parse is left nil. *)
Definition ForeignStatementFromBytes (b : bytes) : outcome ForeignStatement :=
  let '(b1, buf) := next 1 b in
  let '(b2, buf) := next 32 buf in
  let '(b3, buf) := next 64 buf in
  let '(b4, buf) := next 33 buf in
  let '(index, buf) := read_u64_or 0 buf in
  let '(iLen, buf) := read_u32_or 0 buf in
  let '(preimage, buf) := next (Z.to_nat iLen) buf in
  let '(iLen, buf) := read_u32_or iLen buf in
  proof ← (if bool_decide (iLen > 0) then
             match DeserializeNewPartialMPT buf with
             | Ret (p, _) => mret (Some p)
             | Err _ => mret None
             | Panic e => Panic e
             end
           else mret None);
  mret (MkForeignStatement (bytes_eqb b1 [x01]) (go_copy (zeros 32) b2) preimage (go_copy (zeros 64) b3)
          (go_copy (zeros 33) b4) index proof).

(** ** Messages *)

(** The message types are bytes; other values can arrive. *)
Definition MessageTypeCreateLog : Byte.byte := x01.
Definition MessageTypeAppendLog : Byte.byte := x02.
Definition MessageTypeAck : Byte.byte := x03.
Definition MessageTypeError : Byte.byte := x04.
Definition MessageTypeProofUpdate : Byte.byte := x05.
Definition MessageTypeRequestProof : Byte.byte := x06.
Definition MessageTypeProof : Byte.byte := x07.
Definition MessageTypeSubscribeProofUpdates : Byte.byte := x08.
Definition MessageTypeUnsubscribeProofUpdates : Byte.byte := x09.
Definition MessageTypeRequestDeltaProof : Byte.byte := x0a.
Definition MessageTypeDeltaProof : Byte.byte := x0b.
Definition MessageTypeRequestCommitmentHistory : Byte.byte := x0c.
Definition MessageTypeCommitmentHistory : Byte.byte := x0d.
Definition MessageTypeRequestCommitmentDetails : Byte.byte := x0e.
Definition MessageTypeCommitmentDetails : Byte.byte := x0f.

(** [RequestProofMessage]: the log ids, 32 bytes each. *)
Record RequestProofMessage := MkRequestProofMessage { LogIDs : list bytes }.

Definition RequestProofMessage_Bytes (m : RequestProofMessage) : bytes := concat (LogIDs m).

Definition NewRequestProofMessage (logIDs : list bytes) : RequestProofMessage := MkRequestProofMessage logIDs.

(** A last id that is too short is padded with zeros.  Every step consumes at least
    one byte. *)
Fixpoint log_ids (fuel : nat) (buf : bytes) : list bytes :=
  match fuel with
  | O => []
  | S fuel =>
      if bool_decide (len buf > 0) then
        let '(b, buf) := next 32 buf in go_copy (zeros 32) b :: log_ids fuel buf
      else []
  end.

Definition NewRequestProofMessageFromBytes (b : bytes) : RequestProofMessage :=
  MkRequestProofMessage (log_ids (length b) b).

Record RequestCommitmentDetailsMessage := MkRequestCommitmentDetailsMessage { rcd_Commitment : bytes }.
Definition RequestCommitmentDetailsMessage_Bytes (m : RequestCommitmentDetailsMessage) : bytes := rcd_Commitment m.
Definition NewRequestCommitmentDetailsMessage (commitment : bytes) : RequestCommitmentDetailsMessage :=
  MkRequestCommitmentDetailsMessage commitment.
Definition NewRequestCommitmentDetailsMessageFromBytes (b : bytes) : RequestCommitmentDetailsMessage :=
  MkRequestCommitmentDetailsMessage (go_copy (zeros 32) b).

Record RequestCommitmentHistoryMessage := MkRequestCommitmentHistoryMessage { SinceCommitment : bytes }.
Definition RequestCommitmentHistoryMessage_Bytes (m : RequestCommitmentHistoryMessage) : bytes := SinceCommitment m.
Definition NewRequestCommitmentHistoryMessage (sinceCommitment : bytes) : RequestCommitmentHistoryMessage :=
  MkRequestCommitmentHistoryMessage sinceCommitment.
Definition NewRequestCommitmentHistoryMessageFromBytes (b : bytes) : RequestCommitmentHistoryMessage :=
  MkRequestCommitmentHistoryMessage (go_copy (zeros 32) b).

Record CommitmentDetailsMessage := MkCommitmentDetailsMessage { cd_Commitment : Commitment }.
Definition CommitmentDetailsMessage_Bytes (m : CommitmentDetailsMessage) : outcome bytes :=
  Commitment_Bytes (cd_Commitment m).
Definition NewCommitmentDetailsMessage (c : Commitment) : CommitmentDetailsMessage := MkCommitmentDetailsMessage c.
Definition NewCommitmentDetailsMessageFromBytes (b : bytes) : outcome CommitmentDetailsMessage :=
  c ← CommitmentFromBytes b; mret (MkCommitmentDetailsMessage c).

Record CommitmentHistoryMessage := MkCommitmentHistoryMessage { ch_Commitments : list Commitment }.

Fixpoint commitments_bytes (cs : list Commitment) : outcome bytes :=
  match cs with
  | [] => mret []
  | c :: cs =>
      commitmentBytes ← Commitment_Bytes c;
      rest ← commitments_bytes cs;
      mret (put_be_32 (i32 (len commitmentBytes)) ++ commitmentBytes ++ rest)
  end.

Definition CommitmentHistoryMessage_Bytes (m : CommitmentHistoryMessage) : outcome bytes :=
  b ← commitments_bytes (ch_Commitments m);
  mret (put_be_32 (i32 (len (ch_Commitments m))) ++ b).

Definition NewCommitmentHistoryMessage (c : list Commitment) : CommitmentHistoryMessage :=
  MkCommitmentHistoryMessage c.

Fixpoint read_commitments (n : nat) (buf : bytes) : outcome (list Commitment) :=
  match n with
  | O => mret []
  | S n =>
      let '(commitmentLength, buf) := read_i32_or 0 buf in
      '(b, buf) ← next_int commitmentLength buf;
      c ← CommitmentFromBytes b;
      cs ← read_commitments n buf;
      mret (c :: cs)
  end.

Definition NewCommitmentHistoryMessageFromBytes (b : bytes) : outcome CommitmentHistoryMessage :=
  let '(numCommitments, buf) := read_i32_or 0 b in
  if bool_decide (numCommitments < 0) then Panic "makeslice: len out of range"
  else
    cs ← read_commitments (Z.to_nat numCommitments) buf;
    mret (MkCommitmentHistoryMessage cs).
