(* ===== verification/WireTheorems.v ===== *)
(** * Round trips and malformed input of the wire formats *)

From Stdlib Require Import ZArith Lia.
From S2P Require Import Prelude Buffers Sha256 Crypto Utils MerkleTree MerkleTheorems WireCommon MptNode MptSpec FullMPT MptTheorems MptSerialize PartialMPT WireTypes.

Local Open Scope Z_scope.

(** ** Integers *)

Definition uint_reader (n : nat) (r : bytes) : outcome (Z * bytes) := '(b, r) ← read_full n r; mret (le_val b, r).

Lemma uint_read n v r : 0 ≤ v < 256 ^ Z.of_nat n → uint_reader n (le_bytes n v ++ r) = Ret (v, r).
Proof.
  intros Hv. unfold uint_reader. rewrite read_full_app' by apply le_bytes_length. cbn.
  rewrite le_val_le_bytes. by rewrite Z.mod_small.
Qed.

Lemma uint_read_inv n v r r' :
  uint_reader n r = Ret (v, r') → r = le_bytes n v ++ r' ∧ 0 ≤ v < 256 ^ Z.of_nat n.
Proof.
  intros Hr. apply bind_Ret_inv in Hr as ([b r1] & Hb & Hr). injection Hr as <- <-.
  apply read_full_inv in Hb as [-> <-]. rewrite le_bytes_le_val. split; [done|]. apply le_val_range.
Qed.

Lemma le_bytes_mod n v : le_bytes n (v mod 256 ^ Z.of_nat n) = le_bytes n v.
Proof.
  rewrite <- le_val_le_bytes. rewrite <- (le_bytes_length n v) at 1. apply le_bytes_le_val.
Qed.

Lemma ReadVarInt_Write v r : 0 ≤ v < 2 ^ 64 → ReadVarInt (WriteVarInt v ++ r) = Ret (v, r).
Proof.
  intros Hv. unfold WriteVarInt, MaxUint16, MaxUint32.
  repeat case_bool_decide; unfold ReadVarInt, PutUint8, u8, u16, u32; rewrite <- ?app_assoc.
  - change Uint8 with (uint_reader 1). rewrite uint_read by (rewrite Z.mod_small; lia). cbn.
    rewrite Z.mod_small by lia. by rewrite !bool_decide_eq_false_2 by lia.
  - change Uint8 with (uint_reader 1). rewrite uint_read by lia. cbn. unfold PutUint16.
    change Uint16 with (uint_reader 2). rewrite Z.mod_small, uint_read by lia. cbn.
    by repeat (case_bool_decide; try lia).
  - change Uint8 with (uint_reader 1). rewrite uint_read by lia. cbn. unfold PutUint32.
    change Uint32 with (uint_reader 4). rewrite Z.mod_small, uint_read by lia. cbn.
    by repeat (case_bool_decide; try lia).
  - change Uint8 with (uint_reader 1). rewrite uint_read by lia. cbn. unfold PutUint64.
    change Uint64 with (uint_reader 8). rewrite uint_read by (change (256 ^ Z.of_nat 8) with (2 ^ 64); lia). cbn.
    by repeat (case_bool_decide; try lia).
Qed.

(** Only the canonical encoding of a number is accepted. *)
Lemma ReadVarInt_inv r v r' :
  ReadVarInt r = Ret (v, r') → r = WriteVarInt v ++ r' ∧ 0 ≤ v < 2 ^ 64.
Proof.
  intros Hr. unfold ReadVarInt in Hr. apply bind_Ret_inv in Hr as ([d r1] & Hd & Hr).
  apply (uint_read_inv 1) in Hd as [-> Hd]. change (256 ^ Z.of_nat 1) with 256 in Hd.
  unfold WriteVarInt, MaxUint16, MaxUint32, PutUint8, PutUint16, PutUint32, PutUint64, u8, u16, u32.
  case_bool_decide; [|case_bool_decide; [|case_bool_decide]]; subst.
  - apply bind_Ret_inv in Hr as ([w r2] & Hw & Hr). case_bool_decide as Hge; [done|].
    apply (uint_read_inv 8) in Hw as [-> Hw]. injection Hr as <- <-.
    change (256 ^ Z.of_nat 8) with (2 ^ 64) in Hw.
    rewrite !bool_decide_eq_false_2 by lia. by rewrite <- app_assoc.
  - apply bind_Ret_inv in Hr as ([w r2] & Hw & Hr). case_bool_decide as Hge; [done|].
    apply (uint_read_inv 4) in Hw as [-> Hw]. injection Hr as <- <-. change (256 ^ Z.of_nat 4) with (2 ^ 32) in Hw.
    rewrite !bool_decide_eq_false_2 by lia. rewrite bool_decide_eq_true_2 by lia.
    rewrite Z.mod_small by lia. rewrite <- app_assoc. split; [done|lia].
  - apply bind_Ret_inv in Hr as ([w r2] & Hw & Hr). case_bool_decide as Hge; [done|].
    apply (uint_read_inv 2) in Hw as [-> Hw]. injection Hr as <- <-. change (256 ^ Z.of_nat 2) with (2 ^ 16) in Hw.
    rewrite bool_decide_eq_false_2 by lia. rewrite bool_decide_eq_true_2 by lia.
    rewrite Z.mod_small by lia. rewrite <- app_assoc. split; [done|lia].
  - injection Hr as <- <-. rewrite bool_decide_eq_true_2 by lia. rewrite Z.mod_small by lia. split; [done|lia].
Qed.

Lemma WriteVarInt_length v : len (WriteVarInt v) = VarIntSerializeSize v.
Proof.
  unfold WriteVarInt, VarIntSerializeSize, len, PutUint8, PutUint16, PutUint32, PutUint64.
  repeat case_bool_decide; by rewrite ?length_app, ?le_bytes_length.
Qed.

(** ** Byte arrays *)

(** Lengths for which [make] does not panic. *)
Definition allocatable (b : bytes) : Prop := len b ≤ maxAlloc.

Lemma ReadVarBytes_Write m f b r :
  allocatable b → ReadVarBytes m f (WriteVarBytes b ++ r) = Ret (b, r).
Proof.
  unfold allocatable, maxAlloc. intros Hb. unfold ReadVarBytes, WriteVarBytes, u64.
  assert (0 ≤ len b) by (unfold len; lia). rewrite <- app_assoc, Z.mod_small by lia.
  rewrite ReadVarInt_Write by lia. cbn. unfold make_bytes, maxAlloc. rewrite bool_decide_eq_false_2 by lia.
  cbn. unfold len. rewrite Nat2Z.id. apply read_full_app.
Qed.

Lemma ReadVarBytes_inv m f r b r' :
  ReadVarBytes m f r = Ret (b, r') → r = WriteVarBytes b ++ r' ∧ allocatable b.
Proof.
  unfold ReadVarBytes. intros Hr. apply bind_Ret_inv in Hr as ([v r1] & Hv & Hr).
  apply bind_Ret_inv in Hr as (u & Hu & Hr). apply ReadVarInt_inv in Hv as [-> Hv].
  unfold make_bytes in Hu. case_bool_decide as Hm; [done|].
  apply read_full_inv in Hr as [-> Hl]. unfold WriteVarBytes, allocatable, u64.
  assert (len b = v) as -> by (unfold len; lia). rewrite Z.mod_small by lia.
  rewrite <- app_assoc. split; [done|lia].
Qed.

Lemma read_array_app n x r : length x = n → x ≠ [] → read_array n (x ++ r) = Ret (x, r).
Proof.
  intros <- Hx. unfold read_array. rewrite buf_read_app by done. cbn.
  by rewrite bool_decide_eq_false_2 by lia.
Qed.

Lemma read_array_inv n b x r : read_array n b = Ret (x, r) → b = x ++ r ∧ length x = n.
Proof.
  unfold read_array. intros Hr. apply bind_Ret_inv in Hr as ([y r1] & Hy & Hr).
  apply buf_read_length in Hy as [-> Hl]. case_bool_decide; [done|]. injection Hr as <- <-.
  split; [done|lia].
Qed.

(** ** Statements *)

Definition LogStatement_ok (ls : LogStatement) : Prop :=
  length (LogID ls) = 32%nat ∧ 0 ≤ Index ls < 2 ^ 64 ∧ allocatable (ls_Statement ls).
Definition SignedLogStatement_ok (sls : SignedLogStatement) : Prop :=
  length (sls_Signature sls) = 64%nat ∧ LogStatement_ok (Statement sls).
Definition CreateLogStatement_ok (cls : CreateLogStatement) : Prop :=
  length (ControllingKey cls) = 33%nat ∧ allocatable (InitialStatement cls).
Definition SignedCreateLogStatement_ok (scls : SignedCreateLogStatement) : Prop :=
  length (scls_Signature scls) = 64%nat ∧ CreateLogStatement_ok (CreateStatement scls).

Lemma array_nonempty {A} n (x : list A) : length x = S n → x ≠ [].
Proof. by intros Hl ->. Qed.

Lemma LogStatement_read ls r :
  LogStatement_ok ls → NewLogStatementFromBytes (LogStatement_Bytes ls ++ r) = Ret ls.
Proof.
  intros (Hid & Hi & Hs). unfold NewLogStatementFromBytes, LogStatement_Bytes.
  rewrite <- !app_assoc, next_app' by done. rewrite ReadVarInt_Write by done. cbn [mbind outcome_bind].
  rewrite ReadVarBytes_Write by done. cbn [mbind outcome_bind]. rewrite go_copy_same by done. by destruct ls.
Qed.

Lemma LogStatement_read_inv b ls :
  NewLogStatementFromBytes b = Ret ls → ∃ r, b = LogStatement_Bytes ls ++ r ∧ LogStatement_ok ls.
Proof.
  unfold NewLogStatementFromBytes, next. intros Hr.
  apply bind_Ret_inv in Hr as ([i r1] & Hi & Hr). apply bind_Ret_inv in Hr as ([s r2] & Hs & Hr).
  injection Hr as <-. apply ReadVarInt_inv in Hi as [Hd Hi]. apply ReadVarBytes_inv in Hs as [-> Hs].
  assert (Hlen : (32 ≤ length b)%nat).
  { destruct (decide (length b < 32)%nat) as [Hlt|]; [|lia]. rewrite drop_ge in Hd by lia. exfalso.
    pose proof (WriteVarInt_length i) as Hw. unfold VarIntSerializeSize, len in Hw.
    apply (f_equal length) in Hd. rewrite length_app in Hd. simpl in Hd.
    repeat case_bool_decide; lia. }
  assert (length (take 32 b) = 32%nat) by (rewrite length_take; lia).
  exists r2. unfold LogStatement_Bytes, LogStatement_ok. cbn [LogID Index ls_Statement].
  rewrite go_copy_same by done.
  split; [|done]. rewrite <- !app_assoc, <- Hd. by rewrite take_drop.
Qed.

Lemma CreateLogStatement_read cls r :
  CreateLogStatement_ok cls → NewCreateLogStatementFromBytes (CreateLogStatement_Bytes cls ++ r) = Ret cls.
Proof.
  intros [Hk Hs]. unfold NewCreateLogStatementFromBytes, CreateLogStatement_Bytes. rewrite <- app_assoc.
  rewrite read_array_app by (try done; by eapply array_nonempty). cbn.
  rewrite ReadVarBytes_Write by done. by destruct cls.
Qed.

Lemma CreateLogStatement_read_inv b cls :
  NewCreateLogStatementFromBytes b = Ret cls →
  ∃ r, b = CreateLogStatement_Bytes cls ++ r ∧ CreateLogStatement_ok cls.
Proof.
  unfold NewCreateLogStatementFromBytes. intros Hr.
  apply bind_Ret_inv in Hr as ([k r1] & Hk & Hr). apply bind_Ret_inv in Hr as ([s r2] & Hs & Hr).
  injection Hr as <-. apply read_array_inv in Hk as [-> Hk]. apply ReadVarBytes_inv in Hs as [-> Hs].
  exists r2. unfold CreateLogStatement_Bytes. simpl. by rewrite <- app_assoc.
Qed.

(** ** Framing *)

Lemma ReadNextMessage_Write t m r :
  len m < 2 ^ 32 → ReadNextMessage (WriteMessage t m ++ r) = Ret ((t, m), r).
Proof.
  intros Hm. assert (0 ≤ len m) by (unfold len; lia).
  unfold ReadNextMessage, WriteMessage. rewrite <- !app_assoc.
  rewrite (read_full_app' 1 [t]) by done. cbn [mbind outcome_bind].
  rewrite (read_full_app' 4) by apply put_be_32_length. cbn [mbind outcome_bind].
  unfold put_be_32. rewrite be_val_be_bytes. change (256 ^ Z.of_nat 4) with (2 ^ 32). unfold u32.
  rewrite !Z.mod_small by (rewrite ?Z.mod_small; lia). case_bool_decide as Hp.
  - unfold len. rewrite Nat2Z.id, read_full_app. done.
  - destruct m; [done|]. unfold len in Hp. simpl in Hp. lia.
Qed.

Lemma good_ReadNextMessage r : good ReadNextMessage r.
Proof.
  apply good_bind; auto with bv. intros t u r1 _ _. apply good_bind; auto with bv.
  intros l u' r2 _ _. apply good_bind; [|auto with bv]. unfold good. case_bool_decide.
  - apply good_read_full.
  - by exists [].
Qed.

(** ** Commitments *)

(** A hash pointer that survives its encoding: nil, or not all zeros. *)
Definition optional_hash_ok (h : option bytes) : Prop :=
  match h with Some b => length b = 32%nat ∧ b ≠ zeros 32 | None => True end.

Definition Commitment_ok (c : Commitment) : Prop :=
  length (c_Commitment c) = 32%nat ∧ optional_hash_ok (TxHash c) ∧
  - 2 ^ 31 ≤ TriggeredAtBlockHeight c < 2 ^ 31 ∧ optional_hash_ok (IncludedInBlock c) ∧
  proof_ok (c_MerkleProof c) ∧ 8 + 32 * len (Hashes (c_MerkleProof c)) < 2 ^ 31.

Lemma hash_or_zeros_length h : optional_hash_ok h → length (hash_or_zeros h) = 32%nat.
Proof. destruct h; [by intros []|done]. Qed.

Lemma hash_of_bytes_or h : optional_hash_ok h → hash_of_bytes (hash_or_zeros h) = h.
Proof.
  unfold hash_of_bytes, hash_or_zeros. destruct h as [b|]; [|done]. cbn [default id].
  intros [Hl Hz]. rewrite (proj2 (bytes_eqb_false (zeros 32) b)) by auto. cbn [negb].
  unfold NewHash, SetBytes. rewrite bool_decide_eq_false_2; [done|]. intros Hn. by apply Hn.
Qed.

Lemma read_i32_or_put old z r : - 2 ^ 31 ≤ z < 2 ^ 31 → read_i32_or old (put_be_32 (i32 z) ++ r) = (z, r).
Proof. intros Hz. unfold read_i32_or. rewrite read_be_i32_put, !i32_small; [done|..]; rewrite ?i32_small; lia. Qed.

Lemma Commitment_read c :
  Commitment_ok c → ∃ b, Commitment_Bytes c = Ret b ∧ CommitmentFromBytes b = Ret c.
Proof.
  intros (Hc & Ht & Hh & Hi & Hp & Hn). destruct (MerkleProof_roundtrip _ Hp) as (pb & Hpb & Hpl & Hpr).
  assert (Hlen : 0 ≤ len pb < 2 ^ 31) by (unfold len in *; lia).
  eexists. unfold Commitment_Bytes. rewrite Hpb. split; [reflexivity|].
  unfold CommitmentFromBytes. rewrite next_app' by done.
  rewrite next_app' by (by apply hash_or_zeros_length). rewrite read_i32_or_put by lia.
  rewrite next_app' by (by apply hash_or_zeros_length). rewrite read_i32_or_put by lia.
  unfold next_int. rewrite bool_decide_eq_false_2 by lia. unfold len. rewrite Nat2Z.id, next_app.
  cbn [mbind outcome_bind mret outcome_ret].
  rewrite !go_copy_same by (rewrite ?length_zeros; auto using hash_or_zeros_length).
  rewrite !hash_of_bytes_or, Hpr by done. by destruct c.
Qed.

Lemma read_commitments_spec cs r :
  Forall (λ c, Commitment_ok c ∧ ∀ b, Commitment_Bytes c = Ret b → len b < 2 ^ 31) cs →
  ∃ b, commitments_bytes cs = Ret b ∧ read_commitments (length cs) (b ++ r) = Ret cs.
Proof.
  induction 1 as [|c cs [Hok Hlen] Hcs (b & Hb & Hr)].
  - by exists [].
  - destruct (Commitment_read c Hok) as (cb & Hcb & Hcr). specialize (Hlen _ Hcb).
    assert (0 ≤ len cb) by (unfold len; lia).
    exists (put_be_32 (i32 (len cb)) ++ cb ++ b). cbn [commitments_bytes length read_commitments].
    rewrite Hcb, Hb. split; [done|]. rewrite <- !app_assoc, read_i32_or_put by lia.
    unfold next_int. rewrite bool_decide_eq_false_2 by lia. unfold len. rewrite Nat2Z.id, next_app.
    cbn [mbind outcome_bind mret outcome_ret]. rewrite Hcr. cbn [mbind outcome_bind]. by rewrite Hr.
Qed.

(** A commitment that can be sent. *)
Definition sendable (c : Commitment) : Prop :=
  Commitment_ok c ∧ ∀ b, Commitment_Bytes c = Ret b → len b < 2 ^ 31.

Lemma history_message_read cs :
  Forall sendable cs → len cs < 2 ^ 31 →
  ∃ b, CommitmentHistoryMessage_Bytes (NewCommitmentHistoryMessage cs) = Ret b ∧
       NewCommitmentHistoryMessageFromBytes b = Ret (NewCommitmentHistoryMessage cs).
Proof.
  intros Hcs Hn. destruct (read_commitments_spec cs [] Hcs) as (b & Hb & Hr). rewrite app_nil_r in Hr.
  exists (put_be_32 (i32 (len cs)) ++ b).
  unfold CommitmentHistoryMessage_Bytes, NewCommitmentHistoryMessageFromBytes.
  cbn [ch_Commitments NewCommitmentHistoryMessage]. rewrite Hb. split; [done|].
  assert (0 ≤ len cs) by (unfold len; lia). rewrite read_i32_or_put by lia.
  rewrite bool_decide_eq_false_2 by lia. unfold len. by rewrite Nat2Z.id, Hr.
Qed.

Lemma SignedLogStatement_read sls r :
  SignedLogStatement_ok sls → NewSignedLogStatementFromBytes (SignedLogStatement_Bytes sls ++ r) = Ret sls.
Proof.
  intros (Hg & Hl). unfold NewSignedLogStatementFromBytes, SignedLogStatement_Bytes.
  rewrite <- app_assoc, read_array_app by (try done; by eapply array_nonempty). cbn [mbind outcome_bind].
  rewrite LogStatement_read by done. by destruct sls.
Qed.

Lemma SignedCreateLogStatement_read scls r :
  SignedCreateLogStatement_ok scls → NewSignedCreateLogStatementFromBytes (SignedCreateLogStatement_Bytes scls ++ r) = Ret scls.
Proof.
  intros (Hg & Hl). unfold NewSignedCreateLogStatementFromBytes, SignedCreateLogStatement_Bytes.
  rewrite <- app_assoc, read_array_app by (try done; by eapply array_nonempty). cbn [mbind outcome_bind].
  rewrite CreateLogStatement_read by done. by destruct scls.
Qed.

(** ** Foreign statements *)

Definition ForeignStatement_ok (f : ForeignStatement) : Prop :=
  length (fs_LogID f) = 32%nat ∧ length (fs_Signature f) = 64%nat ∧ length (PubKey f) = 33%nat ∧
  0 ≤ fs_Index f < 2 ^ 64 ∧ len (StatementPreimage f) < 2 ^ 32 ∧
  match fs_Proof f with
  | None => True
  | Some p => serializable (pm_root p) ∧ as_interior (pm_root p) = Ret (pm_root p) ∧
      PartialMPT_ByteSize p < 2 ^ 31
  end.

(** The statement with its proof as the reader builds it, hashes pending. *)
Definition fresh_statement (f : ForeignStatement) : ForeignStatement :=
  MkForeignStatement (fs_InitialStatement f) (fs_LogID f) (StatementPreimage f) (fs_Signature f) (PubKey f)
    (fs_Index f) (option_map (λ p, MkPartialMPT (fresh (pm_root p))) (fs_Proof f)).

Lemma read_u64_or_put old z r : 0 ≤ z < 2 ^ 64 → read_u64_or old (put_be_64 z ++ r) = (z, r).
Proof. intros Hz. unfold read_u64_or. rewrite read_be_u64_put. unfold u64. by rewrite Z.mod_small. Qed.

Lemma read_u32_or_put old z r : 0 ≤ z < 2 ^ 32 → read_u32_or old (put_be_32 (u32 z) ++ r) = (z, r).
Proof.
  intros Hz. unfold read_u32_or. rewrite read_be_u32_put. unfold u32. by rewrite !Z.mod_small by (rewrite ?Z.mod_small; lia).
Qed.

Lemma ForeignStatement_read f r :
  ForeignStatement_ok f →
  ForeignStatementFromBytes (ForeignStatement_Bytes f ++ r) = Ret (fresh_statement f).
Proof.
  intros (H1 & H2 & H3 & H4 & H5 & Hp). assert (0 ≤ len (StatementPreimage f)) by (unfold len; lia).
  unfold ForeignStatementFromBytes, ForeignStatement_Bytes. rewrite <- !app_assoc.
  rewrite (next_app' 1) by done. rewrite !next_app' by done. rewrite read_u64_or_put by done.
  rewrite read_u32_or_put by lia. unfold len. rewrite Nat2Z.id, next_app.
  rewrite !go_copy_same by done.
  assert (E : bytes_eqb [if fs_InitialStatement f then x01 else x00] [x01] = fs_InitialStatement f)
    by (by destruct (fs_InitialStatement f)).
  rewrite E. unfold fresh_statement. destruct (fs_Proof f) as [p|].
  - destruct Hp as (Hs & Hi & Hb). pose proof (ByteSize_pos (pm_root p)) as Hpos. unfold PartialMPT_ByteSize in *.
    assert (pm_root p ≠ NilNode) as Hnn by (by destruct (pm_root p)). specialize (Hpos Hnn).
    rewrite <- app_assoc, read_u32_or_put by lia. rewrite bool_decide_eq_true_2 by lia.
    unfold DeserializeNewPartialMPT, PartialMPT_Serialize. rewrite DeserializeNode_Serialize by done.
    cbn [mbind outcome_bind]. cbn [option_map]. by destruct (pm_root p).
  - change (put_be_32 0) with (put_be_32 (u32 0)). rewrite read_u32_or_put by lia. done.
Qed.

(** ** Log ids *)

Lemma log_ids_concat ids fuel :
  Forall (λ id, length id = 32%nat) ids → (32 * length ids ≤ fuel)%nat → log_ids fuel (concat ids) = ids.
Proof.
  intros Hids. revert fuel. induction Hids as [|id ids Hid Hids IH]; intros fuel Hf; simpl in *.
  - by destruct fuel.
  - destruct fuel as [|fuel]; [lia|]. cbn [log_ids].
    rewrite bool_decide_eq_true_2 by (unfold len; rewrite length_app; lia).
    rewrite next_app', go_copy_same by (rewrite ?length_zeros; done). f_equal. apply IH. lia.
Qed.

Lemma concat_length_32 (ids : list bytes) :
  Forall (λ id, length id = 32%nat) ids → length (concat ids) = (32 * length ids)%nat.
Proof. induction 1; simpl; rewrite ?length_app; lia. Qed.

(** ** Claims *)

(** Canonical integers. A variable-length integer is read back from its encoding, its
    encoding is [VarIntSerializeSize] bytes long, and every input that
    [ReadVarInt] accepts starts with the encoding of the number it returns:
    no number has two accepted encodings. *)
Theorem varint_canonical (v : Z) (r : bytes) (Hv : 0 ≤ v < 2 ^ 64) :
  ReadVarInt (WriteVarInt v ++ r) = Ret (v, r) ∧ len (WriteVarInt v) = VarIntSerializeSize v ∧
  ∀ s s' w, ReadVarInt s = Ret (w, s') → s = WriteVarInt w ++ s' ∧ 0 ≤ w < 2 ^ 64.
Proof.
  split; [by apply ReadVarInt_Write|]. split; [apply WriteVarInt_length|].
  intros s s' w. apply ReadVarInt_inv.
Qed.

(** Log statements are parsed exactly. [NewSignedLogStatementFromBytes] returns a
    statement just when the input is the encoding of that statement, possibly
    followed by more bytes, and the statement is well formed (64-byte
    signature, 32-byte log id, 64-bit index, statement of a length that can be
    allocated).  The same holds for statements that create a log. *)
Theorem signed_statements_exact (b : bytes) (sls : SignedLogStatement) (scls : SignedCreateLogStatement) :
  (NewSignedLogStatementFromBytes b = Ret sls ↔
     ∃ r, b = SignedLogStatement_Bytes sls ++ r ∧ SignedLogStatement_ok sls) ∧
  (NewSignedCreateLogStatementFromBytes b = Ret scls ↔
     ∃ r, b = SignedCreateLogStatement_Bytes scls ++ r ∧ SignedCreateLogStatement_ok scls).
Proof.
  split; split.
  - unfold NewSignedLogStatementFromBytes. intros Hr. apply bind_Ret_inv in Hr as ([g r1] & Hg & Hr).
    apply bind_Ret_inv in Hr as (ls & Hl & Hr). injection Hr as <-.
    apply read_array_inv in Hg as [-> Hg]. apply LogStatement_read_inv in Hl as (r & -> & Hl).
    exists r. unfold SignedLogStatement_Bytes. simpl. by rewrite <- app_assoc.
  - intros (r & -> & Hok). by apply SignedLogStatement_read.
  - unfold NewSignedCreateLogStatementFromBytes. intros Hr. apply bind_Ret_inv in Hr as ([g r1] & Hg & Hr).
    apply bind_Ret_inv in Hr as (ls & Hl & Hr). injection Hr as <-.
    apply read_array_inv in Hg as [-> Hg]. apply CreateLogStatement_read_inv in Hl as (r & -> & Hl).
    exists r. unfold SignedCreateLogStatement_Bytes. simpl. by rewrite <- app_assoc.
  - intros (r & -> & Hok). by apply SignedCreateLogStatement_read.
Qed.

(** Framing. A receiver that reads messages until the connection ends gets exactly the
    messages that were written, in order, and then the end of the stream, for
    any number of messages of less than 4 GiB. *)
Theorem messages_roundtrip (ms : list (Byte.byte * bytes)) (fuel : nat)
  (Hms : Forall (λ m, len (snd m) < 2 ^ 32) ms) (Hf : (length ms < fuel)%nat) :
  read_messages fuel (concat (map (λ '(t, m), WriteMessage t m) ms)) = (ms, EOF).
Proof.
  revert fuel Hf. induction Hms as [|[t m] ms Hm Hms IH]; intros fuel Hf;
    (destruct fuel as [|fuel]; [simpl in Hf; lia|]).
  - done.
  - cbn [map concat read_messages]. rewrite ReadNextMessage_Write by done.
    rewrite IH by (simpl in Hf; lia). done.
Qed.

(** A message that ends early is an error, never a shorter message: reading any proper
    prefix of a frame fails. *)
Theorem message_truncated (t : Byte.byte) (m : bytes) (k : nat)
  (Hm : len m < 2 ^ 32) (Hk : (k < length (WriteMessage t m))%nat) :
  ∃ e, ReadNextMessage (take k (WriteMessage t m)) = Err e.
Proof.
  pose proof (good_ReadNextMessage (take k (WriteMessage t m))) as Hg. unfold good in Hg.
  destruct (ReadNextMessage (take k (WriteMessage t m))) as [[x r']|e|] eqn:E; [|by exists e|done].
  exfalso. destruct Hg as (u & Hu & Hall). specialize (Hall (r' ++ drop k (WriteMessage t m))).
  rewrite app_assoc, <- Hu, take_drop in Hall.
  pose proof (ReadNextMessage_Write t m [] Hm) as Hd. rewrite app_nil_r, Hall in Hd.
  injection Hd as _ Hd. apply app_eq_nil in Hd as [_ Hd].
  apply (f_equal length) in Hd. rewrite length_drop in Hd. change (length (@nil Byte.byte)) with 0%nat in Hd. lia.
Qed.

(** Commitment histories. A list of well-formed commitments (32-byte hashes that are
    not all zeros where present, an [int32] height, a proof of 32-byte hashes)
    whose encodings are shorter than 2 GiB is encoded without a panic and
    read back as the same list, each commitment by itself too. *)
Theorem commitments_roundtrip (cs : list Commitment)
  (Hcs : Forall sendable cs) (Hn : len cs < 2 ^ 31) :
  (∃ b, CommitmentHistoryMessage_Bytes (NewCommitmentHistoryMessage cs) = Ret b ∧
        NewCommitmentHistoryMessageFromBytes b = Ret (NewCommitmentHistoryMessage cs)) ∧
  Forall (λ c, ∃ b, Commitment_Bytes c = Ret b ∧ CommitmentFromBytes b = Ret c) cs.
Proof.
  split; [|eapply Forall_impl; [exact Hcs|]; intros c [Hc _]; by apply Commitment_read].
  by apply history_message_read.
Qed.

(** Foreign statements are read back from their encoding, whatever follows it, with
    their partial trie if they have one (its hashes pending). *)
Theorem foreign_statement_roundtrip (f : ForeignStatement) (r : bytes) (Hf : ForeignStatement_ok f) :
  ForeignStatementFromBytes (ForeignStatement_Bytes f ++ r) = Ret (fresh_statement f).
Proof. by apply ForeignStatement_read. Qed.

(** Requests for proofs: the log ids are read back from their encoding. *)
Theorem request_proof_roundtrip (ids : list bytes) (Hids : Forall (λ id, length id = 32%nat) ids) :
  NewRequestProofMessageFromBytes (RequestProofMessage_Bytes (NewRequestProofMessage ids))
    = NewRequestProofMessage ids.
Proof.
  unfold NewRequestProofMessageFromBytes, RequestProofMessage_Bytes, NewRequestProofMessage. simpl.
  f_equal. apply log_ids_concat; [done|]. by rewrite concat_length_32.
Qed.

(** Malformed input panics. The length limit of [ReadVarBytes] is not enforced: a
    statement that announces more than [maxAlloc] bytes makes the parser
    panic, whatever limit is passed; and a commitment with a negative proof
    length, or a history with a negative count, panics as well. *)
Theorem malformed_input_panics (sig id rest : bytes) (idx n : Z)
  (Hsig : length sig = 64%nat) (Hid : length id = 32%nat)
  (Hidx : 0 ≤ idx < 2 ^ 64) (Hn : maxAlloc < n < 2 ^ 64) :
  NewSignedLogStatementFromBytes (sig ++ id ++ WriteVarInt idx ++ WriteVarInt n ++ rest)
    = Panic "makeslice: len out of range" ∧
  CommitmentFromBytes (zeros 100 ++ put_be_32 (-1) ++ rest) = Panic "slice bounds out of range" ∧
  NewCommitmentHistoryMessageFromBytes (put_be_32 (-1) ++ rest) = Panic "makeslice: len out of range".
Proof.
  split; [|done]. unfold NewSignedLogStatementFromBytes, NewLogStatementFromBytes.
  rewrite read_array_app by (try done; by eapply array_nonempty). cbn [mbind outcome_bind].
  rewrite next_app' by done. rewrite ReadVarInt_Write by done. cbn [mbind outcome_bind].
  unfold ReadVarBytes. rewrite ReadVarInt_Write by (unfold maxAlloc in Hn; lia). cbn [mbind outcome_bind].
  unfold make_bytes. by rewrite bool_decide_eq_true_2 by lia.
Qed.

(** ** Instances *)

Lemma varint_canonical_witness :
  ReadVarInt (WriteVarInt 70000 ++ [x01]) = Ret (70000, [x01]) ∧ len (WriteVarInt 70000) = VarIntSerializeSize 70000 ∧
  ∀ s s' w, ReadVarInt s = Ret (w, s') → s = WriteVarInt w ++ s' ∧ 0 ≤ w < 2 ^ 64.
Proof. apply (varint_canonical 70000 [x01]). lia. Defined.

Definition sample_messages : list (Byte.byte * bytes) := [(x03, []); (x06, zeros 32); (x04, [x01; x02])].

Lemma messages_roundtrip_witness :
  read_messages 4 (concat (map (λ '(t, m), WriteMessage t m) sample_messages)) = (sample_messages, EOF).
Proof.
  apply (messages_roundtrip sample_messages 4); [repeat constructor|simpl; lia].
Defined.

Lemma message_truncated_witness : ∃ e, ReadNextMessage (take 5 (WriteMessage x04 [x01; x02])) = Err e.
Proof. apply (message_truncated x04 [x01; x02] 5); [reflexivity|apply Nat.ltb_lt; vm_compute; reflexivity]. Defined.

Definition sample_commitment : Commitment :=
  MkCommitment (replicate 32 x0a) (Some (replicate 32 x0b)) 500 None
    (MkMerkleProof 3 [Some (replicate 32 x0c); Some (replicate 32 x0d)]) [x01; x02; x03].

Lemma sample_commitment_ok : Commitment_ok sample_commitment.
Proof.
  unfold Commitment_ok. split; [reflexivity|]. split; [by split|]. split; [simpl; lia|]. split; [done|].
  split; [|vm_compute; reflexivity]. split; [simpl; lia|]. repeat constructor; by eexists.
Qed.

Lemma sample_commitments_ok :
  Forall sendable [sample_commitment; sample_commitment].
Proof.
  assert (H : ∀ b, Commitment_Bytes sample_commitment = Ret b → len b < 2 ^ 31).
  { intros b [= <-]. vm_compute. reflexivity. }
  repeat apply Forall_cons_2; [..|apply Forall_nil_2]; split; auto using sample_commitment_ok.
Qed.

Lemma commitments_roundtrip_witness :
  (∃ b, CommitmentHistoryMessage_Bytes (NewCommitmentHistoryMessage [sample_commitment; sample_commitment]) = Ret b ∧
        NewCommitmentHistoryMessageFromBytes b = Ret (NewCommitmentHistoryMessage [sample_commitment; sample_commitment])) ∧
  Forall (λ c, ∃ b, Commitment_Bytes c = Ret b ∧ CommitmentFromBytes b = Ret c) [sample_commitment; sample_commitment].
Proof. apply (commitments_roundtrip [sample_commitment; sample_commitment]); [apply sample_commitments_ok|reflexivity]. Defined.

Definition sample_statement : ForeignStatement :=
  MkForeignStatement true (zeros 32) [x61; x62] (zeros 64) (zeros 33) 7
    (Some (MkPartialMPT (NewInteriorNode (StubNode (NewStub (replicate 32 x05))) EmptyLeaf))).

Lemma sample_statement_ok : ForeignStatement_ok sample_statement.
Proof.
  unfold ForeignStatement_ok. repeat (split; [done||(simpl; lia)|]).
  split; [|done]. simpl. split; right; (split; [|done]); [by split|done].
Qed.

Lemma foreign_statement_roundtrip_witness :
  ForeignStatementFromBytes (ForeignStatement_Bytes sample_statement ++ [xff]) = Ret (fresh_statement sample_statement).
Proof. apply (foreign_statement_roundtrip sample_statement [xff] sample_statement_ok). Defined.

Lemma request_proof_roundtrip_witness :
  NewRequestProofMessageFromBytes (RequestProofMessage_Bytes (NewRequestProofMessage [zeros 32; replicate 32 x01]))
    = NewRequestProofMessage [zeros 32; replicate 32 x01].
Proof. apply (request_proof_roundtrip [zeros 32; replicate 32 x01]). repeat constructor. Defined.

Lemma malformed_input_panics_witness :
  NewSignedLogStatementFromBytes (zeros 64 ++ zeros 32 ++ WriteVarInt 0 ++ WriteVarInt (2 ^ 63) ++ [])
    = Panic "makeslice: len out of range" ∧
  CommitmentFromBytes (zeros 100 ++ put_be_32 (-1) ++ []) = Panic "slice bounds out of range" ∧
  NewCommitmentHistoryMessageFromBytes (put_be_32 (-1) ++ []) = Panic "makeslice: len out of range".
Proof. apply (malformed_input_panics (zeros 64) (zeros 32) [] 0 (2 ^ 63)); [reflexivity..|lia|unfold maxAlloc; lia]. Defined.
