(* ===== verification/BtcWire.v ===== *)
(** * Bitcoin block headers and transactions (bitcoin/wire)

    blockheader.go, msgtx.go and the element readers of common.go.  The
    integers and variable-length integers of bitcoin/wire/common.go are the
    same code as those of wire/common.go ([WireCommon]).

    A decoder fills the object it is given and may stop half way with an
    error; callers that ignore the error see what was filled in so far.  A
    decoder therefore returns the object, the unread bytes and the error
    ([dec]).  The buffers that scripts are read into come from a free list,
    which only saves allocations; the step that moves the scripts into one
    contiguous buffer is modelled ([repack]). *)

From Stdlib Require Import ZArith Lia.
From S2P Require Import Prelude Buffers Sha256 Crypto Utils MerkleTree WireCommon MptNode MptSpec FullMPT MptSerialize PartialMPT WireTypes WireTheorems.

Local Open Scope Z_scope.

(** ** Decoders *)

(** A Go [error] result, [None] being nil. *)
Abbreviation go_error := (option string).

Record dec (A : Type) := Dec { dec_val : A; dec_rest : bytes; dec_err : go_error }.
Arguments Dec {A}.
Arguments dec_val {A}.
Arguments dec_rest {A}.
Arguments dec_err {A}.

(** [if err != nil { return err }]: the object is left as [wrap] says. *)
Definition dec_then {A B} (m : dec A) (wrap : A → B) (k : A → bytes → dec B) : dec B :=
  match dec_err m with
  | Some e => Dec (wrap (dec_val m)) (dec_rest m) (Some e)
  | None => k (dec_val m) (dec_rest m)
  end.

(** [io.ReadFull(r, dst)]: a short input fills the front of [dst]. *)
Definition ReadFull (dst r : bytes) : dec bytes :=
  Dec (go_copy dst r) (drop (length dst) r)
    (if bool_decide (length dst ≤ length r)%nat then None
     else match r with [] => Some EOF | _ => Some ErrUnexpectedEOF end).

(** [x, err = f(r)] for a reader that returns [def] with its error.  Nobody reads on
    after an error, so what is left unread then is taken to be nothing. *)
Definition read_as {A} (def : A) (f : bytes → outcome (A * bytes)) (r : bytes) : dec A :=
  match f r with
  | Ret (a, r) => Dec a r None
  | Err e => Dec def [] (Some e)
  | Panic e => Dec def [] (Some e)
  end.

(** ** Block headers *)

(** [Timestamp] is the Unix time in seconds. *)
Record BlockHeader := MkBlockHeader {
  Version : Z;          (** int32 *)
  PrevBlock : bytes;    (** 32 bytes *)
  MerkleRoot : bytes;   (** 32 bytes *)
  Timestamp : Z;        (** seconds *)
  Bits : Z;             (** uint32 *)
  Nonce : Z             (** uint32 *)
}.

#[export] Instance BlockHeader_eq_dec : EqDecision BlockHeader.
Proof. solve_decision. Defined.

Definition blockHeaderLen : nat := 80.

Definition zeroHeader : BlockHeader := MkBlockHeader 0 (zeros 32) (zeros 32) 0 0 0.

Definition readBlockHeader (bh : BlockHeader) (r : bytes) : dec BlockHeader :=
  let '(MkBlockHeader ver prev root ts bits nonce) := bh in
  dec_then (read_as (u32 ver) Uint32 r) (λ _, bh) (λ v r,
  let ver := i32 v in
  dec_then (ReadFull prev r) (λ prev, MkBlockHeader ver prev root ts bits nonce) (λ prev r,
  dec_then (ReadFull root r) (λ root, MkBlockHeader ver prev root ts bits nonce) (λ root r,
  dec_then (read_as ts Uint32 r) (λ ts, MkBlockHeader ver prev root ts bits nonce) (λ ts r,
  dec_then (read_as bits Uint32 r) (λ bits, MkBlockHeader ver prev root ts bits nonce) (λ bits r,
  dec_then (read_as nonce Uint32 r) (λ nonce, MkBlockHeader ver prev root ts bits nonce) (λ nonce r,
  Dec (MkBlockHeader ver prev root ts bits nonce) r None)))))).

Definition writeBlockHeader (bh : BlockHeader) : bytes :=
  let sec := u32 (Timestamp bh) in
  PutUint32 (u32 (Version bh)) ++ PrevBlock bh ++ MerkleRoot bh ++ PutUint32 sec ++
  PutUint32 (Bits bh) ++ PutUint32 (Nonce bh).

(** ** Transactions *)

Definition MaxMessagePayload : Z := 1024 * 1024 * 32.
Definition minTxInPayload : Z := 9 + 32.
Definition maxTxInPerMessage : Z := MaxMessagePayload / minTxInPayload + 1.
Definition minTxOutPayload : Z := 9.
Definition maxTxOutPerMessage : Z := MaxMessagePayload / minTxOutPayload + 1.
Definition maxWitnessItemsPerInput : Z := 500000.
Definition maxWitnessItemSize : Z := 11000.
Definition MaxTxInSequenceNum : Z := 0xffffffff.

Record OutPoint := MkOutPoint {
  Hash : bytes;          (** 32 bytes *)
  op_Index : Z           (** uint32 *)
}.

Record TxIn := MkTxIn {
  PreviousOutPoint : OutPoint;
  SignatureScript : bytes;
  Witness : list bytes;
  Sequence : Z           (** uint32 *)
}.

Record TxOut := MkTxOut {
  Value : Z;             (** int64 *)
  PkScript : bytes
}.

Record MsgTx := MkMsgTx {
  tx_Version : Z;        (** int32 *)
  tx_TxIn : list TxIn;
  tx_TxOut : list TxOut;
  LockTime : Z           (** uint32 *)
}.

#[export] Instance OutPoint_eq_dec : EqDecision OutPoint.
Proof. solve_decision. Defined.
#[export] Instance TxIn_eq_dec : EqDecision TxIn.
Proof. solve_decision. Defined.
#[export] Instance TxOut_eq_dec : EqDecision TxOut.
Proof. solve_decision. Defined.
#[export] Instance MsgTx_eq_dec : EqDecision MsgTx.
Proof. solve_decision. Defined.

Inductive MessageEncoding := BaseEncoding | WitnessEncoding.
#[export] Instance MessageEncoding_eq_dec : EqDecision MessageEncoding.
Proof. solve_decision. Defined.

Definition zeroOutPoint : OutPoint := MkOutPoint (zeros 32) 0.
Definition zeroTxIn : TxIn := MkTxIn zeroOutPoint [] [] 0.
Definition zeroTxOut : TxOut := MkTxOut 0 [].

Definition NewOutPoint (hash : bytes) (index : Z) : OutPoint := MkOutPoint hash index.
Definition NewTxIn (prevOut : OutPoint) (signatureScript : bytes) (witness : list bytes) : TxIn :=
  MkTxIn prevOut signatureScript witness MaxTxInSequenceNum.
Definition NewTxOut (value : Z) (pkScript : bytes) : TxOut := MkTxOut value pkScript.
Definition NewMsgTx (version : Z) : MsgTx := MkMsgTx version [] [] 0.
Definition AddTxIn (msg : MsgTx) (ti : TxIn) : MsgTx :=
  MkMsgTx (tx_Version msg) (tx_TxIn msg ++ [ti]) (tx_TxOut msg) (LockTime msg).
Definition AddTxOut (msg : MsgTx) (to : TxOut) : MsgTx :=
  MkMsgTx (tx_Version msg) (tx_TxIn msg) (tx_TxOut msg ++ [to]) (LockTime msg).

(** *** Writing *)

Definition writeOutPoint (op : OutPoint) : bytes := Hash op ++ PutUint32 (op_Index op).

Definition writeTxIn (ti : TxIn) : bytes :=
  writeOutPoint (PreviousOutPoint ti) ++ WriteVarBytes (SignatureScript ti) ++ PutUint32 (Sequence ti).

Definition WriteTxOut (to : TxOut) : bytes := PutUint64 (u64 (Value to)) ++ WriteVarBytes (PkScript to).

Definition writeTxWitness (wit : list bytes) : bytes :=
  WriteVarInt (u64 (len wit)) ++ concat (map WriteVarBytes wit).

Definition HasWitness (msg : MsgTx) : bool :=
  existsb (λ txIn, negb (bool_decide (len (Witness txIn) = 0))) (tx_TxIn msg).

Definition BtcEncode (msg : MsgTx) (enc : MessageEncoding) : bytes :=
  let doWitness := bool_decide (enc = WitnessEncoding) && HasWitness msg in
  PutUint32 (u32 (tx_Version msg)) ++
  (if doWitness then [x00; x01] else []) ++
  WriteVarInt (u64 (len (tx_TxIn msg))) ++ concat (map writeTxIn (tx_TxIn msg)) ++
  WriteVarInt (u64 (len (tx_TxOut msg))) ++ concat (map WriteTxOut (tx_TxOut msg)) ++
  (if doWitness then concat (map (λ ti, writeTxWitness (Witness ti)) (tx_TxIn msg)) else []) ++
  PutUint32 (LockTime msg).

Definition Serialize (msg : MsgTx) : bytes := BtcEncode msg WitnessEncoding.
Definition SerializeNoWitness (msg : MsgTx) : bytes := BtcEncode msg BaseEncoding.

(** *** Sizes *)

Definition TxIn_SerializeSize (t : TxIn) : Z :=
  40 + VarIntSerializeSize (u64 (len (SignatureScript t))) + len (SignatureScript t).

Definition TxWitness_SerializeSize (t : list bytes) : Z :=
  foldl (λ n witItem, n + VarIntSerializeSize (u64 (len witItem)) + len witItem)
    (VarIntSerializeSize (u64 (len t))) t.

Definition TxOut_SerializeSize (t : TxOut) : Z :=
  8 + VarIntSerializeSize (u64 (len (PkScript t))) + len (PkScript t).

Definition baseSize (msg : MsgTx) : Z :=
  let n := 8 + VarIntSerializeSize (u64 (len (tx_TxIn msg))) + VarIntSerializeSize (u64 (len (tx_TxOut msg))) in
  let n := foldl (λ n txIn, n + TxIn_SerializeSize txIn) n (tx_TxIn msg) in
  foldl (λ n txOut, n + TxOut_SerializeSize txOut) n (tx_TxOut msg).

Definition SerializeSize (msg : MsgTx) : Z :=
  let n := baseSize msg in
  if HasWitness msg
  then foldl (λ n txin, n + TxWitness_SerializeSize (Witness txin)) (n + 2) (tx_TxIn msg)
  else n.

Definition SerializeSizeStripped (msg : MsgTx) : Z := baseSize msg.

(** *** Copies *)

Definition copy_bytes (b : bytes) : bytes := go_copy (zeros (length b)) b.

Definition copy_TxIn (oldTxIn : TxIn) : TxIn :=
  let oldOutPoint := PreviousOutPoint oldTxIn in
  let newOutPoint := MkOutPoint (match SetBytes (Hash oldOutPoint) with Ret h => h | _ => zeros 32 end)
                       (op_Index oldOutPoint) in
  let newScript := if bool_decide (len (SignatureScript oldTxIn) > 0)
                   then copy_bytes (SignatureScript oldTxIn) else [] in
  let witness := if negb (bool_decide (len (Witness oldTxIn) = 0))
                 then map copy_bytes (Witness oldTxIn) else [] in
  MkTxIn newOutPoint newScript witness (Sequence oldTxIn).

Definition copy_TxOut (oldTxOut : TxOut) : TxOut :=
  MkTxOut (Value oldTxOut)
    (if bool_decide (len (PkScript oldTxOut) > 0) then copy_bytes (PkScript oldTxOut) else []).

Definition MsgTx_Copy (msg : MsgTx) : MsgTx :=
  MkMsgTx (tx_Version msg) (map copy_TxIn (tx_TxIn msg)) (map copy_TxOut (tx_TxOut msg)) (LockTime msg).

(** *** Reading *)

Definition readOutPoint (op : OutPoint) (r : bytes) : dec OutPoint :=
  dec_then (ReadFull (Hash op) r) (λ h, MkOutPoint h (op_Index op)) (λ h r,
  dec_then (read_as 0 Uint32 r) (λ i, MkOutPoint h i) (λ i r, Dec (MkOutPoint h i) r None)).

(** The script is nil when there is an error. *)
Definition readScript (maxAllowed : Z) (r : bytes) : dec bytes :=
  dec_then (read_as 0 ReadVarInt r) (λ _, []) (λ count r,
  if bool_decide (count > maxAllowed) then Dec [] r (Some "readScript: larger than the max allowed size")
  else read_as [] (read_full (Z.to_nat count)) r).

Definition readTxIn (ti : TxIn) (r : bytes) : dec TxIn :=
  dec_then (readOutPoint (PreviousOutPoint ti) r)
    (λ op, MkTxIn op (SignatureScript ti) (Witness ti) (Sequence ti)) (λ op r,
  dec_then (readScript MaxMessagePayload r) (λ s, MkTxIn op s (Witness ti) (Sequence ti)) (λ s r,
  dec_then (read_as (Sequence ti) Uint32 r) (λ q, MkTxIn op s (Witness ti) q) (λ q r,
  Dec (MkTxIn op s (Witness ti) q) r None))).

Definition readTxOut (to : TxOut) (r : bytes) : dec TxOut :=
  dec_then (read_as (u64 (Value to)) Uint64 r) (λ _, to) (λ v r,
  dec_then (readScript MaxMessagePayload r) (λ s, MkTxOut (i64 v) s) (λ s r, Dec (MkTxOut (i64 v) s) r None)).

(** Reads into a slice of [n] zero elements; those after an error stay zero. *)
Fixpoint read_slice {A} (zero : A) (read : A → bytes → dec A) (n : nat) (r : bytes) : dec (list A) :=
  match n with
  | O => Dec [] r None
  | S n =>
      dec_then (read zero r) (λ a, a :: replicate n zero) (λ a r,
      dec_then (read_slice zero read n r) (cons a) (λ l r, Dec (a :: l) r None))
  end.

(** The witness of one input. *)
Definition read_witness (txin : TxIn) (r : bytes) : dec TxIn :=
  let set w := MkTxIn (PreviousOutPoint txin) (SignatureScript txin) w (Sequence txin) in
  dec_then (read_as 0 ReadVarInt r) (λ _, txin) (λ witCount r,
  if bool_decide (witCount > maxWitnessItemsPerInput)
  then Dec txin r (Some "MsgTx.BtcDecode: too many witness items to fit into max message size")
  else dec_then (read_slice [] (λ _, readScript maxWitnessItemSize) (Z.to_nat witCount) r) set (λ w r,
       Dec (set w) r None)).

Fixpoint read_witnesses (ins : list TxIn) (r : bytes) : dec (list TxIn) :=
  match ins with
  | [] => Dec [] r None
  | ti :: ins =>
      dec_then (read_witness ti r) (λ ti, ti :: ins) (λ ti r,
      dec_then (read_witnesses ins r) (cons ti) (λ ins r, Dec (ti :: ins) r None))
  end.

(** *** One buffer for all scripts *)

(** [copy(scripts[offset:], s)] and the slice [scripts[offset:end:end]], with the
    offset behind it. *)
Definition place (s : bytes) (st : bytes * Z) : outcome (bytes * (bytes * Z)) :=
  let '(scripts, offset) := st in
  let end_ := u64 (offset + u64 (len s)) in
  if bool_decide (offset > len scripts) then Panic "slice bounds out of range"
  else
    let o := Z.to_nat offset in
    let scripts := take o scripts ++ go_copy (drop o scripts) s in
    if bool_decide (end_ > len scripts) || bool_decide (end_ < offset) then Panic "slice bounds out of range"
    else mret (take (Z.to_nat (end_ - offset)) (drop o scripts), (scripts, end_)).

Fixpoint place_all (l : list bytes) (st : bytes * Z) : outcome (list bytes * (bytes * Z)) :=
  match l with
  | [] => mret ([], st)
  | s :: l => '(s, st) ← place s st; '(l, st) ← place_all l st; mret (s :: l, st)
  end.

Fixpoint place_ins (l : list TxIn) (st : bytes * Z) : outcome (list TxIn * (bytes * Z)) :=
  match l with
  | [] => mret ([], st)
  | ti :: l =>
      '(s, st) ← place (SignatureScript ti) st;
      '(w, st) ← place_all (Witness ti) st;
      '(l, st) ← place_ins l st;
      mret (MkTxIn (PreviousOutPoint ti) s w (Sequence ti) :: l, st)
  end.

Fixpoint place_outs (l : list TxOut) (st : bytes * Z) : outcome (list TxOut * (bytes * Z)) :=
  match l with
  | [] => mret ([], st)
  | to :: l =>
      '(s, st) ← place (PkScript to) st;
      '(l, st) ← place_outs l st;
      mret (MkTxOut (Value to) s :: l, st)
  end.

Definition sizes (l : list bytes) (total : Z) : Z := foldl (λ n s, u64 (n + u64 (len s))) total l.

(** What the loops of [BtcDecode] add up. *)
Definition totalScriptSize (ins : list TxIn) (outs : list TxOut) (hasFlag : bool) : Z :=
  let total := sizes (map SignatureScript ins) 0 in
  let total := sizes (map PkScript outs) total in
  if hasFlag then foldl (λ n ti, sizes (Witness ti) n) total ins else total.

Definition repack (msg : MsgTx) (total : Z) : outcome MsgTx :=
  let scripts := zeros (Z.to_nat total) in
  '(ins, st) ← place_ins (tx_TxIn msg) (scripts, 0);
  '(outs, st) ← place_outs (tx_TxOut msg) st;
  mret (MkMsgTx (tx_Version msg) ins outs (LockTime msg)).

(** *** [MsgTx.BtcDecode] *)

(** The version, the count of inputs and the flag byte. *)
Definition read_prefix (enc : MessageEncoding) (r : bytes) : dec (Z * Z) :=
  dec_then (read_as 0 ReadVarInt r) (λ c, (c, 0)) (λ count r,
  if bool_decide (count = 0) && bool_decide (enc = WitnessEncoding) then
    dec_then (read_as 0 Uint8 r) (λ f, (count, f)) (λ flag r,
    if negb (bool_decide (flag = 1)) then Dec (count, flag) r (Some "MsgTx.BtcDecode: witness tx but flag byte is not 1")
    else dec_then (read_as 0 ReadVarInt r) (λ c, (c, flag)) (λ count r, Dec (count, flag) r None))
  else Dec (count, 0) r None).

(** A step of [BtcDecode]: on an error the message is left as [m] says. *)
Definition decode_step {A} (d : dec A) (m : A → MsgTx) (k : A → bytes → outcome (dec MsgTx)) : outcome (dec MsgTx) :=
  match dec_err d with
  | Some e => mret (Dec (m (dec_val d)) (dec_rest d) (Some e))
  | None => k (dec_val d) (dec_rest d)
  end.

Definition BtcDecode (msg : MsgTx) (enc : MessageEncoding) (r : bytes) : outcome (dec MsgTx) :=
  decode_step (read_as 0 Uint32 r) (λ _, msg) (λ version r,
  let msg := MkMsgTx (i32 version) (tx_TxIn msg) (tx_TxOut msg) (LockTime msg) in
  decode_step (read_prefix enc r) (λ _, msg) (λ '(count, flag) r,
  if bool_decide (count > maxTxInPerMessage)
  then mret (Dec msg r (Some "MsgTx.BtcDecode: too many input transactions to fit into max message size")) else
  decode_step (read_slice zeroTxIn readTxIn (Z.to_nat count) r)
    (λ ins, MkMsgTx (tx_Version msg) ins (tx_TxOut msg) (LockTime msg)) (λ ins r,
  let msg := MkMsgTx (tx_Version msg) ins (tx_TxOut msg) (LockTime msg) in
  decode_step (read_as 0 ReadVarInt r) (λ _, msg) (λ count r,
  if bool_decide (count > maxTxOutPerMessage)
  then mret (Dec msg r (Some "MsgTx.BtcDecode: too many output transactions to fit into max message size")) else
  decode_step (read_slice zeroTxOut readTxOut (Z.to_nat count) r)
    (λ outs, MkMsgTx (tx_Version msg) ins outs (LockTime msg)) (λ outs r,
  let msg := MkMsgTx (tx_Version msg) ins outs (LockTime msg) in
  let hasFlag := negb (bool_decide (flag = 0)) && bool_decide (enc = WitnessEncoding) in
  decode_step (if hasFlag then read_witnesses ins r else Dec ins r None)
    (λ ins, MkMsgTx (tx_Version msg) ins outs (LockTime msg)) (λ ins r,
  decode_step (read_as 0 Uint32 r) (λ l, MkMsgTx (tx_Version msg) ins outs l) (λ lockTime r,
  msg ← repack (MkMsgTx (tx_Version msg) ins outs lockTime) (totalScriptSize ins outs hasFlag);
  mret (Dec msg r None)))))))).

Definition Deserialize (msg : MsgTx) (r : bytes) : outcome (dec MsgTx) := BtcDecode msg WitnessEncoding r.
Definition DeserializeNoWitness (msg : MsgTx) (r : bytes) : outcome (dec MsgTx) := BtcDecode msg BaseEncoding r.

Section Hashes.
Context `{HashFunction}.

Definition BlockHash (h : BlockHeader) : bytes := DoubleHashH (writeBlockHeader h).

Definition TxHash_go (msg : MsgTx) : bytes := DoubleHashH (SerializeNoWitness msg).

Definition WitnessHash (msg : MsgTx) : bytes :=
  if HasWitness msg then DoubleHashH (Serialize msg) else TxHash_go msg.
End Hashes.
