(* ===== verification/BtcTheorems.v ===== *)
(** * Round trips and sizes of transactions and block headers *)

From Stdlib Require Import ZArith Lia.
From S2P Require Import Prelude Buffers Sha256 Crypto Utils MerkleTree WireCommon MptNode MptSpec FullMPT MptSerialize PartialMPT WireTypes WireTheorems BtcWire.

Local Open Scope Z_scope.

(** ** Readers and what they read *)

(** The decoder [p] reads the encoding [e] of [a], whatever follows. *)
Definition reads {A} (p : bytes → dec A) (e : bytes) (a : A) : Prop := ∀ r, p (e ++ r) = Dec a r None.

Lemma reads_then {A B} (p : bytes → dec A) (w : A → B) (k : A → bytes → dec B) e a e' b :
  reads p e a → reads (k a) e' b → reads (λ r, dec_then (p r) w k) (e ++ e') b.
Proof. intros Hp Hk r. by rewrite <- app_assoc, Hp; unfold dec_then; simpl; rewrite Hk. Qed.

Lemma reads_ret {A} (a : A) : reads (λ r, Dec a r None) [] a.
Proof. by intros r. Qed.

(** The last step of a decoder, which only builds the object. *)
Lemma reads_last {A B} (p : bytes → dec A) (w : A → B) (f : A → B) e a :
  reads p e a → reads (λ r, dec_then (p r) w (λ a r, Dec (f a) r None)) e (f a).
Proof. intros Hp. rewrite <- (app_nil_r e). eapply reads_then; [exact Hp|]. apply reads_ret. Qed.

Lemma reads_as {A} (d : A) (f : bytes → outcome (A * bytes)) e a :
  (∀ r, f (e ++ r) = Ret (a, r)) → reads (read_as d f) e a.
Proof. intros Hf r. unfold read_as. by rewrite Hf. Qed.

Lemma reads_Uint32 d z : 0 ≤ z < 2 ^ 32 → reads (read_as d Uint32) (PutUint32 z) z.
Proof. intros Hz. apply reads_as. intros r. by apply (uint_read 4). Qed.

Lemma reads_Uint64 d z : 0 ≤ z < 2 ^ 64 → reads (read_as d Uint64) (PutUint64 z) z.
Proof. intros Hz. apply reads_as. intros r. by apply (uint_read 8). Qed.

Lemma reads_VarInt d z : 0 ≤ z < 2 ^ 64 → reads (read_as d ReadVarInt) (WriteVarInt z) z.
Proof. intros Hz. apply reads_as. intros r. by apply ReadVarInt_Write. Qed.

Lemma reads_ReadFull dst b : length b = length dst → reads (ReadFull dst) b b.
Proof.
  intros Hl r. unfold ReadFull, go_copy. rewrite <- Hl, take_app_length, drop_app_length.
  rewrite bool_decide_eq_true_2 by (rewrite length_app; lia).
  by rewrite drop_ge, app_nil_r by (rewrite length_app; lia).
Qed.

Lemma u32_range z : 0 ≤ u32 z < 2 ^ 32.
Proof. by apply Z.mod_pos_bound. Qed.
Lemma u64_range z : 0 ≤ u64 z < 2 ^ 64.
Proof. by apply Z.mod_pos_bound. Qed.
Lemma u64_small z : 0 ≤ z < 2 ^ 64 → u64 z = z.
Proof. apply Z.mod_small. Qed.
Lemma u32_small z : 0 ≤ z < 2 ^ 32 → u32 z = z.
Proof. apply Z.mod_small. Qed.

Lemma i32_u32 z : - 2 ^ 31 ≤ z < 2 ^ 31 → i32 (u32 z) = z.
Proof. intros Hz. unfold u32. rewrite i32_mod. by apply i32_small. Qed.

Lemma i64_u64 z : - 2 ^ 63 ≤ z < 2 ^ 63 → i64 (u64 z) = z.
Proof.
  intros Hz. unfold i64, u64. rewrite Z.add_mod_idemp_l by lia. rewrite Z.mod_small by lia. lia.
Qed.

Lemma len_nonneg {A} (l : list A) : 0 ≤ len l.
Proof. unfold len. lia. Qed.
Lemma len_cons {A} (x : A) l : len (x :: l) = 1 + len l.
Proof. unfold len. simpl. lia. Qed.
Lemma len_app {A} (l k : list A) : len (l ++ k) = len l + len k.
Proof. unfold len. rewrite length_app. lia. Qed.

#[export] Hint Resolve len_nonneg u32_range u64_range : bv.

(** ** Block headers *)

Definition BlockHeader_ok (h : BlockHeader) : Prop :=
  - 2 ^ 31 ≤ Version h < 2 ^ 31 ∧ length (PrevBlock h) = 32%nat ∧ length (MerkleRoot h) = 32%nat ∧
  0 ≤ Timestamp h < 2 ^ 32 ∧ 0 ≤ Bits h < 2 ^ 32 ∧ 0 ≤ Nonce h < 2 ^ 32.

Lemma writeBlockHeader_length h : BlockHeader_ok h → length (writeBlockHeader h) = blockHeaderLen.
Proof.
  intros (_ & Hp & Hm & _). unfold writeBlockHeader, PutUint32.
  by rewrite !length_app, !le_bytes_length, Hp, Hm.
Qed.

Lemma BlockHeader_reads h0 h :
  length (PrevBlock h0) = 32%nat → length (MerkleRoot h0) = 32%nat → BlockHeader_ok h →
  reads (readBlockHeader h0) (writeBlockHeader h) h.
Proof.
  intros Hp0 Hm0 (Hv & Hp & Hm & Ht & Hb & Hn). destruct h0 as [ver prev root ts bits nonce].
  destruct h as [v p m t b n]. simpl in *. unfold writeBlockHeader, readBlockHeader.
  cbn [Version PrevBlock MerkleRoot Timestamp Bits Nonce].
  eapply reads_then; [apply reads_Uint32, u32_range|]. cbv beta zeta. rewrite i32_u32 by done.
  eapply reads_then; [by apply reads_ReadFull; congruence|].
  eapply reads_then; [by apply reads_ReadFull; congruence|].
  eapply reads_then; [apply reads_Uint32, u32_range|]. rewrite u32_small by done.
  eapply reads_then; [by apply reads_Uint32|]. by apply (reads_last _ _ (λ n, _)), reads_Uint32.
Qed.

(** ** Transactions *)

Definition script_ok (s : bytes) : Prop := len s ≤ MaxMessagePayload.
Definition witness_ok (w : list bytes) : Prop :=
  len w ≤ maxWitnessItemsPerInput ∧ Forall (λ s, len s ≤ maxWitnessItemSize) w.

Definition TxIn_ok (ti : TxIn) : Prop :=
  length (Hash (PreviousOutPoint ti)) = 32%nat ∧ 0 ≤ op_Index (PreviousOutPoint ti) < 2 ^ 32 ∧
  script_ok (SignatureScript ti) ∧ witness_ok (Witness ti) ∧ 0 ≤ Sequence ti < 2 ^ 32.
Definition TxOut_ok (to : TxOut) : Prop := - 2 ^ 63 ≤ Value to < 2 ^ 63 ∧ script_ok (PkScript to).

(** What fits into a message. *)
Record MsgTx_ok (msg : MsgTx) : Prop := {
  ok_version : - 2 ^ 31 ≤ tx_Version msg < 2 ^ 31;
  ok_ins : len (tx_TxIn msg) ≤ maxTxInPerMessage ∧ Forall TxIn_ok (tx_TxIn msg);
  ok_outs : len (tx_TxOut msg) ≤ maxTxOutPerMessage ∧ Forall TxOut_ok (tx_TxOut msg);
  ok_lock : 0 ≤ LockTime msg < 2 ^ 32
}.

Definition strip_input (ti : TxIn) : TxIn :=
  MkTxIn (PreviousOutPoint ti) (SignatureScript ti) [] (Sequence ti).
(** The transaction without its witness data. *)
Definition strip_witness (msg : MsgTx) : MsgTx :=
  MkMsgTx (tx_Version msg) (map strip_input (tx_TxIn msg)) (tx_TxOut msg) (LockTime msg).

Lemma readScript_reads m s : len s ≤ m → m < 2 ^ 48 → reads (readScript m) (WriteVarBytes s) s.
Proof.
  intros Hs Hm. unfold WriteVarBytes, readScript. pose proof (len_nonneg s).
  rewrite u64_small by lia. eapply reads_then; [apply reads_VarInt; lia|].
  intros r. cbv beta. rewrite bool_decide_eq_false_2 by lia. unfold read_as, len.
  by rewrite Nat2Z.id, read_full_app.
Qed.

Lemma readTxIn_reads ti : TxIn_ok ti → reads (readTxIn zeroTxIn) (writeTxIn ti) (strip_input ti).
Proof.
  intros (Hh & Hi & Hs & _ & Hq). destruct ti as [[h i] s w q]. simpl in *. unfold readTxIn, writeTxIn, strip_input.
  cbn [PreviousOutPoint SignatureScript Witness Sequence zeroTxIn].
  eapply reads_then.
  { unfold writeOutPoint, readOutPoint. cbn [Hash op_Index]. eapply reads_then; [by apply reads_ReadFull|].
    by apply (reads_last _ _ (λ i, MkOutPoint h i)), reads_Uint32. }
  eapply reads_then; [by apply readScript_reads|]. by apply (reads_last _ _ (λ q, MkTxIn _ s [] q)), reads_Uint32.
Qed.

Lemma readTxOut_reads to : TxOut_ok to → reads (readTxOut zeroTxOut) (WriteTxOut to) to.
Proof.
  intros (Hv & Hs). destruct to as [v s]. simpl in *. unfold readTxOut, WriteTxOut. cbn [Value PkScript].
  eapply reads_then; [apply reads_Uint64, u64_range|]. rewrite i64_u64 by done.
  by apply (reads_last _ _ (λ s, MkTxOut v s)), readScript_reads.
Qed.

Lemma read_slice_reads {A B} (zero : A) (read : A → bytes → dec A) (write : B → bytes) (f : B → A) l :
  Forall (λ b, reads (read zero) (write b) (f b)) l →
  reads (read_slice zero read (length l)) (concat (map write l)) (map f l).
Proof.
  induction 1 as [|b l Hb _ IH]; [apply reads_ret|]. cbn [length map concat read_slice].
  eapply reads_then; [exact Hb|]. by apply (reads_last _ _ (cons (f b))).
Qed.

Lemma read_witness_reads ti :
  witness_ok (Witness ti) → reads (read_witness (strip_input ti)) (writeTxWitness (Witness ti)) ti.
Proof.
  intros [Hl Hi]. unfold writeTxWitness, read_witness, maxWitnessItemsPerInput in *.
  pose proof (len_nonneg (Witness ti)). rewrite u64_small by lia.
  eapply reads_then; [apply reads_VarInt; lia|]. cbv beta. rewrite bool_decide_eq_false_2 by lia.
  assert (reads (read_slice [] (λ _, readScript maxWitnessItemSize) (Z.to_nat (len (Witness ti))))
            (concat (map WriteVarBytes (Witness ti))) (Witness ti)) as Hw.
  { unfold len. rewrite Nat2Z.id. rewrite <- (map_id (Witness ti)) at 3. apply read_slice_reads.
    eapply Forall_impl; [exact Hi|]. intros s Hs. by apply readScript_reads. }
  destruct ti as [op s w q]. cbn [strip_input PreviousOutPoint SignatureScript Witness Sequence] in *.
  by apply (reads_last _ _ (λ w, MkTxIn op s w q)).
Qed.

Lemma read_witnesses_reads ins :
  Forall TxIn_ok ins →
  reads (read_witnesses (map strip_input ins)) (concat (map (λ ti, writeTxWitness (Witness ti)) ins)) ins.
Proof.
  induction 1 as [|ti ins Hti _ IH]; [apply reads_ret|]. cbn [map concat read_witnesses].
  eapply reads_then; [by apply read_witness_reads, Hti|]. by apply (reads_last _ _ (cons ti)).
Qed.

(** ** What was read *)

(** When [p] succeeds it has read the encoding of its result, which is [ok]. *)
Definition exact {A} (p : bytes → dec A) (write : A → bytes) (ok : A → Prop) : Prop :=
  ∀ r a r', p r = Dec a r' None → r = write a ++ r' ∧ ok a.

Lemma dec_then_None {A B} (m : dec A) (w : A → B) k b r :
  dec_then m w k = Dec b r None → ∃ a r1, m = Dec a r1 None ∧ k a r1 = Dec b r None.
Proof. destruct m as [a r1 [e|]]; unfold dec_then; simpl; [done|eauto]. Qed.

Lemma read_as_None {A} (d : A) f r a r' : read_as d f r = Dec a r' None → f r = Ret (a, r').
Proof. unfold read_as. destruct (f r) as [[x y]| |]; intros Hd; inversion Hd; by subst. Qed.

Lemma exact_Uint32 d : exact (read_as d Uint32) PutUint32 (λ z, 0 ≤ z < 2 ^ 32).
Proof. intros r a r' Hr. by apply read_as_None, (uint_read_inv 4) in Hr. Qed.

Lemma exact_Uint64 d : exact (read_as d Uint64) PutUint64 (λ z, 0 ≤ z < 2 ^ 64).
Proof. intros r a r' Hr. by apply read_as_None, (uint_read_inv 8) in Hr. Qed.

Lemma exact_VarInt d : exact (read_as d ReadVarInt) WriteVarInt (λ z, 0 ≤ z < 2 ^ 64).
Proof. intros r a r' Hr. by apply read_as_None, ReadVarInt_inv in Hr. Qed.

Lemma exact_ReadFull dst : exact (ReadFull dst) id (λ b, length b = length dst).
Proof.
  intros r a r' Hr. unfold ReadFull in Hr. case_bool_decide as Hl; [|by destruct r].
  injection Hr as <- <-. unfold id. rewrite go_copy_length. split; [|done].
  unfold go_copy. rewrite <- app_assoc. rewrite (drop_ge dst) by lia. by rewrite app_nil_l, take_drop.
Qed.

Lemma exact_Script m : m < 2 ^ 48 → exact (readScript m) WriteVarBytes (λ s, len s ≤ m).
Proof.
  intros Hm r s r' Hr. apply dec_then_None in Hr as (c & r1 & Hc & Hr).
  apply exact_VarInt in Hc as [-> Hc]. case_bool_decide; [done|].
  apply read_as_None, read_full_inv in Hr as [-> Hl].
  assert (len s = c) as <- by (unfold len; lia). unfold WriteVarBytes.
  rewrite u64_small by lia. rewrite <- app_assoc. split; [done|lia].
Qed.

Lemma witness_ok_nil : witness_ok [].
Proof. split; [by apply Z.leb_le|constructor]. Qed.

Lemma exact_TxIn : exact (readTxIn zeroTxIn) writeTxIn (λ ti, TxIn_ok ti ∧ Witness ti = []).
Proof.
  intros r ti r' Hr. apply dec_then_None in Hr as (op & r1 & Hop & Hr).
  apply dec_then_None in Hop as (h & r2 & Hh & Hop). apply dec_then_None in Hop as (i & r3 & Hi & Hop).
  injection Hop as <- <-. apply dec_then_None in Hr as (s & r4 & Hs & Hr).
  apply dec_then_None in Hr as (q & r5 & Hq & Hr). injection Hr as <- <-.
  apply exact_ReadFull in Hh as [-> Hh]. apply exact_Uint32 in Hi as [-> Hi].
  apply exact_Script in Hs as [-> Hs]; [|done]. apply exact_Uint32 in Hq as [-> Hq].
  unfold writeTxIn, writeOutPoint. cbn. unfold id. rewrite <- !app_assoc.
  split; [done|]. split; [|done]. 
  unfold TxIn_ok. cbn. pose proof witness_ok_nil. by repeat split; try lia.
Qed.

Lemma exact_TxOut : exact (readTxOut zeroTxOut) WriteTxOut TxOut_ok.
Proof.
  intros r to r' Hr. apply dec_then_None in Hr as (v & r1 & Hv & Hr).
  apply dec_then_None in Hr as (s & r2 & Hs & Hr). injection Hr as <- <-.
  apply exact_Uint64 in Hv as [-> Hv]. apply exact_Script in Hs as [-> Hs]; [|done].
  unfold WriteTxOut, TxOut_ok. cbn. rewrite <- app_assoc.
  assert (u64 (i64 v) = v) as ->.
  { unfold u64, i64. rewrite Zminus_mod_idemp_l. replace (v + 2 ^ 63 - 2 ^ 63) with v by lia. by apply Z.mod_small. }
  split; [done|]. split; [|done]. unfold i64. pose proof (Z.mod_pos_bound (v + 2 ^ 63) (2 ^ 64)). lia.
Qed.

Lemma exact_slice {A} (zero : A) read write (ok : A → Prop) n :
  exact (read zero) write ok →
  exact (read_slice zero read n) (λ l, concat (map write l)) (λ l, length l = n ∧ Forall ok l).
Proof.
  intros He. induction n as [|n IH]; intros r l r' Hr.
  - injection Hr as <- <-. split; [done|]. by split; [|constructor].
  - apply dec_then_None in Hr as (a & r1 & Ha & Hr). apply dec_then_None in Hr as (l1 & r2 & Hl & Hr).
    injection Hr as <- <-. apply He in Ha as [-> Ha]. apply IH in Hl as (-> & Hn & Hl). cbn [map concat].
    rewrite <- app_assoc. split; [done|]. split; [by simpl; rewrite Hn|by constructor].
Qed.

Lemma exact_witness ti :
  TxIn_ok ti →
  exact (read_witness ti) (λ ti, writeTxWitness (Witness ti)) (λ ti', TxIn_ok ti' ∧ strip_input ti' = strip_input ti).
Proof.
  intros (Hh & Hi & Hs & _ & Hq) r ti' r' Hr. apply dec_then_None in Hr as (c & r1 & Hc & Hr).
  apply exact_VarInt in Hc as [-> Hc]. case_bool_decide as Hm; [done|].
  apply dec_then_None in Hr as (w & r2 & Hw & Hr). injection Hr as <- <-.
  eapply (exact_slice _ _ WriteVarBytes) in Hw as (-> & Hn & Hw); [|by apply exact_Script].
  assert (len w = c) as Hl by (unfold len; lia). unfold writeTxWitness. cbn. rewrite Hl, u64_small, <- app_assoc by lia.
  split; [done|]. split; [|done]. 
  unfold TxIn_ok, witness_ok. cbn. rewrite Hl. by repeat split; try lia.
Qed.

Lemma exact_witnesses ins :
  Forall TxIn_ok ins →
  exact (read_witnesses ins) (λ l, concat (map (λ ti, writeTxWitness (Witness ti)) l))
    (λ l, Forall TxIn_ok l ∧ map strip_input l = map strip_input ins).
Proof.
  induction 1 as [|ti ins Hti _ IH]; intros r l r' Hr.
  - injection Hr as <- <-. split; [done|]. by split; [constructor|].
  - apply dec_then_None in Hr as (a & r1 & Ha & Hr). apply dec_then_None in Hr as (l1 & r2 & Hl & Hr).
    injection Hr as <- <-. apply exact_witness in Ha as (-> & Ha & Ea); [|done].
    apply IH in Hl as (-> & Hl & El). cbn [map concat]. rewrite <- app_assoc. split; [done|].
    split; [by constructor|]. by rewrite Ea, El.
Qed.

(** ** The contiguous buffer *)

Definition input_scripts (ti : TxIn) : list bytes := SignatureScript ti :: Witness ti.
Definition total (l : list bytes) : Z := foldr (λ s n, len s + n) 0 l.

Lemma total_app l k : total (l ++ k) = total l + total k.
Proof. induction l as [|s l IH]; [done|]. cbn [app total foldr]. fold (total (l ++ k)) (total l). lia. Qed.

Lemma total_nonneg l : 0 ≤ total l.
Proof. induction l as [|s l IH]; [done|]. cbn [total foldr]. fold (total l). pose proof (len_nonneg s). lia. Qed.

Lemma total_bound l m : Forall (λ s, len s ≤ m) l → total l ≤ m * len l.
Proof.
  induction 1 as [|s l Hs _ IH]; [unfold total, len; simpl; lia|]. cbn [total foldr]. fold (total l).
  rewrite len_cons. lia.
Qed.

(** Room for [n] more bytes behind the offset. *)
Definition room (st : bytes * Z) (n : Z) : Prop := 0 ≤ st.2 ∧ st.2 + n ≤ len st.1 ∧ len st.1 < 2 ^ 64.

Lemma place_room s st n :
  room st (len s + n) → 0 ≤ n → ∃ st', place s st = Ret (s, st') ∧ room st' n.
Proof.
  intros (H0 & H1 & H2) Hn. destruct st as [b o]. simpl in *. unfold place. pose proof (len_nonneg s).
  rewrite (u64_small (len s)), u64_small by lia. rewrite bool_decide_eq_false_2 by lia.
  assert (length (take (Z.to_nat o) b ++ go_copy (drop (Z.to_nat o) b) s) = length b) as Hl.
  { rewrite length_app, go_copy_length, length_take, length_drop. unfold len in *. lia. }
  rewrite (bool_decide_eq_false_2 (_ > _)) by (unfold len in *; lia).
  rewrite bool_decide_eq_false_2 by lia. cbn [orb]. eexists. split.
  - f_equal. f_equal. rewrite drop_app_length' by (rewrite length_take; unfold len in *; lia).
    unfold go_copy. rewrite (take_ge s) by (rewrite length_drop; unfold len in *; lia).
    apply take_app_length'. unfold len. lia.
  - unfold room. simpl. unfold len in *. rewrite Hl. lia.
Qed.

Lemma place_all_room l st n :
  room st (total l + n) → 0 ≤ n → ∃ st', place_all l st = Ret (l, st') ∧ room st' n.
Proof.
  revert st. induction l as [|s l IH]; intros st Hr Hn; [by exists st|].
  cbn [total foldr] in Hr. fold (total l) in Hr. pose proof (total_nonneg l).
  destruct (place_room s st (total l + n)) as (st1 & H1 & R1); [by rewrite Z.add_assoc|lia|].
  destruct (IH st1 R1 Hn) as (st2 & H2 & R2). exists st2. cbn [place_all mbind outcome_bind].
  rewrite H1. cbn [mbind outcome_bind]. by rewrite H2.
Qed.

Lemma place_ins_room l st n :
  room st (total (concat (map input_scripts l)) + n) → 0 ≤ n → ∃ st', place_ins l st = Ret (l, st') ∧ room st' n.
Proof.
  revert st. induction l as [|ti l IH]; intros st Hr Hn; [by exists st|].
  cbn [map concat input_scripts app] in Hr. cbn [total foldr] in Hr. fold (total (Witness ti ++ concat (map input_scripts l))) in Hr.
  rewrite total_app in Hr. pose proof (total_nonneg (Witness ti)). pose proof (total_nonneg (concat (map input_scripts l))).
  destruct (place_room (SignatureScript ti) st (total (Witness ti) + (total (concat (map input_scripts l)) + n)))
    as (st1 & H1 & R1); [unfold room in *; lia|lia|].
  destruct (place_all_room (Witness ti) st1 _ R1) as (st2 & H2 & R2); [lia|].
  destruct (IH st2 R2 Hn) as (st3 & H3 & R3). exists st3. cbn [place_ins mbind outcome_bind].
  rewrite H1. cbn [mbind outcome_bind]. rewrite H2. cbn [mbind outcome_bind]. rewrite H3. by destruct ti.
Qed.

Lemma place_outs_room l st n :
  room st (total (map PkScript l) + n) → 0 ≤ n → ∃ st', place_outs l st = Ret (l, st') ∧ room st' n.
Proof.
  revert st. induction l as [|to l IH]; intros st Hr Hn; [by exists st|].
  cbn [map total foldr] in Hr. fold (total (map PkScript l)) in Hr. pose proof (total_nonneg (map PkScript l)).
  destruct (place_room (PkScript to) st (total (map PkScript l) + n)) as (st1 & H1 & R1); [by rewrite Z.add_assoc|lia|].
  destruct (IH st1 R1 Hn) as (st2 & H2 & R2). exists st2. cbn [place_outs mbind outcome_bind].
  rewrite H1. cbn [mbind outcome_bind]. rewrite H2. by destruct to.
Qed.

Lemma sizes_total l t : 0 ≤ t → t + total l < 2 ^ 64 → sizes l t = t + total l.
Proof.
  unfold sizes. revert t. induction l as [|s l IH]; intros t H0 H1; [cbn; lia|].
  cbn [total foldr foldl] in *. fold (total l) in *. pose proof (len_nonneg s). pose proof (total_nonneg l).
  rewrite (u64_small (len s)), u64_small by lia. rewrite IH by lia. lia.
Qed.

Definition no_witness (ins : list TxIn) : Prop := Forall (λ ti, Witness ti = []) ins.

Lemma total_inputs ins :
  total (concat (map input_scripts ins)) = total (map SignatureScript ins) + total (concat (map Witness ins)).
Proof.
  induction ins as [|ti ins IH]; [done|]. cbn [map concat input_scripts]. rewrite !total_app.
  unfold total, input_scripts in *. cbn [foldr]. lia.
Qed.

Lemma total_witnesses ins :
  Forall TxIn_ok ins → total (concat (map Witness ins)) ≤ maxWitnessItemSize * maxWitnessItemsPerInput * len ins.
Proof.
  induction 1 as [|ti ins (_ & _ & _ & [Hl Hi] & _) _ IH]; [done|]. cbn [map concat].
  rewrite total_app, len_cons. apply total_bound in Hi. unfold maxWitnessItemSize, maxWitnessItemsPerInput in *. lia.
Qed.

Lemma no_witness_total ins : no_witness ins → total (concat (map Witness ins)) = 0.
Proof. induction 1 as [|ti ins Hti _ IH]; [done|]. cbn [map concat]. by rewrite total_app, Hti, IH. Qed.

Lemma fold_sizes ins t :
  0 ≤ t → t + total (concat (map Witness ins)) < 2 ^ 64 →
  foldl (λ n ti, sizes (Witness ti) n) t ins = t + total (concat (map Witness ins)).
Proof.
  revert t. induction ins as [|ti ins IH]; intros t H0 H1; [unfold total; cbn; lia|]. cbn [map concat foldl] in *.
  rewrite total_app in *. pose proof (total_nonneg (Witness ti)). pose proof (total_nonneg (concat (map Witness ins))).
  rewrite sizes_total, IH by lia. lia.
Qed.

(** Moving the scripts into one buffer of the size that was added up leaves the
    transaction as it is, without any slice going out of range. *)
Lemma repack_same v ins outs l (flag : bool) :
  len ins ≤ maxTxInPerMessage → Forall TxIn_ok ins → len outs ≤ maxTxOutPerMessage → Forall TxOut_ok outs →
  (flag = false → no_witness ins) →
  repack (MkMsgTx v ins outs l) (totalScriptSize ins outs flag) = Ret (MkMsgTx v ins outs l).
Proof.
  intros Hli Hi Hlo Ho Hw. unfold repack, totalScriptSize.
  assert (total (map SignatureScript ins) ≤ MaxMessagePayload * len ins) as Bs.
  { etransitivity; [apply (total_bound _ MaxMessagePayload)|unfold len; by rewrite length_map].
    apply Forall_map. eapply Forall_impl; [exact Hi|]. by intros ti (_ & _ & ? & _). }
  assert (total (map PkScript outs) ≤ MaxMessagePayload * len outs) as Bo.
  { etransitivity; [apply (total_bound _ MaxMessagePayload)|unfold len; by rewrite length_map].
    apply Forall_map. eapply Forall_impl; [exact Ho|]. by intros to [_ ?]. }
  pose proof (total_witnesses ins Hi) as Bw. pose proof (total_nonneg (map SignatureScript ins)).
  pose proof (total_nonneg (map PkScript outs)). pose proof (total_nonneg (concat (map Witness ins))).
  change maxTxInPerMessage with 818401 in *. change maxTxOutPerMessage with 3728271 in *.
  unfold maxWitnessItemSize, maxWitnessItemsPerInput, MaxMessagePayload in *.
  set (N := if flag then _ else _).
  assert (N = total (concat (map input_scripts ins)) + total (map PkScript outs)) as EN.
  { rewrite total_inputs. unfold N. rewrite (sizes_total (map SignatureScript ins)), sizes_total by lia. destruct flag; [rewrite fold_sizes by lia; lia|].
    rewrite (no_witness_total ins) by auto. lia. }
  assert (0 ≤ N < 2 ^ 64) as HN by (rewrite EN, total_inputs; lia).
  clearbody N. destruct (place_ins_room ins (zeros (Z.to_nat N), 0) (total (map PkScript outs))) as (st1 & P1 & R1).
  { unfold room, len. simpl. rewrite length_zeros. lia. }
  { lia. }
  destruct (place_outs_room outs st1 0) as (st2 & P2 & _); [by rewrite Z.add_0_r|done|].
  cbn [tx_TxIn tx_TxOut tx_Version LockTime mbind outcome_bind]. rewrite P1. cbn [mbind outcome_bind]. by rewrite P2.
Qed.

Lemma HasWitness_false msg : HasWitness msg = false → no_witness (tx_TxIn msg).
Proof.
  unfold HasWitness, no_witness. induction (tx_TxIn msg) as [|ti ins IH]; [constructor|]. cbn [existsb].
  intros Hw. apply orb_false_iff in Hw as [Ht Hw]. constructor; [|auto].
  apply negb_false_iff, bool_decide_eq_true in Ht. unfold len in Ht. destruct (Witness ti); [done|simpl in Ht; lia].
Qed.

Lemma strip_no_witness ins : no_witness ins → map strip_input ins = ins.
Proof. induction 1 as [|ti ins Hti _ IH]; [done|]. cbn. rewrite IH. destruct ti. cbn in Hti. by subst. Qed.

Lemma strip_ok ins : Forall TxIn_ok ins → Forall TxIn_ok (map strip_input ins) ∧ no_witness (map strip_input ins).
Proof.
  intros Hi. split; apply Forall_map; (eapply Forall_impl; [exact Hi|]); [|done].
  intros ti (Hh & Hx & Hs & _ & Hq). pose proof witness_ok_nil. by unfold TxIn_ok.
Qed.

(** What decoding gives back. *)
Definition decoded (msg : MsgTx) (enc : MessageEncoding) : MsgTx :=
  match enc with WitnessEncoding => msg | BaseEncoding => strip_witness msg end.

Lemma step_reads {A} (p : bytes → dec A) e a m k r :
  reads p e a → decode_step (p (e ++ r)) m k = k a r.
Proof. intros Hp. by rewrite Hp. Qed.

Lemma prefix_reads (enc : MessageEncoding) (wit : bool) n :
  0 ≤ n < 2 ^ 64 → (enc = WitnessEncoding → n ≠ 0) → (wit = true → enc = WitnessEncoding) →
  reads (read_prefix enc) ((if wit then [x00; x01] else []) ++ WriteVarInt n) (n, if wit then 1 else 0).
Proof.
  intros Hn Hz Hw r. unfold read_prefix. destruct wit.
  - rewrite (Hw eq_refl). change [x00; x01] with (WriteVarInt 0 ++ PutUint8 1).
    rewrite <- !app_assoc, (reads_VarInt 0 0) by done. unfold dec_then. cbn [dec_err dec_val dec_rest].
    rewrite !bool_decide_eq_true_2 by done. cbn [andb].
    rewrite !(reads_as 0 Uint8 (PutUint8 1) 1) by (intros; by apply (uint_read 1)).
    cbn [dec_err dec_val dec_rest negb]. by rewrite !reads_VarInt by done.
  - cbn [app]. rewrite reads_VarInt by done. unfold dec_then. cbn [dec_err dec_val dec_rest].
    case_bool_decide as E0; [|done]. case_bool_decide as Ee; [|done]. by destruct (Hz Ee).
Qed.

Lemma BtcDecode_reads msg0 msg enc r :
  MsgTx_ok msg → (enc = WitnessEncoding → tx_TxIn msg ≠ []) →
  BtcDecode msg0 enc (BtcEncode msg enc ++ r) = Ret (Dec (decoded msg enc) r None).
Proof.
  intros [Hv [Hli Hi] [Hlo Ho] Hlk] Hne. unfold BtcEncode, BtcDecode.
  set (wit := bool_decide _ && _). rewrite <- !app_assoc.
  pose proof (len_nonneg (tx_TxIn msg)) as Li. pose proof (len_nonneg (tx_TxOut msg)) as Lo.
  assert (maxTxInPerMessage = 818401) as Ei by done. assert (maxTxOutPerMessage = 3728271) as Eo by done.
  rewrite (u64_small (len (tx_TxIn msg))), (u64_small (len (tx_TxOut msg))) by lia.
  rewrite (step_reads _ _ (u32 (tx_Version msg))) by apply reads_Uint32, u32_range. cbv beta zeta. rewrite i32_u32 by done.
  rewrite (app_assoc (if wit then _ else _)).
  rewrite (step_reads _ _ (len (tx_TxIn msg), if wit then 1 else 0)).
  2:{ apply prefix_reads; [lia| |].
      - intros He. specialize (Hne He). unfold len. by destruct (tx_TxIn msg).
      - unfold wit. intros Hw. apply andb_true_iff in Hw as [Hw _]. by apply bool_decide_eq_true in Hw. }
  cbv beta zeta iota. rewrite bool_decide_eq_false_2 by lia.
  assert (Z.to_nat (len (tx_TxIn msg)) = length (tx_TxIn msg)) as -> by (unfold len; lia).
  rewrite (step_reads _ _ (map strip_input (tx_TxIn msg)))
    by (apply read_slice_reads; eapply Forall_impl; [exact Hi|]; apply readTxIn_reads).
  rewrite (step_reads _ _ (len (tx_TxOut msg))) by (apply reads_VarInt; lia). rewrite bool_decide_eq_false_2 by lia.
  assert (Z.to_nat (len (tx_TxOut msg)) = length (tx_TxOut msg)) as -> by (unfold len; lia).
  rewrite (step_reads _ _ (map id (tx_TxOut msg)))
    by (apply read_slice_reads; eapply Forall_impl; [exact Ho|]; apply readTxOut_reads).
  rewrite map_id. cbn [tx_Version].
  assert (negb (bool_decide ((if wit then 1 else 0) = 0)) && bool_decide (enc = WitnessEncoding) = wit) as ->.
  { unfold wit. by destruct enc, (HasWitness msg). }
  set (ins := if wit then tx_TxIn msg else map strip_input (tx_TxIn msg)).
  rewrite (step_reads (λ r, if wit then read_witnesses _ r else Dec _ r None) _ ins).
  2:{ unfold ins. destruct wit; [by apply read_witnesses_reads|apply reads_ret]. }
  rewrite (step_reads _ _ (LockTime msg)) by by apply reads_Uint32. cbv beta zeta.
  destruct (strip_ok _ Hi) as [Si Sn]. rewrite repack_same; try done.
  - cbn. unfold ins, decoded, strip_witness, wit. do 2 f_equal. destruct enc.
    + done.
    + rewrite bool_decide_eq_true_2 by done. simpl. destruct (HasWitness msg) eqn:Hw; [by destruct msg|].
      rewrite strip_no_witness by by apply HasWitness_false. by destruct msg.
  - unfold ins. destruct wit; [done|]. unfold len in *. by rewrite length_map.
  - unfold ins. by destruct wit.
  - unfold ins. by intros ->.
Qed.

(** ** Every input is decoded or refused *)

(** What a decoder that has returned tells: nothing after an error, otherwise that the
    message is [Q]. *)
Definition returns (m : outcome (dec MsgTx)) (Q : MsgTx → bytes → Prop) : Prop :=
  ∃ d, m = Ret d ∧ (dec_err d = None → Q (dec_val d) (dec_rest d)).

Lemma returns_err msg r e Q : returns (mret (Dec msg r (Some e))) Q.
Proof. eexists. split; [reflexivity|]. done. Qed.

Lemma returns_step {A} (d : dec A) m k Q :
  (∀ a r, d = Dec a r None → returns (k a r) Q) → returns (decode_step d m k) Q.
Proof. intros Hk. destruct d as [a r [e|]]; [apply returns_err|]. by apply Hk. Qed.

Lemma prefix_exact enc :
  exact (read_prefix enc)
    (λ '(n, flag), (if bool_decide (flag = 0) then [] else [x00; x01]) ++ WriteVarInt n)
    (λ '(n, flag), 0 ≤ n < 2 ^ 64 ∧ (flag = 0 ∨ flag = 1 ∧ enc = WitnessEncoding)).
Proof.
  intros r [n flag] r' Hr. unfold read_prefix in Hr. apply dec_then_None in Hr as (c & r1 & Hc & Hr).
  apply exact_VarInt in Hc as [-> Hc]. destruct (_ && _) eqn:E.
  - apply andb_true_iff in E as [E1 E2]. apply bool_decide_eq_true in E1, E2. subst.
    apply dec_then_None in Hr as (f & r2 & Hf & Hr). apply read_as_None, (uint_read_inv 1) in Hf as [-> _].
    case_bool_decide; [subst f|done]. cbn [negb] in Hr. apply dec_then_None in Hr as (c & r3 & Hc' & Hr).
    injection Hr as <- <- <-. apply exact_VarInt in Hc' as [-> Hc']. split; [done|]. auto.
  - injection Hr as <- <- <-. split; [done|]. auto.
Qed.

Lemma read_witnesses_len ins r l r' : read_witnesses ins r = Dec l r' None → length l = length ins.
Proof.
  revert r l r'. induction ins as [|ti ins IH]; intros r l r' Hr; [by injection Hr as <- _|].
  apply dec_then_None in Hr as (a & r1 & Ha & Hr). apply dec_then_None in Hr as (l1 & r2 & Hl & Hr).
  injection Hr as <- <-. cbn [length]. f_equal. eauto.
Qed.

Lemma writeTxIn_strip ins : concat (map writeTxIn (map strip_input ins)) = concat (map writeTxIn ins).
Proof. induction ins as [|ti ins IH]; [done|]. cbn [map concat]. by rewrite IH. Qed.

Lemma no_witness_HasWitness v ins outs l : no_witness ins → HasWitness (MkMsgTx v ins outs l) = false.
Proof.
  unfold HasWitness. cbn [tx_TxIn]. induction 1 as [|ti ins Hti _ IH]; [done|]. cbn [existsb]. by rewrite Hti.
Qed.

(** [BtcDecode] on any input: no panic; a message without error is within the limits, and
    what was read is its encoding, the one exception being an empty witness record. *)
Lemma BtcDecode_returns msg0 enc r :
  returns (BtcDecode msg0 enc r) (λ msg r',
    MsgTx_ok msg ∧ (enc = BaseEncoding ∨ HasWitness msg = true → r = BtcEncode msg enc ++ r')).
Proof.
  unfold BtcDecode. assert (maxTxInPerMessage = 818401) as Ei by done. assert (maxTxOutPerMessage = 3728271) as Eo by done.
  apply returns_step. intros v r1 Hv. apply exact_Uint32 in Hv as [-> Hv]. cbv zeta.
  apply returns_step. intros [n flag] r2 Hn. apply prefix_exact in Hn as (-> & Hn & Hf).
  case_bool_decide as Hni; [apply returns_err|].
  apply returns_step. intros ins r3 Hins.
  eapply (exact_slice _ _ writeTxIn) in Hins as (-> & Hli & Hi); [|apply exact_TxIn].
  assert (Forall TxIn_ok ins ∧ no_witness ins) as [Hi1 Hw1] by (by apply Forall_and).
  apply returns_step. intros m r4 Hm. apply exact_VarInt in Hm as [-> Hm]. case_bool_decide as Hno; [apply returns_err|].
  apply returns_step. intros outs r5 Houts.
  eapply (exact_slice _ _ WriteTxOut) in Houts as (-> & Hlo & Ho); [|apply exact_TxOut].
  cbn [tx_Version]. set (b := negb (bool_decide (flag = 0)) && bool_decide (enc = WitnessEncoding)).
  apply returns_step. intros ins' r6 Hins'.
  assert (Forall TxIn_ok ins' ∧ map strip_input ins' = ins ∧ (b = false → no_witness ins') ∧ length ins' = length ins ∧
    r5 = (if b then concat (map (λ ti, writeTxWitness (Witness ti)) ins') else []) ++ r6) as (Hi' & Es & Hb & Hl' & ->).
  { destruct b.
    - pose proof (read_witnesses_len _ _ _ _ Hins') as Hl. apply exact_witnesses in Hins' as (-> & Hi' & Es); [|done].
      rewrite (strip_no_witness ins) in Es by done. done.
    - injection Hins' as <- <-. by rewrite strip_no_witness. }
  apply returns_step. intros lk r7 Hlk. apply exact_Uint32 in Hlk as [-> Hlk].
  assert (len ins' = n) as Ln by (unfold len; lia). assert (len outs = m) as Lm by (unfold len; lia).
  rewrite repack_same; [|lia|done|lia|done|done]. eexists. split; [reflexivity|]. intros _. cbn [dec_val dec_rest].
  pose proof (Z.mod_pos_bound (v + 2 ^ 31) (2 ^ 32) ltac:(lia)).
  split; [split; cbn; [unfold i32; lia|split; [lia|done]|split; [lia|done]|done]|]. intros Hcase.
  unfold BtcEncode. cbn [tx_Version tx_TxIn tx_TxOut LockTime].
  assert (u32 (i32 v) = v) as ->.
  { unfold u32, i32. rewrite Zminus_mod_idemp_l. replace (v + 2 ^ 31 - 2 ^ 31) with v by lia. by apply Z.mod_small. }
  rewrite Ln, Lm, !u64_small by lia. rewrite <- Es, writeTxIn_strip, <- !app_assoc.
  assert (bool_decide (enc = WitnessEncoding) && HasWitness (MkMsgTx (i32 v) ins' outs lk) = b ∧
    bool_decide (flag = 0) = negb b) as [-> ->].
  { unfold b in *. destruct enc.
    - destruct Hf as [->|[_ ?]]; done.
    - destruct Hcase as [?|Hw]; [done|]. rewrite Hw. destruct Hf as [->|[-> _]]; [|done].
      rewrite no_witness_HasWitness in Hw by by apply Hb. done. }
  by destruct b.
Qed.

(** ** Sizes *)

Lemma PutUint32_len z : len (PutUint32 z) = 4.
Proof. unfold len, PutUint32. by rewrite le_bytes_length. Qed.

Lemma WriteVarBytes_len s : len (WriteVarBytes s) = VarIntSerializeSize (u64 (len s)) + len s.
Proof. unfold WriteVarBytes. by rewrite len_app, WriteVarInt_length. Qed.

(** A loop that adds the sizes of the elements to [n]. *)
Lemma fold_size {A} (write : A → bytes) (size : A → Z) (ok : A → Prop) l n :
  (∀ a, ok a → len (write a) = size a) → Forall ok l →
  foldl (λ n a, n + size a) n l = n + len (concat (map write l)).
Proof.
  intros Hs Hl. revert n. induction Hl as [|a l Ha _ IH]; intros n; [unfold len; simpl; lia|].
  cbn [foldl map concat]. rewrite IH, len_app, Hs by done. lia.
Qed.

Lemma TxIn_size ti : TxIn_ok ti → len (writeTxIn ti) = TxIn_SerializeSize ti.
Proof.
  intros (Hh & _). unfold writeTxIn, writeOutPoint, TxIn_SerializeSize.
  rewrite !len_app, WriteVarBytes_len, !PutUint32_len. unfold len at 1. rewrite Hh. lia.
Qed.

Lemma TxOut_size to : TxOut_ok to → len (WriteTxOut to) = TxOut_SerializeSize to.
Proof.
  intros _. unfold WriteTxOut, TxOut_SerializeSize. rewrite len_app, WriteVarBytes_len.
  unfold len at 1, PutUint64. rewrite le_bytes_length. lia.
Qed.

Lemma TxWitness_size w : len (writeTxWitness w) = TxWitness_SerializeSize w.
Proof.
  unfold writeTxWitness, TxWitness_SerializeSize. rewrite len_app, WriteVarInt_length.
  generalize (VarIntSerializeSize (u64 (len w))) as n. induction w as [|s w IH]; intros n; [unfold len; simpl; lia|].
  cbn [foldl map concat]. rewrite <- IH, len_app, WriteVarBytes_len. lia.
Qed.

Lemma base_size msg : MsgTx_ok msg → len (SerializeNoWitness msg) = SerializeSizeStripped msg.
Proof.
  intros [_ [_ Hi] [_ Ho] _]. unfold SerializeNoWitness, SerializeSizeStripped, baseSize, BtcEncode.
  rewrite bool_decide_eq_false_2 by done. cbn [andb app]. cbv zeta.
  rewrite (fold_size WriteTxOut TxOut_SerializeSize _ _ _ TxOut_size Ho).
  rewrite (fold_size writeTxIn TxIn_SerializeSize _ _ _ TxIn_size Hi).
  rewrite !len_app, !PutUint32_len, !WriteVarInt_length. lia.
Qed.

Lemma full_size msg : MsgTx_ok msg → len (Serialize msg) = SerializeSize msg.
Proof.
  intros Hok. pose proof (base_size msg Hok) as Hb. unfold SerializeSize, Serialize, SerializeNoWitness, BtcEncode in *.
  rewrite bool_decide_eq_false_2 in Hb by done. rewrite bool_decide_eq_true_2 by done. cbn [andb app] in *.
  destruct (HasWitness msg); [|exact Hb].
  rewrite (fold_size (λ ti, writeTxWitness (Witness ti)) (λ ti, TxWitness_SerializeSize (Witness ti)) (λ _, True))
    by (intros; try apply TxWitness_size; by apply Forall_true).
  unfold SerializeSizeStripped in Hb. rewrite <- Hb, !len_app. change (len [x00; x01]) with 2. lia.
Qed.

(** ** Hashes and copies *)

Lemma copy_bytes_same b : copy_bytes b = b.
Proof. apply go_copy_same. by rewrite length_zeros. Qed.

(** A deep copy has the same contents. *)
Lemma Copy_same msg : MsgTx_ok msg → MsgTx_Copy msg = msg.
Proof.
  intros [_ [_ Hi] _ _]. destruct msg as [v ins outs l]. unfold MsgTx_Copy. cbn in *. f_equal.
  - rewrite <- (map_id ins) at 2. apply map_ext_Forall. eapply Forall_impl; [exact Hi|].
    intros [[h i] s w q] (Hh & _). cbn in Hh. unfold copy_TxIn, SetBytes, HashSize.
    cbn [PreviousOutPoint SignatureScript Witness Sequence Hash op_Index].
    rewrite bool_decide_eq_false_2 by (rewrite Hh; lia). f_equal.
    + rewrite copy_bytes_same. by destruct s.
    + rewrite (map_ext _ id copy_bytes_same), map_id. by destruct w.
  - rewrite <- (map_id outs) at 2. apply map_ext. intros [v' s]. unfold copy_TxOut. cbn [Value PkScript].
    rewrite copy_bytes_same. by destruct s.
Qed.

Lemma SerializeNoWitness_strip msg : SerializeNoWitness (strip_witness msg) = SerializeNoWitness msg.
Proof.
  unfold SerializeNoWitness, BtcEncode, strip_witness. cbn [tx_Version tx_TxIn tx_TxOut LockTime].
  rewrite bool_decide_eq_false_2 by done. cbn [andb]. rewrite writeTxIn_strip. unfold len. by rewrite length_map.
Qed.

(** ** Claims *)

(** C36. Transactions survive serialization. A transaction within the limits of
    a message, with at least one input when witnesses are to be written, is
    read back from its encoding whatever follows: completely with witness
    encoding, without its witnesses with base encoding, and in both cases with
    the same transaction hash. [SerializeSize] and [SerializeSizeStripped] are
    the lengths of the two encodings. *)
Theorem tx_roundtrip `{HashFunction} (msg0 msg : MsgTx) (enc : MessageEncoding) (r : bytes)
  (Hok : MsgTx_ok msg) (Hin : enc = WitnessEncoding → tx_TxIn msg ≠ []) :
  BtcDecode msg0 enc (BtcEncode msg enc ++ r) = Ret (Dec (decoded msg enc) r None) ∧
  TxHash_go (decoded msg enc) = TxHash_go msg ∧
  len (BtcEncode msg enc) = match enc with
                            | WitnessEncoding => SerializeSize msg
                            | BaseEncoding => SerializeSizeStripped msg
                            end.
Proof.
  split; [by apply BtcDecode_reads|]. split.
  - destruct enc; [|done]. unfold TxHash_go. cbn. by rewrite SerializeNoWitness_strip.
  - destruct enc; [by apply base_size|by apply full_size].
Qed.

Definition demo_tx : MsgTx :=
  MkMsgTx 1 [MkTxIn (MkOutPoint (zeros 32) 1) [x51] [[x01; x02]; []] MaxTxInSequenceNum;
             MkTxIn (MkOutPoint (replicate 32 xff) 7) [] [] 0] [MkTxOut 5000 [x6a; x01; x07]] 99.

Lemma demo_tx_ok : MsgTx_ok demo_tx.
Proof.
  split; [done| | |done]; split; try (by apply Z.leb_le); repeat constructor; try done; by apply Z.leb_le.
Qed.

Lemma tx_roundtrip_witness :
  BtcDecode (NewMsgTx 1) WitnessEncoding (BtcEncode demo_tx WitnessEncoding ++ [x07]) = Ret (Dec demo_tx [x07] None).
Proof. apply (tx_roundtrip (NewMsgTx 1) demo_tx WitnessEncoding [x07] demo_tx_ok). by intros _. Defined.

(** Decoding a transaction is total and exact. On any input, of any length,
    [BtcDecode] returns a transaction or an error and never panics: the
    slices of the script buffer stay in range. A transaction it accepts is
    within the limits of a message, and the bytes it has read are the encoding
    of that transaction, unless they carry a witness record in which no input
    has a witness. *)
Theorem tx_decode_safe (msg0 : MsgTx) (enc : MessageEncoding) (r : bytes) :
  ∃ d, BtcDecode msg0 enc r = Ret d ∧
       (dec_err d = None →
        MsgTx_ok (dec_val d) ∧
        (enc = BaseEncoding ∨ HasWitness (dec_val d) = true → r = BtcEncode (dec_val d) enc ++ dec_rest d)).
Proof. apply BtcDecode_returns. Qed.
