(* ===== verification/Script.v ===== *)
(** * Scripts (bitcoin/txscript: scriptbuilder.go, scriptnum.go, script.go, opcode.go)

    Building scripts, numbers in scripts, and parsing scripts into opcodes and
    back.  A script is parsed from its front, so that the index of the code is
    what is left of the script.  Opcodes are their bytes; of the table of
    opcodes only the lengths matter here. *)

From Stdlib Require Import ZArith Lia.
From S2P Require Import Prelude Buffers Utils WireCommon BtcWire.

Local Open Scope Z_scope.

Definition MaxScriptSize : Z := 10000.
Definition MaxScriptElementSize : Z := 520.

Definition OP_0 : Z := 0x00.
Definition OP_DATA_1 : Z := 0x01.
Definition OP_DATA_20 : Z := 0x14.
Definition OP_DATA_32 : Z := 0x20.
Definition OP_PUSHDATA1 : Z := 0x4c.
Definition OP_PUSHDATA2 : Z := 0x4d.
Definition OP_PUSHDATA4 : Z := 0x4e.
Definition OP_1NEGATE : Z := 0x4f.
Definition OP_1 : Z := 0x51.
Definition OP_16 : Z := 0x60.
Definition OP_RETURN : Z := 0x6a.
Definition OP_DUP : Z := 0x76.
Definition OP_EQUAL : Z := 0x87.
Definition OP_EQUALVERIFY : Z := 0x88.
Definition OP_HASH160 : Z := 0xa9.
Definition OP_CODESEPARATOR : Z := 0xab.
Definition OP_CHECKSIG : Z := 0xac.
Definition OP_CHECKSIGVERIFY : Z := 0xad.
Definition OP_CHECKMULTISIG : Z := 0xae.
Definition OP_CHECKMULTISIGVERIFY : Z := 0xaf.
Definition MaxPubKeysPerMultiSig : Z := 20.

(** ** Numbers *)

(** The loop of [scriptNum.Bytes]: an int64 has at most eight bytes. *)
Fixpoint low_bytes (fuel : nat) (n : Z) : bytes :=
  match fuel with
  | O => []
  | S fuel => if bool_decide (n > 0) then Z_byte (Z.land n 0xff) :: low_bytes fuel (Z.shiftr n 8) else []
  end.

(** The most significant byte is at the end; [result[len(result)-1]] of nothing panics. *)
Definition scriptNum_Bytes (n : Z) : outcome bytes :=
  if bool_decide (n = 0) then mret []
  else
    let isNegative := bool_decide (n < 0) in
    let n := if isNegative then i64 (- n) else n in
    let result := low_bytes 8 n in
    match last result with
    | None => Panic out_of_range
    | Some top =>
        if negb (bool_decide (Z.land (byte_Z top) 0x80 = 0))
        then mret (result ++ [Z_byte (if isNegative then 0x80 else 0x00)])
        else if isNegative
        then mret (removelast result ++ [Z_byte (Z.lor (byte_Z top) 0x80)])
        else mret result
    end.

Definition checkMinimalDataEncoding (v : bytes) : go_error :=
  match last v with
  | None => None
  | Some top =>
      if bool_decide (Z.land (byte_Z top) 0x7f = 0) then
        match last (removelast v) with
        | None => Some "numeric value is not minimally encoded"
        | Some second =>
            if bool_decide (Z.land (byte_Z second) 0x80 = 0) then Some "numeric value is not minimally encoded" else None
        end
      else None
  end.

(** The loop of [makeScriptNum]. *)
Fixpoint num_loop (i : Z) (v : bytes) (result : Z) : Z :=
  match v with
  | [] => result
  | val :: v => num_loop (i + 1) v (Z.lor result (i64 (Z.shiftl (byte_Z val) (u8 (8 * i)))))
  end.

Definition makeScriptNum (v : bytes) (requireMinimal : bool) (scriptNumLen : Z) : outcome Z :=
  if bool_decide (len v > scriptNumLen) then Err "numeric value exceeds the max allowed length"
  else
    match (if requireMinimal then checkMinimalDataEncoding v else None), last v with
    | Some e, _ => Err e
    | None, None => mret 0
    | None, Some top =>
        let result := num_loop 0 v 0 in
        if negb (bool_decide (Z.land (byte_Z top) 0x80 = 0))
        then mret (i64 (- Z.land result (Z.lnot (i64 (Z.shiftl 0x80 (u8 (8 * (len v - 1))))))))
        else mret result
    end.

(** [scriptNum.Int32] clamps. *)
Definition scriptNum_Int32 (n : Z) : Z :=
  if bool_decide (n > 2 ^ 31 - 1) then 2 ^ 31 - 1 else if bool_decide (n < - 2 ^ 31) then - 2 ^ 31 else i32 n.

Definition defaultScriptNumLen : Z := 4.

(** ** Building *)

Record ScriptBuilder := MkScriptBuilder { sb_script : bytes; sb_err : go_error }.

Definition NewScriptBuilder : ScriptBuilder := MkScriptBuilder [] None.
Definition ScriptBuilder_Reset (b : ScriptBuilder) : ScriptBuilder := MkScriptBuilder [] None.
Definition ScriptBuilder_Script (b : ScriptBuilder) : bytes * go_error := (sb_script b, sb_err b).

Definition append_script (b : ScriptBuilder) (s : bytes) : ScriptBuilder := MkScriptBuilder (sb_script b ++ s) (sb_err b).
Definition fail_script (b : ScriptBuilder) (e : string) : ScriptBuilder := MkScriptBuilder (sb_script b) (Some e).

Definition AddOps (b : ScriptBuilder) (opcodes : bytes) : ScriptBuilder :=
  match sb_err b with
  | Some _ => b
  | None =>
      if bool_decide (len (sb_script b) + len opcodes > MaxScriptSize)
      then fail_script b "adding opcodes would exceed the maximum allowed canonical script length"
      else append_script b opcodes
  end.

Definition AddOp (b : ScriptBuilder) (opcode : Byte.byte) : ScriptBuilder :=
  match sb_err b with
  | Some _ => b
  | None =>
      if bool_decide (len (sb_script b) + 1 > MaxScriptSize)
      then fail_script b "adding an opcode would exceed the maximum allowed canonical script length"
      else append_script b [opcode]
  end.

(** The number that a one byte string stands for. *)
Definition single (data : bytes) : option Z :=
  match data with [d] => Some (byte_Z d) | _ => None end.

(** [len(data) == 1 && data[0] <= 16]. *)
Definition small_number (data : bytes) : bool :=
  match single data with Some d => bool_decide (d <= 16) | None => false end.

Definition canonicalDataSize (data : bytes) : Z :=
  let dataLen := len data in
  if bool_decide (dataLen = 0) then 1
  else if small_number data then 1
  else if bool_decide (single data = Some 0x81) then 1
  else if bool_decide (dataLen < OP_PUSHDATA1) then 1 + dataLen
  else if bool_decide (dataLen <= 0xff) then 2 + dataLen
  else if bool_decide (dataLen <= 0xffff) then 3 + dataLen
  else 5 + dataLen.

Definition addData (b : ScriptBuilder) (data : bytes) : ScriptBuilder :=
  let dataLen := len data in
  if bool_decide (dataLen = 0) || bool_decide (single data = Some 0) then append_script b [Z_byte OP_0]
  else if small_number data
  then append_script b [Z_byte (u8 (OP_1 - 1 + default 0 (single data)))]
  else if bool_decide (single data = Some 0x81) then append_script b [Z_byte OP_1NEGATE]
  else
    let b :=
      if bool_decide (dataLen < OP_PUSHDATA1) then append_script b [Z_byte (OP_DATA_1 - 1 + dataLen)]
      else if bool_decide (dataLen <= 0xff) then append_script b [Z_byte OP_PUSHDATA1; Z_byte dataLen]
      else if bool_decide (dataLen <= 0xffff) then append_script b (Z_byte OP_PUSHDATA2 :: le_bytes 2 (u16 dataLen))
      else append_script b (Z_byte OP_PUSHDATA4 :: le_bytes 4 (u32 dataLen)) in
    append_script b data.

Definition AddFullData (b : ScriptBuilder) (data : bytes) : ScriptBuilder :=
  match sb_err b with Some _ => b | None => addData b data end.

Definition AddData (b : ScriptBuilder) (data : bytes) : ScriptBuilder :=
  match sb_err b with
  | Some _ => b
  | None =>
      if bool_decide (len (sb_script b) + canonicalDataSize data > MaxScriptSize)
      then fail_script b "adding data would exceed the maximum allowed canonical script length"
      else if bool_decide (len data > MaxScriptElementSize)
      then fail_script b "adding a data element would exceed the maximum allowed script element size"
      else addData b data
  end.

Definition AddInt64 (b : ScriptBuilder) (val : Z) : outcome ScriptBuilder :=
  match sb_err b with
  | Some _ => mret b
  | None =>
      if bool_decide (len (sb_script b) + 1 > MaxScriptSize)
      then mret (fail_script b "adding an integer would exceed the maximum allow canonical script length")
      else if bool_decide (val = 0) then mret (append_script b [Z_byte OP_0])
      else if bool_decide (val = -1 ∨ 1 <= val <= 16) then mret (append_script b [Z_byte (OP_1 - 1 + val)])
      else num ← scriptNum_Bytes val; mret (AddData b num)
  end.

(** ** Parsing *)

(** The lengths in [opcodeArray]. *)
Definition opcode_length (op : Byte.byte) : Z :=
  let v := byte_Z op in
  if bool_decide (OP_DATA_1 <= v < OP_PUSHDATA1) then v + 1
  else if bool_decide (v = OP_PUSHDATA1) then -1
  else if bool_decide (v = OP_PUSHDATA2) then -2
  else if bool_decide (v = OP_PUSHDATA4) then -4
  else 1.

Record parsedOpcode := MkParsedOpcode { po_opcode : Byte.byte; po_data : bytes }.

Definition ErrMalformedPush : string := "opcode requires more bytes than the script has remaining".

(** The opcode at the front of [instr :: rest] and what follows it. *)
Definition parse_opcode (instr : Byte.byte) (rest : bytes) : outcome (parsedOpcode * bytes) :=
  let length := opcode_length instr in
  if bool_decide (length = 1) then mret (MkParsedOpcode instr [], rest)
  else if bool_decide (length > 1) then
    if bool_decide (len (instr :: rest) < length) then Err ErrMalformedPush
    else mret (MkParsedOpcode instr (take (Z.to_nat (length - 1)) rest), drop (Z.to_nat (length - 1)) rest)
  else
    if bool_decide (len rest < - length) then Err ErrMalformedPush
    else
      let l := le_val (take (Z.to_nat (- length)) rest) in
      let rest := drop (Z.to_nat (- length)) rest in
      if bool_decide (l > len rest) then Err ErrMalformedPush
      else mret (MkParsedOpcode instr (take (Z.to_nat l) rest), drop (Z.to_nat l) rest).

(** Every opcode takes at least one byte, so the length of the script is enough. *)
Fixpoint parse_loop (fuel : nat) (script : bytes) : list parsedOpcode * go_error :=
  match fuel, script with
  | S fuel, instr :: rest =>
      match parse_opcode instr rest with
      | Ret (pop, rest) => let '(pops, err) := parse_loop fuel rest in (pop :: pops, err)
      | Err e | Panic e => ([], Some e)
      end
  | _, _ => ([], None)
  end.

Definition parseScript (script : bytes) : list parsedOpcode * go_error := parse_loop (length script) script.

(** [parsedOpcode.bytes]. *)
Definition opcode_bytes (pop : parsedOpcode) : outcome bytes :=
  let length := opcode_length (po_opcode pop) in
  if bool_decide (length = 1) then
    if negb (bool_decide (len (po_data pop) = 0)) then Err "internal consistency error" else mret [po_opcode pop]
  else
    let l := len (po_data pop) in
    let '(retbytes, nbytes) :=
      if bool_decide (length < 0) then
        let n := Z.to_nat (- length) in
        (po_opcode pop :: le_bytes n l, le_val (le_bytes n l) + 1 - length)
      else ([po_opcode pop], length) in
    if negb (bool_decide (len (retbytes ++ po_data pop) = nbytes)) then Err "internal consistency error"
    else mret (retbytes ++ po_data pop).

Fixpoint unparseScript (pops : list parsedOpcode) : outcome bytes :=
  match pops with
  | [] => mret []
  | pop :: pops => b ← opcode_bytes pop; rest ← unparseScript pops; mret (b ++ rest)
  end.

(** ** Kinds of opcodes and scripts *)

Definition isSmallInt (op : Byte.byte) : bool :=
  bool_decide (byte_Z op = OP_0) || bool_decide (OP_1 <= byte_Z op <= OP_16).

Definition canonicalPush (pop : parsedOpcode) : bool :=
  let opcode := byte_Z (po_opcode pop) in
  let dataLen := len (po_data pop) in
  if bool_decide (opcode > OP_16) then true
  else if bool_decide (opcode < OP_PUSHDATA1 ∧ opcode > OP_0) && small_number (po_data pop) then false
  else if bool_decide (opcode = OP_PUSHDATA1 ∧ dataLen < OP_PUSHDATA1) then false
  else if bool_decide (opcode = OP_PUSHDATA2 ∧ dataLen <= 0xff) then false
  else if bool_decide (opcode = OP_PUSHDATA4 ∧ dataLen <= 0xffff) then false
  else true.

(** [parsedOpcode.checkMinimalDataPush]. *)
Definition checkMinimalDataPush (pop : parsedOpcode) : go_error :=
  let opcode := byte_Z (po_opcode pop) in
  let dataLen := len (po_data pop) in
  let wrong := Some "data push is not minimally encoded" in
  if bool_decide (dataLen = 0) && negb (bool_decide (opcode = OP_0)) then wrong
  else
    match single (po_data pop) with
    | Some d =>
        if bool_decide (1 <= d <= 16) then if bool_decide (opcode = u8 (OP_1 + d - 1)) then None else wrong
        else if bool_decide (d = 0x81) then if bool_decide (opcode = OP_1NEGATE) then None else wrong
        else if bool_decide (opcode = dataLen) then None else wrong
    | None =>
        if bool_decide (dataLen <= 75) then if bool_decide (opcode = dataLen) then None else wrong
        else if bool_decide (dataLen <= 255) then if bool_decide (opcode = OP_PUSHDATA1) then None else wrong
        else if bool_decide (dataLen <= 65535) then if bool_decide (opcode = OP_PUSHDATA2) then None else wrong
        else None
    end.

Definition isPushOnly (pops : list parsedOpcode) : bool :=
  forallb (λ pop, bool_decide (byte_Z (po_opcode pop) <= OP_16)) pops.

Definition isWitnessPubKeyHash (pops : list parsedOpcode) : bool :=
  match pops with
  | [v; d] => bool_decide (byte_Z (po_opcode v) = OP_0) && bool_decide (byte_Z (po_opcode d) = OP_DATA_20)
  | _ => false
  end.

Definition isWitnessScriptHash (pops : list parsedOpcode) : bool :=
  match pops with
  | [v; d] => bool_decide (byte_Z (po_opcode v) = OP_0) && bool_decide (byte_Z (po_opcode d) = OP_DATA_32)
  | _ => false
  end.

Definition isWitnessProgram (pops : list parsedOpcode) : bool :=
  match pops with
  | [v; d] => isSmallInt (po_opcode v) && canonicalPush d && bool_decide (2 <= len (po_data d) <= 40)
  | _ => false
  end.

Definition isScriptHash (pops : list parsedOpcode) : bool :=
  match pops with
  | [h; d; e] =>
      bool_decide (byte_Z (po_opcode h) = OP_HASH160) && bool_decide (byte_Z (po_opcode d) = OP_DATA_20) &&
      bool_decide (byte_Z (po_opcode e) = OP_EQUAL)
  | _ => false
  end.

(** The shape of a script, [false] when it does not parse. *)
Definition parsed_as (f : list parsedOpcode → bool) (script : bytes) : bool :=
  let '(pops, err) := parseScript script in
  match err with Some _ => false | None => f pops end.

Definition IsPayToScriptHash : bytes → bool := parsed_as isScriptHash.
Definition IsPayToWitnessScriptHash : bytes → bool := parsed_as isWitnessScriptHash.
Definition IsPayToWitnessPubKeyHash : bytes → bool := parsed_as isWitnessPubKeyHash.
Definition IsPushOnlyScript : bytes → bool := parsed_as isPushOnly.

Definition IsWitnessProgram (script : bytes) : bool :=
  if bool_decide (len script < 4) || bool_decide (len script > 42) then false else parsed_as isWitnessProgram script.

Definition asSmallInt (op : Byte.byte) : Z :=
  if bool_decide (byte_Z op = OP_0) then 0 else u8 (byte_Z op - (OP_1 - 1)).

Definition ExtractWitnessProgramInfo (script : bytes) : outcome (Z * bytes) :=
  let '(pops, err) := parseScript script in
  match err with
  | Some e => Err e
  | None =>
      if negb (isWitnessProgram pops) then Err "script is not a witness program, unable to extract version or witness program"
      else
        match pops with
        | v :: d :: _ => mret (asSmallInt (po_opcode v), po_data d)
        | _ => Panic out_of_range
        end
  end.

Definition removeOpcode (pkscript : list parsedOpcode) (opcode : Z) : list parsedOpcode :=
  filter (λ pop, byte_Z (po_opcode pop) ≠ opcode) pkscript.

(** [bytes.Contains]: [data] occurs in [b]. *)
Fixpoint contains (b data : bytes) : bool :=
  bool_decide (take (length data) b = data) ||
  match b with [] => false | _ :: b => contains b data end.

Definition removeOpcodeByData (pkscript : list parsedOpcode) (data : bytes) : list parsedOpcode :=
  List.filter (λ pop, negb (canonicalPush pop) || negb (contains (po_data pop) data)) pkscript.

Definition IsUnspendable (pkScript : bytes) : bool :=
  let '(pops, err) := parseScript pkScript in
  match err, pops with
  | Some _, _ => true
  | None, pop :: _ => bool_decide (byte_Z (po_opcode pop) = OP_RETURN)
  | None, [] => false
  end.

(** ** Counting signature operations *)

(** [prev] is the opcode before. *)
Fixpoint sig_op_loop (prev : option parsedOpcode) (pops : list parsedOpcode) (precise : bool) (nSigs : Z) : Z :=
  match pops with
  | [] => nSigs
  | pop :: pops =>
      let v := byte_Z (po_opcode pop) in
      let n :=
        if bool_decide (v = OP_CHECKSIG) || bool_decide (v = OP_CHECKSIGVERIFY) then 1
        else if bool_decide (v = OP_CHECKMULTISIG) || bool_decide (v = OP_CHECKMULTISIGVERIFY) then
          match prev with
          | Some p =>
              if precise && bool_decide (OP_1 <= byte_Z (po_opcode p) <= OP_16) then asSmallInt (po_opcode p)
              else MaxPubKeysPerMultiSig
          | None => MaxPubKeysPerMultiSig
          end
        else 0 in
      sig_op_loop (Some pop) pops precise (nSigs + n)
  end.

Definition getSigOpCount (pops : list parsedOpcode) (precise : bool) : Z := sig_op_loop None pops precise 0.

Definition GetSigOpCount (script : bytes) : Z := getSigOpCount (parseScript script).1 false.

Definition GetPreciseSigOpCount (scriptSig scriptPubKey : bytes) (bip16 : bool) : Z :=
  let pops := (parseScript scriptPubKey).1 in
  if negb (bip16 && isScriptHash pops) then getSigOpCount pops true
  else
    let '(sigPops, err) := parseScript scriptSig in
    match err, last sigPops with
    | Some _, _ | None, None => 0
    | None, Some top =>
        if negb (isPushOnly sigPops) then 0
        else if bool_decide (len (po_data top) = 0) then 0
        else getSigOpCount (parseScript (po_data top)).1 true
    end.

Definition getWitnessSigOps (pkScript : bytes) (witness : list bytes) : Z :=
  match ExtractWitnessProgramInfo pkScript with
  | Ret (witnessVersion, witnessProgram) =>
      if bool_decide (witnessVersion = 0) then
        if bool_decide (len witnessProgram = 20) then 1
        else
          match last witness with
          | Some witnessScript =>
              if bool_decide (len witnessProgram = 32) then getSigOpCount (parseScript witnessScript).1 true else 0
          | None => 0
          end
      else 0
  | _ => 0
  end.

(** [sigScript[1:]] of nothing panics. *)
Definition GetWitnessSigOpCount (sigScript pkScript : bytes) (witness : list bytes) : outcome Z :=
  if IsWitnessProgram pkScript then mret (getWitnessSigOps pkScript witness)
  else
    let '(sigPops, err) := parseScript sigScript in
    match err with
    | Some _ => mret 0
    | None =>
        if IsPayToScriptHash pkScript && isPushOnly sigPops then
          match sigScript with
          | [] => Panic "slice bounds out of range"
          | _ :: rest => if IsWitnessProgram rest then mret (getWitnessSigOps rest witness) else mret 0
          end
        else mret 0
    end.

(** [utils.DirectWPKHScriptFromPKH] and [DirectWSHScriptFromSH]; the error is ignored. *)
Definition DirectWPKHScriptFromPKH (pkh : bytes) : bytes := sb_script (AddData (AddOp NewScriptBuilder (Z_byte OP_0)) pkh).
Definition DirectWSHScriptFromSH (sh : bytes) : bytes := sb_script (AddData (AddOp NewScriptBuilder (Z_byte OP_0)) sh).
