(* ===== verification/ScriptTheorems.v ===== *)
(** * Scripts: parsing, building and numbers are inverse to each other *)

From Stdlib Require Import ZArith Lia.
From S2P Require Import Prelude Buffers Utils WireCommon BtcWire BtcTheorems Script.

Local Open Scope Z_scope.

(** ** Opcodes *)

Lemma opcode_length_range op :
  opcode_length op = 1 ∨ 1 < opcode_length op <= 76 ∨ -4 <= opcode_length op < 0.
Proof.
  unfold opcode_length, OP_DATA_1, OP_PUSHDATA1, OP_PUSHDATA2, OP_PUSHDATA4. case_bool_decide; [right; left; lia|].
  repeat (case_bool_decide; [right; right; lia|]). by left.
Qed.

Lemma len_take {A} n (l : list A) : 0 <= n <= len l → len (take (Z.to_nat n) l) = n.
Proof. unfold len. rewrite length_take. lia. Qed.

(** What [parse_opcode] reads is what [opcode_bytes] writes. *)
Lemma parse_opcode_bytes instr rest pop rest' :
  parse_opcode instr rest = Ret (pop, rest') →
  po_opcode pop = instr ∧ ∃ e, opcode_bytes pop = Ret (instr :: e) ∧ rest = e ++ rest'.
Proof.
  unfold parse_opcode, opcode_bytes. pose proof (opcode_length_range instr) as Hr.
  case_bool_decide as H1.
  { intros [= <- <-]. cbn [po_opcode po_data]. split; [done|]. exists []. by rewrite (bool_decide_true _ H1). }
  case_bool_decide as H2.
  { case_bool_decide as H3; [done|]. intros [= <- <-]. cbn [po_opcode po_data]. split; [done|]. rewrite len_cons in H3.
    exists (take (Z.to_nat (opcode_length instr - 1)) rest). split; [|by rewrite take_drop].
    rewrite (bool_decide_false _ H1). rewrite (bool_decide_false (opcode_length instr < 0)) by lia.
    cbn [app]. rewrite len_cons, len_take by lia. rewrite bool_decide_true by lia. done. }
  case_bool_decide as H3; [done|]. set (n := Z.to_nat (- opcode_length instr)) in *.
  case_bool_decide as H4; [done|]. intros [= <- <-]. cbn [po_opcode po_data]. split; [done|].
  pose proof (le_val_range (take n rest)) as Hl. set (l := le_val (take n rest)) in *.
  assert (Hn : length (take n rest) = n). { rewrite length_take. unfold len in H3. lia. }
  assert (Hlb : le_bytes n l = take n rest). { unfold l. rewrite <- Hn at 1. apply le_bytes_le_val. }
  exists (take n rest ++ take (Z.to_nat l) (drop n rest)). split; [|by rewrite <- app_assoc, !take_drop].
  rewrite (bool_decide_false _ H1), (bool_decide_true (opcode_length instr < 0)) by lia.
  rewrite !len_take by lia. fold n. rewrite Hlb. fold l. rewrite <- app_comm_cons, len_cons, len_app, len_take by lia.
  rewrite bool_decide_true; [done|]. unfold len at 1. rewrite Hn. lia.
Qed.

(** How an opcode with its data is written in a script. *)
Inductive encoded : parsedOpcode → bytes → Prop :=
| enc_plain op (Hop : byte_Z op = 0 ∨ 79 <= byte_Z op) : encoded (MkParsedOpcode op []) [op]
| enc_data op data (Hop : 1 <= byte_Z op <= 75) (Hl : len data = byte_Z op) : encoded (MkParsedOpcode op data) (op :: data)
| enc_pushdata op k data (Hop : byte_Z op = 76 ∧ k = 1%nat ∨ byte_Z op = 77 ∧ k = 2%nat ∨ byte_Z op = 78 ∧ k = 4%nat)
    (Hl : len data < 256 ^ Z.of_nat k) : encoded (MkParsedOpcode op data) (op :: le_bytes k (len data) ++ data).

(** A script that is a sequence of opcodes. *)
Inductive script_of : list parsedOpcode → bytes → Prop :=
| script_nil : script_of [] []
| script_cons pop b pops s (He : encoded pop b) (Hs : script_of pops s) : script_of (pop :: pops) (b ++ s).

(** ** Parsing and unparsing *)

(** Enough fuel is enough. *)
Lemma parse_loop_fuel fuel fuel' script :
  (length script ≤ fuel)%nat → (length script ≤ fuel')%nat → parse_loop fuel script = parse_loop fuel' script.
Proof.
  revert fuel' script. induction fuel as [|fuel IH]; intros fuel' script Hf Hf'.
  { destruct script; [|cbn in Hf; lia]. by destruct fuel'. }
  destruct script as [|instr rest]; [by destruct fuel'|]. destruct fuel' as [|fuel']; [cbn in Hf'; lia|]. cbn [parse_loop].
  destruct (parse_opcode instr rest) as [[pop rest']|e|e] eqn:E; [|done..].
  apply parse_opcode_bytes in E as (<- & e & Ho & ->). cbn in Hf, Hf'. rewrite length_app in Hf, Hf'. by rewrite (IH fuel' rest') by lia.
Qed.

Lemma parse_cons instr rest pop rest' :
  parse_opcode instr rest = Ret (pop, rest') → parseScript (instr :: rest) = (pop :: (parseScript rest').1, (parseScript rest').2).
Proof.
  intros E. unfold parseScript. cbn [length parse_loop]. rewrite E.
  apply parse_opcode_bytes in E as (<- & e & Ho & ->). rewrite (parse_loop_fuel _ (length rest')); [|rewrite length_app; lia|lia].
  by destruct (parse_loop (length rest') rest').
Qed.

Lemma parse_nil : parseScript [] = ([], None).
Proof. done. Qed.

(** More script behind an opcode changes nothing. *)
Lemma parse_opcode_app instr rest pop rest' x :
  parse_opcode instr rest = Ret (pop, rest') → parse_opcode instr (rest ++ x) = Ret (pop, rest' ++ x).
Proof.
  unfold parse_opcode. pose proof (opcode_length_range instr) as Hr. pose proof (len_nonneg x).
  case_bool_decide as H1; [by intros [= <- <-]|]. case_bool_decide as H2.
  { case_bool_decide as H3; [done|]. intros [= <- <-]. rewrite len_cons in H3. rewrite len_cons, len_app, bool_decide_false by lia.
    rewrite take_app_le, drop_app_le by (unfold len in H3; lia). done. }
  case_bool_decide as H3; [done|]. case_bool_decide as H4; [done|]. intros [= <- <-].
  rewrite len_app, bool_decide_false by lia. unfold len in H3. rewrite take_app_le, drop_app_le by lia.
  pose proof (le_val_range (take (Z.to_nat (- opcode_length instr)) rest)).
  rewrite len_app, bool_decide_false by lia. unfold len in H4. rewrite take_app_le, drop_app_le by lia. done.
Qed.

Lemma parse_app s pops x :
  parseScript s = (pops, None) → parseScript (s ++ x) = (pops ++ (parseScript x).1, (parseScript x).2).
Proof.
  remember (length s) as n eqn:Hn. revert s pops Hn. induction (lt_wf n) as [n _ IH]. intros s pops ->.
  destruct s as [|instr rest]; [intros [= <-]; exact (surjective_pairing _)|]. cbn [app].
  destruct (parse_opcode instr rest) as [[pop rest']|e|e] eqn:E.
  - rewrite (parse_cons _ _ _ _ E), (parse_cons _ _ _ _ (parse_opcode_app _ _ _ _ x E)). intros [= <- He].
    apply parse_opcode_bytes in E as (_ & e & _ & ->).
    rewrite (IH (length rest')) with (s := rest') (pops := (parseScript rest').1); [done|cbn; rewrite length_app; lia|done|].
    by rewrite (surjective_pairing (parseScript rest')), He.
  - unfold parseScript. cbn [length parse_loop]. by rewrite E.
  - unfold parseScript. cbn [length parse_loop]. by rewrite E.
Qed.

(** ** Building *)

(** The opcode that pushes [data]; a single zero byte becomes the empty string. *)
Definition push_of (data : bytes) : parsedOpcode :=
  if bool_decide (data = []) || bool_decide (single data = Some 0) then MkParsedOpcode (Z_byte OP_0) []
  else if small_number data then MkParsedOpcode (Z_byte (OP_1 - 1 + default 0 (single data))) []
  else if bool_decide (single data = Some 0x81) then MkParsedOpcode (Z_byte OP_1NEGATE) []
  else if bool_decide (len data < OP_PUSHDATA1) then MkParsedOpcode (Z_byte (len data)) data
  else if bool_decide (len data <= 0xff) then MkParsedOpcode (Z_byte OP_PUSHDATA1) data
  else if bool_decide (len data <= 0xffff) then MkParsedOpcode (Z_byte OP_PUSHDATA2) data
  else MkParsedOpcode (Z_byte OP_PUSHDATA4) data.

Lemma opcode_length_plain z : OP_1NEGATE <= z < 256 ∨ z = 0 → opcode_length (Z_byte z) = 1.
Proof.
  intros Hz. unfold opcode_length, OP_DATA_1, OP_PUSHDATA1, OP_PUSHDATA2, OP_PUSHDATA4, OP_1NEGATE in *. rewrite byte_Z_of_Z, Z.mod_small by lia.
  rewrite !bool_decide_false by lia. done.
Qed.

Lemma parse_plain z rest : OP_1NEGATE <= z < 256 ∨ z = 0 → parse_opcode (Z_byte z) rest = Ret (MkParsedOpcode (Z_byte z) [], rest).
Proof. intros Hz. unfold parse_opcode. by rewrite opcode_length_plain, bool_decide_true by done. Qed.

Lemma parse_data data rest :
  1 <= len data < OP_PUSHDATA1 → parse_opcode (Z_byte (len data)) (data ++ rest) = Ret (MkParsedOpcode (Z_byte (len data)) data, rest).
Proof.
  unfold OP_PUSHDATA1. intros Hl. pose proof (len_nonneg rest).
  assert (opcode_length (Z_byte (len data)) = len data + 1) as Ho.
  { unfold opcode_length, OP_DATA_1, OP_PUSHDATA1. rewrite byte_Z_of_Z, Z.mod_small by lia. rewrite bool_decide_true by lia. done. }
  unfold parse_opcode. rewrite Ho. rewrite bool_decide_false by lia. rewrite bool_decide_true by lia.
  rewrite len_cons, len_app, bool_decide_false by lia.
  replace (Z.to_nat (len data + 1 - 1)) with (length data) by (unfold len; lia).
  by rewrite take_app_length, drop_app_length.
Qed.

(** The opcodes with a length of [k] bytes before the data. *)
Lemma parse_pushdata op k data rest :
  opcode_length op = - Z.of_nat k → (0 < k)%nat → len data < 256 ^ Z.of_nat k →
  parse_opcode op (le_bytes k (len data) ++ data ++ rest) = Ret (MkParsedOpcode op data, rest).
Proof.
  intros Ho Hk Hl. unfold parse_opcode. rewrite Ho. rewrite bool_decide_false by lia. rewrite bool_decide_false by lia.
  pose proof (len_nonneg data). pose proof (len_nonneg rest).
  assert (Z.to_nat (- - Z.of_nat k) = length (le_bytes k (len data))) as -> by (rewrite le_bytes_length; lia).
  rewrite take_app_length, drop_app_length, le_val_le_bytes, Z.mod_small by lia.
  rewrite bool_decide_false; [|rewrite !len_app; unfold len at 1; rewrite le_bytes_length; lia].
  rewrite len_app, bool_decide_false by lia. replace (Z.to_nat (len data)) with (length data) by (unfold len; lia).
  by rewrite take_app_length, drop_app_length.
Qed.

(** What [addData] appends: the canonical push of the data, as long as announced. *)
Lemma addData_push b data :
  len data < 2 ^ 32 →
  ∃ tl, addData b data = append_script b (po_opcode (push_of data) :: tl) ∧
    (∀ rest, parse_opcode (po_opcode (push_of data)) (tl ++ rest) = Ret (push_of data, rest)) ∧
    1 + len tl = canonicalDataSize data.
Proof.
  intros Hl. unfold addData, push_of, canonicalDataSize.
  assert (bool_decide (len data = 0) = bool_decide (data = [])) as ->.
  { apply bool_decide_ext. destruct data; [done|]. rewrite len_cons. pose proof (len_nonneg data). split; [lia|done]. }
  destruct (bool_decide (data = [])) eqn:E0; cbn [orb].
  { exists []. split; [done|]. split; [intros; apply parse_plain; by right|done]. }
  assert (1 <= len data) as H1.
  { destruct data; [done|]. rewrite len_cons. pose proof (len_nonneg data). lia. }
  destruct (bool_decide (single data = Some 0)) eqn:E1.
  { apply bool_decide_eq_true in E1. unfold small_number. rewrite E1, bool_decide_true by lia.
    exists []. split; [done|]. split; [intros; apply parse_plain; by right|done]. }
  destruct (small_number data) eqn:E2.
  { unfold small_number in E2. destruct (single data) as [d|] eqn:Es; [|done]. apply bool_decide_eq_true in E2. cbn [default from_option id].
    apply bool_decide_eq_false in E1. assert (0 < d) by (destruct data as [|x [|]]; [done| |done]; injection Es as <-; pose proof (byte_Z_range x); assert (byte_Z x ≠ 0) by congruence; lia).
    exists []. unfold OP_1. replace (u8 (81 - 1 + d)) with (81 - 1 + d) by (unfold u8; rewrite Z.mod_small; lia).
    split; [done|]. split; [intros; apply parse_plain; unfold OP_1NEGATE; lia|done]. }
  destruct (bool_decide (single data = Some 129)) eqn:E3.
  { exists []. split; [done|]. split; [intros; apply parse_plain; unfold OP_1NEGATE; lia|done]. }
  unfold append_script. cbn zeta. cbn [sb_script sb_err].
  destruct (decide (len data < OP_PUSHDATA1)) as [E4|E4]; [rewrite !(bool_decide_true _ E4)|rewrite !(bool_decide_false _ E4)].
  { exists data. cbn [sb_script sb_err]. rewrite <- app_assoc. unfold OP_DATA_1. replace (1 - 1 + len data) with (len data) by lia. split; [done|]. split; [|lia].
    intros rest. by apply parse_data. }
  destruct (decide (len data <= 0xff)) as [E5|E5]; [rewrite !(bool_decide_true _ E5)|rewrite !(bool_decide_false _ E5)].
  { exists (le_bytes 1 (len data) ++ data). cbn [sb_script sb_err]. rewrite <- app_assoc. split; [|split].
    - done.
    - intros rest. rewrite <- app_assoc. by apply (parse_pushdata _ 1); [done|lia|lia].
    - rewrite len_app. unfold len at 1. rewrite le_bytes_length. lia. }
  destruct (decide (len data <= 0xffff)) as [E6|E6]; [rewrite !(bool_decide_true _ E6)|rewrite !(bool_decide_false _ E6)].
  { exists (le_bytes 2 (len data) ++ data). cbn [sb_script sb_err]. rewrite <- app_assoc. split; [|split].
    - unfold u16. rewrite Z.mod_small by lia. done.
    - intros rest. rewrite <- app_assoc. by apply (parse_pushdata _ 2); [done|lia|lia].
    - rewrite len_app. unfold len at 1. rewrite le_bytes_length. lia. }
  exists (le_bytes 4 (len data) ++ data). cbn [sb_script sb_err]. rewrite <- app_assoc. split; [|split].
  - unfold u32. rewrite Z.mod_small by lia. done.
  - intros rest. rewrite <- app_assoc. by apply (parse_pushdata _ 4); [done|lia|lia].
  - rewrite len_app. unfold len at 1. rewrite le_bytes_length. lia.
Qed.

(** The pushes of [AddData] are canonical and minimal. *)
Lemma push_of_canonical data : len data < 2 ^ 32 → canonicalPush (push_of data) = true.
Proof.
  intros Hl. unfold push_of. pose proof (len_nonneg data). destruct (_ || _); [done|]. destruct (small_number data) eqn:Es.
  { unfold small_number in Es. destruct (single data) as [d|] eqn:E; [|done]. apply bool_decide_eq_true in Es.
    unfold canonicalPush, OP_16, OP_1, OP_0, OP_PUSHDATA1, OP_PUSHDATA2, OP_PUSHDATA4. cbn [default from_option po_opcode po_data id].
    assert (0 <= d) by (destruct data as [|x [|]]; [done| |done]; injection E as <-; pose proof (byte_Z_range x); lia).
    rewrite byte_Z_of_Z, Z.mod_small by lia. case_bool_decide; [done|].
    rewrite (bool_decide_false (_ ∧ _)) by lia. cbn [andb]. by rewrite !bool_decide_false by lia. }
  case_bool_decide; [done|].
  case_bool_decide as E4; [|case_bool_decide as E5; [|case_bool_decide as E6]];
    unfold canonicalPush, OP_16, OP_0, OP_PUSHDATA1, OP_PUSHDATA2, OP_PUSHDATA4 in *; cbn [po_opcode po_data]; rewrite byte_Z_of_Z, Z.mod_small by lia;
    rewrite ?Es, ?andb_false_r; repeat (rewrite bool_decide_false by lia); try done.
Qed.

Lemma push_of_minimal data :
  len data < 2 ^ 32 → byte_Z (po_opcode (push_of data)) <= OP_PUSHDATA4 → checkMinimalDataPush (push_of data) = None.
Proof.
  intros Hl. unfold push_of. pose proof (len_nonneg data). destruct (_ || _) eqn:E0; [done|]. apply orb_false_iff in E0 as [E0 E1].
  apply bool_decide_eq_false in E0, E1. destruct (small_number data) eqn:Es.
  { unfold small_number in Es. destruct (single data) as [d|] eqn:E; [|done]. apply bool_decide_eq_true in Es.
    unfold OP_1, OP_PUSHDATA4. cbn [default from_option po_opcode po_data id].
    assert (0 < d) by (destruct data as [|x [|]]; [done| |done]; injection E as <-; pose proof (byte_Z_range x); assert (byte_Z x ≠ 0) by congruence; lia).
    rewrite byte_Z_of_Z, Z.mod_small by lia. lia. }
  case_bool_decide as E2; [done|]. unfold small_number in Es.
  assert (len data ≠ 0) by (destruct data; [done|]; rewrite len_cons; pose proof (len_nonneg data); lia).
  case_bool_decide as E4; [|case_bool_decide as E5; [|case_bool_decide as E6]]; intros _;
    unfold checkMinimalDataPush; cbn [po_opcode po_data]; unfold OP_PUSHDATA1, OP_PUSHDATA2, OP_PUSHDATA4 in *;
    rewrite (bool_decide_false (len data = 0)) by done; cbn [andb]; rewrite byte_Z_of_Z, Z.mod_small by lia.
  - destruct (single data) as [d|] eqn:E.
    + apply bool_decide_eq_false in Es. rewrite bool_decide_false by lia. rewrite bool_decide_false by congruence. by rewrite bool_decide_true.
    + rewrite !bool_decide_true by lia. done.
  - destruct data as [|x [|y data]]; [done|done|]. cbn [single]. rewrite bool_decide_false by lia. by rewrite !bool_decide_true by lia.
  - destruct data as [|x [|y data]]; [done|done|]. cbn [single]. rewrite !bool_decide_false by lia. by rewrite !bool_decide_true by lia.
  - destruct data as [|x [|y data]]; [done|done|]. cbn [single]. by rewrite !bool_decide_false by lia.
Qed.

(** The builder's script is the pushes [pushes], within the limit. *)
Definition built_of (b : ScriptBuilder) (pushes : list parsedOpcode) : Prop :=
  parseScript (sb_script b) = (pushes, None) ∧ len (sb_script b) <= MaxScriptSize.

Lemma AddData_built b pushes data :
  sb_err b = None → built_of b pushes →
  match sb_err (AddData b data) with
  | None => built_of (AddData b data) (pushes ++ [push_of data]) ∧ len data <= MaxScriptElementSize
  | Some _ => sb_script (AddData b data) = sb_script b
  end.
Proof.
  intros He [Hp Hl]. unfold AddData. rewrite He. case_bool_decide as E1; [done|]. case_bool_decide as E2; [done|].
  unfold MaxScriptElementSize in *. destruct (addData_push b data) as (tl & -> & Hparse & Hsize); [lia|]. cbn [sb_err append_script]. rewrite He.
  split; [|lia]. split; cbn [sb_script append_script].
  - rewrite (parse_app _ _ _ Hp). specialize (Hparse []). rewrite app_nil_r in Hparse. by rewrite (parse_cons _ _ _ _ Hparse), parse_nil.
  - rewrite len_app, len_cons. lia.
Qed.

Lemma AddData_failed b data e : sb_err b = Some e → AddData b data = b.
Proof. intros He. unfold AddData. by rewrite He. Qed.

Lemma AddData_all_failed ds b e : sb_err b = Some e → foldl AddData b ds = b.
Proof. intros He. induction ds as [|d ds IH]; [done|]. cbn [foldl]. by rewrite (AddData_failed _ _ _ He). Qed.

Lemma AddData_all ds b pushes :
  sb_err b = None → built_of b pushes →
  ∃ n, (n ≤ length ds)%nat ∧ built_of (foldl AddData b ds) (pushes ++ map push_of (take n ds)) ∧
    Forall (λ d, len d <= MaxScriptElementSize) (take n ds) ∧ (sb_err (foldl AddData b ds) = None ↔ n = length ds).
Proof.
  revert b pushes. induction ds as [|d ds IH]; intros b pushes He Hb.
  { exists 0%nat. cbn [take map foldl length]. rewrite app_nil_r. split; [lia|]. split; [exact Hb|]. split; [constructor|done]. }
  pose proof (AddData_built b pushes d He Hb) as Ha. cbn [foldl]. destruct (sb_err (AddData b d)) as [e|] eqn:E.
  - exists 0%nat. rewrite (AddData_all_failed ds _ _ E). cbn [take map]. rewrite app_nil_r. split; [lia|].
    split; [unfold built_of; by rewrite Ha|]. split; [constructor|]. rewrite E. cbn. split; [done|lia].
  - destruct Ha as [Ha Hd]. destruct (IH _ _ E Ha) as (n & Hn & Hbn & Hf & Hiff). exists (S n). cbn [take map length].
    split; [lia|]. split; [by rewrite <- app_assoc in Hbn|]. split; [by constructor|]. rewrite Hiff. split; lia.
Qed.

(** ** Pay to witness public key hash *)

Lemma single_long data : 2 <= len data → single data = None.
Proof. destruct data as [|x [|y data]]; [done|done|done]. Qed.

Lemma push_long data : 2 <= len data < OP_PUSHDATA1 → push_of data = MkParsedOpcode (Z_byte (len data)) data.
Proof.
  intros Hl. unfold push_of, small_number. rewrite single_long by lia. rewrite (bool_decide_false (data = [])) by (intros ->; by destruct Hl).
  rewrite (bool_decide_false (None = Some 0)), (bool_decide_false (None = Some 129)) by done. by rewrite bool_decide_true by lia.
Qed.

Definition p2wpkh (pkh : bytes) : bytes := [x00; x14] ++ pkh.

Lemma DirectWPKH_p2wpkh pkh : length pkh = 20%nat → DirectWPKHScriptFromPKH pkh = p2wpkh pkh.
Proof.
  intros Hl. assert (len pkh = 20) as Hz by (unfold len; lia). unfold DirectWPKHScriptFromPKH, AddData, AddOp. cbn [NewScriptBuilder sb_err sb_script].
  rewrite (bool_decide_false (len [] + 1 > MaxScriptSize)) by done. cbn [append_script sb_err sb_script app].
  unfold canonicalDataSize, addData, small_number. rewrite single_long, Hz by lia. cbn [append_script]. reflexivity.
Qed.

Lemma parse_p2wpkh pkh :
  length pkh = 20%nat → parseScript (p2wpkh pkh) = ([MkParsedOpcode x00 []; MkParsedOpcode x14 pkh], None).
Proof.
  intros Hl. unfold p2wpkh. cbn [app]. rewrite (parse_cons x00 (x14 :: pkh) (MkParsedOpcode x00 []) (x14 :: pkh)) by done.
  assert (parse_opcode x14 pkh = Ret (MkParsedOpcode x14 pkh, [])) as E.
  { pose proof (parse_data pkh []) as Hp. rewrite app_nil_r in Hp. replace (len pkh) with 20 in Hp by (unfold len; lia). by apply Hp. }
  by rewrite (parse_cons _ _ _ _ E).
Qed.

Lemma KeyHash_p2wpkh s pkh : length pkh = 20%nat → KeyHashFromPkScript s = Some pkh ↔ s = p2wpkh pkh.
Proof.
  intros Hl. unfold KeyHashFromPkScript, p2wpkh. split.
  - case_bool_decide as E1; [|case_bool_decide as E2; [|done]]; intros [= <-].
    + destruct E1 as [_ <-]. by rewrite take_drop.
    + rewrite length_drop in Hl. lia.
  - intros ->. rewrite bool_decide_true; [done|]. split; [|done]. by rewrite length_app, Hl.
Qed.

(** ** Numbers *)

Lemma le_val_cons x v : le_val (x :: v) = byte_Z x + 256 * le_val v.
Proof. reflexivity. Qed.

Lemma le_val_nil : le_val [] = 0.
Proof. reflexivity. Qed.

Lemma lor_high a c k : 0 <= k → 0 <= a < 2 ^ k → Z.lor a (c * 2 ^ k) = a + c * 2 ^ k.
Proof.
  intros Hk Ha. symmetry. apply Z.add_nocarry_lor. rewrite <- Z.shiftl_mul_pow2 by done. apply Z.bits_inj'. intros n Hn.
  rewrite Z.land_spec, Z.bits_0. destruct (decide (n < k)) as [Hlt|Hge].
  - rewrite Z.shiftl_spec_low by done. apply andb_false_r.
  - destruct (decide (a = 0)) as [->|]; [by rewrite Z.bits_0|]. rewrite Z.bits_above_log2; [done|lia|].
    apply Z.log2_lt_pow2; [lia|]. assert (2 ^ k <= 2 ^ n) by (apply Z.pow_le_mono_r; lia). lia.
Qed.

Lemma pow_256 k : 0 <= k → 256 ^ k = 2 ^ (8 * k).
Proof. intros Hk. rewrite Z.pow_mul_r by lia. done. Qed.

(** The bytes of a positive number, lowest first, without zeros at the end. *)
Lemma low_bytes_spec fuel a :
  0 < a < 256 ^ Z.of_nat fuel →
  le_val (low_bytes fuel a) = a ∧ (0 < length (low_bytes fuel a) ≤ fuel)%nat ∧ 256 ^ (len (low_bytes fuel a) - 1) <= a.
Proof.
  revert a. induction fuel as [|fuel IH]; intros a Ha; [cbn in Ha; lia|]. cbn [low_bytes]. rewrite bool_decide_true by lia.
  rewrite le_val_cons. cbn [length]. change 255 with (Z.ones 8). rewrite Z.land_ones, Z.shiftr_div_pow2 by lia. change (2 ^ 8) with 256.
  rewrite byte_Z_of_Z, Z.mod_mod by lia. rewrite len_cons. destruct (decide (a / 256 = 0)) as [E|E].
  - rewrite E. assert (low_bytes fuel 0 = []) as -> by (destruct fuel; [done|]; cbn; by rewrite bool_decide_false by lia). rewrite le_val_nil. cbn [length]. change (256 ^ (1 + len [] - 1)) with 1.
    pose proof (Z.div_mod a 256). lia.
  - assert (0 < a / 256) by (pose proof (Z.div_pos a 256); lia).
    destruct (IH (a / 256)) as (Hv & Hl & Hp).
    { split; [done|]. apply Z.div_lt_upper_bound; [lia|]. rewrite Nat2Z.inj_succ, Z.pow_succ_r in Ha by lia. lia. }
    rewrite Hv. split; [pose proof (Z.div_mod a 256); lia|]. split; [lia|].
    replace (1 + len (low_bytes fuel (a / 256)) - 1) with (Z.succ (len (low_bytes fuel (a / 256)) - 1)) by lia.
    rewrite Z.pow_succ_r by (unfold len; lia). pose proof (Z.mul_div_le a 256). lia.
Qed.

Lemma le_val_snoc v x : le_val (v ++ [x]) = le_val v + byte_Z x * 256 ^ len v.
Proof.
  induction v as [|y v IH]; [cbn [app]; rewrite le_val_cons, le_val_nil; change (256 ^ len []) with 1; lia|]. rewrite len_cons. cbn [app]. rewrite !le_val_cons, IH, Z.pow_add_r by (pose proof (len_nonneg v); lia). lia.
Qed.

Lemma be_val_cons x b : be_val (x :: b) = byte_Z x * 256 ^ len b + be_val b.
Proof. unfold be_val. cbn [rev]. rewrite le_val_snoc. unfold len. rewrite length_rev. lia. Qed.

Lemma be_val_nil : be_val [] = 0.
Proof. apply le_val_nil. Qed.

Lemma i64_small z : - 2 ^ 63 <= z < 2 ^ 63 → i64 z = z.
Proof. intros Hz. unfold i64. rewrite Z.mod_small by lia. lia. Qed.

(** A byte shifted into place. *)
Lemma shifted_byte x i : 0 <= i < 8 → ∃ c, i64 (Z.shiftl (byte_Z x) (u8 (8 * i))) = c * 2 ^ (8 * i) ∧
  (c = byte_Z x ∨ i = 7 ∧ 128 <= byte_Z x ∧ c = byte_Z x - 256) ∧ (i = 7 → c < 128).
Proof.
  intros Hi. pose proof (byte_Z_range x) as Hx. unfold u8. rewrite Z.mod_small, Z.shiftl_mul_pow2 by lia.
  destruct (decide (i = 7)) as [->|].
  - destruct (decide (byte_Z x < 128)).
    + exists (byte_Z x). rewrite i64_small by lia. lia.
    + exists (byte_Z x - 256). split; [|lia]. unfold i64. change (2 ^ (8 * 7)) with (2 ^ 56).
      replace (byte_Z x * 2 ^ 56 + 2 ^ 63) with ((byte_Z x - 128) * 2 ^ 56 + 1 * 2 ^ 64) by lia.
      rewrite Z.mod_add by lia. rewrite Z.mod_small by lia. lia.
  - exists (byte_Z x). assert (2 ^ (8 * i) <= 2 ^ 48) by (apply Z.pow_le_mono_r; lia). assert (0 < 2 ^ (8 * i)) by (apply Z.pow_pos_nonneg; lia).
    rewrite i64_small by nia. lia.
Qed.

(** The loop of [makeScriptNum] reads the bytes as a number, modulo 2^64. *)
Lemma num_loop_spec v i acc :
  0 <= i → i + len v <= 8 → 0 <= acc < 256 ^ i → (v ≠ [] ∨ acc < 2 ^ 63) →
  num_loop i v acc = i64 (acc + 256 ^ i * le_val v).
Proof.
  revert i acc. induction v as [|x v IH]; intros i acc Hi Hl Ha Hn.
  { destruct Hn; [done|]. cbn [num_loop]. rewrite le_val_nil, Z.mul_0_r, Z.add_0_r, i64_small by lia. done. }
  rewrite len_cons in Hl. pose proof (len_nonneg v). cbn [num_loop]. rewrite le_val_cons. rewrite pow_256 in Ha |- * by done.
  destruct (shifted_byte x i) as (c & -> & Hc & Hc7); [lia|]. pose proof (byte_Z_range x) as Hx. rewrite lor_high by lia.
  destruct Hc as [->|(-> & Hx128 & ->)].
  - destruct v as [|y v].
    + cbn [num_loop]. rewrite le_val_nil. rewrite i64_small; [lia|].
      assert (i = 7 ∨ i <= 6) as [->|] by lia; [specialize (Hc7 eq_refl); change (2 ^ (8 * 7)) with (2 ^ 56) in *; lia|].
      assert (2 ^ (8 * i) <= 2 ^ 48) by (apply Z.pow_le_mono_r; lia). nia.
    + rewrite IH; [|lia|lia| |by left].
      * rewrite pow_256 by lia. replace (8 * (i + 1)) with (8 * i + 8) by lia. rewrite Z.pow_add_r by lia. f_equal. lia.
      * rewrite pow_256 by lia. replace (8 * (i + 1)) with (8 * i + 8) by lia. rewrite Z.pow_add_r by lia. change (2 ^ 8) with 256. nia.
  - destruct v; [|rewrite len_cons in Hl; pose proof (len_nonneg v); lia]. cbn [num_loop]. rewrite le_val_nil, Z.mul_0_r, Z.add_0_r.
    change (2 ^ (8 * 7)) with (2 ^ 56) in *. unfold i64.
    replace (acc + 2 ^ 56 * byte_Z x + 2 ^ 63) with ((acc + (byte_Z x - 128) * 2 ^ 56) + 1 * 2 ^ 64) by lia.
    rewrite Z.mod_add by lia. rewrite Z.mod_small by lia. lia.
Qed.

(** The sign bit of a byte. *)
Lemma sign_bit x : Z.land (byte_Z x) 0x80 = if bool_decide (128 <= byte_Z x) then 128 else 0.
Proof. by destruct x. Qed.

Lemma set_sign x : byte_Z x < 128 → byte_Z (Z_byte (Z.lor (byte_Z x) 0x80)) = byte_Z x + 128.
Proof. by destruct x. Qed.

Lemma low_bits x : Z.land (byte_Z x) 0x7f = byte_Z x mod 128.
Proof. by destruct x. Qed.

Lemma high_bit_clear w k : 0 <= k → 0 <= w < 2 ^ k → Z.testbit w k = false.
Proof.
  intros Hk Hw. destruct (decide (w = 0)) as [->|]; [apply Z.bits_0|]. apply Z.bits_above_log2; [lia|]. apply Z.log2_lt_pow2; lia.
Qed.

Lemma ldiff_high w k : 0 <= k → 0 <= w < 2 ^ k → Z.ldiff (w + 2 ^ k) (2 ^ k) = w.
Proof.
  intros Hk Hw. pose proof (lor_high w 1 k Hk Hw) as Hlor. rewrite !Z.mul_1_l in Hlor. rewrite <- Hlor.
  apply Z.bits_inj'. intros j Hj. rewrite Z.ldiff_spec, Z.lor_spec. destruct (decide (j = k)) as [->|].
  - by rewrite Z.pow2_bits_true, high_bit_clear, andb_false_r by done.
  - by rewrite Z.pow2_bits_false, orb_false_r, andb_true_r by lia.
Qed.

(** The sign bit taken out of a number. *)
Lemma clear_sign l w :
  1 <= l <= 8 → 0 <= w < 2 ^ (8 * l - 1) →
  Z.land (i64 (w + 2 ^ (8 * l - 1))) (Z.lnot (i64 (Z.shiftl 0x80 (u8 (8 * (l - 1)))))) = w.
Proof.
  intros Hl Hw. unfold u8. rewrite Z.mod_small, Z.shiftl_mul_pow2 by lia.
  replace (128 * 2 ^ (8 * (l - 1))) with (2 ^ (8 * l - 1)) by (change 128 with (2 ^ 7); rewrite <- Z.pow_add_r by lia; f_equal; lia).
  destruct (decide (l = 8)) as [->|].
  - change (2 ^ (8 * 8 - 1)) with (2 ^ 63) in *. assert (i64 (w + 2 ^ 63) = w - 2 ^ 63) as ->.
    { unfold i64. replace (w + 2 ^ 63 + 2 ^ 63) with (w + 1 * 2 ^ 64) by lia. rewrite Z.mod_add, Z.mod_small by lia. lia. }
    change (Z.lnot (i64 (2 ^ 63))) with (Z.ones 63). rewrite Z.land_ones by lia.
    replace (w - 2 ^ 63) with (w + (-1) * 2 ^ 63) by lia. rewrite Z.mod_add, Z.mod_small by lia. done.
  - assert (2 ^ (8 * l - 1) <= 2 ^ 55) by (apply Z.pow_le_mono_r; lia). rewrite !i64_small by lia.
    rewrite <- Z.ldiff_land. apply ldiff_high; lia.
Qed.

(** What [makeScriptNum] makes of a minimal encoding. *)
Lemma makeScriptNum_snoc v t minimal k :
  len v < 8 → len v < k → checkMinimalDataEncoding (v ++ [t]) = None →
  makeScriptNum (v ++ [t]) minimal k =
  Ret (if bool_decide (128 <= byte_Z t) then - (le_val v + (byte_Z t - 128) * 256 ^ len v) else le_val v + byte_Z t * 256 ^ len v).
Proof.
  intros H8 Hk Hm. pose proof (byte_Z_range t) as Ht. pose proof (le_val_range v) as Hv. pose proof (len_nonneg v) as Hl.
  unfold makeScriptNum. rewrite Hm. assert (len (v ++ [t]) = len v + 1) as El by (by rewrite len_app).
  rewrite El, bool_decide_false by lia. assert ((if minimal then None else None) = @None string) as -> by (by destruct minimal).
  rewrite last_snoc. rewrite num_loop_spec; [|lia|lia|change (256 ^ 0) with 1; lia|left; by destruct v].
  change (256 ^ 0) with 1. rewrite Z.mul_1_l, Z.add_0_l, le_val_snoc, sign_bit, pow_256 in * by done.
  assert (2 ^ (8 * (len v + 1) - 1) = 128 * 2 ^ (8 * len v)) as Ep by (change 128 with (2 ^ 7); rewrite <- Z.pow_add_r by lia; f_equal; lia).
  assert (2 ^ (8 * len v) <= 2 ^ 56) by (apply Z.pow_le_mono_r; lia).
  destruct (decide (128 <= byte_Z t)) as [E|E]; [rewrite !(bool_decide_true _ E)|rewrite !(bool_decide_false _ E)].
  - rewrite (bool_decide_false (128 = 0)) by done. cbn [negb].
    replace (le_val v + byte_Z t * 2 ^ (8 * len v)) with ((le_val v + (byte_Z t - 128) * 2 ^ (8 * len v)) + 2 ^ (8 * (len v + 1) - 1)) by lia.
    rewrite clear_sign by nia. rewrite i64_small by nia. done.
  - rewrite (bool_decide_true (0 = 0)) by done. cbn [negb]. rewrite i64_small by nia. done.
Qed.

Lemma checkMinimal_snoc v t :
  byte_Z t mod 128 ≠ 0 ∨ (∃ v' x, v = v' ++ [x] ∧ 128 <= byte_Z x) → checkMinimalDataEncoding (v ++ [t]) = None.
Proof.
  intros Hc. unfold checkMinimalDataEncoding. rewrite last_snoc, low_bits. case_bool_decide as E; [|done].
  destruct Hc as [Hc|(v' & x & -> & Hx)]; [done|]. rewrite removelast_last, last_snoc, sign_bit, (bool_decide_true (128 <= byte_Z x)) by done. done.
Qed.

(** The encoding of the absolute value [a] with its sign. *)
Lemma scriptNum_Bytes_spec n :
  - 2 ^ 63 < n < 2 ^ 63 → n ≠ 0 →
  ∃ v t, scriptNum_Bytes n = Ret (v ++ [t]) ∧ checkMinimalDataEncoding (v ++ [t]) = None ∧ len v < 8 ∧
    (if bool_decide (128 <= byte_Z t) then - (le_val v + (byte_Z t - 128) * 256 ^ len v) else le_val v + byte_Z t * 256 ^ len v) = n ∧
    (∃ lo, 2 ^ lo <= Z.abs n < 2 ^ (8 * len v + 7) ∧ 8 * len v - 1 <= lo).
Proof.
  intros Hn H0. unfold scriptNum_Bytes. rewrite bool_decide_false by done. set (neg := bool_decide (n < 0)).
  assert ((if neg then i64 (- n) else n) = Z.abs n) as ->.
  { unfold neg. case_bool_decide; [rewrite i64_small by lia|]; lia. }
  destruct (low_bytes_spec 8 (Z.abs n)) as (Hv & Hl & Hp); [change (256 ^ Z.of_nat 8) with (2 ^ 64); lia|].
  destruct (low_bytes 8 (Z.abs n)) as [|top v _] using rev_ind; [cbn in Hl; lia|]. rewrite last_snoc. rewrite le_val_snoc in Hv. rewrite length_app in Hl. cbn [length] in Hl.
  rewrite len_app in Hp. change (len [top]) with 1 in Hp. replace (len v + 1 - 1) with (len v) in Hp by lia.
  pose proof (len_nonneg v) as Lv. pose proof (le_val_range v) as Rv. pose proof (byte_Z_range top) as Rt.
  rewrite pow_256 in Hv, Hp, Rv by done. rewrite sign_bit.
  assert (0 < 2 ^ (8 * len v)) by (apply Z.pow_pos_nonneg; lia). assert (1 <= byte_Z top) by nia.
  assert (2 ^ (8 * len v + 7) = 128 * 2 ^ (8 * len v)) as E7 by (rewrite Z.pow_add_r by lia; lia).
  assert (len v < 8) by (unfold len; lia).
  destruct (decide (128 <= byte_Z top)) as [Et|Et]; [rewrite (bool_decide_true _ Et)|rewrite (bool_decide_false _ Et)].
  - rewrite (bool_decide_false (128 = 0)) by done. cbn [negb]. exists (v ++ [top]), (Z_byte (if neg then 128 else 0)).
    assert (len v < 7).
    { destruct (decide (len v = 7)) as [E'|]; [|lia]. rewrite E' in *. change (2 ^ (8 * 7)) with (2 ^ 56) in *. lia. }
    assert (8 * len (v ++ [top]) + 7 = 8 * len v + 8 + 7) as El by (rewrite len_app; change (len [top]) with 1; lia).
    split; [done|]. split; [apply checkMinimal_snoc; right; by exists v, top|]. split; [rewrite len_app; change (len [top]) with 1; lia|]. split.
    + rewrite le_val_snoc, pow_256 by done. unfold neg. destruct (decide (n < 0)) as [En|En]; [rewrite (bool_decide_true _ En)|rewrite (bool_decide_false _ En)]; rewrite byte_Z_of_Z.
      * change (128 mod 256) with 128. change (bool_decide (128 <= 128)) with true. cbv iota. lia.
      * change (0 mod 256) with 0. change (bool_decide (128 <= 0)) with false. cbv iota. lia.
    + exists (8 * len v + 7). assert (2 ^ (8 * len v + 8 + 7) = 32768 * 2 ^ (8 * len v)) as E15 by (rewrite <- Z.add_assoc, Z.pow_add_r by lia; lia).
      rewrite El, E15, E7, len_app. change (len [top]) with 1. nia.
  - rewrite (bool_decide_true (0 = 0)) by done. cbn [negb].
    assert (∃ lo, 2 ^ lo <= Z.abs n < 2 ^ (8 * len v + 7) ∧ 8 * len v - 1 <= lo) as Hb by (exists (8 * len v); nia).
    unfold neg. case_bool_decide as En.
    + exists v, (Z_byte (Z.lor (byte_Z top) 128)). rewrite removelast_last. split; [done|]. rewrite set_sign by lia.
      split; [apply checkMinimal_snoc; left; rewrite set_sign by lia; replace (byte_Z top + 128) with (byte_Z top + 1 * 128) by lia; rewrite Z.mod_add, Z.mod_small by lia; lia|].
      split; [done|]. split; [|done]. rewrite bool_decide_true by lia. rewrite pow_256 by done. lia.
    + exists v, top. split; [done|]. split; [apply checkMinimal_snoc; left; rewrite Z.mod_small by lia; lia|]. split; [done|]. split; [|done].
      rewrite bool_decide_false by lia. rewrite pow_256 by done. lia.
Qed.

(** ** The grammar of scripts *)

Lemma opcode_length_cases op :
  (byte_Z op = 0 ∨ 79 <= byte_Z op) ∧ opcode_length op = 1 ∨
  (1 <= byte_Z op <= 75) ∧ opcode_length op = byte_Z op + 1 ∨
  ∃ k, (byte_Z op = 76 ∧ k = 1%nat ∨ byte_Z op = 77 ∧ k = 2%nat ∨ byte_Z op = 78 ∧ k = 4%nat) ∧ opcode_length op = - Z.of_nat k.
Proof.
  pose proof (byte_Z_range op). unfold opcode_length, OP_DATA_1, OP_PUSHDATA1, OP_PUSHDATA2, OP_PUSHDATA4.
  case_bool_decide; [right; left; lia|]. case_bool_decide; [right; right; exists 1%nat; auto|].
  case_bool_decide; [right; right; exists 2%nat; auto|]. case_bool_decide; [right; right; exists 4%nat; auto|]. left. lia.
Qed.

Lemma encoded_parses pop b rest :
  encoded pop b → ∃ instr b', b = instr :: b' ∧ parse_opcode instr (b' ++ rest) = Ret (pop, rest).
Proof.
  intros [op Hz|op data Hd Hl|op k data Hk Hl].
  - exists op, []. split; [done|]. cbn [app]. rewrite <- (Z_byte_of_byte op) at 1 2. apply parse_plain.
    pose proof (byte_Z_range op). unfold OP_1NEGATE. destruct Hz; [right|left]; lia.
  - exists op, data. split; [done|]. rewrite <- (Z_byte_of_byte op), <- Hl. apply parse_data. unfold OP_PUSHDATA1. lia.
  - exists op, (le_bytes k (len data) ++ data). split; [done|]. rewrite <- app_assoc. apply parse_pushdata; [|by destruct Hk as [[_ ->]|[[_ ->]|[_ ->]]]; lia|done].
    unfold opcode_length, OP_DATA_1, OP_PUSHDATA1, OP_PUSHDATA2, OP_PUSHDATA4.
    destruct Hk as [[-> ->]|[[-> ->]|[-> ->]]]; done.
Qed.

Lemma parses_encoded instr rest pop rest' :
  parse_opcode instr rest = Ret (pop, rest') → ∃ b', encoded pop (instr :: b') ∧ rest = b' ++ rest'.
Proof.
  intros E. pose proof (byte_Z_range instr) as Hb. unfold parse_opcode in E.
  destruct (opcode_length_cases instr) as [[Hop Ho]|[[Hop Ho]|(k & Hop & Ho)]]; rewrite Ho in E.
  - rewrite bool_decide_true in E by done. injection E as <- <-. exists []. split; [|done]. by apply enc_plain.
  - rewrite bool_decide_false, bool_decide_true in E by lia. case_bool_decide as H2; [done|]. injection E as <- <-. rewrite len_cons in H2.
    replace (byte_Z instr + 1 - 1) with (byte_Z instr) by lia. eexists. split; [|symmetry; apply take_drop].
    apply enc_data; [lia|]. rewrite len_take; lia.
  - assert (Hk0 : (0 < k)%nat) by (destruct Hop as [[_ ->]|[[_ ->]|[_ ->]]]; lia).
    rewrite !bool_decide_false in E by lia. replace (Z.to_nat (- - Z.of_nat k)) with k in E by lia.
    case_bool_decide as H2; [done|]. case_bool_decide as H3; [done|]. injection E as <- <-.
    assert (Hn : length (take k rest) = k) by (rewrite length_take; unfold len in H2; lia).
    pose proof (le_val_range (take k rest)) as Hr. unfold len at 1 in Hr. rewrite Hn in Hr. set (l := le_val (take k rest)) in *.
    assert (Hlb : le_bytes k l = take k rest) by (unfold l; rewrite <- Hn at 1; apply le_bytes_le_val).
    exists (take k rest ++ take (Z.to_nat l) (drop k rest)). split; [|by rewrite <- app_assoc, !take_drop].
    assert (len (take (Z.to_nat l) (drop k rest)) = l) as El by (apply len_take; lia).
    rewrite <- Hlb. replace (le_bytes k l) with (le_bytes k (len (take (Z.to_nat l) (drop k rest)))) by (by rewrite El).
    apply enc_pushdata; [exact Hop|rewrite El; lia].
Qed.

Lemma parse_opcode_error instr rest : match parse_opcode instr rest with Ret _ => True | Err e => e = ErrMalformedPush | Panic _ => False end.
Proof. unfold parse_opcode. repeat case_bool_decide; done. Qed.

Lemma parse_script_of pops script : script_of pops script → parseScript script = (pops, None).
Proof.
  induction 1 as [|pop b pops s He Hs IH]; [done|]. destruct (encoded_parses pop b s He) as (instr & b' & -> & E).
  cbn [app]. by rewrite (parse_cons _ _ _ _ E), IH.
Qed.

Lemma encoded_bytes pop b : encoded pop b → opcode_bytes pop = Ret b.
Proof.
  intros He. destruct (encoded_parses pop b [] He) as (instr & b' & -> & E).
  apply parse_opcode_bytes in E as (_ & e & Ho & Hb). rewrite !app_nil_r in Hb. by subst.
Qed.

Lemma unparse_script_of pops script : script_of pops script → unparseScript pops = Ret script.
Proof.
  induction 1 as [|pop b pops s He Hs IH]; [done|]. cbn [unparseScript]. by rewrite (encoded_bytes _ _ He), IH.
Qed.

(** Where parsing stops. *)
Lemma parse_stops script pops err :
  parseScript script = (pops, err) →
  ∃ e rest, script_of pops e ∧ script = e ++ rest ∧
    match err with
    | None => rest = []
    | Some x => x = ErrMalformedPush ∧ rest ≠ [] ∧ ∀ pop b r, encoded pop b → rest ≠ b ++ r
    end.
Proof.
  remember (length script) as n eqn:Hn. revert script pops Hn. induction (lt_wf n) as [n _ IH]. intros script pops ->.
  destruct script as [|instr rest]; [intros [= <- <-]; exists [], []; split; [constructor|done]|].
  destruct (parse_opcode instr rest) as [[pop rest']|x|x] eqn:E.
  - rewrite (parse_cons _ _ _ _ E). intros [= <- <-]. apply parses_encoded in E as (b' & He & ->).
    destruct (IH (length rest')) with (script := rest') (pops := (parseScript rest').1) as (e & r & Hs & -> & Hr);
      [cbn; rewrite length_app; lia|done|apply surjective_pairing|].
    exists ((instr :: b') ++ e), r. split; [by constructor|]. split; [cbn [app]; by rewrite <- app_assoc|done].
  - unfold parseScript. cbn [length parse_loop]. rewrite E. intros [= <- <-]. pose proof (parse_opcode_error instr rest) as Hx. rewrite E in Hx.
    exists [], (instr :: rest). split; [constructor|]. split; [done|]. split; [done|]. split; [done|].
    intros pop b r He Heq. destruct (encoded_parses pop b r He) as (i & b' & -> & Ep). injection Heq as -> ->. congruence.
  - pose proof (parse_opcode_error instr rest) as Hx. by rewrite E in Hx.
Qed.

(** An opcode takes at least one byte. *)
Lemma script_of_length pops script : script_of pops script → (length pops ≤ length script)%nat.
Proof.
  induction 1 as [|pop b pops s He Hs IH]; [done|]. destruct (encoded_parses pop b [] He) as (instr & b' & -> & _).
  rewrite length_app. cbn [length]. lia.
Qed.

Lemma parseScript_length script : (length (parseScript script).1 ≤ length script)%nat.
Proof.
  destruct (parseScript script) as [pops err] eqn:E. apply parse_stops in E as (e & rest & Hs & -> & _).
  apply script_of_length in Hs. rewrite length_app. cbn [fst]. lia.
Qed.

(** ** Claims *)

(** C37. Parsing and writing scripts. [parseScript] accepts exactly the scripts that are a
    sequence of encoded opcodes ([encoded]: an opcode byte; a length byte from 1 to 75 and that
    many bytes; or OP_PUSHDATA1, 2 or 4, a length of 1, 2 or 4 bytes and that many bytes), and
    returns these opcodes, which [unparseScript] writes back as the same bytes.  Any other
    script gives the error for a malformed push together with the opcodes of the longest part
    that could be read: what follows them does not start with an encoded opcode. *)
Theorem script_roundtrip :
  (∀ pops script, script_of pops script → parseScript script = (pops, None) ∧ unparseScript pops = Ret script) ∧
  (∀ script pops err, parseScript script = (pops, err) →
    ∃ e rest, script_of pops e ∧ unparseScript pops = Ret e ∧ script = e ++ rest ∧
      match err with
      | None => rest = []
      | Some x => x = ErrMalformedPush ∧ rest ≠ [] ∧ ∀ pop b r, encoded pop b → rest ≠ b ++ r
      end).
Proof.
  split; [intros pops script Hs; split; [by apply parse_script_of|by apply unparse_script_of]|].
  intros script pops err Hp. destruct (parse_stops script pops err Hp) as (e & rest & Hs & -> & Hr).
  exists e, rest. split_and!; try done. by apply unparse_script_of.
Qed.

Lemma script_roundtrip_witness :
  parseScript [x02; x61; x62; x87] = ([MkParsedOpcode x02 [x61; x62]; MkParsedOpcode x87 []], None).
Proof.
  apply (proj1 script_roundtrip). apply (script_cons _ [x02; x61; x62] _ [x87]).
  - apply enc_data; vm_compute; [split; congruence|reflexivity].
  - apply (script_cons _ [x87] _ []); [|constructor]. apply enc_plain. right. vm_compute. congruence.
Defined.

(** Built scripts. Adding data to an empty builder, piece by piece, gives a
    script of at most 10000 bytes that parses into the canonical pushes of the
    pieces up to the first that does not fit; each of them is at most 520 bytes
    long.  The builder has an error exactly when a piece did not fit.  Pushes
    of data are minimal in the sense of [checkMinimalDataPush]. *)
Theorem builder_pushes (ds : list bytes) :
  let b := foldl AddData NewScriptBuilder ds in
  ∃ n, (n ≤ length ds)%nat ∧ parseScript (sb_script b) = (map push_of (take n ds), None) ∧ len (sb_script b) <= MaxScriptSize ∧
    (sb_err b = None ↔ n = length ds) ∧
    Forall (λ d, len d <= MaxScriptElementSize ∧ canonicalPush (push_of d) = true ∧
                 (byte_Z (po_opcode (push_of d)) <= OP_PUSHDATA4 → checkMinimalDataPush (push_of d) = None)) (take n ds).
Proof.
  intros b. destruct (AddData_all ds NewScriptBuilder []) as (n & Hn & [Hp Hl] & Hf & He); [done|by split; [|done]|].
  exists n. repeat split; [done..|apply He|apply He|]. eapply Forall_impl; [exact Hf|]. intros d Hd. unfold MaxScriptElementSize in Hd.
  split; [done|]. split; [apply push_of_canonical; lia|apply push_of_minimal; lia].
Qed.

(** Script numbers. The encoding of every int64 but the smallest is minimal,
    has at most k bytes exactly when the number is less than 2^(8k-1) in
    absolute value, and is read back by [makeScriptNum] as the same number,
    whether minimal encodings are required or not.  The encoding of the smallest
    int64, whose negation is itself, panics. *)
Theorem scriptNum_roundtrip n (Hn : - 2 ^ 63 < n < 2 ^ 63) :
  (∃ b, scriptNum_Bytes n = Ret b ∧ len b <= 8 ∧ checkMinimalDataEncoding b = None ∧
     (∀ k, 1 <= k → (len b <= k ↔ Z.abs n < 2 ^ (8 * k - 1))) ∧
     ∀ minimal k, len b <= k → makeScriptNum b minimal k = Ret n) ∧
  scriptNum_Bytes (- 2 ^ 63) = Panic out_of_range.
Proof.
  split; [|done]. destruct (decide (n = 0)) as [->|H0].
  { exists []. split; [done|]. split; [done|]. split; [done|]. split.
    { intros k Hk. change (len []) with 0. rewrite Z.abs_0. split; [intros _; apply Z.pow_pos_nonneg|]; lia. }
    intros minimal k Hk. unfold makeScriptNum. change (len []) with 0 in *. rewrite bool_decide_false by lia. by destruct minimal. }
  destruct (scriptNum_Bytes_spec n Hn H0) as (v & t & E & Hm & Hl & Hv & lo & [Hlo Hhi] & Hb). exists (v ++ [t]).
  pose proof (len_nonneg v). assert (len (v ++ [t]) = len v + 1) as El by (by rewrite len_app). rewrite El. split; [done|]. split; [lia|]. split; [done|]. split; [intros k Hk1; split|].
  - intros Hk. assert (2 ^ (8 * len v + 7) <= 2 ^ (8 * k - 1)) by (apply Z.pow_le_mono_r; lia). lia.
  - intros Ha. destruct (decide (len v + 1 <= k)); [done|]. assert (2 ^ (8 * k - 1) <= 2 ^ lo) by (apply Z.pow_le_mono_r; lia). lia.
  - intros minimal k Hk. rewrite makeScriptNum_snoc by (done || lia). by rewrite Hv.
Qed.

Lemma scriptNum_roundtrip_witness : scriptNum_Bytes (-32768) = Ret [x00; x80; x80] ∧ makeScriptNum [x00; x80; x80] true 4 = Ret (-32768).
Proof.
  split; [reflexivity|]. destruct (scriptNum_roundtrip (-32768)) as [(b & Eb & _ & _ & _ & Hb) _]; [lia|].
  assert (b = [x00; x80; x80]) as -> by (vm_compute in Eb; congruence). apply Hb. done.
Defined.
