(* ===== verification/Field.v ===== *)
(** * Arithmetic modulo the prime of secp256k1 (crypto/btcec/field.go)

    A value is ten 32-bit words in base 2^26.  Sums are made without carrying,
    so that the words may grow; products are made column by column in 64 bits.
    Arithmetic of the source wraps around at every operation; wrapping around
    once per expression gives the same word.  The unrolled chains that take 26
    bits from a column and carry the rest into the next one are [carry]; the
    columns are written out as in the source.  Methods that modify their
    receiver return its new value. *)

From Stdlib Require Import ZArith Lia.
From S2P Require Import Prelude Buffers Utils.

Local Open Scope Z_scope.

Definition fieldBase : Z := 26.
Definition fieldBaseMask : Z := Z.shiftl 1 fieldBase - 1.
Definition fieldMSBBits : Z := 256 - fieldBase * 9.
Definition fieldMSBMask : Z := Z.shiftl 1 fieldMSBBits - 1.
Definition fieldPrimeWordZero : Z := 0x3fffc2f.
Definition fieldPrimeWordOne : Z := 0x3ffffbf.
Definition twoBitsMask : Z := 0x3.
Definition fourBitsMask : Z := 0xf.
Definition sixBitsMask : Z := 0x3f.
Definition eightBitsMask : Z := 0xff.

Record fieldVal := FV { n0 : Z; n1 : Z; n2 : Z; n3 : Z; n4 : Z; n5 : Z; n6 : Z; n7 : Z; n8 : Z; n9 : Z }.

Definition Zero : fieldVal := FV 0 0 0 0 0 0 0 0 0 0.
Definition SetInt (ui : Z) : fieldVal := FV (u32 ui) 0 0 0 0 0 0 0 0 0.

(** ** Bytes *)

(** [uint32(b[i])]. *)
Definition at32 (b : bytes) (i : nat) : Z := byte_Z (nth i b x00).

Definition or_all (l : list Z) : Z := foldr Z.lor 0 l.

(** [SetBytes] of an array of 32 bytes. *)
Definition SetBytes (b : bytes) : fieldVal :=
  let w i := at32 b i in
  let shl x n := u32 (Z.shiftl x n) in
  FV (or_all [w 31%nat; shl (w 30%nat) 8; shl (w 29%nat) 16; shl (Z.land (w 28%nat) twoBitsMask) 24])
     (or_all [Z.shiftr (w 28%nat) 2; shl (w 27%nat) 6; shl (w 26%nat) 14; shl (Z.land (w 25%nat) fourBitsMask) 22])
     (or_all [Z.shiftr (w 25%nat) 4; shl (w 24%nat) 4; shl (w 23%nat) 12; shl (Z.land (w 22%nat) sixBitsMask) 20])
     (or_all [Z.shiftr (w 22%nat) 6; shl (w 21%nat) 2; shl (w 20%nat) 10; shl (w 19%nat) 18])
     (or_all [w 18%nat; shl (w 17%nat) 8; shl (w 16%nat) 16; shl (Z.land (w 15%nat) twoBitsMask) 24])
     (or_all [Z.shiftr (w 15%nat) 2; shl (w 14%nat) 6; shl (w 13%nat) 14; shl (Z.land (w 12%nat) fourBitsMask) 22])
     (or_all [Z.shiftr (w 12%nat) 4; shl (w 11%nat) 4; shl (w 10%nat) 12; shl (Z.land (w 9%nat) sixBitsMask) 20])
     (or_all [Z.shiftr (w 9%nat) 6; shl (w 8%nat) 2; shl (w 7%nat) 10; shl (w 6%nat) 18])
     (or_all [w 5%nat; shl (w 4%nat) 8; shl (w 3%nat) 16; shl (Z.land (w 2%nat) twoBitsMask) 24])
     (or_all [Z.shiftr (w 2%nat) 2; shl (w 1%nat) 6; shl (w 0%nat) 14]).

(** More than 32 bytes would be written before the start of the array. *)
Definition SetByteSlice (b : bytes) : outcome fieldVal :=
  if bool_decide (32 < length b)%nat then Panic out_of_range
  else mret (SetBytes (zeros (32 - length b) ++ b)).

Definition PutBytes (f : fieldVal) : bytes :=
  let part x n := Z.land (Z.shiftr x n) eightBitsMask in
  map Z_byte (map u8
    [part (n9 f) 14; part (n9 f) 6; Z.lor (Z.land (Z.shiftr (n8 f) 24) twoBitsMask) (u32 (Z.shiftl (Z.land (n9 f) sixBitsMask) 2));
     part (n8 f) 16; part (n8 f) 8; Z.land (n8 f) eightBitsMask;
     part (n7 f) 18; part (n7 f) 10; part (n7 f) 2; Z.lor (Z.land (Z.shiftr (n6 f) 20) sixBitsMask) (u32 (Z.shiftl (Z.land (n7 f) twoBitsMask) 6));
     part (n6 f) 12; part (n6 f) 4; Z.lor (Z.land (Z.shiftr (n5 f) 22) fourBitsMask) (u32 (Z.shiftl (Z.land (n6 f) fourBitsMask) 4));
     part (n5 f) 14; part (n5 f) 6; Z.lor (Z.land (Z.shiftr (n4 f) 24) twoBitsMask) (u32 (Z.shiftl (Z.land (n5 f) sixBitsMask) 2));
     part (n4 f) 16; part (n4 f) 8; Z.land (n4 f) eightBitsMask;
     part (n3 f) 18; part (n3 f) 10; part (n3 f) 2; Z.lor (Z.land (Z.shiftr (n2 f) 20) sixBitsMask) (u32 (Z.shiftl (Z.land (n3 f) twoBitsMask) 6));
     part (n2 f) 12; part (n2 f) 4; Z.lor (Z.land (Z.shiftr (n1 f) 22) fourBitsMask) (u32 (Z.shiftl (Z.land (n2 f) fourBitsMask) 4));
     part (n1 f) 14; part (n1 f) 6; Z.lor (Z.land (Z.shiftr (n0 f) 24) twoBitsMask) (u32 (Z.shiftl (Z.land (n1 f) sixBitsMask) 2));
     part (n0 f) 16; part (n0 f) 8; Z.land (n0 f) eightBitsMask]).

Definition Bytes (f : fieldVal) : bytes := PutBytes f.

(** ** Tests *)

Definition IsZero (f : fieldVal) : bool :=
  bool_decide (or_all [n0 f; n1 f; n2 f; n3 f; n4 f; n5 f; n6 f; n7 f; n8 f; n9 f] = 0).

Definition IsOdd (f : fieldVal) : bool := bool_decide (Z.land (n0 f) 1 = 1).

Definition Equals (f val : fieldVal) : bool :=
  bool_decide (or_all [Z.lxor (n0 f) (n0 val); Z.lxor (n1 f) (n1 val); Z.lxor (n2 f) (n2 val); Z.lxor (n3 f) (n3 val); Z.lxor (n4 f) (n4 val);
    Z.lxor (n5 f) (n5 val); Z.lxor (n6 f) (n6 val); Z.lxor (n7 f) (n7 val); Z.lxor (n8 f) (n8 val); Z.lxor (n9 f) (n9 val)] = 0).

(** ** Sums *)

Definition NegateVal (val : fieldVal) (magnitude : Z) : fieldVal :=
  let m := u32 (magnitude + 1) in
  FV (u32 (m * fieldPrimeWordZero - n0 val)) (u32 (m * fieldPrimeWordOne - n1 val)) (u32 (m * fieldBaseMask - n2 val))
     (u32 (m * fieldBaseMask - n3 val)) (u32 (m * fieldBaseMask - n4 val)) (u32 (m * fieldBaseMask - n5 val)) (u32 (m * fieldBaseMask - n6 val))
     (u32 (m * fieldBaseMask - n7 val)) (u32 (m * fieldBaseMask - n8 val)) (u32 (m * fieldMSBMask - n9 val)).

Definition Negate (f : fieldVal) (magnitude : Z) : fieldVal := NegateVal f magnitude.

Definition AddInt (f : fieldVal) (ui : Z) : fieldVal :=
  FV (u32 (n0 f + u32 ui)) (n1 f) (n2 f) (n3 f) (n4 f) (n5 f) (n6 f) (n7 f) (n8 f) (n9 f).

Definition Add2 (val val2 : fieldVal) : fieldVal :=
  FV (u32 (n0 val + n0 val2)) (u32 (n1 val + n1 val2)) (u32 (n2 val + n2 val2)) (u32 (n3 val + n3 val2)) (u32 (n4 val + n4 val2))
     (u32 (n5 val + n5 val2)) (u32 (n6 val + n6 val2)) (u32 (n7 val + n7 val2)) (u32 (n8 val + n8 val2)) (u32 (n9 val + n9 val2)).

Definition Field_Add (f val : fieldVal) : fieldVal := Add2 f val.

Definition MulInt (f : fieldVal) (val : Z) : fieldVal :=
  let ui := u32 val in
  FV (u32 (n0 f * ui)) (u32 (n1 f * ui)) (u32 (n2 f * ui)) (u32 (n3 f * ui)) (u32 (n4 f * ui))
     (u32 (n5 f * ui)) (u32 (n6 f * ui)) (u32 (n7 f * ui)) (u32 (n8 f * ui)) (u32 (n9 f * ui)).

(** ** Carrying *)

(** Each column with what the one before it left: its low 26 bits, and what is left in the end. *)
Fixpoint carry (wrap : Z → Z) (m : Z) (columns : list Z) : list Z * Z :=
  match columns with
  | [] => ([], m)
  | c :: columns =>
      let m := wrap (m + c) in
      let '(ts, m') := carry wrap (Z.shiftr m fieldBase) columns in
      (Z.land m fieldBaseMask :: ts, m')
  end.

Definition Normalize (f : fieldVal) : fieldVal :=
  let m := Z.shiftr (n9 f) fieldMSBBits in
  match carry u32 0 [n0 f + m * 977; n1 f + Z.shiftl m 6; n2 f; n3 f; n4 f; n5 f; n6 f; n7 f; n8 f] with
  | ([t0; t1; t2; t3; t4; t5; t6; t7; t8], c) =>
      let t9 := u32 (c + Z.land (n9 f) fieldMSBMask) in
      let m := 1 in
      let m := Z.land m (if bool_decide (t9 = fieldMSBMask) then 1 else 0) in
      let m := Z.land m (if bool_decide (foldl Z.land t2 [t3; t4; t5; t6; t7; t8] = fieldBaseMask) then 1 else 0) in
      let m := Z.land m (if bool_decide (u32 (Z.shiftr (u32 (t0 + 977)) fieldBase + t1 + 64) > fieldBaseMask) then 1 else 0) in
      let m := Z.lor m (if bool_decide (Z.shiftr t9 fieldMSBBits = 0) then 0 else 1) in
      match carry u32 0 [t0 + m * 977; t1 + Z.shiftl m 6; t2; t3; t4; t5; t6; t7; t8] with
      | ([t0; t1; t2; t3; t4; t5; t6; t7; t8], c) => FV t0 t1 t2 t3 t4 t5 t6 t7 t8 (Z.land (u32 (c + t9)) fieldMSBMask)
      | _ => f
      end
  | _ => f
  end.

(** ** Products *)

Definition mul_columns (a b : fieldVal) : list Z :=
  [n0 a * n0 b;
   n0 a * n1 b + n1 a * n0 b;
   n0 a * n2 b + n1 a * n1 b + n2 a * n0 b;
   n0 a * n3 b + n1 a * n2 b + n2 a * n1 b + n3 a * n0 b;
   n0 a * n4 b + n1 a * n3 b + n2 a * n2 b + n3 a * n1 b + n4 a * n0 b;
   n0 a * n5 b + n1 a * n4 b + n2 a * n3 b + n3 a * n2 b + n4 a * n1 b + n5 a * n0 b;
   n0 a * n6 b + n1 a * n5 b + n2 a * n4 b + n3 a * n3 b + n4 a * n2 b + n5 a * n1 b + n6 a * n0 b;
   n0 a * n7 b + n1 a * n6 b + n2 a * n5 b + n3 a * n4 b + n4 a * n3 b + n5 a * n2 b + n6 a * n1 b + n7 a * n0 b;
   n0 a * n8 b + n1 a * n7 b + n2 a * n6 b + n3 a * n5 b + n4 a * n4 b + n5 a * n3 b + n6 a * n2 b + n7 a * n1 b + n8 a * n0 b;
   n0 a * n9 b + n1 a * n8 b + n2 a * n7 b + n3 a * n6 b + n4 a * n5 b + n5 a * n4 b + n6 a * n3 b + n7 a * n2 b + n8 a * n1 b + n9 a * n0 b;
   n1 a * n9 b + n2 a * n8 b + n3 a * n7 b + n4 a * n6 b + n5 a * n5 b + n6 a * n4 b + n7 a * n3 b + n8 a * n2 b + n9 a * n1 b;
   n2 a * n9 b + n3 a * n8 b + n4 a * n7 b + n5 a * n6 b + n6 a * n5 b + n7 a * n4 b + n8 a * n3 b + n9 a * n2 b;
   n3 a * n9 b + n4 a * n8 b + n5 a * n7 b + n6 a * n6 b + n7 a * n5 b + n8 a * n4 b + n9 a * n3 b;
   n4 a * n9 b + n5 a * n8 b + n6 a * n7 b + n7 a * n6 b + n8 a * n5 b + n9 a * n4 b;
   n5 a * n9 b + n6 a * n8 b + n7 a * n7 b + n8 a * n6 b + n9 a * n5 b;
   n6 a * n9 b + n7 a * n8 b + n8 a * n7 b + n9 a * n6 b;
   n7 a * n9 b + n8 a * n8 b + n9 a * n7 b;
   n8 a * n9 b + n9 a * n8 b;
   n9 a * n9 b].

Definition square_columns (a : fieldVal) : list Z :=
  [n0 a * n0 a;
   2 * n0 a * n1 a;
   2 * n0 a * n2 a + n1 a * n1 a;
   2 * n0 a * n3 a + 2 * n1 a * n2 a;
   2 * n0 a * n4 a + 2 * n1 a * n3 a + n2 a * n2 a;
   2 * n0 a * n5 a + 2 * n1 a * n4 a + 2 * n2 a * n3 a;
   2 * n0 a * n6 a + 2 * n1 a * n5 a + 2 * n2 a * n4 a + n3 a * n3 a;
   2 * n0 a * n7 a + 2 * n1 a * n6 a + 2 * n2 a * n5 a + 2 * n3 a * n4 a;
   2 * n0 a * n8 a + 2 * n1 a * n7 a + 2 * n2 a * n6 a + 2 * n3 a * n5 a + n4 a * n4 a;
   2 * n0 a * n9 a + 2 * n1 a * n8 a + 2 * n2 a * n7 a + 2 * n3 a * n6 a + 2 * n4 a * n5 a;
   2 * n1 a * n9 a + 2 * n2 a * n8 a + 2 * n3 a * n7 a + 2 * n4 a * n6 a + n5 a * n5 a;
   2 * n2 a * n9 a + 2 * n3 a * n8 a + 2 * n4 a * n7 a + 2 * n5 a * n6 a;
   2 * n3 a * n9 a + 2 * n4 a * n8 a + 2 * n5 a * n7 a + n6 a * n6 a;
   2 * n4 a * n9 a + 2 * n5 a * n8 a + 2 * n6 a * n7 a;
   2 * n5 a * n9 a + 2 * n6 a * n8 a + n7 a * n7 a;
   2 * n6 a * n9 a + 2 * n7 a * n8 a;
   2 * n7 a * n9 a + n8 a * n8 a;
   2 * n8 a * n9 a;
   n9 a * n9 a].

(** The second half of [Mul2] and [SquareVal]: twenty terms, reduced. *)
Definition reduce_terms (terms : list Z) (t19 : Z) : fieldVal :=
  match terms with
  | [t0; t1; t2; t3; t4; t5; t6; t7; t8; t9; t10; t11; t12; t13; t14; t15; t16; t17; t18] =>
      match carry u64 0
              [t0 + t10 * 15632; t1 + t10 * 1024 + t11 * 15632; t2 + t11 * 1024 + t12 * 15632; t3 + t12 * 1024 + t13 * 15632;
               t4 + t13 * 1024 + t14 * 15632; t5 + t14 * 1024 + t15 * 15632; t6 + t15 * 1024 + t16 * 15632;
               t7 + t16 * 1024 + t17 * 15632; t8 + t17 * 1024 + t18 * 15632] with
      | ([t0; t1; t2; t3; t4; t5; t6; t7; t8], c) =>
          let m := u64 (c + t9 + t18 * 1024 + t19 * 68719492368) in
          let t9 := Z.land m fieldMSBMask in
          let m := Z.shiftr m fieldMSBBits in
          let d := u64 (t0 + m * 977) in
          let d' := u64 (Z.shiftr d fieldBase + t1 + m * 64) in
          FV (u32 (Z.land d fieldBaseMask)) (u32 (Z.land d' fieldBaseMask)) (u32 (Z.shiftr d' fieldBase + t2))
             (u32 t3) (u32 t4) (u32 t5) (u32 t6) (u32 t7) (u32 t8) (u32 t9)
      | _ => Zero
      end
  | _ => Zero
  end.

Definition Mul2 (val val2 : fieldVal) : fieldVal :=
  let '(terms, t19) := carry u64 0 (mul_columns val val2) in reduce_terms terms t19.
Definition Mul (f val : fieldVal) : fieldVal := Mul2 f val.

Definition SquareVal (val : fieldVal) : fieldVal :=
  let '(terms, t19) := carry u64 0 (square_columns val) in reduce_terms terms t19.
Definition Square (f : fieldVal) : fieldVal := SquareVal f.

(** ** Inverses *)

Definition squares (n : nat) (f : fieldVal) : fieldVal := Nat.iter n Square f.

(** Ten squarings and a product. *)
Definition shift_in (f a : fieldVal) : fieldVal := Mul (squares 5 (squares 5 f)) a.

Definition Inverse (f : fieldVal) : fieldVal :=
  let a2 := SquareVal f in
  let a3 := Mul2 a2 f in
  let a4 := SquareVal a2 in
  let a10 := Mul (SquareVal a4) a2 in
  let a11 := Mul2 a10 f in
  let a21 := Mul2 a10 a11 in
  let a42 := SquareVal a21 in
  let a45 := Mul2 a42 a3 in
  let a63 := Mul2 a42 a21 in
  let a1019 := Mul (squares 3 (SquareVal a63)) a11 in
  let a1023 := Mul2 a1019 a4 in
  let f := Nat.iter 21 (λ f, shift_in f a1023) a63 in
  let f := shift_in f a1019 in
  let f := shift_in f a1023 in
  let f := shift_in f a1023 in
  Mul (squares 5 (squares 5 f)) a45.
