(* ===== verification/FieldTheorems.v ===== *)
(** * The field of secp256k1: the words compute modulo the prime *)

From Stdlib Require Import ZArith Lia Zpow_facts.
From S2P Require Import Prelude Buffers Utils BtcTheorems ScriptTheorems Field.

Local Open Scope Z_scope.

(** ** Values *)

Definition fieldPrime : Z := 2 ^ 256 - 2 ^ 32 - 977.

(** The number that digits in base 2^26 stand for. *)
Definition eval (ts : list Z) : Z := foldr (λ t s, t + 2 ^ 26 * s) 0 ts.

Definition words (f : fieldVal) : list Z := [n0 f; n1 f; n2 f; n3 f; n4 f; n5 f; n6 f; n7 f; n8 f; n9 f].

Definition val (f : fieldVal) : Z := eval (words f).

(** How far the words of a value may have grown: the magnitude of the comments. *)
Definition word_max : Z := 2 ^ 26 + 2 ^ 20.
Definition magnitude (m : Z) (f : fieldVal) : Prop :=
  Forall (λ w, 0 <= w <= m * word_max) [n0 f; n1 f; n2 f; n3 f; n4 f; n5 f; n6 f; n7 f; n8 f] ∧ 0 <= n9 f <= m * 2 ^ 22.

(** Every word in its range and the value below the prime. *)
Definition normalized (f : fieldVal) : Prop :=
  Forall (λ w, 0 <= w < 2 ^ 26) [n0 f; n1 f; n2 f; n3 f; n4 f; n5 f; n6 f; n7 f; n8 f] ∧ 0 <= n9 f < 2 ^ 22 ∧ val f < fieldPrime.

(** ** Masks and shifts *)

Lemma mask26 m : Z.land m fieldBaseMask = m mod 2 ^ 26.
Proof. change fieldBaseMask with (Z.ones 26). by rewrite Z.land_ones. Qed.
Lemma mask22 m : Z.land m fieldMSBMask = m mod 2 ^ 22.
Proof. change fieldMSBMask with (Z.ones 22). by rewrite Z.land_ones. Qed.
Lemma shift26 m : Z.shiftr m fieldBase = m / 2 ^ 26.
Proof. unfold fieldBase. by rewrite Z.shiftr_div_pow2. Qed.
Lemma shift22 m : Z.shiftr m fieldMSBBits = m / 2 ^ 22.
Proof. change fieldMSBBits with 22. by rewrite Z.shiftr_div_pow2. Qed.

(** ** Carrying keeps the value *)

Lemma carry_spec wrap k M columns : ∀ m ts r,
  26 <= k → (∀ x, 0 <= x < 2 ^ k → wrap x = x) → Forall (λ c, 0 <= c <= M) columns → M + 2 ^ (k - 26) <= 2 ^ k →
  0 <= m < 2 ^ (k - 26) → carry wrap m columns = (ts, r) →
  length ts = length columns ∧ Forall (λ t, 0 <= t < 2 ^ 26) ts ∧ 0 <= r < 2 ^ (k - 26) ∧
  m + eval columns = eval ts + 2 ^ (26 * len columns) * r.
Proof.
  intros m ts r Hk Hwrap Hcols HM. revert m ts r. induction Hcols as [|c columns [Hc0 Hc] _ IH]; intros m ts r Hm; cbn [carry].
  { intros [= <- <-]. split; [done|]. split; [constructor|]. split; [done|]. change (2 ^ (26 * len [])) with 1. cbn. lia. }
  rewrite Hwrap by lia. rewrite mask26, shift26. destruct (carry _ _ columns) as [ts' r'] eqn:E. intros [= <- <-].
  assert (2 ^ k = 2 ^ (k - 26) * 2 ^ 26) as Hpow by (rewrite <- Z.pow_add_r by lia; f_equal; lia).
  assert (0 <= (m + c) / 2 ^ 26 < 2 ^ (k - 26)) as Hq.
  { split; [apply Z.div_pos; lia|]. apply Z.div_lt_upper_bound; lia. }
  destruct (IH _ _ _ Hq E) as (Hl & Hts & Hr & Hv). split; [cbn; lia|]. split; [constructor; [apply Z.mod_pos_bound; lia|done]|]. split; [done|].
  rewrite len_cons. replace (26 * (1 + len columns)) with (26 + 26 * len columns) by lia.
  rewrite Z.pow_add_r by (pose proof (len_nonneg columns); lia). cbn [eval foldr] in *. fold (eval columns) (eval ts') in *.
  pose proof (Z.div_mod (m + c) (2 ^ 26) ltac:(lia)). nia.
Qed.

(** ** Products *)

Definition below (b x : Z) : Prop := 0 <= x <= b.

Lemma below_add a b x y : below a x → below b y → below (a + b) (x + y).
Proof. unfold below. lia. Qed.
Lemma below_mul a b x y : below a x → below b y → below (a * b) (x * y).
Proof. unfold below. intros [Hx0 Hx] [Hy0 Hy]. split; [lia|]. by apply Z.mul_le_mono_nonneg. Qed.
Lemma below_weaken a b x : below a x → a <= b → below b x.
Proof. unfold below. lia. Qed.

(** The words of a value of magnitude 8, the last one also by its own bound. *)
Lemma magnitude_words m f :
  magnitude m f → 0 <= m →
  (below (m * word_max) (n0 f) ∧ below (m * word_max) (n1 f) ∧ below (m * word_max) (n2 f) ∧ below (m * word_max) (n3 f) ∧
   below (m * word_max) (n4 f)) ∧
  (below (m * word_max) (n5 f) ∧ below (m * word_max) (n6 f) ∧ below (m * word_max) (n7 f) ∧ below (m * word_max) (n8 f) ∧
   below (m * word_max) (n9 f)) ∧ below (m * 2 ^ 22) (n9 f).
Proof.
  intros [Hw H9] Hm. repeat (apply Forall_cons in Hw as [? Hw]). unfold below. assert (m * 2 ^ 22 <= m * word_max) by (unfold word_max; nia). repeat split; lia.
Qed.

Lemma mul_columns_bound f g :
  magnitude 8 f → magnitude 8 g → Forall (below (10 * (8 * word_max * (8 * word_max)))) (mul_columns f g).
Proof.
  intros Hf Hg. apply magnitude_words in Hf, Hg; [|done..]. destruct Hf as ((? & ? & ? & ? & ?) & (? & ? & ? & ? & ?) & _).
  destruct Hg as ((? & ? & ? & ? & ?) & (? & ? & ? & ? & ?) & _). unfold mul_columns.
  repeat (apply Forall_cons; split; [eapply below_weaken; [repeat (apply below_add; [|by apply below_mul]); by apply below_mul|by vm_compute]|]).
  constructor.
Qed.

(** The columns stand for the product. *)
Lemma eval_mul_columns f g : eval (mul_columns f g) = val f * val g.
Proof. unfold val, eval, words, mul_columns. cbn [foldr]. ring. Qed.

Lemma square_columns_eq f : square_columns f = mul_columns f f.
Proof. unfold square_columns, mul_columns. repeat (apply (f_equal2 cons); [ring|]). reflexivity. Qed.

Lemma SquareVal_Mul2 f : SquareVal f = Mul2 f f.
Proof. unfold SquareVal, Mul2. by rewrite square_columns_eq. Qed.

(** The second half: twenty terms whose last one is small become words of magnitude 1. *)
Lemma reduce_terms_spec ts t19 :
  length ts = 19%nat → Forall (λ t, 0 <= t < 2 ^ 26) ts → 0 <= t19 <= 2 ^ 24 + 2 ^ 12 →
  magnitude 1 (reduce_terms ts t19) ∧ ∃ q, eval ts + 2 ^ 494 * t19 = val (reduce_terms ts t19) + fieldPrime * q.
Proof.
  intros Hl Hts H19. do 19 (destruct ts as [|? ts]; [discriminate Hl|]). destruct ts; [clear Hl|discriminate Hl]. unfold reduce_terms.
  repeat (apply Forall_cons in Hts as [? Hts]). clear Hts.
  destruct (carry u64 0 _) as [ts c] eqn:E.
  assert (Forall (λ x, 0 <= x <= 2 ^ 41) [z + z9 * 15632; z0 + z9 * 1024 + z10 * 15632; z1 + z10 * 1024 + z11 * 15632; z2 + z11 * 1024 + z12 * 15632;
    z3 + z12 * 1024 + z13 * 15632; z4 + z13 * 1024 + z14 * 15632; z5 + z14 * 1024 + z15 * 15632; z6 + z15 * 1024 + z16 * 15632; z7 + z16 * 1024 + z17 * 15632]) as Hb
    by (repeat (apply Forall_cons; split; [lia|]); constructor).
  destruct (carry_spec u64 64 (2 ^ 41) _ 0 _ _ ltac:(lia) u64_small Hb ltac:(lia) ltac:(lia) E) as (Hl & Hts & Hc & Hv). clear E Hb.
  do 9 (destruct ts as [|? ts]; [discriminate Hl|]). destruct ts; [clear Hl|discriminate Hl]. cbv zeta.
  repeat (apply Forall_cons in Hts as [? Hts]). clear Hts. unfold eval, len in *. cbn [foldr length] in *. change (2 ^ (26 * Z.of_nat 9)) with (2 ^ 234) in *.
  rewrite !mask26, mask22, !shift26, !shift22. set (m := u64 (c + z8 + _ + _)). assert (m = c + z8 + z17 * 1024 + t19 * 68719492368) as Em by (apply u64_small; lia).
  pose proof (Z.div_mod m (2 ^ 22) ltac:(lia)) as Hm. pose proof (Z.mod_pos_bound m (2 ^ 22) ltac:(lia)) as Hm'.
  revert Hm Hm'. generalize (m / 2 ^ 22) (m mod 2 ^ 22). intros q t9 Hm Hm'. assert (0 <= q < 2 ^ 39) by lia.
  rewrite (u64_small (_ + q * 977)) by lia. set (d := _ + q * 977). pose proof (Z.div_mod d (2 ^ 26) ltac:(lia)) as Hd. pose proof (Z.mod_pos_bound d (2 ^ 26) ltac:(lia)) as Hd'.
  assert (0 <= d < 2 ^ 50) by lia. revert Hd Hd'. generalize (d / 2 ^ 26) (d mod 2 ^ 26). intros d1 w0 Hd Hd'.
  rewrite (u64_small (d1 + _ + _)) by lia. set (e := d1 + _ + _). pose proof (Z.div_mod e (2 ^ 26) ltac:(lia)) as He. pose proof (Z.mod_pos_bound e (2 ^ 26) ltac:(lia)) as He'.
  assert (0 <= e < 2 ^ 46) by lia. revert He He'. generalize (e / 2 ^ 26) (e mod 2 ^ 26). intros e1 w1 He He'.
  assert (e1 < 2 ^ 20) by lia. rewrite !u32_small by lia. split.
  - unfold magnitude, word_max. cbn [n0 n1 n2 n3 n4 n5 n6 n7 n8 n9]. split; [repeat (apply Forall_cons; split; [lia|]); constructor|lia].
  - unfold val, words, eval, fieldPrime. cbn [foldr n0 n1 n2 n3 n4 n5 n6 n7 n8 n9].
    exists (16 * eval [z9; z10; z11; z12; z13; z14; z15; z16; z17; t19] + q). unfold eval. cbn [foldr]. rewrite Hm in Em. clear -Hv Em Hd He. subst d e. lia.
Qed.

(** ** Congruence *)

Definition eqp (a b : Z) : Prop := a mod fieldPrime = b mod fieldPrime.

#[export] Instance eqp_equivalence : Equivalence eqp.
Proof. split; unfold eqp; [done|intros a b E; by rewrite E|intros a b c E1 E2; by rewrite E1, E2]. Qed.
#[export] Instance eqp_add : Proper (eqp ==> eqp ==> eqp) Z.add.
Proof. intros a a' Ha b b' Hb. unfold eqp in *. by rewrite Z.add_mod, Ha, Hb, <- Z.add_mod. Qed.
#[export] Instance eqp_mul : Proper (eqp ==> eqp ==> eqp) Z.mul.
Proof. intros a a' Ha b b' Hb. unfold eqp in *. by rewrite Z.mul_mod, Ha, Hb, <- Z.mul_mod. Qed.
#[export] Instance eqp_opp : Proper (eqp ==> eqp) Z.opp.
Proof. intros a a' Ha. rewrite (Z.opp_eq_mul_m1 a), (Z.opp_eq_mul_m1 a'). by apply eqp_mul. Qed.

Lemma eqp_multiple a b q : a = b + fieldPrime * q → eqp a b.
Proof. intros ->. unfold eqp. by rewrite Z.mul_comm, Z_mod_plus_full. Qed.

(** [f] stands for [x], with words of magnitude [m]. *)
Definition stands (m : Z) (f : fieldVal) (x : Z) : Prop := magnitude m f ∧ eqp (val f) x.

(** Values of a magnitude. *)
Lemma val_range m f : magnitude m f → 0 <= m → 0 <= val f <= m * (2 ^ 256 + 2 ^ 236).
Proof.
  intros [Hw H9] Hm. repeat (apply Forall_cons in Hw as [? Hw]). unfold val, words, eval, word_max in *. cbn [foldr]. lia.
Qed.

Lemma Mul2_stands f g x y : stands 8 f x → stands 8 g y → stands 1 (Mul2 f g) (x * y).
Proof.
  intros [Hf Ex] [Hg Ey]. unfold Mul2. destruct (carry u64 0 (mul_columns f g)) as [ts t19] eqn:E.
  destruct (carry_spec u64 64 (10 * (8 * word_max * (8 * word_max))) _ 0 _ _ ltac:(lia) u64_small (mul_columns_bound f g Hf Hg)
    ltac:(by vm_compute) ltac:(lia) E) as (Hl & Hts & Hr & Hv).
  rewrite eval_mul_columns in Hv. change (2 ^ (26 * len (mul_columns f g))) with (2 ^ 494) in Hv.
  assert (0 <= eval ts) as Hts0.
  { clear -Hts. induction Hts as [|t ts Ht _ IH]; [done|]. unfold eval in *. cbn [foldr]. lia. }
  assert (below (8 * (2 ^ 256 + 2 ^ 236) * (8 * (2 ^ 256 + 2 ^ 236))) (val f * val g)) as [_ Hp] by (apply below_mul; by apply val_range).
  destruct (reduce_terms_spec ts t19 Hl Hts) as [Hm [q Hq]]; [lia|]. split; [done|].
  rewrite <- Ex, <- Ey. symmetry. apply (eqp_multiple _ _ q). lia.
Qed.

Lemma SquareVal_stands f x : stands 8 f x → stands 1 (SquareVal f) (x * x).
Proof. intros Hf. rewrite SquareVal_Mul2. by apply Mul2_stands. Qed.

(** ** Sums *)

Lemma stands_weaken m m' f x : stands m f x → 0 <= m <= m' → stands m' f x.
Proof.
  intros [[Hw H9] E] Hm. split; [|done]. split; [|nia]. eapply Forall_impl; [exact Hw|]. cbn. intros w Hb. unfold word_max in *. nia.
Qed.

(** Word by word. *)
Ltac by_words := 
  unfold magnitude, val, words, eval, word_max, fieldPrime in *; cbn [foldr n0 n1 n2 n3 n4 n5 n6 n7 n8 n9] in *;
  repeat match goal with H : Forall _ (_ :: _) ∧ _ |- _ => destruct H | H : Forall _ (_ :: _) |- _ => apply Forall_cons in H as [? H] end.

Lemma Add2_stands m k f g x y : stands m f x → stands k g y → 0 <= m → 0 <= k → m + k <= 63 → stands (m + k) (Add2 f g) (x + y).
Proof.
  intros [Hf Ex] [Hg Ey] Hm Hk Hs. assert (magnitude (m + k) (Add2 f g) ∧ val (Add2 f g) = val f + val g) as [Hm' Hv].
  - unfold Add2. by_words. rewrite !u32_small by lia. split; [split; [repeat (apply Forall_cons; split; [lia|]); constructor|lia]|lia].
  - split; [done|]. by rewrite Hv, Ex, Ey.
Qed.

Lemma MulInt_stands m k f x : stands m f x → 0 <= m → 0 <= k → m * k <= 63 → 1 <= m → stands (m * k) (MulInt f k) (x * k).
Proof.
  intros [Hf Ex] Hm Hk Hs H1. assert (magnitude (m * k) (MulInt f k) ∧ val (MulInt f k) = val f * k) as [Hm' Hv].
  - unfold MulInt. rewrite (u32_small k) by nia. by_words. rewrite !u32_small by nia. split; [split; [repeat (apply Forall_cons; split; [nia|]); constructor|nia]|lia].
  - split; [done|]. by rewrite Hv, Ex.
Qed.

Lemma NegateVal_stands m f x : stands m f x → 0 <= m <= 62 → stands (m + 1) (NegateVal f m) (- x).
Proof.
  intros [Hf Ex] Hm. assert (magnitude (m + 1) (NegateVal f m) ∧ val (NegateVal f m) = - val f + fieldPrime * (m + 1)) as [Hm' Hv].
  - unfold NegateVal, fieldPrimeWordZero, fieldPrimeWordOne. change fieldBaseMask with (2 ^ 26 - 1). change fieldMSBMask with (2 ^ 22 - 1). 
    rewrite (u32_small (m + 1)) by lia. by_words. rewrite !u32_small by lia.
    split; [split; [repeat (apply Forall_cons; split; [lia|]); constructor|lia]|lia].
  - split; [done|]. rewrite Hv, <- Ex. by apply (eqp_multiple _ _ (m + 1)).
Qed.

Lemma AddInt_stands m f x ui : stands m f x → 0 <= m <= 62 → 0 <= ui <= word_max → stands (m + 1) (AddInt f ui) (x + ui).
Proof.
  intros [Hf Ex] Hm Hu. assert (magnitude (m + 1) (AddInt f ui) ∧ val (AddInt f ui) = val f + ui) as [Hm' Hv].
  - unfold AddInt. unfold word_max in Hu. rewrite (u32_small ui) by lia. by_words. rewrite !u32_small by lia.
    split; [split; [repeat (apply Forall_cons; split; [lia|]); constructor|lia]|lia].
  - split; [done|]. by rewrite Hv, Ex.
Qed.

Lemma SetInt_stands ui : 0 <= ui <= word_max → stands 1 (SetInt ui) ui.
Proof.
  intros Hu. unfold word_max in Hu. assert (magnitude 1 (SetInt ui) ∧ val (SetInt ui) = ui) as [Hm' E].
  - unfold SetInt. rewrite (u32_small ui) by lia. by_words. split; [split; [repeat (apply Forall_cons; split; [lia|]); constructor|lia]|lia].
  - split; [done|]. by rewrite E.
Qed.

(** ** Normal forms *)

Lemma land_le a b : 0 <= a → 0 <= b → Z.land a b <= a.
Proof.
  intros Ha Hb. apply Z.ldiff_le; [done|]. apply Z.bits_inj'. intros n Hn. rewrite Z.ldiff_spec, Z.land_spec, Z.bits_0. by destruct (Z.testbit a n), (Z.testbit b n).
Qed.

(** All bits are set in a conjunction only if they are in every word. *)
Lemma land_mask a b : 0 <= a < 2 ^ 26 → 0 <= b < 2 ^ 26 → Z.land a b = 2 ^ 26 - 1 ↔ a = 2 ^ 26 - 1 ∧ b = 2 ^ 26 - 1.
Proof.
  intros Ha Hb. split.
  - intros E. pose proof (land_le a b). pose proof (land_le b a). rewrite Z.land_comm in E. rewrite (Z.land_comm a b) in *. lia.
  - by intros [-> ->].
Qed.

Lemma land_word a b : 0 <= a < 2 ^ 26 → 0 <= b < 2 ^ 26 → 0 <= Z.land a b < 2 ^ 26.
Proof. intros Ha Hb. split; [apply Z.land_nonneg; lia|]. pose proof (land_le a b). lia. Qed.

Lemma all_ones t2 t3 t4 t5 t6 t7 t8 :
  Forall (λ t, 0 <= t < 2 ^ 26) [t2; t3; t4; t5; t6; t7; t8] →
  foldl Z.land t2 [t3; t4; t5; t6; t7; t8] = 2 ^ 26 - 1 ↔ Forall (λ t, t = 2 ^ 26 - 1) [t2; t3; t4; t5; t6; t7; t8].
Proof.
  intros Hts. repeat (apply Forall_cons in Hts as [? Hts]). cbn [foldl].
  rewrite !land_mask by (repeat first [done | apply land_word]). rewrite !Forall_cons, Forall_nil. tauto.
Qed.

(** The bit that [Normalize] computes says whether the prime has to be subtracted. *)
Definition excess (t0 t1 t2 t3 t4 t5 t6 t7 t8 t9 : Z) : Z :=
  Z.lor (Z.land (Z.land (Z.land 1 (if bool_decide (t9 = fieldMSBMask) then 1 else 0))
    (if bool_decide (foldl Z.land t2 [t3; t4; t5; t6; t7; t8] = fieldBaseMask) then 1 else 0))
    (if bool_decide (u32 (Z.shiftr (u32 (t0 + 977)) fieldBase + t1 + 64) > fieldBaseMask) then 1 else 0))
    (if bool_decide (Z.shiftr t9 fieldMSBBits = 0) then 0 else 1).

Lemma excess_spec t0 t1 t2 t3 t4 t5 t6 t7 t8 t9 :
  Forall (λ t, 0 <= t < 2 ^ 26) [t0; t1; t2; t3; t4; t5; t6; t7; t8] → 0 <= t9 < 2 ^ 23 →
  excess t0 t1 t2 t3 t4 t5 t6 t7 t8 t9 = if decide (fieldPrime <= eval [t0; t1; t2; t3; t4; t5; t6; t7; t8; t9]) then 1 else 0.
Proof.
  intros Hts H9. unfold excess. change fieldBaseMask with (2 ^ 26 - 1). change fieldMSBMask with (2 ^ 22 - 1).
  assert (Forall (λ t, 0 <= t < 2 ^ 26) [t2; t3; t4; t5; t6; t7; t8]) as Hts' by (by apply Forall_cons in Hts as [_ [_ Hts]%Forall_cons]).
  rewrite (bool_decide_ext _ _ (all_ones _ _ _ _ _ _ _ Hts')). clear Hts'. rewrite !shift26, shift22.
  repeat (apply Forall_cons in Hts as [? Hts]). rewrite !u32_small by (rewrite ?u32_small by lia; Z.div_mod_to_equations; lia).
  unfold eval, fieldPrime. cbn [foldr].
  destruct (decide (t9 / 2 ^ 22 = 0)) as [E9|E9].
  - rewrite (bool_decide_true (_ / _ = 0)) by done. assert (t9 < 2 ^ 22) by (Z.div_mod_to_equations; lia).
    case_decide as Ep.
    + rewrite !bool_decide_true; [done|Z.div_mod_to_equations; lia| |lia]. repeat (apply Forall_cons; split; [lia|]). constructor.
    + case_bool_decide as C1; [|done]. case_bool_decide as C2; [|done]. case_bool_decide as C3; [|done]. exfalso.
      repeat (apply Forall_cons in C2 as [? C2]). Z.div_mod_to_equations. lia.
  - rewrite (bool_decide_false (_ / _ = 0)) by done. assert (2 ^ 22 <= t9) by (Z.div_mod_to_equations; lia). rewrite decide_True by lia.
    by repeat case_bool_decide.
Qed.

(** Subtracting the prime when there is an excess. *)
Lemma subtract_spec t0 t1 t2 t3 t4 t5 t6 t7 t8 t9 m ts c :
  Forall (λ t, 0 <= t < 2 ^ 26) [t0; t1; t2; t3; t4; t5; t6; t7; t8] → 0 <= t9 < 2 ^ 22 + 64 →
  m = (if decide (fieldPrime <= eval [t0; t1; t2; t3; t4; t5; t6; t7; t8; t9]) then 1 else 0) →
  carry u32 0 [t0 + m * 977; t1 + Z.shiftl m 6; t2; t3; t4; t5; t6; t7; t8] = (ts, c) →
  length ts = 9%nat ∧ Forall (λ t, 0 <= t < 2 ^ 26) ts ∧
  eval (ts ++ [Z.land (u32 (c + t9)) fieldMSBMask]) = eval [t0; t1; t2; t3; t4; t5; t6; t7; t8; t9] mod fieldPrime.
Proof.
  intros Hts H9 Hm E. set (v := eval [t0; t1; t2; t3; t4; t5; t6; t7; t8; t9]) in *. assert (0 <= m <= 1) as Hm01 by (rewrite Hm; case_decide; lia).
  assert (Forall (λ x, 0 <= x <= 2 ^ 27) [t0 + m * 977; t1 + Z.shiftl m 6; t2; t3; t4; t5; t6; t7; t8]) as Hb.
  { rewrite Z.shiftl_mul_pow2 by done. repeat (apply Forall_cons in Hts as [? Hts]). repeat (apply Forall_cons; split; [lia|]). constructor. }
  destruct (carry_spec u32 32 (2 ^ 27) _ 0 _ _ ltac:(lia) u32_small Hb ltac:(lia) ltac:(lia) E) as (Hl & Hts' & Hc & Hv). split; [done|]. split; [done|].
  do 9 (destruct ts as [|? ts]; [discriminate Hl|]). destruct ts; [clear Hl E Hb|discriminate Hl].
  rewrite mask22, u32_small by lia. rewrite Z.shiftl_mul_pow2 in Hv by done. repeat (apply Forall_cons in Hts as [? Hts]). repeat (apply Forall_cons in Hts' as [? Hts']).
  assert (0 <= v < 2 ^ 256 + 2 ^ 241) as Hrange by (unfold v, eval; cbn [foldr]; lia).
  set (R := eval [z; z0; z1; z2; z3; z4; z5; z6; z7]). assert (0 <= R < 2 ^ 234) as HR by (unfold R, eval; cbn [foldr]; lia).
  assert (v + m * (2 ^ 256 - fieldPrime) = R + 2 ^ 234 * (c + t9)) as Hw.
  { unfold R, v, eval, fieldPrime, len in *. cbn [foldr length] in *. change (2 ^ (26 * Z.of_nat 9)) with (2 ^ 234) in Hv. lia. }
  transitivity (R + 2 ^ 234 * ((c + t9) mod 2 ^ 22)); [unfold R, eval; cbn [foldr app]; lia|].
  clearbody v R. clear -Hm Hrange HR Hw Hc H9. unfold fieldPrime in *. rewrite Hm in Hw. destruct (decide _) as [Hp|Hp] in Hw.
  - assert ((c + t9) mod 2 ^ 22 = c + t9 - 2 ^ 22) as -> by (symmetry; apply (Z.mod_unique_pos _ _ 1); lia).
    apply (Z.mod_unique_pos _ _ 1); lia.
  - rewrite (Z.mod_small (c + t9)) by lia. rewrite Z.mod_small; lia.
Qed.

Lemma Normalize_spec m f : magnitude m f → 0 <= m <= 63 → normalized (Normalize f) ∧ val (Normalize f) = val f mod fieldPrime.
Proof.
  intros Hf Hm. set (g := Normalize f). unfold Normalize in g. set (q := Z.shiftr (n9 f) fieldMSBBits) in g.
  destruct Hf as [Hw H9]. assert (n9 f = 2 ^ 22 * q + Z.land (n9 f) fieldMSBMask ∧ 0 <= q <= 63 ∧ 0 <= Z.land (n9 f) fieldMSBMask < 2 ^ 22) as (E9 & Hq & Hr).
  { unfold q. rewrite mask22, shift22. Z.div_mod_to_equations. lia. }
  destruct (carry u32 0 _) as [ts c] eqn:E in g.
  assert (Forall (λ x, 0 <= x <= 63 * word_max + 63 * 977) [n0 f + q * 977; n1 f + Z.shiftl q 6; n2 f; n3 f; n4 f; n5 f; n6 f; n7 f; n8 f]) as Hb.
  { rewrite Z.shiftl_mul_pow2 by done. unfold word_max in *. repeat (apply Forall_cons in Hw as [? Hw]). repeat (apply Forall_cons; split; [lia|]). constructor. }
  destruct (carry_spec u32 32 (63 * word_max + 63 * 977) _ 0 _ _ ltac:(lia) u32_small Hb ltac:(by vm_compute) ltac:(lia) E) as (Hl & Hts & Hc & Hv).
  clear E Hb. do 9 (destruct ts as [|? ts]; [discriminate Hl|]). destruct ts; [clear Hl|discriminate Hl]. cbv zeta in g.
  set (t9 := u32 (c + Z.land (n9 f) fieldMSBMask)) in g. assert (t9 = c + Z.land (n9 f) fieldMSBMask) as Et9 by (apply u32_small; lia).
  change (Z.lor _ _) with (excess z z0 z1 z2 z3 z4 z5 z6 z7 t9) in g. destruct (carry u32 0 _) as [rs c'] eqn:E' in g.
  destruct (subtract_spec _ _ _ _ _ _ _ _ _ t9 _ _ _ Hts ltac:(lia) (excess_spec _ _ _ _ _ _ _ _ _ t9 Hts ltac:(lia)) E') as (Hl & Hrs & Hres). clear E'.
  do 9 (destruct rs as [|? rs]; [discriminate Hl|]). destruct rs; [clear Hl|discriminate Hl]. cbn [app] in Hres.
  assert (eval [z; z0; z1; z2; z3; z4; z5; z6; z7; t9] = val f - q * fieldPrime) as Hval.
  { rewrite Z.shiftl_mul_pow2 in Hv by done. unfold val, words, eval, fieldPrime, len in *. cbn [foldr length] in *. change (2 ^ (26 * Z.of_nat 9)) with (2 ^ 234) in Hv. lia. }
  rewrite Hval in Hres. assert ((val f - q * fieldPrime) mod fieldPrime = val f mod fieldPrime) as Emod.
  { replace (val f - q * fieldPrime) with (val f + (- q) * fieldPrime) by lia. by rewrite Z_mod_plus_full. }
  rewrite Emod in Hres. assert (val g = val f mod fieldPrime) as Hg by exact Hres. split; [|exact Hg].
  split; [exact Hrs|]. split; [cbn [n9 g]; rewrite mask22; apply Z.mod_pos_bound; lia|]. rewrite Hg. by apply Z.mod_pos_bound.
Qed.

(** ** Bytes *)

Lemma lor_shifted i j b X : 0 <= i <= j → 0 <= b < 2 ^ (j - i) → Z.lor (b * 2 ^ i) (X * 2 ^ j) = b * 2 ^ i + X * 2 ^ j.
Proof.
  intros Hij Hb. replace (2 ^ j) with (2 ^ (j - i) * 2 ^ i) by (rewrite <- Z.pow_add_r by lia; f_equal; lia).
  rewrite Z.mul_assoc, <- !(Z.shiftl_mul_pow2 _ i), <- Z.shiftl_lor, !(Z.shiftl_mul_pow2 _ i) by lia.
  rewrite <- Z.mul_add_distr_r. f_equal. rewrite Z.lor_comm, <- Z.shiftl_mul_pow2, lor_pack by lia. rewrite Z.shiftl_mul_pow2; lia.
Qed.

(** Parts that do not overlap are added. *)
Lemma or_parts a b c d i j k :
  0 <= i <= j → j <= k → 0 <= a < 2 ^ i → 0 <= b < 2 ^ (j - i) → 0 <= c < 2 ^ (k - j) →
  or_all [a; b * 2 ^ i; c * 2 ^ j; d * 2 ^ k] = a + b * 2 ^ i + c * 2 ^ j + d * 2 ^ k.
Proof.
  intros Hij Hjk Ha Hb Hc. unfold or_all. cbn [foldr]. rewrite Z.lor_0_r, lor_shifted by lia.
  assert (2 ^ j = 2 ^ (j - i) * 2 ^ i) as Ej by (rewrite <- Z.pow_add_r by lia; f_equal; lia).
  assert (2 ^ k = 2 ^ (k - j) * 2 ^ j) as Ek by (rewrite <- Z.pow_add_r by lia; f_equal; lia).
  replace (c * 2 ^ j + d * 2 ^ k) with ((c + d * 2 ^ (k - j)) * 2 ^ j) by (rewrite Ek; ring). rewrite lor_shifted by lia.
  replace (b * 2 ^ i + (c + d * 2 ^ (k - j)) * 2 ^ j) with ((b + (c + d * 2 ^ (k - j)) * 2 ^ (j - i)) * 2 ^ i) by (rewrite Ej; ring).
  pose proof (lor_shifted 0 i a (b + (c + d * 2 ^ (k - j)) * 2 ^ (j - i)) ltac:(lia)) as Hl. rewrite Z.pow_0_r, Z.mul_1_r, Z.sub_0_r in Hl.
  rewrite Hl by done. rewrite Ek, Ej. ring.
Qed.

Lemma or_parts3 a b c i j :
  0 <= i <= j → 0 <= a < 2 ^ i → 0 <= b < 2 ^ (j - i) → or_all [a; b * 2 ^ i; c * 2 ^ j] = a + b * 2 ^ i + c * 2 ^ j.
Proof.
  intros Hij Ha Hb. pose proof (or_parts a b 0 c i j j ltac:(lia) ltac:(lia) Ha Hb) as Ho. rewrite Z.sub_diag in Ho.
  unfold or_all in *. cbn [foldr] in *. rewrite Z.mul_0_l, Z.lor_0_l in Ho. rewrite Ho by done. lia.
Qed.

Lemma shl32 x n : 0 <= n → 0 <= x * 2 ^ n < 2 ^ 32 → u32 (Z.shiftl x n) = x * 2 ^ n.
Proof. intros Hn Hx. by rewrite Z.shiftl_mul_pow2, u32_small. Qed.

Lemma mask2 x : Z.land x twoBitsMask = x mod 2 ^ 2.
Proof. by rewrite <- Z.land_ones. Qed.
Lemma mask4 x : Z.land x fourBitsMask = x mod 2 ^ 4.
Proof. by rewrite <- Z.land_ones. Qed.
Lemma mask6 x : Z.land x sixBitsMask = x mod 2 ^ 6.
Proof. by rewrite <- Z.land_ones. Qed.
Lemma mask8 x : Z.land x eightBitsMask = x mod 2 ^ 8.
Proof. by rewrite <- Z.land_ones. Qed.

(** Thirty-two bytes and the number they are. *)
Lemma SetBytes_spec b : length b = 32%nat →
  Forall (λ w, 0 <= w < 2 ^ 26) [n0 (SetBytes b); n1 (SetBytes b); n2 (SetBytes b); n3 (SetBytes b); n4 (SetBytes b); n5 (SetBytes b);
    n6 (SetBytes b); n7 (SetBytes b); n8 (SetBytes b)] ∧ 0 <= n9 (SetBytes b) < 2 ^ 22 ∧ val (SetBytes b) = be_val b.
Proof.
  intros Hl. do 32 (destruct b as [|? b]; [discriminate Hl|]). destruct b; [clear Hl|discriminate Hl].
  rewrite !be_val_cons, be_val_nil. unfold len. cbn [length]. unfold SetBytes, at32. cbn [nth n0 n1 n2 n3 n4 n5 n6 n7 n8 n9]. rewrite !mask2, !mask4, !mask6, !Z.shiftr_div_pow2 by done.
  repeat match goal with |- context [byte_Z ?x] => let z := fresh "z" in pose proof (byte_Z_range x); set (z := byte_Z x) in *; clearbody z end.
  rewrite !shl32 by (Z.div_mod_to_equations; lia). rewrite !or_parts, or_parts3 by (try lia; Z.div_mod_to_equations; lia).
  split; [repeat (apply Forall_cons; split; [Z.div_mod_to_equations; lia|]); constructor|]. split; [Z.div_mod_to_equations; lia|].
  unfold val, words, eval. cbn [foldr n0 n1 n2 n3 n4 n5 n6 n7 n8 n9]. Z.div_mod_to_equations. lia.
Qed.

(** A word by the parts that go into different bytes. *)
Lemma low_parts w : 0 <= w < 2 ^ 26 → w = w mod 2 ^ 8 + 2 ^ 8 * ((w / 2 ^ 8) mod 2 ^ 8) + 2 ^ 16 * ((w / 2 ^ 16) mod 2 ^ 8) + 2 ^ 24 * ((w / 2 ^ 24) mod 2 ^ 2).
Proof. intros Hw. Z.div_mod_to_equations. lia. Qed.
Lemma six_parts w : 0 <= w < 2 ^ 26 → w = w mod 2 ^ 6 + 2 ^ 6 * ((w / 2 ^ 6) mod 2 ^ 8) + 2 ^ 14 * ((w / 2 ^ 14) mod 2 ^ 8) + 2 ^ 22 * ((w / 2 ^ 22) mod 2 ^ 4).
Proof. intros Hw. Z.div_mod_to_equations. lia. Qed.
Lemma four_parts w : 0 <= w < 2 ^ 26 → w = w mod 2 ^ 4 + 2 ^ 4 * ((w / 2 ^ 4) mod 2 ^ 8) + 2 ^ 12 * ((w / 2 ^ 12) mod 2 ^ 8) + 2 ^ 20 * ((w / 2 ^ 20) mod 2 ^ 6).
Proof. intros Hw. Z.div_mod_to_equations. lia. Qed.
Lemma two_parts w : 0 <= w < 2 ^ 26 → w = w mod 2 ^ 2 + 2 ^ 2 * ((w / 2 ^ 2) mod 2 ^ 8) + 2 ^ 10 * ((w / 2 ^ 10) mod 2 ^ 8) + 2 ^ 18 * ((w / 2 ^ 18) mod 2 ^ 8).
Proof. intros Hw. Z.div_mod_to_equations. lia. Qed.

Lemma lor_low a b k : 0 <= k → 0 <= a < 2 ^ k → Z.lor a (b * 2 ^ k) = a + b * 2 ^ k.
Proof. intros Hk Ha. pose proof (lor_shifted 0 k a b ltac:(lia)) as Hl. rewrite Z.pow_0_r, Z.mul_1_r, Z.sub_0_r in Hl. by apply Hl. Qed.

Lemma byte_small x : 0 <= x < 256 → byte_Z (Z_byte (u8 x)) = x.
Proof. intros Hx. unfold u8. rewrite byte_Z_of_Z. rewrite !Z.mod_small by (rewrite ?Z.mod_small; lia). done. Qed.

Lemma PutBytes_spec f :
  Forall (λ w, 0 <= w < 2 ^ 26) [n0 f; n1 f; n2 f; n3 f; n4 f; n5 f; n6 f; n7 f; n8 f] → 0 <= n9 f < 2 ^ 22 →
  length (PutBytes f) = 32%nat ∧ be_val (PutBytes f) = val f.
Proof.
  intros Hw H9. split; [done|]. unfold PutBytes, val, words, eval. cbn [map foldr]. destruct f as [w0 w1 w2 w3 w4 w5 w6 w7 w8 w9].
  cbn [n0 n1 n2 n3 n4 n5 n6 n7 n8 n9] in *. repeat (apply Forall_cons in Hw as [? Hw]). clear Hw.
  rewrite !mask2, !mask4, !mask6, !mask8, !Z.shiftr_div_pow2 by done.
  assert (∀ x n, 0 < n → 0 <= x mod 2 ^ n < 2 ^ n) as Hmod by (intros; apply Z.mod_pos_bound; lia).
  rewrite !shl32 by (lia || (match goal with |- context [?x mod 2 ^ ?n] => pose proof (Hmod x n) end; lia)).
  rewrite !lor_low by (lia || (apply Hmod; lia)).
  rewrite !be_val_cons, be_val_nil. unfold len. cbn [length].
  rewrite !byte_small by (repeat match goal with |- context [?x mod 2 ^ ?n] => pose proof (Hmod x n ltac:(lia)); generalize dependent (x mod 2 ^ n); intros end; lia).
  assert (w9 / 2 ^ 22 = 0) as Hz by (apply Z.div_small; lia).
  pose proof (low_parts w0 ltac:(lia)) as P0. pose proof (six_parts w1 ltac:(lia)) as P1. pose proof (four_parts w2 ltac:(lia)) as P2.
  pose proof (two_parts w3 ltac:(lia)) as P3. pose proof (low_parts w4 ltac:(lia)) as P4. pose proof (six_parts w5 ltac:(lia)) as P5.
  pose proof (four_parts w6 ltac:(lia)) as P6. pose proof (two_parts w7 ltac:(lia)) as P7. pose proof (low_parts w8 ltac:(lia)) as P8.
  pose proof (six_parts w9 ltac:(lia)) as P9. rewrite Hz, Z.mod_0_l, Z.mul_0_r, Z.add_0_r in P9 by done. clear -P0 P1 P2 P3 P4 P5 P6 P7 P8 P9.
  repeat match goal with |- context [?x mod 2 ^ ?n] => generalize dependent (x mod 2 ^ n); intros end. lia.
Qed.

(** ** Tests *)

Lemma or_all_zero l : or_all l = 0 ↔ Forall (λ x, x = 0) l.
Proof. induction l as [|x l IH]; [done|]. unfold or_all in *. cbn [foldr]. by rewrite Z.lor_eq_0_iff, IH, Forall_cons. Qed.

Lemma field_Equals_spec f g : Equals f g = true ↔ f = g.
Proof.
  unfold Equals. rewrite bool_decide_eq_true, or_all_zero, !Forall_cons, Forall_nil, !Z.lxor_eq_0_iff.
  destruct f, g. cbn. split; [by intros (-> & -> & -> & -> & -> & -> & -> & -> & -> & -> & _)|by intros [= -> -> -> -> -> -> -> -> -> ->]].
Qed.

Lemma digit_inj a b x y : a + 2 ^ 26 * x = b + 2 ^ 26 * y → 0 <= a < 2 ^ 26 → 0 <= b < 2 ^ 26 → a = b ∧ x = y.
Proof. lia. Qed.

(** Values in normal form are equal if their words are. *)
Lemma normalized_inj f g : normalized f → normalized g → val f = val g → f = g.
Proof.
  intros (Hf & Hf9 & _) (Hg & Hg9 & _). destruct f, g. by_words. intros E.
  repeat (apply digit_inj in E as [-> E]; [|lia..]). done.
Qed.

Lemma Equals_val f g : normalized f → normalized g → Equals f g = bool_decide (val f = val g).
Proof.
  intros Hf Hg. apply eq_bool_prop_intro. rewrite !Is_true_true, field_Equals_spec, bool_decide_eq_true. split; [by intros ->|by apply normalized_inj].
Qed.

Lemma IsZero_val f : normalized f → IsZero f = bool_decide (val f = 0).
Proof.
  intros (Hw & H9 & _). unfold IsZero. apply bool_decide_ext. rewrite or_all_zero, !Forall_cons, Forall_nil. by_words. split; [lia|]. intros E. repeat split; lia.
Qed.

Lemma IsOdd_val f : IsOdd f = Z.odd (val f).
Proof.
  unfold IsOdd. assert (Z.land (n0 f) 1 = n0 f mod 2) as -> by (by apply (Z.land_ones _ 1)). unfold val, words, eval. cbn [foldr].
  rewrite Z.odd_add, Z.odd_mul. change (Z.odd (2 ^ 26)) with false. cbn [andb]. rewrite xorb_false_r, Zmod_odd. by destruct (Z.odd (n0 f)).
Qed.

(** ** Powers *)

(** [f] stands for the power [e] of [x] and may be multiplied. *)
Definition power (f : fieldVal) (x e : Z) : Prop := stands 8 f (x ^ e) ∧ 0 <= e.

Lemma power_Mul2 f g x a b : power f x a → power g x b → stands 1 (Mul2 f g) (x ^ (a + b)).
Proof. intros [Hf Ha] [Hg Hb]. rewrite Z.pow_add_r by done. by apply Mul2_stands. Qed.

Lemma power_mul f g x a b : power f x a → power g x b → power (Mul2 f g) x (a + b).
Proof. intros Hf Hg. split; [|destruct Hf, Hg; lia]. apply (stands_weaken 1); [by apply power_Mul2|lia]. Qed.

Lemma power_square f x a : power f x a → power (SquareVal f) x (2 * a).
Proof. intros Hf. rewrite SquareVal_Mul2. replace (2 * a) with (a + a) by lia. by apply power_mul. Qed.

Lemma power_squares n f x a : power f x a → power (squares n f) x (2 ^ Z.of_nat n * a).
Proof.
  intros Hf. induction n as [|n IH]; [by rewrite Z.pow_0_r, Z.mul_1_l|]. unfold squares in *. cbn [Nat.iter nat_rect].
  replace (2 ^ Z.of_nat (S n) * a) with (2 * (2 ^ Z.of_nat n * a)) by (rewrite Nat2Z.inj_succ, Z.pow_succ_r by lia; lia). by apply power_square.
Qed.

Lemma power_ten f x a : power f x a → power (squares 5 (squares 5 f)) x (2 ^ 10 * a).
Proof. intros Hf. replace (2 ^ 10 * a) with (2 ^ Z.of_nat 5 * (2 ^ Z.of_nat 5 * a)) by lia. by do 2 apply power_squares. Qed.

Lemma power_shift f g x a b : power f x a → power g x b → power (shift_in f g) x (2 ^ 10 * a + b).
Proof. intros Hf Hg. apply power_mul; [by apply power_ten|done]. Qed.

Lemma power_shifts n f g x a b :
  power f x a → power g x b → power (Nat.iter n (λ f, shift_in f g) f) x (Nat.iter n (λ e, 2 ^ 10 * e + b) a).
Proof. intros Hf Hg. induction n as [|n IH]; [done|]. cbn [Nat.iter nat_rect]. by apply power_shift. Qed.

(** The chain of [Inverse] is the power p - 2. *)
Lemma Inverse_stands f x : stands 8 f x → stands 1 (Inverse f) (x ^ (fieldPrime - 2)).
Proof.
  intros Hf. assert (power f x 1) as H1 by (split; [by rewrite Z.pow_1_r|done]). unfold Inverse, Mul.
  pose proof (power_square _ _ _ H1) as H2. pose proof (power_mul _ _ _ _ _ H2 H1) as H3. pose proof (power_square _ _ _ H2) as H4.
  pose proof (power_mul _ _ _ _ _ (power_square _ _ _ H4) H2) as H10. pose proof (power_mul _ _ _ _ _ H10 H1) as H11.
  pose proof (power_mul _ _ _ _ _ H10 H11) as H21. pose proof (power_square _ _ _ H21) as H42. pose proof (power_mul _ _ _ _ _ H42 H3) as H45.
  pose proof (power_mul _ _ _ _ _ H42 H21) as H63. pose proof (power_mul _ _ _ _ _ (power_squares 3 _ _ _ (power_square _ _ _ H63)) H11) as H1019.
  pose proof (power_mul _ _ _ _ _ H1019 H4) as H1023.
  pose proof (power_shifts 21 _ _ _ _ _ H63 H1023) as Hs. pose proof (power_shift _ _ _ _ _ Hs H1019) as Hs1.
  pose proof (power_shift _ _ _ _ _ (power_shift _ _ _ _ _ Hs1 H1023) H1023) as Hs3.
  pose proof (power_Mul2 _ _ _ _ _ (power_ten _ _ _ Hs3) H45) as Hr. exact Hr.
Qed.

(** ** Claims *)

(** C27. The words compute in the field. Let [f] stand for [x] with words of magnitude
    [m], and [g] for [y] with magnitude [k].  Sums, negations and small multiples stand
    for what they say, as long as no word can overflow 32 bits, with the magnitude
    they are documented to have.  Products, squares and inverses of values of
    magnitude at most 8 stand for the product, the square and the power p - 2, again
    with magnitude 1: no column of the product overflows 64 bits.  [Normalize] gives
    the words of the residue below the prime. *)
Theorem field_arithmetic m k f g x y (Hf : stands m f x) (Hg : stands k g y) (Hm : 0 <= m) (Hk : 0 <= k) :
  (m + k <= 63 → stands (m + k) (Field_Add f g) (x + y)) ∧
  (m <= 62 → stands (m + 1) (Negate f m) (- x)) ∧
  (∀ i, m <= 62 → 0 <= i <= word_max → stands (m + 1) (AddInt f i) (x + i)) ∧
  (∀ i, 1 <= m → 0 <= i → m * i <= 63 → stands (m * i) (MulInt f i) (x * i)) ∧
  (m <= 8 → k <= 8 → stands 1 (Mul f g) (x * y)) ∧
  (m <= 8 → stands 1 (Square f) (x * x) ∧ stands 1 (Inverse f) (x ^ (fieldPrime - 2))) ∧
  (m <= 63 → normalized (Normalize f) ∧ val (Normalize f) = x mod fieldPrime).
Proof.
  split; [by apply Add2_stands|]. split; [intros; by apply NegateVal_stands|]. split; [intros; by apply AddInt_stands|].
  split; [intros; by apply MulInt_stands|]. assert (m <= 8 → stands 8 f x) as Hf8 by (intros; by apply (stands_weaken m)).
  split; [intros; apply Mul2_stands; [auto|by apply (stands_weaken k)]|]. split.
  - intros H8. split; [by apply SquareVal_stands, Hf8|by apply Inverse_stands, Hf8].
  - intros H63. destruct Hf as [Hf E]. rewrite <- E. by apply (Normalize_spec m).
Qed.

(** Normal forms and bytes. Values [f] and [g] of magnitude at most 63 are
    equal, zero or odd in the field exactly if their normal forms pass [Equals],
    [IsZero] or [IsOdd]; the bytes of the normal form are the residue as 32 bytes in
    big endian, and [SetBytes] reads such bytes back to the same words, and any 32
    bytes to words of magnitude 1 that give the same bytes. *)
Theorem field_normal_forms m f g x y (Hf : stands m f x) (Hg : stands m g y) (Hm : 0 <= m <= 63) :
  (Equals (Normalize f) (Normalize g) = true ↔ x mod fieldPrime = y mod fieldPrime) ∧
  (IsZero (Normalize f) = true ↔ x mod fieldPrime = 0) ∧
  IsOdd (Normalize f) = Z.odd (x mod fieldPrime) ∧
  Bytes (Normalize f) = be_bytes 32 (x mod fieldPrime) ∧
  SetBytes (Bytes (Normalize f)) = Normalize f ∧
  (∀ b, length b = 32%nat → stands 1 (SetBytes b) (be_val b) ∧ Bytes (SetBytes b) = b).
Proof.
  destruct Hf as [Hf Ex], Hg as [Hg Ey]. destruct (Normalize_spec m f Hf Hm) as [Nf Vf], (Normalize_spec m g Hg Hm) as [Ng Vg].
  rewrite Ex in Vf. rewrite Ey in Vg. rewrite Equals_val, IsZero_val, IsOdd_val, Vf, Vg, !bool_decide_eq_true by done.
  destruct Nf as (Hw & H9 & Hp). destruct (PutBytes_spec (Normalize f) Hw H9) as [Hl Hb]. rewrite Vf in Hb.
  split; [done|]. split; [done|]. split; [done|]. split; [|split].
  - unfold Bytes. rewrite <- Hb, <- (be_bytes_be_val (PutBytes (Normalize f))) at 1. by rewrite Hl.
  - destruct (SetBytes_spec (Bytes (Normalize f)) Hl) as (Sw & S9 & Sv). unfold Bytes in *. rewrite Hb in Sv.
    apply normalized_inj; [|done|by rewrite Sv, Vf]. split; [done|]. split; [done|]. rewrite Sv. by apply Z.mod_pos_bound.
  - intros b Hbl. destruct (SetBytes_spec b Hbl) as (Sw & S9 & Sv). split.
    + split; [|by rewrite Sv]. split; [|lia]. eapply Forall_impl; [exact Sw|]. cbn. unfold word_max. lia.
    + destruct (PutBytes_spec (SetBytes b) Sw S9) as [Hbl' Hbv]. rewrite Sv in Hbv. unfold Bytes.
      rewrite <- (be_bytes_be_val (PutBytes _)), Hbv, Hbl', <- Hbl. apply be_bytes_be_val.
Qed.

Lemma field_arithmetic_witness :
  stands 3 (Field_Add (SetInt 5) (MulInt (SetInt 7) 2)) (5 + 14) ∧
  val (Normalize (Mul (SetInt 5) (Inverse (SetInt 5)))) = 1.
Proof.
  split; [|vm_compute; reflexivity].
  refine (proj1 (field_arithmetic 1 2 (SetInt 5) (MulInt (SetInt 7) 2) 5 14 (SetInt_stands 5 _) (MulInt_stands 1 2 (SetInt 7) 7 (SetInt_stands 7 _) _ _ _ _) _ _) _);
    vm_compute; repeat split; discriminate.
Defined.

Lemma field_normal_forms_witness :
  Bytes (Normalize (NegateVal (SetInt 5) 1)) = be_bytes 32 (fieldPrime - 5) ∧ Equals (Normalize (SetInt 5)) (Normalize (SetInt 7)) = false.
Proof.
  assert (stands 2 (NegateVal (SetInt 5) 1) (-5)) as Hn.
  { apply (NegateVal_stands 1 (SetInt 5) 5); [apply SetInt_stands|]; vm_compute; split; discriminate. }
  split; [|vm_compute; reflexivity].
  exact (proj1 (proj2 (proj2 (proj2 (field_normal_forms 2 _ _ (-5) (-5) Hn Hn ltac:(lia)))))).
Defined.
