(* ===== verification/PrimeField.v ===== *)
(** * The modulus of secp256k1 is a prime

    The package btcec computes modulo 2^256 - 2^32 - 977 and relies on this number
    being a prime: [Inverse] is a power by Fermat's theorem and the formulas for adding
    points divide.  The proof is a certificate in the style of Pocklington: large prime
    factors of n - 1 with a base whose powers the kernel computes, down to primes
    that are small enough for divisions. *)

From Stdlib Require Import ZArith Lia Zpow_facts Zdivisibility Zmod.
From S2P Require Import Prelude FieldTheorems.

Local Open Scope Z_scope.

(** ** Small primes, by division *)

(** No number of the [fuel] ones from [d] on divides [n]. *)
Fixpoint no_divisor (n d : Z) (fuel : nat) : bool :=
  match fuel with 0%nat => true | S fuel => negb (n mod d =? 0) && no_divisor n (Z.succ d) fuel end.

Lemma no_divisor_spec n d fuel e : no_divisor n d fuel = true → d <= e < d + Z.of_nat fuel → 0 < d → ¬ (e | n).
Proof.
  revert d. induction fuel as [|fuel IH]; intros d; cbn [no_divisor]; [lia|]. intros [Hd Hno]%andb_true_iff He Hpos Hdiv.
  destruct (decide (e = d)) as [->|Hne]; [|by apply (IH (Z.succ d)) in Hdiv; [| |lia..]]. apply Z.mod_divide in Hdiv; [|lia]. by rewrite Hdiv in Hd.
Qed.

Lemma divisor_small n d : 1 < d < n → (d | n) → ∃ e, 1 < e < n ∧ e * e <= n ∧ (e | n).
Proof.
  intros Hd [k Hk]. destruct (Z.le_gt_cases (d * d) n); [by exists d; split; [|split; [|exists k]]|].
  exists k. assert (1 < k) by nia. assert (k < d) by nia. split; [nia|]. split; [nia|]. exists d. lia.
Qed.

Lemma prime_by_division n fuel : 1 < n → n < (2 + Z.of_nat fuel) * (2 + Z.of_nat fuel) → no_divisor n 2 fuel = true → Z.prime n.
Proof.
  intros Hn Hfuel Hno. split; [done|]. intros d Hd Hdiv. destruct (divisor_small _ _ Hd Hdiv) as (e & He & Hee & Hdive).
  apply (no_divisor_spec _ _ _ e Hno); [nia|lia|done].
Qed.

(** ** Every number has a prime divisor *)

Lemma prime_divisor n : 1 < n → ∃ r, Z.prime r ∧ (r | n).
Proof.
  intros Hn. assert (∀ m : nat, ∀ n, 1 < n → n <= Z.of_nat m → ∃ r, Z.prime r ∧ (r | n)) as H; [|by apply (H (Z.to_nat n)); lia].
  clear n Hn. intros m. induction m as [|m IH]; intros n Hn Hm; [lia|].
  destruct (decide (Exists (λ d, n mod d = 0) (map Z.of_nat (seq 2 (Z.to_nat n - 2))))) as [Hex|Hno].
  - apply Exists_exists in Hex as (d & Hin & Hd). apply list_elem_of_In, in_map_iff in Hin as (i & <- & Hi). apply in_seq in Hi.
    apply Z.mod_divide in Hd; [|lia].
    destruct (IH (Z.of_nat i)) as (r & Hr & Hri); [lia..|]. exists r. split; [done|]. by etrans.
  - exists n. split; [|done]. split; [done|]. intros d Hd Hdiv. apply Hno, Exists_exists. exists d. split; [|by apply Z.mod_divide; [lia|]].
    apply list_elem_of_In, in_map_iff. exists (Z.to_nat d). split; [lia|]. apply in_seq. lia.
Qed.

(** ** Pocklington's criterion *)

(** Powers modulo [n], with a reduction [red] that keeps the residue. *)
Fixpoint pow_pos_mod (red : Z → Z) (a : Z) (e : positive) : Z :=
  match e with
  | xH => red a
  | xO e => let z := pow_pos_mod red a e in red (z * z)
  | xI e => let z := pow_pos_mod red a e in red (z * z * a)
  end.
Definition pow_mod (red : Z → Z) (a e : Z) : Z := match e with Z.pos e => pow_pos_mod red a e | _ => 1 end.

Definition keeps_residue (red : Z → Z) (n : Z) : Prop := ∀ x, red x mod n = x mod n.

Lemma pow_mod_spec red n a e : keeps_residue red n → 0 < n → 0 <= e → pow_mod red a e mod n = a ^ e mod n.
Proof.
  intros Hred Hn He. destruct e as [|e|e]; [done| |done]. unfold pow_mod. clear He. induction e as [e IH|e IH|]; cbn [pow_pos_mod].
  - rewrite Hred, <- Z.mul_mod_idemp_l, (Z.mul_mod (pow_pos_mod _ _ _)), IH, <- Z.mul_mod, Z.mul_mod_idemp_l by lia. f_equal.
    rewrite Pos2Z.inj_xI, Z.pow_add_r, Z.pow_1_r, Z.pow_twice_r by lia. ring.
  - rewrite Hred, Z.mul_mod, IH, <- Z.mul_mod by lia. by rewrite Pos2Z.inj_xO, Z.pow_twice_r.
  - by rewrite Hred, Z.pow_1_r.
Qed.

(** Modulo 2^k - c, what is above k bits counts c times; [fold_top] leaves numbers that
    are not much longer than k bits. *)
Definition fold_once (k c mask x : Z) : Z := Z.shiftr x k * c + Z.land x mask.
Definition fold_top (k c mask x : Z) : Z := fold_once k c mask (fold_once k c mask (fold_once k c mask x)).

Lemma fold_keeps k c : 0 <= k → keeps_residue (fold_top k c (Z.ones k)) (2 ^ k - c).
Proof.
  intros Hk. assert (keeps_residue (fold_once k c (Z.ones k)) (2 ^ k - c)) as H; [|by intros x; unfold fold_top; rewrite !H].
  intros x. unfold fold_once. rewrite Z.shiftr_div_pow2, Z.land_ones by done.
  rewrite (Z.div_mod x (2 ^ k)) at 3 by lia. replace (2 ^ k * (x / 2 ^ k) + x mod 2 ^ k) with (x / 2 ^ k * c + x mod 2 ^ k + x / 2 ^ k * (2 ^ k - c)) by ring.
  by rewrite Z_mod_plus_full.
Qed.

(** The base [a] shows that every prime divisor of [n] is 1 modulo [q]. *)
Definition certifies (red : Z → Z) (n a q : Z) : bool :=
  let b := pow_mod red a ((n - 1) / q) in (pow_mod red b q mod n =? 1) && (Z.gcd (b - 1) n =? 1).

Lemma mod_divides a b n r : (r | n) → 0 < r → 0 < n → a mod n = b mod n → a mod r = b mod r.
Proof. intros Hr H0 Hn E. rewrite <- (Z.mod_mod_divide a n r), <- (Z.mod_mod_divide b n r) by done. by rewrite E. Qed.

Lemma pow_one a e r : 1 < r → a mod r = 1 → 0 <= e → a ^ e mod r = 1.
Proof. intros Hr E He. rewrite <- Z.mod_pow_l, E, Z.pow_1_l by lia. by apply Z.mod_1_l. Qed.

Lemma pow_bezout b r q m u v : 1 < r → 0 <= q → 0 <= m → 0 <= u → 0 <= v → u * q = 1 + v * m → b ^ q mod r = 1 → b ^ m mod r = 1 → b mod r = 1.
Proof.
  intros Hr Hq Hm Hu Hv E Hbq Hbm. assert ((b * (b ^ m) ^ v) mod r = b mod r) as <-.
  { by rewrite <- Z.mul_mod_idemp_r, (pow_one _ v _ Hr Hbm Hv), Z.mul_1_r by lia. }
  assert (b * (b ^ m) ^ v = (b ^ q) ^ u) as ->; [|by apply pow_one].
  rewrite <- !Z.pow_mul_r by lia. rewrite <- Z.pow_succ_r by nia. f_equal. lia.
Qed.

(** Coefficients for coprime exponents, none of them negative. *)
Lemma bezout_nonneg q m : 1 < q → 0 < m → Z.gcd q m = 1 → ∃ u v, 0 <= u ∧ 0 <= v ∧ u * q = 1 + v * m.
Proof.
  intros Hq Hm Hg. apply Z.Bezout_coprime_iff in Hg as (u & v & E). pose proof (Z.mod_pos_bound u m Hm). pose proof (Z.div_mod u m ltac:(lia)).
  exists (u mod m + m), ((1 - u / m) * q - v). nia.
Qed.

Lemma certified_divisor red n a q r :
  keeps_residue red n → 1 < n → Z.prime q → certifies red n a q = true → Z.prime r → (r | n) → (q | r - 1).
Proof.
  intros Hred Hn Hq Hcert Hr Hrn. unfold certifies in Hcert. rewrite andb_true_iff, !Z.eqb_eq in Hcert. destruct Hcert as [Hone Hgcd].
  pose proof (Z.prime_ge_2 _ Hq). pose proof (Z.prime_ge_2 _ Hr). set (b := pow_mod red a ((n - 1) / q)) in *.
  rewrite pow_mod_spec in Hone by (done || lia). assert (b ^ q mod r = 1) as Hbq.
  { rewrite (mod_divides _ 1 n r Hrn) by (first [lia|rewrite Hone; symmetry; apply Z.mod_1_l; lia]). apply Z.mod_1_l. lia. }
  assert (b mod r <> 1) as Hb1.
  { intros E. assert ((r | 1)) as Hk; [|apply Z.divide_pos_le in Hk; lia]. rewrite <- Hgcd. apply Z.gcd_greatest; [|done].
    apply Z.mod_divide; [lia|]. rewrite Zminus_mod, E. by rewrite (Z.mod_1_l r), Z.sub_diag by lia. }
  assert (b mod r <> 0) as Hb0. { intros E. rewrite <- Z.mod_pow_l, E, Z.pow_0_l in Hbq by lia. rewrite Z.mod_0_l in Hbq by lia. done. }
  pose proof (Z.fermat_nz _ _ Hr Hb0) as Hbr. destruct (decide (Z.gcd q (r - 1) = 1)) as [Hg|Hg].
  - destruct (bezout_nonneg q (r - 1)) as (u & v & Hu & Hv & E); [lia..|done|]. destruct Hb1. by apply (pow_bezout b r q (r - 1) u v); lia.
  - destruct (decide ((r - 1) mod q = 0)) as [Hd|Hnd]; [by apply Z.mod_divide; [lia|]|]. destruct Hg.
    apply Z.coprime_prime_l; [done|]. intros Hd. by apply Hnd, Z.mod_divide; [lia|].
Qed.

Lemma product_divides qs m : Forall Z.prime qs → NoDup qs → Forall (λ q, (q | m)) qs → (foldr Z.mul 1 qs | m).
Proof.
  intros Hp. induction Hp as [|q qs Hq Hqs IH]; intros Hnd Hdiv; [by apply Z.divide_1_l|]. apply NoDup_cons in Hnd as [Hnin Hnd].
  apply Forall_cons in Hdiv as [Hd Hdiv]. cbn [foldr]. specialize (IH Hnd Hdiv). destruct IH as [k Hk]. rewrite Hk in Hd |- *.
  apply Z.mul_divide_mono_r. apply Z.divide_prime_mul in Hd as [|Hd]; [done| |done]. exfalso. clear -Hd Hq Hqs Hnin.
  induction Hqs as [|q' qs Hq' _ IH]; cbn [foldr] in Hd.
  - apply Z.divide_1_r in Hd. destruct Hq. lia.
  - apply not_elem_of_cons in Hnin as [Hne Hnin]. apply Z.divide_prime_mul in Hd as [Hd|Hd]; [|by apply IH|done]. by apply Z.divide_prime_prime in Hd.
Qed.

Lemma pocklington red n a qs :
  keeps_residue red n → 1 < n → Forall Z.prime qs → NoDup qs → n <= foldr Z.mul 1 qs * foldr Z.mul 1 qs →
  forallb (certifies red n a) qs = true → Z.prime n.
Proof.
  intros Hred Hn Hqs Hnd Hlarge Hcert. split; [done|]. intros d Hd Hdiv. destruct (divisor_small _ _ Hd Hdiv) as (e & He & Hee & Hen).
  destruct (prime_divisor e) as (r & Hr & Hre); [lia|]. assert ((r | n)) as Hrn by by etrans. pose proof (Z.prime_ge_2 _ Hr).
  assert ((foldr Z.mul 1 qs | r - 1)) as Hprod.
  { apply product_divides; [done..|]. apply Forall_forall. intros q Hq. rewrite forallb_forall in Hcert.
    apply (certified_divisor red n a q r); [done|done| |apply Hcert; by apply list_elem_of_In|done..]. rewrite Forall_forall in Hqs. by apply Hqs. }
  apply Z.divide_pos_le in Hprod; [|lia]. apply Z.divide_pos_le in Hre; [|lia].
  assert (0 <= foldr Z.mul 1 qs) as Hpos. { clear -Hqs. induction Hqs as [|q qs Hq _ IH]; [done|]. cbn. pose proof (Z.prime_ge_2 _ Hq). nia. }
  nia.
Qed.

(** ** The certificates *)

Definition by_division (n x : Z) : Z := x mod n.
Lemma division_keeps n : 0 < n → keeps_residue (by_division n) n.
Proof. intros Hn x. apply Z.mod_mod. lia. Qed.

Lemma prime_a : Z.prime 107590001.
Proof.
  assert (Z.prime 53) by (by apply (prime_by_division _ 6)). assert (Z.prime 29) by (by apply (prime_by_division _ 4)).
  assert (Z.prime 7) by (by apply (prime_by_division _ 2)).
  apply (pocklington (by_division 107590001) _ 2 [53; 29; 7]); [by apply division_keeps|lia|auto using Forall_cons_2, Forall_nil_2| |by vm_compute|vm_compute; reflexivity].
  repeat constructor; set_solver.
Qed.
Lemma prime_b : Z.prime 7240687.
Proof. apply (prime_by_division _ 2690); [lia..|]. vm_compute. reflexivity. Qed.
Lemma prime_c : Z.prime 96557.
Proof. apply (prime_by_division _ 310); [lia..|]. vm_compute. reflexivity. Qed.

Definition prime_d_number : Z := 255515944373312847190720520512484175977.
Lemma prime_d : Z.prime prime_d_number.
Proof.
  apply (pocklington (by_division prime_d_number) _ 2 [107590001; 7240687; 96557]);
    [by apply division_keeps|done|auto using Forall_cons_2, Forall_nil_2, prime_a, prime_b, prime_c| |by vm_compute|vm_compute; reflexivity].
  repeat constructor; set_solver.
Qed.

Definition prime_e_number : Z := 205115282021455665897114700593932402728804164701536103180137503955397371.
Lemma prime_e : Z.prime prime_e_number.
Proof.
  apply (pocklington (by_division prime_e_number) _ 2 [prime_d_number]);
    [by apply division_keeps|done|auto using Forall_cons_2, Forall_nil_2, prime_d|by apply NoDup_singleton|by vm_compute|vm_compute; reflexivity].
Qed.

Definition fieldPrime_fold : Z → Z := fold_top 256 (2 ^ 32 + 977) (Z.ones 256).
Lemma fieldPrime_fold_keeps : keeps_residue fieldPrime_fold fieldPrime.
Proof. by apply (fold_keeps 256). Qed.

Lemma fieldPrime_prime : Z.prime fieldPrime.
Proof.
  apply (pocklington fieldPrime_fold _ 2 [prime_e_number]);
    [apply fieldPrime_fold_keeps|done|auto using Forall_cons_2, Forall_nil_2, prime_e|by apply NoDup_singleton|by vm_compute|vm_compute; reflexivity].
Qed.
