(* ===== verification/GroupLaw.v ===== *)
(** * Points of y^2 = x^3 + 7 over the prime field

    The mathematical side of crypto/btcec: residues modulo the prime as a field, the
    points of the curve with the point at infinity, and the chord and tangent rule. *)

From Stdlib Require Import ZArith Lia Zdivisibility Zmod Field.
From S2P Require Import Prelude FieldTheorems PrimeField.

(** ** The field *)

Abbreviation F := (Zmod.Zmod fieldPrime).

Definition of_int (z : Z) : F := Zmod.of_Z fieldPrime z.

Declare Scope F_scope.
Delimit Scope F_scope with F.
Notation "0" := (@Zmod.zero fieldPrime) : F_scope.
Notation "1" := (@Zmod.one fieldPrime) : F_scope.
Notation "2" := (of_int 2) : F_scope.
Notation "3" := (of_int 3) : F_scope.
Notation "4" := (of_int 4) : F_scope.
Notation "7" := (of_int 7) : F_scope.
Notation "8" := (of_int 8) : F_scope.
Notation "x + y" := (Zmod.add x y) : F_scope.
Notation "x * y" := (Zmod.mul x y) : F_scope.
Notation "x - y" := (Zmod.sub x y) : F_scope.
Notation "- x" := (Zmod.opp x) : F_scope.
Notation "x / y" := (Zmod.mdiv x y) : F_scope.
Notation "/ x" := (Zmod.inv x) : F_scope.
Local Open Scope F_scope.

#[export] Instance F_eq_dec : EqDecision F.
Proof. intros x y. destruct (Zmod.eqb x y) eqn:E; [left|right]; destruct (Zmod.eqb_spec x y); done. Defined.

Lemma F_field : field_theory 0 1 Zmod.add Zmod.mul Zmod.sub Zmod.opp Zmod.mdiv Zmod.inv (@eq F).
Proof. apply Zmod.field_theory, fieldPrime_prime. Qed.

Lemma F_morph : ring_morph 0 1 Zmod.add Zmod.mul Zmod.sub Zmod.opp (@eq F) 0%Z 1%Z Z.add Z.mul Z.sub Z.opp Z.eqb of_int.
Proof. split; unfold of_int; intros; rewrite ?Zmod.of_Z_add, ?Zmod.of_Z_sub, ?Zmod.of_Z_mul, ?Zmod.of_Z_opp; [done..|]. by apply Z.eqb_eq in H as ->. Qed.

Ltac F_const t := match t with of_int ?z => match isZcst z with true => z | _ => constr:(NotConstant) end | _ => constr:(NotConstant) end.

Add Field F_field_tac : F_field (morphism F_morph, constants [F_const]).

Lemma of_int_eq a b : of_int a = of_int b ↔ eqp a b.
Proof. apply Zmod.of_Z_inj. Qed.

Lemma of_int_zero : of_int 0 = 0.
Proof. reflexivity. Qed.

Lemma F_mul_zero (x y : F) : x * y = 0 → x = 0 ∨ y = 0.
Proof. intros E. by apply (Zmod.mul_0_iff_prime fieldPrime_prime) in E. Qed.

Lemma F_mul_nonzero (x y : F) : x ≠ 0 → y ≠ 0 → x * y ≠ 0.
Proof. intros Hx Hy [|]%F_mul_zero; done. Qed.

Lemma F_sub_zero (x y : F) : x - y = 0 → x = y.
Proof. intros E. replace x with (x - y + y) by ring. rewrite E. ring. Qed.

Lemma F_sub_nonzero (x y : F) : x ≠ y → y - x ≠ 0.
Proof. intros Hne E. by apply Hne, eq_sym, F_sub_zero. Qed.

Lemma F_cancel (x y z : F) : z ≠ 0 → x * z = y * z ↔ x = y.
Proof. intros Hz. split; [|by intros ->]. intros E. apply F_sub_zero. destruct (F_mul_zero (x - y) z); [|done..]. transitivity (x * z - y * z); [ring|rewrite E; ring]. Qed.

Lemma two_nonzero : 2 ≠ 0.
Proof. rewrite <- of_int_zero. intros E. by apply of_int_eq in E. Qed.

(** ** Points *)

Definition point : Type := option (F * F).

Definition on_curve (p : point) : Prop :=
  match p with Some (x, y) => y * y = x * x * x + 7 | None => True end.

Definition chord (x1 y1 x2 l : F) : point := let x3 := l * l - x1 - x2 in Some (x3, l * (x1 - x3) - y1).

Definition pdouble (p : point) : point :=
  match p with
  | Some (x, y) => if decide (y = 0) then None else chord x y x ((3 * x * x) / (2 * y))
  | None => None
  end.

Definition padd (p q : point) : point :=
  match p, q with
  | None, _ => q
  | _, None => p
  | Some (x1, y1), Some (x2, y2) =>
      if decide (x1 = x2) then if decide (y1 = y2) then pdouble p else None
      else chord x1 y1 x2 ((y2 - y1) / (x2 - x1))
  end.

Definition popp (p : point) : point := match p with Some (x, y) => Some (x, - y) | None => None end.

(** ** Sums are points of the curve *)

(** The cubic that a line cuts out of the curve has three roots, counted with
    multiplicity: the line through two points meets the curve in a third one. *)
Lemma chord_on_curve x1 y1 x2 y2 : on_curve (Some (x1, y1)) → on_curve (Some (x2, y2)) → x1 ≠ x2 → on_curve (chord x1 y1 x2 ((y2 - y1) / (x2 - x1))).
Proof.
  cbn. intros H1 H2 Hx. apply F_sub_nonzero in Hx. field [H1 H2]. done.
Qed.

Lemma tangent_on_curve x y : on_curve (Some (x, y)) → y ≠ 0 → on_curve (chord x y x ((3 * x * x) / (2 * y))).
Proof. cbn. intros H Hy. pose proof two_nonzero. field [H]. done. Qed.

(** No point of the curve has y = 0: -7 is not a cube. *)
Lemma minus_seven_no_cube : (pow_mod fieldPrime_fold (-7) ((fieldPrime - 1) / 3) mod fieldPrime)%Z ≠ 1%Z.
Proof. vm_compute. discriminate. Qed.

Lemma y_nonzero x y : on_curve (Some (x, y)) → y ≠ 0.
Proof.
  cbn. intros H ->. apply minus_seven_no_cube. rewrite pow_mod_spec by (apply fieldPrime_fold_keeps || done).
  assert (x ≠ 0) as Hx. { intros ->. assert (0 * 0 = 0 * 0 * 0 + 7) as E by done. ring_simplify in E. rewrite <- of_int_zero in E. by apply of_int_eq in E. }
  assert (of_int (-7) = x * x * x) as E. { transitivity (Zmod.opp 7); [apply (Zmod.of_Z_opp 7)|]. transitivity (0 * 0 - 7); [ring|rewrite H; ring]. }
  pose proof (Zmod.fermat_nz x Hx fieldPrime_prime) as Hf. apply (f_equal Zmod.to_Z) in E, Hf.
  rewrite Zmod.to_Z_pow_nonneg_r in Hf by done. unfold of_int in E. rewrite Zmod.to_Z_of_Z in E.
  rewrite <- Z.mod_pow_l, E, !Zmod.to_Z_mul, Z.mul_mod_idemp_l, Z.mod_pow_l by done.
  replace (_ * _ * _)%Z with (Zmod.to_Z x ^ 3)%Z by ring. by rewrite <- Z.pow_mul_r.
Qed.

Lemma padd_on_curve p q : on_curve p → on_curve q → on_curve (padd p q).
Proof.
  destruct p as [[x1 y1]|], q as [[x2 y2]|]; [|done..]. intros Hp Hq. unfold padd. destruct (decide (x1 = x2)) as [->|Hx].
  - destruct (decide (y1 = y2)) as [->|]; [|done]. unfold pdouble. destruct (decide (y2 = 0)); [done|]. by apply tangent_on_curve.
  - by apply chord_on_curve.
Qed.

Lemma pdouble_on_curve p : on_curve p → on_curve (pdouble p).
Proof. destruct p as [[x y]|]; [|done]. intros H. unfold pdouble. destruct (decide (y = 0)); [done|]. by apply tangent_on_curve. Qed.

Lemma popp_on_curve p : on_curve p → on_curve (popp p).
Proof. destruct p as [[x y]|]; [|done]. cbn. intros H. ring [H]. Qed.

(** ** Cases of the sum *)

Lemma opp_on_curve x y : on_curve (Some (x, y)) → on_curve (Some (x, Zmod.opp y)).
Proof. apply (popp_on_curve (Some (x, y))). Qed.

Lemma F_opp_nonzero y : y ≠ 0 → Zmod.opp y ≠ 0.
Proof. intros Hy E. apply Hy. transitivity (Zmod.opp (Zmod.opp y)); [ring|rewrite E; ring]. Qed.

Lemma padd_none_r p : padd p None = p.
Proof. by destruct p as [[]|]. Qed.

Lemma padd_chord x1 y1 x2 y2 : x1 ≠ x2 → padd (Some (x1, y1)) (Some (x2, y2)) = chord x1 y1 x2 ((y2 - y1) / (x2 - x1)).
Proof. intros Hx. unfold padd. by rewrite decide_False. Qed.

Lemma padd_tangent x y : on_curve (Some (x, y)) → padd (Some (x, y)) (Some (x, y)) = chord x y x ((3 * x * x) / (2 * y)).
Proof. intros Hp%y_nonzero. unfold padd, pdouble. by rewrite (decide_True (P := x = x)), (decide_True (P := y = y)), decide_False. Qed.

Lemma pdouble_padd p : pdouble p = padd p p.
Proof. destruct p as [[x y]|]; [|done]. unfold padd. by rewrite !decide_True. Qed.

Lemma same_x x y1 y2 : on_curve (Some (x, y1)) → on_curve (Some (x, y2)) → y1 ≠ y2 → y1 = Zmod.opp y2.
Proof.
  cbn. intros H1 H2 Hne. assert ((y1 - y2) * (y1 + y2) = 0) as [E%F_sub_zero|E]%F_mul_zero; [ring [H1 H2]|done|].
  transitivity (y1 + y2 - y2); [ring|rewrite E; ring].
Qed.

Lemma F_opp_ne y : y ≠ 0 → y ≠ Zmod.opp y.
Proof.
  intros Hy E. assert (2 * y = 0) as [H|H]%F_mul_zero; [|by apply two_nonzero|done].
  transitivity (y + y); [ring|]. rewrite E at 1. ring.
Qed.

Lemma padd_popp p : on_curve p → padd p (popp p) = None.
Proof.
  destruct p as [[x y]|]; [|done]. intros Hy%y_nonzero%F_opp_ne. unfold padd. cbn. by rewrite decide_True, decide_False.
Qed.

Lemma popp_popp p : popp (popp p) = p.
Proof. destruct p as [[x y]|]; [|done]. cbn. do 2 f_equal. ring. Qed.

Lemma padd_comm p q : on_curve p → on_curve q → padd p q = padd q p.
Proof.
  destruct p as [[x1 y1]|], q as [[x2 y2]|]; [|done..]. intros Hp Hq. destruct (decide (x1 = x2)) as [->|Hx].
  - unfold padd. rewrite !(decide_True (P := x2 = x2)) by done. destruct (decide (y1 = y2)) as [->|]; [by rewrite decide_True|]. by rewrite decide_False by congruence.
  - rewrite !padd_chord by done. pose proof (F_sub_nonzero _ _ Hx). pose proof (F_sub_nonzero _ _ (not_eq_sym Hx)). unfold chord. f_equal. f_equal; field; done.
Qed.

Lemma popp_padd p q : popp (padd p q) = padd (popp p) (popp q).
Proof.
  destruct p as [[x1 y1]|], q as [[x2 y2]|]; [|done..]. cbn [popp]. unfold padd. destruct (decide (x1 = x2)) as [->|Hx].
  - destruct (decide (y1 = y2)) as [->|Hy]; [rewrite decide_True by done|rewrite decide_False; [done|]].
    + cbn [pdouble]. destruct (decide (y2 = 0)) as [->|Hy]; [by rewrite decide_True by ring|].
      pose proof (F_opp_nonzero _ Hy).
      rewrite decide_False by done. pose proof two_nonzero. unfold chord. cbn. do 2 f_equal; field; done.
    + intros E. apply Hy. transitivity (Zmod.opp (Zmod.opp y1)); [ring|rewrite E; ring].
  - pose proof (F_sub_nonzero _ _ Hx). unfold chord. cbn. do 2 f_equal; field; done.
Qed.

(** ** Subtraction undoes addition *)

(** The line through a sum and the negation of one summand is the mirrored line. *)
Lemma chord_back x1 y1 x2 l : ∀ x3 y3, chord x1 y1 x2 l = Some (x3, y3) → chord x3 y3 x1 (Zmod.opp l) = Some (x2, l * (x2 - x1) + y1).
Proof. intros x3 y3 [= <- <-]. unfold chord. do 2 f_equal; ring. Qed.

Lemma chord_minus x1 y1 x2 l x3 y3 :
  chord x1 y1 x2 l = Some (x3, y3) → x3 ≠ x1 → padd (Some (x3, y3)) (Some (x1, Zmod.opp y1)) = Some (x2, l * (x2 - x1) + y1).
Proof.
  intros E Hx. rewrite padd_chord, <- (chord_back _ _ _ _ _ _ E) by done. f_equal. apply F_sub_nonzero in Hx. injection E as <- <-. field. done.
Qed.

(** If the third point is below the first one, the line is a tangent there. *)
Lemma chord_tangent x1 y1 x2 y2 :
  on_curve (Some (x1, y1)) → on_curve (Some (x2, y2)) → x1 ≠ x2 → let l := (y2 - y1) / (x2 - x1) in
  l * l - x1 - x2 = x1 → l = (3 * x1 * x1) / (2 * y1).
Proof.
  intros H1 H2 Hx l Hl. pose proof (y_nonzero _ _ H1) as Hy. pose proof two_nonzero. pose proof (F_sub_nonzero _ _ Hx) as Hd. cbn in H1, H2.
  apply (F_cancel _ _ (2 * y1)); [by apply F_mul_nonzero|]. apply (F_cancel _ _ (x2 - x1)); [done|].
  transitivity (3 * x1 * x1 * (x2 - x1)); [|field; done]. assert (l * (x2 - x1) = y2 - y1) as Hc by (unfold l; field; done).
  assert (l * l = 2 * x1 + x2) as Hll. { transitivity (l * l - x1 - x2 + x1 + x2); [ring|rewrite Hl; ring]. }
  transitivity ((l * (x2 - x1)) * (2 * y1 + l * (x2 - x1)) - l * l * (x2 - x1) * (x2 - x1)); [ring|]. rewrite Hc, Hll. ring [H1 H2].
Qed.

Lemma padd_minus p q : on_curve p → on_curve q → padd (padd p q) (popp p) = q.
Proof.
  destruct p as [[x1 y1]|]; [|by intros _ _; rewrite padd_none_r]. destruct q as [[x2 y2]|]; [|intros Hp _; rewrite padd_none_r; by apply padd_popp].
  intros Hp Hq. destruct (decide (x1 = x2)) as [->|Hx]; [destruct (decide (y1 = y2)) as [->|Hy]|].
  - rewrite padd_tangent by done. destruct (chord _ _ _ _) as [[x3 y3]|] eqn:E; [|done]. cbn [popp]. destruct (decide (x3 = x2)) as [->|Hx3].
    + assert (y3 = Zmod.opp y2) as -> by (injection E as E1 <-; rewrite E1; ring). rewrite padd_tangent by by apply opp_on_curve.
      pose proof (y_nonzero _ _ Hq) as Hy. pose proof two_nonzero. pose proof (F_opp_nonzero _ Hy).
      transitivity (popp (Some (x2, Zmod.opp y2))); [rewrite <- E; unfold chord; cbn; do 2 f_equal; field; done|cbn; do 2 f_equal; ring].
    + rewrite (chord_minus _ _ _ _ _ _ E) by done. do 2 f_equal. ring.
  - assert (padd (Some (x2, y1)) (Some (x2, y2)) = None) as ->. { unfold padd. by rewrite decide_True, decide_False. }
    rewrite (same_x _ _ _ Hp Hq Hy). cbn. do 2 f_equal. ring.
  - rewrite padd_chord by done. pose proof (F_sub_nonzero _ _ Hx). destruct (chord _ _ _ _) as [[x3 y3]|] eqn:E; [|done]. cbn [popp].
    assert (Some (x2, (y2 - y1) / (x2 - x1) * (x2 - x1) + y1) = Some (x2, y2)) as Hq2 by (do 2 f_equal; field; done).
    destruct (decide (x3 = x1)) as [->|Hx3]; [|by rewrite (chord_minus _ _ _ _ _ _ E)].
    rewrite <- Hq2, <- (chord_back _ _ _ _ _ _ E). unfold chord in E. injection E as Ex Ey. rewrite Ex in Ey.
    assert (y3 = Zmod.opp y1) as -> by (rewrite <- Ey; ring). rewrite padd_tangent by by apply opp_on_curve.
    pose proof (y_nonzero _ _ Hp). pose proof two_nonzero. pose proof (F_opp_nonzero y1).
    f_equal. rewrite (chord_tangent x1 y1 x2 y2) by done. field. auto.
Qed.

(** ** Associativity

    Where no two operands of a sum have the same x-coordinate, both sides are rational
    functions and equal by the equations of the curve.  Three more computations have a
    tangent in one or two places; subtraction settles the rest. *)

(** [P <> 0] where [H] says that the quotient of [P] by [d * d] is not zero. *)
Ltac by_quotient H d :=
  let E := fresh in intros E; apply H;
  match type of E with ?P = _ => transitivity (P / (d * d)); [field; auto|rewrite E; field; auto] end.

Section Computations.
Context (x1 y1 x2 y2 x3 y3 : F).
Context (H1 : y1 * y1 = x1 * x1 * x1 + 7) (H2 : y2 * y2 = x2 * x2 * x2 + 7) (H3 : y3 * y3 = x3 * x3 * x3 + 7).

Let l12 : F := (y2 - y1) / (x2 - x1).
Let x12 : F := l12 * l12 - x1 - x2.
Let y12 : F := l12 * (x1 - x12) - y1.
Let l23 : F := (y3 - y2) / (x3 - x2).
Let x23 : F := l23 * l23 - x2 - x3.
Let y23 : F := l23 * (x2 - x23) - y2.

Lemma chords_assoc : x2 - x1 ≠ 0 → x3 - x2 ≠ 0 → x3 - x12 ≠ 0 → x23 - x1 ≠ 0 →
  chord x12 y12 x3 ((y3 - y12) / (x3 - x12)) = chord x1 y1 x23 ((y23 - y1) / (x23 - x1)).
Proof.
  intros D12 D23 DL DR. subst y12 x12 l12 y23 x23 l23. unfold chord.
  do 2 f_equal; (field [H1 H2 H3]; split; [done|]; split; [by_quotient DR (x3 - x2)|]; split; [done|by_quotient DL (x2 - x1)]).
Qed.

Let l11 : F := (3 * x1 * x1) / (2 * y1).
Let x11 : F := l11 * l11 - x1 - x1.
Let y11 : F := l11 * (x1 - x11) - y1.
Let l13 : F := (y3 - y1) / (x3 - x1).
Let x13 : F := l13 * l13 - x1 - x3.
Let y13 : F := l13 * (x1 - x13) - y1.

Lemma tangent_first_assoc : y1 ≠ 0 → x3 - x1 ≠ 0 → x3 - x11 ≠ 0 → x13 - x1 ≠ 0 →
  chord x11 y11 x3 ((y3 - y11) / (x3 - x11)) = chord x1 y1 x13 ((y13 - y1) / (x13 - x1)).
Proof.
  intros Dy D13 DL DR. pose proof two_nonzero as D2. subst y11 x11 l11 y13 x13 l13. unfold chord.
  do 2 f_equal; (field [H1 H3]; split; [done|]; split; [by_quotient DR (x3 - x1)|]; split; [done|]; split; [done|by_quotient DL (2 * y1)]).
Qed.

(** The double of the first point is the sum of its sum and its difference with the second. *)
Let lm : F := (Zmod.opp y2 - y1) / (x2 - x1).
Let xm : F := lm * lm - x1 - x2.
Let ym : F := lm * (x1 - xm) - y1.

Lemma tangent_sum_assoc : x2 - x1 ≠ 0 → y1 ≠ 0 → x12 - xm ≠ 0 →
  chord x1 y1 x1 l11 = chord xm ym x12 ((y12 - ym) / (x12 - xm)).
Proof.
  intros D12 Dy DR. pose proof two_nonzero. subst xm ym lm y12 x12 l12 l11. unfold chord.
  do 2 f_equal; (field [H1 H2]; split; [done|]; split; [by_quotient DR (x2 - x1)|done]).
Qed.
End Computations.

Create HintDb curve.
#[export] Hint Resolve padd_on_curve popp_on_curve : curve.

Lemma x_differs x1 y1 x2 y2 : on_curve (Some (x1, y1)) → on_curve (Some (x2, y2)) → Some (x1, y1) ≠ Some (x2, y2) → Some (x1, y1) ≠ popp (Some (x2, y2)) → x1 ≠ x2.
Proof.
  intros H1 H2 Hne Hopp ->. apply Hopp. cbn. do 2 f_equal. apply (same_x x2); [done..|]. intros ->. done.
Qed.

Lemma popp_ne p : on_curve p → p ≠ None → p ≠ popp p.
Proof. destruct p as [[x y]|]; [|done]. intros Hy%y_nonzero%F_opp_ne _ [= E]. done. Qed.

Lemma padd_cancel p q r : on_curve p → on_curve q → on_curve r → padd p q = padd p r → q = r.
Proof. intros Hp Hq Hr E. rewrite <- (padd_minus p q), <- (padd_minus p r) by done. by rewrite E. Qed.

(** Doubling a point, through any other point. *)
Lemma double_sum c b : on_curve c → on_curve b → padd (padd c (popp b)) (padd c b) = padd c c.
Proof.
  intros Hc Hb. destruct c as [[x1 y1]|]; [|rewrite (padd_comm (popp b)); by auto using padd_popp with curve].
  destruct b as [[x2 y2]|]; [|done]. set (c := Some (x1, y1)) in *. set (b := Some (x2, y2)) in *.
  destruct (decide (c = b)) as [->|Hne]; [by rewrite padd_popp|].
  destruct (decide (c = popp b)) as [E|Hopp]. { assert (b = popp c) as -> by (by rewrite E, popp_popp). by rewrite popp_popp, padd_popp, padd_none_r. }
  pose proof (x_differs _ _ _ _ Hc Hb Hne Hopp) as Hx. pose proof (padd_on_curve _ _ Hc Hb) as Hs. pose proof (padd_on_curve _ _ Hc (popp_on_curve _ Hb)) as Hd.
  assert (padd c (popp b) ≠ padd c b) as Hne'. { intros E%padd_cancel; [|by auto with curve..]. by apply (popp_ne b). }
  assert (padd c (popp b) ≠ popp (padd c b)) as Hopp'.
  { rewrite popp_padd, !(padd_comm _ (popp b)) by auto with curve. intros E%padd_cancel; [|by auto with curve..]. by apply (popp_ne c). }
  revert Hne' Hopp' Hs Hd. unfold c, b. cbn [popp]. rewrite padd_tangent, !padd_chord by done. intros Hne' Hopp' Hs Hd. unfold chord at 1 2.
  rewrite padd_chord by (by apply (x_differs _ _ _ _ Hd Hs)). symmetry. apply (tangent_sum_assoc x1 y1 x2 y2); [done..| | |].
  - by apply F_sub_nonzero.
  - by apply (y_nonzero _ _ Hc).
  - by apply F_sub_nonzero, (x_differs _ _ _ _ Hd Hs).
Qed.

Lemma minus_padd p q : on_curve p → on_curve q → padd (padd p q) (popp q) = p.
Proof. intros Hp Hq. rewrite (padd_comm p q) by done. by apply padd_minus. Qed.

(** [(p + q) + (p + q) = p + (q + (p + q))]. *)
Lemma assoc_sum p q : on_curve p → on_curve q → padd (padd p q) (padd p q) = padd p (padd q (padd p q)).
Proof.
  intros Hp Hq. rewrite <- (double_sum _ q) by auto with curve. rewrite minus_padd by done. by rewrite (padd_comm q) by auto with curve.
Qed.

Lemma not_opp_sum p q r : on_curve p → on_curve q → on_curve r → padd q r = popp p → r = popp (padd p q).
Proof.
  intros Hp Hq Hr E. apply (padd_cancel q); [by auto with curve..|]. rewrite E, popp_padd, (padd_comm q) by auto with curve.
  by rewrite <- (popp_popp q) at 2; rewrite minus_padd by auto with curve.
Qed.

(** Where subtraction settles the matter: two operands cancel. *)
Lemma assoc_cancel p q r :
  on_curve p → on_curve q → on_curve r → q = popp p ∨ r = popp q ∨ r = popp (padd p q) → padd (padd p q) r = padd p (padd q r).
Proof.
  intros Hp Hq Hr [->|[->|E]].
  - rewrite padd_popp, (padd_comm p) by auto with curve. rewrite <- (popp_popp p) at 2. by rewrite padd_minus by auto with curve.
  - by rewrite minus_padd, padd_popp, padd_none_r by auto with curve.
  - assert (padd q r = popp p) as ->.
    { rewrite E, popp_padd, (padd_comm q) by auto with curve. rewrite <- (popp_popp q) at 2. by rewrite minus_padd by auto with curve. }
    by rewrite E, !padd_popp by auto with curve.
Qed.

(** [(p + p) + r = p + (p + r)]. *)
Lemma assoc_double p r : on_curve p → on_curve r → padd (padd p p) r = padd p (padd p r).
Proof.
  intros Hp Hr. destruct p as [[x1 y1]|] eqn:Ep; [|done]. destruct r as [[x3 y3]|] eqn:Er; [|by rewrite !padd_none_r]. rewrite <- Ep, <- Er in *.
  destruct (decide (p = r)) as [->|Hne]; [by apply padd_comm; auto with curve|].
  destruct (decide (r = popp p)) as [|Hopp]; [by apply assoc_cancel; auto|]. destruct (decide (r = popp (padd p p))) as [|Hopp2]; [by apply assoc_cancel; auto|].
  destruct (decide (r = padd p p)) as [->|Hne2]; [by apply assoc_sum|].
  assert (p ≠ popp r) as Hopp' by (intros E; by rewrite E, popp_popp in Hopp).
  assert (padd p r ≠ p) as H1. { rewrite <- (padd_none_r p) at 2. intros E%padd_cancel; [by subst|by auto..]. }
  assert (padd p r ≠ popp p) as H2. { intros E. by apply Hopp2, not_opp_sum. }
  pose proof (padd_on_curve _ _ Hp Hp) as Hpp. pose proof (padd_on_curve _ _ Hp Hr) as Hpr.
  assert (padd p p ≠ popp r) as H3 by (intros E; by rewrite E, popp_popp in Hopp2). apply not_eq_sym in Hne2.
  subst p r. pose proof (x_differs _ _ _ _ Hp Hr Hne Hopp') as Hx. revert H1 H2 H3 Hne2 Hpp Hpr. rewrite padd_tangent, padd_chord by done. unfold chord.
  intros H1 H2 H3 Hne2 Hpp Hpr. pose proof (x_differs _ _ _ _ Hpp Hr Hne2 H3) as HL. pose proof (x_differs _ _ _ _ Hpr Hp H1 H2) as HR.
  rewrite !padd_chord by auto. by apply (tangent_first_assoc x1 y1 x3 y3); [| |apply (y_nonzero _ _ Hp)|apply F_sub_nonzero..].
Qed.

Theorem padd_assoc p q r : on_curve p → on_curve q → on_curve r → padd (padd p q) r = padd p (padd q r).
Proof.
  intros Hp Hq Hr. destruct (decide (p = q)) as [->|Npq]; [by apply assoc_double|].
  destruct (decide (q = r)) as [->|Nqr].
  { rewrite (padd_comm _ r), (padd_comm p r), <- assoc_double by auto with curve. by apply padd_comm; auto with curve. }
  destruct (decide (r = padd p q)) as [->|Nr]; [by apply assoc_sum|].
  destruct (decide (p = padd q r)) as [E|Np].
  { rewrite (padd_comm _ r), (padd_comm p q) by auto with curve. rewrite <- E. rewrite E at 1. rewrite (padd_comm q r), <- assoc_sum by auto.
    by rewrite E, (padd_comm q r). }
  destruct (decide (q = popp p)); [by apply assoc_cancel; auto|]. destruct (decide (r = popp q)); [by apply assoc_cancel; auto|].
  destruct (decide (r = popp (padd p q))) as [|Nor]; [by apply assoc_cancel; auto|].
  destruct p as [[x1 y1]|] eqn:Ep; [|done]. destruct q as [[x2 y2]|] eqn:Eq; [|done]. destruct r as [[x3 y3]|] eqn:Er; [|by rewrite !padd_none_r].
  rewrite <- Ep, <- Eq, <- Er in *.
  assert (padd q r ≠ popp p) as H1 by (intros E; by apply Nor, not_opp_sum). assert (padd p q ≠ popp r) as H2 by (intros E; by rewrite E, popp_popp in Nor).
  assert (p ≠ popp q) as H3 by (intros E; by rewrite E, popp_popp in *). assert (q ≠ popp r) as H4 by (intros E; by rewrite E, popp_popp in *).
  apply not_eq_sym in Np, Nr. pose proof (padd_on_curve _ _ Hp Hq) as Hpq. pose proof (padd_on_curve _ _ Hq Hr) as Hqr. subst p q r.
  pose proof (x_differs _ _ _ _ Hp Hq Npq H3) as Hx12. pose proof (x_differs _ _ _ _ Hq Hr Nqr H4) as Hx23.
  revert H1 H2 Np Nr Hpq Hqr. rewrite !padd_chord by done. unfold chord. intros H1 H2 Np Nr Hpq Hqr.
  pose proof (x_differs _ _ _ _ Hpq Hr Nr H2) as HL. pose proof (x_differs _ _ _ _ Hqr Hp Np H1) as HR.
  rewrite !padd_chord by auto. by apply (chords_assoc x1 y1 x2 y2 x3 y3); [| | |apply F_sub_nonzero..].
Qed.
