(* ===== verification/SigHash.v ===== *)
(** * What a signature of a transaction signs (bitcoin/txscript: hashcache.go, script.go, sign.go)

    The digests of BIP 143 with their cached parts, and the original digest.
    The private key and the encoding of keys and signatures (crypto/btcec) are
    parameters.  Indices of inputs are natural numbers. *)

From Stdlib Require Import ZArith Lia.
From S2P Require Import Prelude Buffers Sha256 Crypto Utils WireCommon BtcWire Script.

Local Open Scope Z_scope.

Definition SigHashOld : Z := 0x0.
Definition SigHashAll : Z := 0x1.
Definition SigHashNone : Z := 0x2.
Definition SigHashSingle : Z := 0x3.
Definition SigHashAnyOneCanPay : Z := 0x80.
Definition sigHashMask : Z := 0x1f.

(** What the code relies on of [btcec.PrivateKey]. *)
Record PrivateKey := MkPrivateKey {
  key_sign : bytes → outcome bytes;      (** [Sign] and [Signature.Serialize] *)
  key_compressed : bytes;                (** [PublicKey.SerializeCompressed] *)
  key_uncompressed : bytes
}.

Section SigHash.
Context `{HashFunction}.

(** ** BIP 143 *)

Record TxSigHashes := MkTxSigHashes { HashPrevOuts : bytes; HashSequence : bytes; HashOutputs : bytes }.

Definition calcHashPrevOuts (tx : MsgTx) : bytes :=
  DoubleHashH (concat (map (λ ti, Hash (PreviousOutPoint ti) ++ le_bytes 4 (op_Index (PreviousOutPoint ti))) (tx_TxIn tx))).
Definition calcHashSequence (tx : MsgTx) : bytes := DoubleHashH (concat (map (λ ti, le_bytes 4 (Sequence ti)) (tx_TxIn tx))).
Definition calcHashOutputs (tx : MsgTx) : bytes := DoubleHashH (concat (map WriteTxOut (tx_TxOut tx))).

Definition NewTxSigHashes (tx : MsgTx) : TxSigHashes :=
  MkTxSigHashes (calcHashPrevOuts tx) (calcHashSequence tx) (calcHashOutputs tx).

(** [h[k] = v], [h[k]] and [delete(h, k)] of the map of [HashCache]. *)
Definition AddSigHashes (h : gmap bytes TxSigHashes) (tx : MsgTx) : gmap bytes TxSigHashes :=
  <[TxHash_go tx := NewTxSigHashes tx]> h.
Definition ContainsHashes (h : gmap bytes TxSigHashes) (txid : bytes) : bool := bool_decide (is_Some (h !! txid)).
Definition GetSigHashes (h : gmap bytes TxSigHashes) (txid : bytes) : option TxSigHashes := h !! txid.
Definition PurgeSigHashes (h : gmap bytes TxSigHashes) (txid : bytes) : gmap bytes TxSigHashes := delete txid h.

(** The script code of the digest. *)
Definition script_code (subScript : list parsedOpcode) : bytes :=
  match subScript with
  | [_; d] =>
      if isWitnessPubKeyHash subScript
      then [x19; Z_byte OP_DUP; Z_byte OP_HASH160; Z_byte OP_DATA_20] ++ po_data d ++ [Z_byte OP_EQUALVERIFY; Z_byte OP_CHECKSIG]
      else WriteVarBytes (returned (unparseScript subScript))
  | _ => WriteVarBytes (returned (unparseScript subScript))
  end.

Definition witness_preimage (subScript : list parsedOpcode) (sigHashes : TxSigHashes) (hashType : Z) (tx : MsgTx)
  (idx : nat) (txIn : TxIn) (amt : Z) : bytes :=
  let zeroHash := zeros 32 in
  let any := negb (bool_decide (Z.land hashType SigHashAnyOneCanPay = 0)) in
  le_bytes 4 (u32 (tx_Version tx)) ++
  (if any then zeroHash else HashPrevOuts sigHashes) ++
  (if negb any && negb (bool_decide (Z.land hashType sigHashMask = SigHashSingle)) &&
      negb (bool_decide (Z.land hashType sigHashMask = SigHashNone))
   then HashSequence sigHashes else zeroHash) ++
  Hash (PreviousOutPoint txIn) ++ le_bytes 4 (op_Index (PreviousOutPoint txIn)) ++
  script_code subScript ++
  le_bytes 8 (u64 amt) ++ le_bytes 4 (Sequence txIn) ++
  (if negb (bool_decide (Z.land hashType SigHashSingle = SigHashSingle)) &&
      negb (bool_decide (Z.land hashType SigHashNone = SigHashNone))
   then HashOutputs sigHashes
   else
     match tx_TxOut tx !! idx with
     | Some out =>
         if bool_decide (Z.land hashType sigHashMask = SigHashSingle) then DoubleHashB (WriteTxOut out) else zeroHash
     | None => zeroHash
     end) ++
  le_bytes 4 (LockTime tx) ++ le_bytes 4 hashType.

Definition calcWitnessSignatureHash (subScript : list parsedOpcode) (sigHashes : TxSigHashes) (hashType : Z) (tx : MsgTx)
  (idx : nat) (amt : Z) : outcome bytes :=
  match tx_TxIn tx !! idx with
  | None => Err "idx is larger than the number of txins"
  | Some txIn => mret (DoubleHashB (witness_preimage subScript sigHashes hashType tx idx txIn amt))
  end.

Definition CalcWitnessSigHash (script : bytes) (sigHashes : TxSigHashes) (hType : Z) (tx : MsgTx) (idx : nat) (amt : Z) :
  outcome bytes :=
  let '(parsedScript, err) := parseScript script in
  match err with
  | Some e => Err ("cannot parse output script: " +:+ e)
  | None => calcWitnessSignatureHash parsedScript sigHashes hType tx idx amt
  end.

(** ** The original digest *)

Definition set_script (ti : TxIn) (s : bytes) : TxIn := MkTxIn (PreviousOutPoint ti) s (Witness ti) (Sequence ti).
Definition set_sequence (ti : TxIn) (q : Z) : TxIn := MkTxIn (PreviousOutPoint ti) (SignatureScript ti) (Witness ti) q.

(** [f] at every index but [idx]. *)
Definition others {A} (idx : nat) (f : A → A) (l : list A) : list A := imap (λ i a, if bool_decide (i = idx) then a else f a) l.

Definition calcSignatureHash (script : list parsedOpcode) (hashType : Z) (tx : MsgTx) (idx : nat) : outcome bytes :=
  let kind := Z.land hashType sigHashMask in
  if bool_decide (kind = SigHashSingle) && bool_decide (length (tx_TxOut tx) ≤ idx)%nat then mret (x01 :: zeros 31)
  else
    let script := removeOpcode script OP_CODESEPARATOR in
    let sigScript := returned (unparseScript script) in
    let ins := imap (λ i ti, if bool_decide (i = idx) then set_script ti sigScript else set_script ti []) (tx_TxIn tx) in
    let outs := tx_TxOut tx in
    let '(ins, outs) :=
      if bool_decide (kind = SigHashNone) then (others idx (λ ti, set_sequence ti 0) ins, [])
      else if bool_decide (kind = SigHashSingle) then
        (others idx (λ ti, set_sequence ti 0) ins, others idx (λ _, MkTxOut (-1) []) (take (S idx) outs))
      else (ins, outs) in
    ins ← (if negb (bool_decide (Z.land hashType SigHashAnyOneCanPay = 0)) then
             match ins !! idx with Some ti => mret [ti] | None => Panic "slice bounds out of range" end
           else mret ins);
    let txCopy := MkMsgTx (tx_Version tx) ins outs (LockTime tx) in
    mret (DoubleHashB (SerializeNoWitness txCopy ++ le_bytes 4 hashType)).

Definition CalcSignatureHash (script : bytes) (hashType : Z) (tx : MsgTx) (idx : nat) : outcome bytes :=
  let '(parsedScript, err) := parseScript script in
  match err with
  | Some e => Err ("cannot parse output script: " +:+ e)
  | None => calcSignatureHash parsedScript hashType tx idx
  end.

(** ** Signing *)

Definition sign_hash (key : PrivateKey) (hash : bytes) (hashType : Z) : outcome bytes :=
  match key_sign key hash with
  | Ret signature => mret (signature ++ [Z_byte (u8 hashType)])
  | Err e => Err ("cannot sign tx input: " +:+ e)
  | Panic e => Panic e
  end.

Definition RawTxInWitnessSignature (tx : MsgTx) (sigHashes : TxSigHashes) (idx : nat) (amt : Z) (subScript : bytes)
  (hashType : Z) (key : PrivateKey) : outcome bytes :=
  hash ← CalcWitnessSigHash subScript sigHashes hashType tx idx amt;
  sign_hash key hash hashType.

Definition pk_data (key : PrivateKey) (compress : bool) : bytes := if compress then key_compressed key else key_uncompressed key.

Definition WitnessSignature (tx : MsgTx) (sigHashes : TxSigHashes) (idx : nat) (amt : Z) (subscript : bytes)
  (hashType : Z) (privKey : PrivateKey) (compress : bool) : outcome (list bytes) :=
  sig ← RawTxInWitnessSignature tx sigHashes idx amt subscript hashType privKey;
  mret [sig; pk_data privKey compress].

Definition RawTxInSignature (tx : MsgTx) (idx : nat) (subScript : bytes) (hashType : Z) (key : PrivateKey) : outcome bytes :=
  hash ← CalcSignatureHash subScript hashType tx idx;
  sign_hash key hash hashType.

(** The script and the error of [ScriptBuilder.Script]. *)
Definition built (b : ScriptBuilder) : outcome bytes :=
  match sb_err b with None => mret (sb_script b) | Some e => Err e end.

Definition SignatureScript_go (tx : MsgTx) (idx : nat) (subscript : bytes) (hashType : Z) (privKey : PrivateKey) (compress : bool) :
  outcome bytes :=
  sig ← RawTxInSignature tx idx subscript hashType privKey;
  built (AddData (AddData NewScriptBuilder sig) (pk_data privKey compress)).

Definition p2pkSignatureScript (tx : MsgTx) (idx : nat) (subScript : bytes) (hashType : Z) (privKey : PrivateKey) : outcome bytes :=
  sig ← RawTxInSignature tx idx subScript hashType privKey;
  built (AddData NewScriptBuilder sig).
End SigHash.
