(* ===== verification/Stack.v ===== *)
(** * The stacks of the script engine (bitcoin/txscript/stack.go)

    A stack is the list of its items, the top one first.  The operations
    return the new stack with their result; after an error nobody looks at the
    stack.  Items are shared in the code but never written to. *)

From Stdlib Require Import ZArith Lia.
From S2P Require Import Prelude Buffers Utils WireCommon BtcWire Script.

Local Open Scope Z_scope.

Abbreviation stack := (list bytes).

Definition ErrInvalidStackOperation : string := "invalid stack operation".

(** A value is false if all its bytes are zero, but for the sign of the last. *)
Fixpoint asBool (t : bytes) : bool :=
  match t with
  | [] => false
  | x :: t =>
      if bool_decide (byte_Z x = 0) then asBool t
      else match t with [] => negb (bool_decide (byte_Z x = 0x80)) | _ => true end
  end.

Definition fromBool (v : bool) : bytes := if v then [x01] else [].

Definition Depth (s : stack) : Z := len s.

Definition PushByteArray (so : bytes) (s : stack) : stack := so :: s.
Definition PushInt (val : Z) (s : stack) : outcome stack := b ← scriptNum_Bytes val; mret (PushByteArray b s).
Definition PushBool (val : bool) (s : stack) : stack := PushByteArray (fromBool val) s.

Definition nipN (idx : Z) (s : stack) : outcome (bytes * stack) :=
  if bool_decide (idx < 0) then Err ErrInvalidStackOperation
  else match s !! Z.to_nat idx with
       | Some so => mret (so, delete (Z.to_nat idx) s)
       | None => Err ErrInvalidStackOperation
       end.

Definition PopByteArray (s : stack) : outcome (bytes * stack) := nipN 0 s.

Definition PopInt (verifyMinimalData : bool) (s : stack) : outcome (Z * stack) :=
  '(so, s) ← PopByteArray s;
  n ← makeScriptNum so verifyMinimalData defaultScriptNumLen;
  mret (n, s).

Definition PopBool (s : stack) : outcome (bool * stack) := '(so, s) ← PopByteArray s; mret (asBool so, s).

Definition PeekByteArray (idx : Z) (s : stack) : outcome bytes :=
  if bool_decide (idx < 0) then Err ErrInvalidStackOperation
  else match s !! Z.to_nat idx with
       | Some so => mret so
       | None => Err ErrInvalidStackOperation
       end.

Definition PeekInt (verifyMinimalData : bool) (idx : Z) (s : stack) : outcome Z :=
  so ← PeekByteArray idx s;
  makeScriptNum so verifyMinimalData defaultScriptNumLen.

Definition PeekBool (idx : Z) (s : stack) : outcome bool := so ← PeekByteArray idx s; mret (asBool so).

Definition NipN (idx : Z) (s : stack) : outcome stack := '(_, s) ← nipN idx s; mret s.

Definition Tuck (s : stack) : outcome stack :=
  '(so2, s) ← PopByteArray s;
  '(so1, s) ← PopByteArray s;
  mret (PushByteArray so2 (PushByteArray so1 (PushByteArray so2 s))).

(** [n] times [f], in the loops that count down. *)
Fixpoint times (n : nat) (f : stack → outcome stack) (s : stack) : outcome stack :=
  match n with
  | O => mret s
  | S n => s ← f s; times n f s
  end.

(** The loops need a positive count. *)
Definition counted (n : Z) (f : stack → outcome stack) (s : stack) : outcome stack :=
  if bool_decide (n < 1) then Err ErrInvalidStackOperation else times (Z.to_nat n) f s.

(** An item copied, or moved, to the top. *)
Definition copy_up (entry : Z) (s : stack) : outcome stack := so ← PeekByteArray entry s; mret (PushByteArray so s).
Definition move_up (entry : Z) (s : stack) : outcome stack := '(so, s) ← nipN entry s; mret (PushByteArray so s).

Definition DropN (n : Z) (s : stack) : outcome stack := counted n (λ s, '(_, s) ← PopByteArray s; mret s) s.
Definition DupN (n : Z) (s : stack) : outcome stack := counted n (copy_up (n - 1)) s.
Definition RotN (n : Z) (s : stack) : outcome stack := counted n (move_up (3 * n - 1)) s.
Definition SwapN (n : Z) (s : stack) : outcome stack := counted n (move_up (2 * n - 1)) s.
Definition OverN (n : Z) (s : stack) : outcome stack := counted n (copy_up (2 * n - 1)) s.
Definition PickN (n : Z) (s : stack) : outcome stack := copy_up n s.
Definition RollN (n : Z) (s : stack) : outcome stack := move_up n s.

(** Arrays have the top item last. *)
Definition getStack (s : stack) : list bytes := rev s.
Definition setStack (s : stack) (data : list bytes) : stack :=
  foldl (λ s so, PushByteArray so s) (match DropN (Depth s) s with Ret s => s | _ => s end) data.
