(* ===== verification/Engine.v ===== *)
(** * The script engine (bitcoin/txscript: engine.go, opcode.go, sigcache.go)

    One [Definition] per opcode handler and per method of [Engine].  [vm] is
    code that works on an engine; after an error nobody looks at the engine
    again, so that an error drops the state.

    What the engine uses of crypto/btcec is the interface [Ecdsa]; the hash
    functions RIPEMD-160 and SHA-1 are not part of the repository and are
    parameters, and so is the entry that a full signature cache drops. *)

From Stdlib Require Import ZArith Lia.
From S2P Require Import Prelude Buffers Sha256 Crypto Utils WireCommon BtcWire Script SigHash Stack.

Local Open Scope Z_scope.

(** ** Keys and signatures *)

Class Ecdsa := {
  Signature : Type;
  PublicKey : Type;
  Signature_eq_dec :: EqDecision Signature;
  PublicKey_eq_dec :: EqDecision PublicKey;
  ParsePubKey : bytes → outcome PublicKey;
  ParseSignature : bytes → outcome Signature;
  ParseDERSignature : bytes → outcome Signature;
  Verify : Signature → bytes → PublicKey → bool;
}.

(** [btcec.IsCompressedPubKey]. *)
Definition IsCompressedPubKey (pubKey : bytes) : bool :=
  bool_decide (len pubKey = 33) && match pubKey with x :: _ => bool_decide (Z.ldiff (byte_Z x) 1 = 2) | [] => false end.

(** ** Constants *)

Definition ScriptBip16 : Z := Z.shiftl 1 0.
Definition ScriptStrictMultiSig : Z := Z.shiftl 1 1.
Definition ScriptDiscourageUpgradableNops : Z := Z.shiftl 1 2.
Definition ScriptVerifyCheckLockTimeVerify : Z := Z.shiftl 1 3.
Definition ScriptVerifyCheckSequenceVerify : Z := Z.shiftl 1 4.
Definition ScriptVerifyCleanStack : Z := Z.shiftl 1 5.
Definition ScriptVerifyDERSignatures : Z := Z.shiftl 1 6.
Definition ScriptVerifyLowS : Z := Z.shiftl 1 7.
Definition ScriptVerifyMinimalData : Z := Z.shiftl 1 8.
Definition ScriptVerifyNullFail : Z := Z.shiftl 1 9.
Definition ScriptVerifySigPushOnly : Z := Z.shiftl 1 10.
Definition ScriptVerifyStrictEncoding : Z := Z.shiftl 1 11.
Definition ScriptVerifyWitness : Z := Z.shiftl 1 12.
Definition ScriptVerifyDiscourageUpgradeableWitnessProgram : Z := Z.shiftl 1 13.
Definition ScriptVerifyMinimalIf : Z := Z.shiftl 1 14.
Definition ScriptVerifyWitnessPubKeyType : Z := Z.shiftl 1 15.

Definition MaxStackSize : Z := 1000.
Definition MaxOpsPerScript : Z := 201.
Definition payToWitnessPubKeyHashDataSize : Z := 20.
Definition payToWitnessScriptHashDataSize : Z := 32.
Definition LockTimeThreshold : Z := 500000000.
Definition SequenceLockTimeDisabled : Z := Z.shiftl 1 31.
Definition SequenceLockTimeIsSeconds : Z := Z.shiftl 1 22.
Definition SequenceLockTimeMask : Z := 0x0000ffff.

(** Half the order of secp256k1. *)
Definition halfOrder : Z := Z.shiftr 0xFFFFFFFFFFFFFFFFFFFFFFFFFFFFFFFEBAAEDCE6AF48A03BBFD25E8CD0364141 1.

Inductive OpCond := OpCondFalse | OpCondTrue | OpCondSkip.
#[export] Instance OpCond_eq_dec : EqDecision OpCond.
Proof. solve_decision. Defined.

(** [payToPubKeyHashScript] of standard.go; its parts fit. *)
Definition payToPubKeyHashScript (pubKeyHash : bytes) : outcome bytes :=
  let b := AddOp (AddOp NewScriptBuilder (Z_byte OP_DUP)) (Z_byte OP_HASH160) in
  built (AddOp (AddOp (AddData b pubKeyHash) (Z_byte OP_EQUALVERIFY)) (Z_byte OP_CHECKSIG)).

Section Engine.
Context `{HashFunction} `{Ecdsa} (ripemd160 sha1 : bytes → bytes).

(** ** The signature cache *)

Record SigCache := MkSigCache { validSigs : gmap bytes (Signature * PublicKey); maxEntries : Z }.

Definition NewSigCache (maxEntries : Z) : SigCache := MkSigCache ∅ maxEntries.

Definition Exists (s : SigCache) (sigHash : bytes) (sig : Signature) (pubKey : PublicKey) : bool :=
  match validSigs s !! sigHash with
  | Some (sig', pubKey') => bool_decide (pubKey' = pubKey) && bool_decide (sig' = sig)
  | None => false
  end.

(** [victim] is where the iteration over the map starts. *)
Definition Add (victim : gmap bytes (Signature * PublicKey) → bytes) (s : SigCache) (sigHash : bytes) (sig : Signature) (pubKey : PublicKey) : SigCache :=
  if bool_decide (maxEntries s <= 0) then s
  else
    let sigs := if bool_decide (Z.of_nat (size (validSigs s)) + 1 > maxEntries s)
                then delete (victim (validSigs s)) (validSigs s) else validSigs s in
    MkSigCache (<[sigHash := (sig, pubKey)]> sigs) (maxEntries s).

(** ** State *)

(** What does not change while the engine runs. *)
Record Env := MkEnv {
  e_tx : MsgTx;
  e_txIdx : nat;
  e_flags : Z;
  e_hashCache : option TxSigHashes;
  e_bip16 : bool;
  e_verifyMinimalData : bool;
  e_witnessVersion : Z;
  e_inputAmount : Z
}.

Record Engine := MkEngine {
  env : Env;
  scripts : list (list parsedOpcode);
  scriptIdx : nat;
  scriptOff : nat;
  lastCodeSep : nat;
  dstack : stack;
  astack : stack;
  condStack : list OpCond;             (** innermost first *)
  numOps : Z;
  sigCache : option SigCache;
  savedFirstStack : list bytes;
  witnessProgram : option bytes        (** [None] is nil *)
}.

Definition set_scripts x vm := MkEngine (env vm) x (scriptIdx vm) (scriptOff vm) (lastCodeSep vm) (dstack vm) (astack vm) (condStack vm) (numOps vm) (sigCache vm) (savedFirstStack vm) (witnessProgram vm).
Definition set_scriptIdx x vm := MkEngine (env vm) (scripts vm) x (scriptOff vm) (lastCodeSep vm) (dstack vm) (astack vm) (condStack vm) (numOps vm) (sigCache vm) (savedFirstStack vm) (witnessProgram vm).
Definition set_scriptOff x vm := MkEngine (env vm) (scripts vm) (scriptIdx vm) x (lastCodeSep vm) (dstack vm) (astack vm) (condStack vm) (numOps vm) (sigCache vm) (savedFirstStack vm) (witnessProgram vm).
Definition set_lastCodeSep x vm := MkEngine (env vm) (scripts vm) (scriptIdx vm) (scriptOff vm) x (dstack vm) (astack vm) (condStack vm) (numOps vm) (sigCache vm) (savedFirstStack vm) (witnessProgram vm).
Definition set_dstack x vm := MkEngine (env vm) (scripts vm) (scriptIdx vm) (scriptOff vm) (lastCodeSep vm) x (astack vm) (condStack vm) (numOps vm) (sigCache vm) (savedFirstStack vm) (witnessProgram vm).
Definition set_astack x vm := MkEngine (env vm) (scripts vm) (scriptIdx vm) (scriptOff vm) (lastCodeSep vm) (dstack vm) x (condStack vm) (numOps vm) (sigCache vm) (savedFirstStack vm) (witnessProgram vm).
Definition set_condStack x vm := MkEngine (env vm) (scripts vm) (scriptIdx vm) (scriptOff vm) (lastCodeSep vm) (dstack vm) (astack vm) x (numOps vm) (sigCache vm) (savedFirstStack vm) (witnessProgram vm).
Definition set_numOps x vm := MkEngine (env vm) (scripts vm) (scriptIdx vm) (scriptOff vm) (lastCodeSep vm) (dstack vm) (astack vm) (condStack vm) x (sigCache vm) (savedFirstStack vm) (witnessProgram vm).
Definition set_sigCache x vm := MkEngine (env vm) (scripts vm) (scriptIdx vm) (scriptOff vm) (lastCodeSep vm) (dstack vm) (astack vm) (condStack vm) (numOps vm) x (savedFirstStack vm) (witnessProgram vm).
Definition set_savedFirstStack x vm := MkEngine (env vm) (scripts vm) (scriptIdx vm) (scriptOff vm) (lastCodeSep vm) (dstack vm) (astack vm) (condStack vm) (numOps vm) (sigCache vm) x (witnessProgram vm).
Definition set_witnessProgram x vm := MkEngine (env vm) (scripts vm) (scriptIdx vm) (scriptOff vm) (lastCodeSep vm) (dstack vm) (astack vm) (condStack vm) (numOps vm) (sigCache vm) (savedFirstStack vm) x.

(** ** Code on an engine *)

(** A handler returns a value and the new engine, or an error.  The engine is not used
    any more after an error, except that what was added to its signature cache, an object
    that other engines may share, stays there: this remainder of a failed script is not
    part of the result.  Each addition follows a verification that succeeded and keeps a
    sound cache sound ([Add_sound] in SigCacheTheorems), and the theorem on caches holds for
    an engine with any sound cache. *)
Definition vm (A : Type) : Type := Engine → outcome (A * Engine).

#[export] Instance vm_ret : MRet vm := λ A a e, Ret (a, e).
#[export] Instance vm_bind : MBind vm := λ A B f m e,
  match m e with
  | Ret (a, e) => f a e
  | Err x => Err x
  | Panic x => Panic x
  end.

Definition asks {A} (f : Engine → A) : vm A := λ e, Ret (f e, e).
Definition upd (f : Engine → Engine) : vm unit := λ e, Ret (tt, f e).
Definition lift {A} (m : outcome A) : vm A := λ e, match m with Ret a => Ret (a, e) | Err x => Err x | Panic x => Panic x end.
Definition fail {A} (x : string) : vm A := lift (Err x).
Definition ensure (ok : bool) (x : string) : vm unit := if ok then mret tt else fail x.

(** Operations of the data stack. *)
Definition on_dstack {A} (f : stack → outcome (A * stack)) : vm A :=
  s ← asks dstack; '(a, s) ← lift (f s); _ ← upd (set_dstack s); mret a.
Definition to_dstack (f : stack → outcome stack) : vm unit := s ← asks dstack; s ← lift (f s); upd (set_dstack s).

Definition minimal : vm bool := asks (λ e, e_verifyMinimalData (env e)).
Definition popBytes : vm bytes := on_dstack PopByteArray.
Definition popInt : vm Z := m ← minimal; on_dstack (PopInt m).
Definition popBool : vm bool := on_dstack PopBool.
Definition peekBytes (idx : Z) : vm bytes := s ← asks dstack; lift (PeekByteArray idx s).
Definition pushBytes (b : bytes) : vm unit := to_dstack (λ s, mret (PushByteArray b s)).
Definition pushInt (n : Z) : vm unit := to_dstack (PushInt n).
Definition pushBool (b : bool) : vm unit := to_dstack (λ s, mret (PushBool b s)).

Definition hasFlag (flag : Z) : vm bool := asks (λ e, bool_decide (Z.land (e_flags (env e)) flag = flag)).

Definition executing (c : list OpCond) : bool := match c with [] => true | v :: _ => bool_decide (v = OpCondTrue) end.
Definition isBranchExecuting : vm bool := asks (λ e, executing (condStack e)).

Definition isWitnessVersionActive (version : Z) : vm bool :=
  asks (λ e, match witnessProgram e with Some _ => bool_decide (e_witnessVersion (env e) = version) | None => false end).

(** [vm.tx.TxIn[vm.txIdx]]. *)
Definition current_input : vm TxIn :=
  i ← asks (λ e, tx_TxIn (e_tx (env e)) !! e_txIdx (env e));
  match i with Some ti => mret ti | None => lift (Panic out_of_range) end.

(** ** Encodings *)

Definition checkHashTypeEncoding (hashType : Z) : vm unit :=
  strict ← hasFlag ScriptVerifyStrictEncoding;
  if negb strict then mret tt
  else
    let sigHashType := Z.ldiff hashType SigHashAnyOneCanPay in
    ensure (negb (bool_decide (sigHashType < SigHashAll) || bool_decide (sigHashType > SigHashSingle))) "invalid hash type".

Definition starts_with (pubKey : bytes) (bs : list Z) : bool :=
  match pubKey with x :: _ => bool_decide (byte_Z x ∈ bs) | [] => false end.

Definition checkPubKeyEncoding (pubKey : bytes) : vm unit :=
  typed ← hasFlag ScriptVerifyWitnessPubKeyType;
  active ← isWitnessVersionActive 0;
  if typed && active && negb (IsCompressedPubKey pubKey) then fail "only uncompressed keys are accepted post-segwit"
  else
    strict ← hasFlag ScriptVerifyStrictEncoding;
    if negb strict then mret tt
    else if bool_decide (len pubKey = 33) && starts_with pubKey [0x02; 0x03] then mret tt
    else if bool_decide (len pubKey = 65) && starts_with pubKey [0x04] then mret tt
    else fail "unsupported public key type".

(** [sig[i]]. *)
Definition at_ (sig : bytes) (i : Z) : outcome Z :=
  match sig !! Z.to_nat i with Some x => mret (byte_Z x) | None => Panic out_of_range end.

Definition req (ok : bool) (x : string) : outcome unit := if ok then mret tt else Err x.

(** The checks of [checkSignatureEncoding] when a flag asks for them. *)
Definition check_der (lowS : bool) (sig : bytes) : outcome unit :=
  _ ← req (negb (bool_decide (len sig < 8))) "malformed signature: too short";
  _ ← req (negb (bool_decide (len sig > 72))) "malformed signature: too long";
  b0 ← at_ sig 0;
  _ ← req (bool_decide (b0 = 0x30)) "malformed signature: format has wrong type";
  b1 ← at_ sig 1;
  _ ← req (bool_decide (b1 = len sig - 2)) "malformed signature: bad length";
  rLen ← at_ sig 3;
  _ ← req (negb (bool_decide (rLen + 5 > len sig))) "malformed signature: S out of bounds";
  sLen ← at_ sig (rLen + 5);
  _ ← req (bool_decide (rLen + sLen + 6 = len sig)) "malformed signature: invalid R length";
  b2 ← at_ sig 2;
  _ ← req (bool_decide (b2 = 0x02)) "malformed signature: missing first integer marker";
  _ ← req (negb (bool_decide (rLen = 0))) "malformed signature: R length is zero";
  b4 ← at_ sig 4;
  _ ← req (bool_decide (Z.land b4 0x80 = 0)) "malformed signature: R value is negative";
  r0 ← (if bool_decide (rLen > 1) && bool_decide (b4 = 0) then b5 ← at_ sig 5; mret (bool_decide (Z.land b5 0x80 = 0)) else mret false);
  _ ← req (negb r0) "malformed signature: invalid R value";
  m ← at_ sig (rLen + 4);
  _ ← req (bool_decide (m = 0x02)) "malformed signature: missing second integer marker";
  _ ← req (negb (bool_decide (sLen = 0))) "malformed signature: S length is zero";
  s0 ← at_ sig (rLen + 6);
  _ ← req (bool_decide (Z.land s0 0x80 = 0)) "malformed signature: S value is negative";
  s1 ← (if bool_decide (sLen > 1) && bool_decide (s0 = 0) then b ← at_ sig (rLen + 7); mret (bool_decide (Z.land b 0x80 = 0)) else mret false);
  _ ← req (negb s1) "malformed signature: invalid S value";
  if lowS then
    let sValue := be_val (take (Z.to_nat sLen) (drop (Z.to_nat (rLen + 6)) sig)) in
    req (negb (bool_decide (sValue > halfOrder))) "signature is not canonical due to unnecessarily high S value"
  else mret tt.

Definition checkSignatureEncoding (sig : bytes) : vm unit :=
  der ← hasFlag ScriptVerifyDERSignatures;
  lowS ← hasFlag ScriptVerifyLowS;
  strict ← hasFlag ScriptVerifyStrictEncoding;
  if negb der && negb lowS && negb strict then mret tt else lift (check_der lowS sig).
End Engine.
