(* ===== verification/Opcodes.v ===== *)
(** * The opcode handlers (bitcoin/txscript/opcode.go) *)

From Stdlib Require Import ZArith Lia.
From S2P Require Import Prelude Buffers Sha256 Crypto Utils WireCommon BtcWire Script SigHash Stack Engine.

Local Open Scope Z_scope.

Section Opcodes.
Context `{HashFunction} `{Ecdsa} (ripemd160 sha1 : bytes → bytes)
  (victim : gmap bytes (Signature * PublicKey) → bytes).

(** ** Constants and control flow *)

Definition opcodeDisabled (op : parsedOpcode) : vm unit := fail "attempt to execute disabled opcode".
Definition opcodeReserved (op : parsedOpcode) : vm unit := fail "attempt to execute reserved opcode".
Definition opcodeInvalid (op : parsedOpcode) : vm unit := fail "attempt to execute invalid opcode".
Definition opcodeFalse (op : parsedOpcode) : vm unit := pushBytes [].
Definition opcodePushData (op : parsedOpcode) : vm unit := pushBytes (po_data op).
Definition opcode1Negate (op : parsedOpcode) : vm unit := pushInt (-1).
Definition opcodeN (op : parsedOpcode) : vm unit := pushInt (u8 (byte_Z (po_opcode op) - (OP_1 - 1))).

(** OP_NOP1 and OP_NOP4 to OP_NOP10. *)
Definition upgradable (v : Z) : bool := bool_decide (v = 0xb0) || bool_decide (0xb3 <= v <= 0xb9).

Definition opcodeNop (op : parsedOpcode) : vm unit :=
  discourage ← hasFlag ScriptDiscourageUpgradableNops;
  ensure (negb (upgradable (byte_Z (po_opcode op)) && discourage)) "OP_NOP reserved for soft-fork upgrades".

Definition popIfBool : vm bool :=
  active ← isWitnessVersionActive 0;
  minimalIf ← hasFlag ScriptVerifyMinimalIf;
  if negb active || negb minimalIf then popBool
  else
    so ← popBytes;
    _ ← ensure (negb (bool_decide (len so > 1))) "minimal if is active, top element MUST have a length of at least";
    _ ← ensure (match so with [x] => bool_decide (byte_Z x = 1) | _ => true end)
          "minimal if is active, top stack item MUST be an empty byte array or 0x01";
    mret (asBool so).

Definition push_cond (c : OpCond) : vm unit := upd (λ e, set_condStack (c :: condStack e) e).

Definition opcodeIf (op : parsedOpcode) : vm unit :=
  exec ← isBranchExecuting;
  if (exec : bool) then ok ← popIfBool; push_cond (if (ok : bool) then OpCondTrue else OpCondFalse)
  else push_cond OpCondSkip.

Definition opcodeNotIf (op : parsedOpcode) : vm unit :=
  exec ← isBranchExecuting;
  if (exec : bool) then ok ← popIfBool; push_cond (if (ok : bool) then OpCondFalse else OpCondTrue)
  else push_cond OpCondSkip.

Definition ErrUnbalancedConditional : string := "no matching opcode to begin conditional execution".

Definition opcodeElse (op : parsedOpcode) : vm unit :=
  c ← asks condStack;
  match c with
  | [] => fail ErrUnbalancedConditional
  | v :: rest =>
      let v := match v with OpCondTrue => OpCondFalse | OpCondFalse => OpCondTrue | OpCondSkip => OpCondSkip end in
      upd (set_condStack (v :: rest))
  end.

Definition opcodeEndif (op : parsedOpcode) : vm unit :=
  c ← asks condStack;
  match c with
  | [] => fail ErrUnbalancedConditional
  | _ :: rest => upd (set_condStack rest)
  end.

Definition abstractVerify (c : string) : vm unit := verified ← popBool; ensure verified c.

Definition opcodeVerify (op : parsedOpcode) : vm unit := abstractVerify "OP_VERIFY failed".
Definition opcodeReturn (op : parsedOpcode) : vm unit := fail "script returned early".

(** ** Lock times *)

Definition verifyLockTime (txLockTime threshold lockTime : Z) : outcome unit :=
  if negb ((bool_decide (txLockTime < threshold) && bool_decide (lockTime < threshold)) ||
           (bool_decide (txLockTime >= threshold) && bool_decide (lockTime >= threshold)))
  then Err "mismatched locktime types"
  else if bool_decide (lockTime > txLockTime) then Err "locktime requirement not satisfied"
  else mret tt.

(** The item on top as a number of up to five bytes that is not negative. *)
Definition peek_lock (negative : string) : vm Z :=
  so ← peekBytes 0;
  m ← minimal;
  n ← lift (makeScriptNum so m 5);
  _ ← ensure (negb (bool_decide (n < 0))) negative;
  mret n.

Definition opcodeCheckLockTimeVerify (op : parsedOpcode) : vm unit :=
  on ← hasFlag ScriptVerifyCheckLockTimeVerify;
  if negb on then discourage ← hasFlag ScriptDiscourageUpgradableNops; ensure (negb discourage) "OP_NOP2 reserved for soft-fork upgrades"
  else
    lockTime ← peek_lock "negative lock time";
    txLock ← asks (λ e, LockTime (e_tx (env e)));
    _ ← lift (verifyLockTime txLock LockTimeThreshold lockTime);
    ti ← current_input;
    ensure (negb (bool_decide (Sequence ti = MaxTxInSequenceNum))) "transaction input is finalized".

Definition opcodeCheckSequenceVerify (op : parsedOpcode) : vm unit :=
  on ← hasFlag ScriptVerifyCheckSequenceVerify;
  if negb on then discourage ← hasFlag ScriptDiscourageUpgradableNops; ensure (negb discourage) "OP_NOP3 reserved for soft-fork upgrades"
  else
    sequence ← peek_lock "negative sequence";
    if negb (bool_decide (Z.land sequence SequenceLockTimeDisabled = 0)) then mret tt
    else
      version ← asks (λ e, tx_Version (e_tx (env e)));
      _ ← ensure (negb (bool_decide (version < 2))) "invalid transaction version";
      ti ← current_input;
      _ ← ensure (bool_decide (Z.land (Sequence ti) SequenceLockTimeDisabled = 0)) "transaction sequence has sequence locktime disabled bit set";
      let lockTimeMask := Z.lor SequenceLockTimeIsSeconds SequenceLockTimeMask in
      lift (verifyLockTime (Z.land (Sequence ti) lockTimeMask) SequenceLockTimeIsSeconds (Z.land sequence lockTimeMask)).

(** ** Stacks *)

Definition opcodeToAltStack (op : parsedOpcode) : vm unit :=
  so ← popBytes; upd (λ e, set_astack (PushByteArray so (astack e)) e).
Definition opcodeFromAltStack (op : parsedOpcode) : vm unit :=
  a ← asks astack; '(so, a) ← lift (PopByteArray a); _ ← upd (set_astack a); pushBytes so.
Definition opcode2Drop (op : parsedOpcode) : vm unit := to_dstack (DropN 2).
Definition opcode2Dup (op : parsedOpcode) : vm unit := to_dstack (DupN 2).
Definition opcode3Dup (op : parsedOpcode) : vm unit := to_dstack (DupN 3).
Definition opcode2Over (op : parsedOpcode) : vm unit := to_dstack (OverN 2).
Definition opcode2Rot (op : parsedOpcode) : vm unit := to_dstack (RotN 2).
Definition opcode2Swap (op : parsedOpcode) : vm unit := to_dstack (SwapN 2).
Definition opcodeIfDup (op : parsedOpcode) : vm unit := so ← peekBytes 0; if asBool so then pushBytes so else mret tt.
Definition opcodeDepth (op : parsedOpcode) : vm unit := s ← asks dstack; pushInt (Depth s).
Definition opcodeDrop (op : parsedOpcode) : vm unit := to_dstack (DropN 1).
Definition opcodeDup (op : parsedOpcode) : vm unit := to_dstack (DupN 1).
Definition opcodeNip (op : parsedOpcode) : vm unit := to_dstack (NipN 1).
Definition opcodeOver (op : parsedOpcode) : vm unit := to_dstack (OverN 1).
Definition opcodePick (op : parsedOpcode) : vm unit := val ← popInt; to_dstack (PickN (scriptNum_Int32 val)).
Definition opcodeRoll (op : parsedOpcode) : vm unit := val ← popInt; to_dstack (RollN (scriptNum_Int32 val)).
Definition opcodeRot (op : parsedOpcode) : vm unit := to_dstack (RotN 1).
Definition opcodeSwap (op : parsedOpcode) : vm unit := to_dstack (SwapN 1).
Definition opcodeTuck (op : parsedOpcode) : vm unit := to_dstack Tuck.
Definition opcodeSize (op : parsedOpcode) : vm unit := so ← peekBytes 0; pushInt (len so).

Definition opcodeEqual (op : parsedOpcode) : vm unit := a ← popBytes; b ← popBytes; pushBool (bytes_eqb a b).
Definition opcodeEqualVerify (op : parsedOpcode) : vm unit := _ ← opcodeEqual op; abstractVerify "OP_EQUALVERIFY failed".

(** ** Arithmetic *)

(** One and two numbers, the top one first; results are int64. *)
Definition unary (f : Z → Z) : vm unit := m ← popInt; pushInt (f m).
Definition binary (f : Z → Z → Z) : vm unit := v0 ← popInt; v1 ← popInt; pushInt (f v0 v1).
Definition num_of (b : bool) : Z := if b then 1 else 0.

Definition opcode1Add (op : parsedOpcode) : vm unit := unary (λ m, i64 (m + 1)).
Definition opcode1Sub (op : parsedOpcode) : vm unit := unary (λ m, i64 (m - 1)).
Definition opcodeNegate (op : parsedOpcode) : vm unit := unary (λ m, i64 (- m)).
Definition opcodeAbs (op : parsedOpcode) : vm unit := unary (λ m, if bool_decide (m < 0) then i64 (- m) else m).
Definition opcodeNot (op : parsedOpcode) : vm unit := unary (λ m, num_of (bool_decide (m = 0))).
Definition opcode0NotEqual (op : parsedOpcode) : vm unit := unary (λ m, if negb (bool_decide (m = 0)) then 1 else m).
Definition opcodeAdd (op : parsedOpcode) : vm unit := binary (λ v0 v1, i64 (v0 + v1)).
Definition opcodeSub (op : parsedOpcode) : vm unit := binary (λ v0 v1, i64 (v1 - v0)).
Definition opcodeBoolAnd (op : parsedOpcode) : vm unit := binary (λ v0 v1, num_of (negb (bool_decide (v0 = 0)) && negb (bool_decide (v1 = 0)))).
Definition opcodeBoolOr (op : parsedOpcode) : vm unit := binary (λ v0 v1, num_of (negb (bool_decide (v0 = 0)) || negb (bool_decide (v1 = 0)))).
Definition opcodeNumEqual (op : parsedOpcode) : vm unit := binary (λ v0 v1, num_of (bool_decide (v0 = v1))).
Definition opcodeNumEqualVerify (op : parsedOpcode) : vm unit := _ ← opcodeNumEqual op; abstractVerify "OP_NUMEQUALVERIFY failed".
Definition opcodeNumNotEqual (op : parsedOpcode) : vm unit := binary (λ v0 v1, num_of (negb (bool_decide (v0 = v1)))).
Definition opcodeLessThan (op : parsedOpcode) : vm unit := binary (λ v0 v1, num_of (bool_decide (v1 < v0))).
Definition opcodeGreaterThan (op : parsedOpcode) : vm unit := binary (λ v0 v1, num_of (bool_decide (v1 > v0))).
Definition opcodeLessThanOrEqual (op : parsedOpcode) : vm unit := binary (λ v0 v1, num_of (bool_decide (v1 <= v0))).
Definition opcodeGreaterThanOrEqual (op : parsedOpcode) : vm unit := binary (λ v0 v1, num_of (bool_decide (v1 >= v0))).
Definition opcodeMin (op : parsedOpcode) : vm unit := binary (λ v0 v1, if bool_decide (v1 < v0) then v1 else v0).
Definition opcodeMax (op : parsedOpcode) : vm unit := binary (λ v0 v1, if bool_decide (v1 > v0) then v1 else v0).
Definition opcodeWithin (op : parsedOpcode) : vm unit :=
  maxVal ← popInt; minVal ← popInt; x ← popInt; pushInt (num_of (bool_decide (x >= minVal) && bool_decide (x < maxVal))).

(** ** Hashes *)

Definition hashing (f : bytes → bytes) : vm unit := buf ← popBytes; pushBytes (f buf).

Definition opcodeRipemd160 (op : parsedOpcode) : vm unit := hashing ripemd160.
Definition opcodeSha1 (op : parsedOpcode) : vm unit := hashing sha1.
Definition opcodeSha256 (op : parsedOpcode) : vm unit := hashing Sum256.
Definition Hash160 (b : bytes) : bytes := ripemd160 (Sum256 b).
Definition opcodeHash160 (op : parsedOpcode) : vm unit := hashing Hash160.
Definition opcodeHash256 (op : parsedOpcode) : vm unit := hashing DoubleHashB.

(** ** Signatures *)

Definition opcodeCodeSeparator (op : parsedOpcode) : vm unit := upd (λ e, set_lastCodeSep (scriptOff e) e).

(** [vm.scripts[vm.scriptIdx][vm.lastCodeSep:]]. *)
Definition subScript : vm (list parsedOpcode) :=
  s ← asks (λ e, drop (lastCodeSep e) <$> scripts e !! scriptIdx e);
  match s with Some s => mret s | None => lift (Panic out_of_range) end.

(** The digest a signature of this input signs. *)
Definition signature_hash (script : list parsedOpcode) (hashType : Z) : vm bytes :=
  active ← isWitnessVersionActive 0;
  e ← asks env;
  if (active : bool) then
    let sigHashes := match e_hashCache e with Some h => h | None => NewTxSigHashes (e_tx e) end in
    lift (calcWitnessSignatureHash script sigHashes hashType (e_tx e) (e_txIdx e) (e_inputAmount e))
  else lift (calcSignatureHash script hashType (e_tx e) (e_txIdx e)).

Definition parse_signature (sigBytes : bytes) : vm (outcome Signature) :=
  strict ← hasFlag ScriptVerifyStrictEncoding;
  der ← hasFlag ScriptVerifyDERSignatures;
  mret (if strict || der then ParseDERSignature sigBytes else ParseSignature sigBytes).

(** Verification through the cache. *)
Definition verify_cached (hash : bytes) (signature : Signature) (pubKey : PublicKey) : vm bool :=
  c ← asks sigCache;
  match c with
  | None => mret (Verify signature hash pubKey)
  | Some c =>
      let sigHash := go_copy (zeros 32) hash in
      if Exists c sigHash signature pubKey then mret true
      else if Verify signature hash pubKey then _ ← upd (set_sigCache (Some (Add victim c sigHash signature pubKey))); mret true
      else mret false
  end.

(** The last byte and what is before it. *)
Definition split_sig (full : bytes) : option (Z * bytes) := (λ t, (byte_Z t, removelast full)) <$> last full.

(** A parser that panics ends the process. *)
Definition or_panic {A} (m : outcome A) : vm (option A) :=
  match m with Ret a => mret (Some a) | Err _ => mret None | Panic x => lift (Panic x) end.

Definition opcodeCheckSig (op : parsedOpcode) : vm unit :=
  pkBytes ← popBytes;
  fullSigBytes ← popBytes;
  match split_sig fullSigBytes with
  | None => pushBool false
  | Some (hashType, sigBytes) =>
      _ ← checkHashTypeEncoding hashType;
      _ ← checkSignatureEncoding sigBytes;
      _ ← checkPubKeyEncoding pkBytes;
      script ← subScript;
      active ← isWitnessVersionActive 0;
      let script := if (active : bool) then script else removeOpcodeByData script fullSigBytes in
      hash ← signature_hash script hashType;
      pubKey ← or_panic (ParsePubKey pkBytes);
      match pubKey with
      | None => pushBool false
      | Some pubKey =>
          parsed ← parse_signature sigBytes;
          signature ← or_panic parsed;
          match signature with
          | None => pushBool false
          | Some signature =>
              valid ← verify_cached hash signature pubKey;
              nullFail ← hasFlag ScriptVerifyNullFail;
              if negb valid && nullFail && bool_decide (len sigBytes > 0) then fail "signature not empty on failed checksig"
              else pushBool valid
          end
      end
  end.

Definition opcodeCheckSigVerify (op : parsedOpcode) : vm unit := _ ← opcodeCheckSig op; abstractVerify "OP_CHECKSIGVERIFY failed".

(** [n] items from the stack, the top one first. *)
Fixpoint pop_many (n : nat) : vm (list bytes) :=
  match n with
  | O => mret []
  | S n => b ← popBytes; l ← pop_many n; mret (b :: l)
  end.

(** The loop of [opcodeCheckMultiSig]: the keys and the signatures that are left, with
    what is known of the parsed signature.  Every turn uses up a key. *)
Fixpoint multisig_loop (script : list parsedOpcode) (pubKeys : list bytes) (signatures : list (bytes * option (option Signature))) : vm bool :=
  match signatures with
  | [] => mret true
  | (rawSig, parsed) :: rest =>
      if bool_decide (length pubKeys < length signatures)%nat then mret false
      else
        match pubKeys with
        | [] => mret false
        | pubKey :: pubKeys =>
            match split_sig rawSig with
            | None => multisig_loop script pubKeys signatures
            | Some (hashType, sigBytes) =>
                info ← match parsed with
                       | Some info => mret info
                       | None =>
                           _ ← checkHashTypeEncoding hashType;
                           _ ← checkSignatureEncoding sigBytes;
                           p ← parse_signature sigBytes;
                           or_panic p
                       end;
                match info with
                | None => multisig_loop script pubKeys ((rawSig, Some None) :: rest)
                | Some signature =>
                    _ ← checkPubKeyEncoding pubKey;
                    key ← or_panic (ParsePubKey pubKey);
                    match key with
                    | None => multisig_loop script pubKeys ((rawSig, Some (Some signature)) :: rest)
                    | Some key =>
                        hash ← signature_hash script hashType;
                        valid ← verify_cached hash signature key;
                        if (valid : bool) then multisig_loop script pubKeys rest
                        else multisig_loop script pubKeys ((rawSig, Some (Some signature)) :: rest)
                    end
                end
            end
        end
  end.

Definition opcodeCheckMultiSig (op : parsedOpcode) : vm unit :=
  numKeys ← popInt;
  let numPubKeys := scriptNum_Int32 numKeys in
  _ ← ensure (negb (bool_decide (numPubKeys < 0))) "number of pubkeys is negative";
  _ ← ensure (negb (bool_decide (numPubKeys > MaxPubKeysPerMultiSig))) "too many pubkeys";
  _ ← upd (λ e, set_numOps (numOps e + numPubKeys) e);
  ops ← asks numOps;
  _ ← ensure (negb (bool_decide (ops > MaxOpsPerScript))) "exceeded max operation limit";
  pubKeys ← pop_many (Z.to_nat numPubKeys);
  numSigs ← popInt;
  let numSignatures := scriptNum_Int32 numSigs in
  _ ← ensure (negb (bool_decide (numSignatures < 0))) "number of signatures is negative";
  _ ← ensure (negb (bool_decide (numSignatures > numPubKeys))) "more signatures than pubkeys";
  signatures ← pop_many (Z.to_nat numSignatures);
  dummy ← popBytes;
  strict ← hasFlag ScriptStrictMultiSig;
  _ ← ensure (negb (strict && negb (bool_decide (len dummy = 0)))) "multisig dummy argument has length instead of 0";
  script ← subScript;
  active ← isWitnessVersionActive 0;
  let script := if (active : bool) then script else foldl removeOpcodeByData script signatures in
  success ← multisig_loop script pubKeys (map (λ s, (s, None)) signatures);
  nullFail ← hasFlag ScriptVerifyNullFail;
  if negb success && nullFail && existsb (λ s, bool_decide (len s > 0)) signatures
  then fail "not all signatures empty on failed checkmultisig"
  else pushBool success.

Definition opcodeCheckMultiSigVerify (op : parsedOpcode) : vm unit := _ ← opcodeCheckMultiSig op; abstractVerify "OP_CHECKMULTISIGVERIFY failed".

(** ** The table *)

Definition opfunc (op : Byte.byte) : parsedOpcode → vm unit :=
  match op with
  | x00 => opcodeFalse
  | x4f => opcode1Negate
  | x50 => opcodeReserved
  | x61 => opcodeNop
  | x62 => opcodeReserved
  | x63 => opcodeIf
  | x64 => opcodeNotIf
  | x65 | x66 => opcodeReserved
  | x67 => opcodeElse
  | x68 => opcodeEndif
  | x69 => opcodeVerify
  | x6a => opcodeReturn
  | x6b => opcodeToAltStack
  | x6c => opcodeFromAltStack
  | x6d => opcode2Drop
  | x6e => opcode2Dup
  | x6f => opcode3Dup
  | x70 => opcode2Over
  | x71 => opcode2Rot
  | x72 => opcode2Swap
  | x73 => opcodeIfDup
  | x74 => opcodeDepth
  | x75 => opcodeDrop
  | x76 => opcodeDup
  | x77 => opcodeNip
  | x78 => opcodeOver
  | x79 => opcodePick
  | x7a => opcodeRoll
  | x7b => opcodeRot
  | x7c => opcodeSwap
  | x7d => opcodeTuck
  | x7e | x7f | x80 | x81 => opcodeDisabled
  | x82 => opcodeSize
  | x83 | x84 | x85 | x86 => opcodeDisabled
  | x87 => opcodeEqual
  | x88 => opcodeEqualVerify
  | x89 | x8a => opcodeReserved
  | x8b => opcode1Add
  | x8c => opcode1Sub
  | x8d | x8e => opcodeDisabled
  | x8f => opcodeNegate
  | x90 => opcodeAbs
  | x91 => opcodeNot
  | x92 => opcode0NotEqual
  | x93 => opcodeAdd
  | x94 => opcodeSub
  | x95 | x96 | x97 | x98 | x99 => opcodeDisabled
  | x9a => opcodeBoolAnd
  | x9b => opcodeBoolOr
  | x9c => opcodeNumEqual
  | x9d => opcodeNumEqualVerify
  | x9e => opcodeNumNotEqual
  | x9f => opcodeLessThan
  | xa0 => opcodeGreaterThan
  | xa1 => opcodeLessThanOrEqual
  | xa2 => opcodeGreaterThanOrEqual
  | xa3 => opcodeMin
  | xa4 => opcodeMax
  | xa5 => opcodeWithin
  | xa6 => opcodeRipemd160
  | xa7 => opcodeSha1
  | xa8 => opcodeSha256
  | xa9 => opcodeHash160
  | xaa => opcodeHash256
  | xab => opcodeCodeSeparator
  | xac => opcodeCheckSig
  | xad => opcodeCheckSigVerify
  | xae => opcodeCheckMultiSig
  | xaf => opcodeCheckMultiSigVerify
  | xb1 => opcodeCheckLockTimeVerify
  | xb2 => opcodeCheckSequenceVerify
  | _ =>
      if bool_decide (byte_Z op <= OP_PUSHDATA4) then opcodePushData
      else if bool_decide (byte_Z op <= OP_16) then opcodeN
      else if bool_decide (byte_Z op <= 0xb9) then opcodeNop
      else opcodeInvalid
  end.
End Opcodes.
