(* ===== verification/Execute.v ===== *)
(** * Running the script engine (bitcoin/txscript/engine.go) *)

From Stdlib Require Import ZArith Lia.
From S2P Require Import Prelude Buffers Sha256 Crypto Utils WireCommon BtcWire Script SigHash Stack Engine Opcodes.

Local Open Scope Z_scope.

Definition isDisabled (pop : parsedOpcode) : bool :=
  bool_decide (byte_Z (po_opcode pop) ∈ [0x7e; 0x7f; 0x80; 0x81; 0x83; 0x84; 0x85; 0x86; 0x8d; 0x8e; 0x95; 0x96; 0x97; 0x98; 0x99]).
Definition alwaysIllegal (pop : parsedOpcode) : bool := bool_decide (byte_Z (po_opcode pop) ∈ [0x65; 0x66]).
Definition isConditional (pop : parsedOpcode) : bool := bool_decide (byte_Z (po_opcode pop) ∈ [0x63; 0x64; 0x67; 0x68]).

Section Execute.
Context `{HashFunction} `{Ecdsa} (ripemd160 sha1 : bytes → bytes)
  (victim : gmap bytes (Signature * PublicKey) → bytes).

Definition executeOpcode (pop : parsedOpcode) : vm unit :=
  let v := byte_Z (po_opcode pop) in
  _ ← ensure (negb (isDisabled pop)) "attempt to execute disabled opcode";
  _ ← ensure (negb (alwaysIllegal pop)) "attempt to execute reserved opcode";
  _ ← (if bool_decide (v > OP_16) then
         _ ← upd (λ e, set_numOps (numOps e + 1) e);
         ops ← asks numOps;
         ensure (negb (bool_decide (ops > MaxOpsPerScript))) "exceeded max operation limit"
       else ensure (negb (bool_decide (len (po_data pop) > MaxScriptElementSize))) "element size exceeds max allowed size");
  exec ← isBranchExecuting;
  if negb exec && negb (isConditional pop) then mret tt
  else
    m ← minimal;
    _ ← (if m && exec && bool_decide (0 <= v <= OP_PUSHDATA4) then
           match checkMinimalDataPush pop with Some e => fail e | None => mret tt end
         else mret tt);
    opfunc ripemd160 sha1 victim (po_opcode pop) pop.

Definition SetStack (data : list bytes) : vm unit := upd (λ e, set_dstack (setStack (dstack e) data) e).
Definition GetStack : vm (list bytes) := s ← asks dstack; mret (getStack s).

Definition append_script_pops (pops : list parsedOpcode) : vm unit := upd (λ e, set_scripts (scripts e ++ [pops]) e).

(** [parseScript] with its error returned. *)
Definition parse (script : bytes) : vm (list parsedOpcode) :=
  let '(pops, err) := parseScript script in
  match err with Some e => fail e | None => mret pops end.

Definition verifyWitnessProgram (witness : list bytes) : vm unit :=
  active ← isWitnessVersionActive 0;
  program ← asks witnessProgram;
  _ ← (if (active : bool) then
         let program := default [] program in
         if bool_decide (len program = payToWitnessPubKeyHashDataSize) then
           _ ← ensure (bool_decide (len witness = 2)) "should have exactly two items in witness";
           pkScript ← lift (payToPubKeyHashScript program);
           pops ← parse pkScript;
           _ ← append_script_pops pops;
           SetStack witness
         else if bool_decide (len program = payToWitnessScriptHashDataSize) then
           match last witness with
           | None => fail "witness program empty passed empty witness"
           | Some witnessScript =>
               _ ← ensure (negb (bool_decide (len witnessScript > MaxScriptSize))) "witnessScript size is larger than max allowed size";
               _ ← ensure (bytes_eqb (Sum256 witnessScript) program) "witness program hash mismatch";
               pops ← parse witnessScript;
               _ ← append_script_pops pops;
               SetStack (removelast witness)
           end
         else fail "length of witness program must either be 20 or 32 bytes"
       else
         discourage ← hasFlag ScriptVerifyDiscourageUpgradeableWitnessProgram;
         if (discourage : bool) then fail "new witness program versions invalid" else upd (set_witnessProgram None));
  active ← isWitnessVersionActive 0;
  s ← GetStack;
  ensure (negb (active && existsb (λ w, bool_decide (len w > MaxScriptElementSize)) s)) "element size exceeds max allowed size".

Definition CheckErrorCondition (finalScript : bool) : vm unit :=
  e ← asks id;
  _ ← ensure (bool_decide (length (scripts e) ≤ scriptIdx e)%nat) "error check when script unfinished";
  active ← isWitnessVersionActive 0;
  _ ← ensure (negb (finalScript && active && negb (bool_decide (Depth (dstack e) = 1)))) "witness program must have clean stack";
  clean ← hasFlag ScriptVerifyCleanStack;
  _ ← (if finalScript && clean && negb (bool_decide (Depth (dstack e) = 1)) then fail "stack contains unexpected items"
       else ensure (negb (bool_decide (Depth (dstack e) < 1))) "stack empty at end of script execution");
  v ← popBool;
  ensure v "false stack entry at end of script execution".

(** The end of a script: what runs next.  [DropN] of the whole alternative stack empties it. *)
Definition next_script : vm bool :=
  c ← asks condStack;
  _ ← ensure (bool_decide (len c = 0)) "end of script reached in conditional execution";
  _ ← upd (λ e, set_scriptOff 0 (set_numOps 0 (set_astack [] e)));
  e ← asks id;
  let idx := scriptIdx e in
  let p2sh := e_bip16 (env e) in
  let has_program := bool_decide (witnessProgram e ≠ None) in
  _ ← upd (set_scriptIdx (S idx));
  _ ← (if bool_decide (idx = 0%nat) && p2sh then s ← GetStack; upd (set_savedFirstStack s)
       else if bool_decide (idx = 1%nat) && p2sh then
         _ ← CheckErrorCondition false;
         match last (savedFirstStack e) with
         | None => lift (Panic out_of_range)
         | Some script =>
             pops ← parse script;
             _ ← append_script_pops pops;
             SetStack (removelast (savedFirstStack e))
         end
       else if (bool_decide (idx = 1%nat) && has_program) || (bool_decide (idx = 2%nat) && has_program && p2sh) then
         ti ← current_input; verifyWitnessProgram (Witness ti)
       else mret tt);
  e ← asks id;
  _ ← match scripts e !! scriptIdx e with
      | Some [] => upd (set_scriptIdx (S (scriptIdx e)))
      | _ => mret tt
      end;
  _ ← upd (set_lastCodeSep 0);
  e ← asks id;
  mret (bool_decide (length (scripts e) ≤ scriptIdx e)%nat).

Definition ErrInvalidProgramCounter : string := "past input scripts".

Definition Step : vm bool :=
  e ← asks id;
  match scripts e !! scriptIdx e ≫= λ script, pair script <$> script !! scriptOff e with
  | None => fail ErrInvalidProgramCounter
  | Some (script, opcode) =>
      _ ← upd (set_scriptOff (S (scriptOff e)));
      _ ← executeOpcode opcode;
      e' ← asks id;
      _ ← ensure (negb (bool_decide (Depth (dstack e') + Depth (astack e') > MaxStackSize))) "combined stack size > max allowed";
      if bool_decide (length script ≤ scriptOff e')%nat then next_script else mret false
  end.

(** The loop of [Execute]; [None] when the fuel runs out. *)
Fixpoint steps (fuel : nat) (e : Engine) : option (outcome Engine) :=
  match fuel with
  | O => None
  | S fuel =>
      match Step e with
      | Ret (true, e) => Some (Ret e)
      | Ret (false, e) => steps fuel e
      | Err x => Some (Err x)
      | Panic x => Some (Panic x)
      end
  end.

Definition Execute (fuel : nat) (e : Engine) : option (outcome unit) :=
  match steps fuel e with
  | None => None
  | Some (Ret e) => Some (match CheckErrorCondition true e with Ret _ => Ret tt | Err x => Err x | Panic x => Panic x end)
  | Some (Err x) => Some (Err x)
  | Some (Panic x) => Some (Panic x)
  end.

(** ** A new engine *)

Definition flagged (flags flag : Z) : bool := bool_decide (Z.land flags flag = flag).

(** The loop over the two scripts. *)
Definition parse_checked (scr : bytes) : outcome (list parsedOpcode) :=
  if bool_decide (len scr > MaxScriptSize) then Err "script size is larger than max allowed size"
  else let '(pops, err) := parseScript scr in match err with Some e => Err e | None => mret pops end.

(** The version and the witness program, [None] if there is none. *)
Definition witness_program_of (scriptSig scriptPubKey : bytes) (sigPops pkPops : list parsedOpcode) (witness : list bytes) (p2sh : bool) :
  outcome (option (Z * bytes)) :=
  if isWitnessProgram pkPops then
    if negb (bool_decide (len scriptSig = 0)) then Err "native witness program cannot also have a signature script"
    else info ← ExtractWitnessProgramInfo scriptPubKey; mret (Some info)
  else if negb (bool_decide (len witness = 0)) && p2sh then
    match sigPops with
    | [p] =>
        if canonicalPush p && IsWitnessProgram (po_data p)
        then info ← ExtractWitnessProgramInfo (po_data p); mret (Some info)
        else Err "signature script for witness nested p2sh is not canonical"
    | _ => Err "signature script for witness nested p2sh is not canonical"
    end
  else if negb (bool_decide (len witness = 0)) then Err "non-witness inputs cannot have a witness"
  else mret None.

Definition NewEngine (scriptPubKey : bytes) (tx : MsgTx) (txIdx : Z) (flags : Z) (sigCache : option SigCache)
  (hashCache : option TxSigHashes) (inputAmount : Z) : outcome Engine :=
  if bool_decide (txIdx < 0) then Err "transaction input index is negative or too large"
  else
    match tx_TxIn tx !! Z.to_nat txIdx with
    | None => Err "transaction input index is negative or too large"
    | Some ti =>
        let scriptSig := SignatureScript ti in
        if bool_decide (len scriptSig = 0) && bool_decide (len scriptPubKey = 0) then Err "false stack entry at end of script execution"
        else if flagged flags ScriptVerifyCleanStack && (negb (flagged flags ScriptBip16) && negb (flagged flags ScriptVerifyWitness))
        then Err "invalid flags combination"
        else if flagged flags ScriptVerifySigPushOnly && negb (IsPushOnlyScript scriptSig) then Err "signature script is not push only"
        else
          sigPops ← parse_checked scriptSig;
          pkPops ← parse_checked scriptPubKey;
          let idx := if bool_decide (len scriptSig = 0) then 1%nat else 0%nat in
          let p2sh := flagged flags ScriptBip16 && isScriptHash pkPops in
          if p2sh && negb (isPushOnly sigPops) then Err "pay to script hash is not push only"
          else
            program ←
              (if flagged flags ScriptVerifyWitness then
                 if negb (flagged flags ScriptBip16) then Err "P2SH must be enabled to do witness verification"
                 else witness_program_of scriptSig scriptPubKey sigPops pkPops (Witness ti) p2sh
               else mret None);
            mret (MkEngine (MkEnv tx (Z.to_nat txIdx) flags hashCache p2sh (flagged flags ScriptVerifyMinimalData)
                              (default 0 (fst <$> program)) inputAmount)
                    [sigPops; pkPops] idx 0 0 [] [] [] 0 sigCache [] (snd <$> program))
    end.
End Execute.
