(* ===== verification/EngineTheorems.v ===== *)
(** * The script engine: running, ending, and the signature cache *)

From Stdlib Require Import ZArith Lia Relation_Operators Wellfounded.
From S2P Require Import Prelude Buffers Sha256 Crypto Utils WireCommon BtcWire BtcTheorems Script ScriptTheorems SigHash Stack Engine Opcodes Execute.

Local Open Scope Z_scope.

Section Engine.
Context `{HashFunction} `{Ecdsa} (ripemd160 sha1 : bytes → bytes)
  (victim : gmap bytes (Signature * PublicKey) → bytes).

(** ** Sequencing *)

Lemma vm_bind_Ret {A B} (m : vm A) (f : A → vm B) e a e' : m e = Ret (a, e') → (m ≫= f) e = f a e'.
Proof. intros E. unfold mbind, vm_bind. by rewrite E. Qed.

Lemma vm_bind_inv {A B} (m : vm A) (f : A → vm B) e b e' :
  (m ≫= f) e = Ret (b, e') → ∃ a e1, m e = Ret (a, e1) ∧ f a e1 = Ret (b, e').
Proof. unfold mbind, vm_bind. destruct (m e) as [[a e1]|x|x]; [eauto|done..]. Qed.

Lemma ensure_true x e : ensure true x e = Ret (tt, e).
Proof. done. Qed.

Lemma ensure_inv ok x e a e' : ensure ok x e = Ret (a, e') → ok = true ∧ e' = e.
Proof. destruct ok; [by intros [= <-]|done]. Qed.

(** ** What the handlers leave alone *)

(** Code that may change the stacks, the conditions, the operation count, the code
    separator and the cache, but neither the scripts nor the position in them. *)
Definition stays {A} (m : vm A) : Prop :=
  ∀ e a e', m e = Ret (a, e') →
    env e' = env e ∧ scripts e' = scripts e ∧ scriptIdx e' = scriptIdx e ∧ scriptOff e' = scriptOff e ∧
    savedFirstStack e' = savedFirstStack e ∧ witnessProgram e' = witnessProgram e.

Lemma stays_ret {A} (a : A) : stays (mret a).
Proof. intros e a' e' [= <- <-]. done. Qed.

Lemma stays_bind {A B} (m : vm A) (f : A → vm B) : stays m → (∀ a, stays (f a)) → stays (m ≫= f).
Proof.
  intros Hm Hf e b e' (a & e1 & E1 & E2)%vm_bind_inv. apply Hm in E1 as (H1 & H2 & H3 & H4 & H5 & H6).
  apply Hf in E2 as (G1 & G2 & G3 & G4 & G5 & G6). rewrite G1, G2, G3, G4, G5, G6. done.
Qed.

Lemma stays_asks {A} (f : Engine → A) : stays (asks f).
Proof. intros e a e' [= <- <-]. done. Qed.

Lemma stays_lift {A} (m : outcome A) : stays (lift m).
Proof. intros e a e'. unfold lift. destruct m; [|done..]. by intros [= <- <-]. Qed.

Lemma stays_fail {A} x : stays (A := A) (fail x).
Proof. apply stays_lift. Qed.

Lemma stays_ensure ok x : stays (ensure ok x).
Proof. destruct ok; [apply stays_ret|apply stays_fail]. Qed.

Lemma stays_if {A} (b : bool) (m1 m2 : vm A) : stays m1 → stays m2 → stays (if b then m1 else m2).
Proof. by destruct b. Qed.

Lemma stays_upd f :
  (∀ e, env (f e) = env e ∧ scripts (f e) = scripts e ∧ scriptIdx (f e) = scriptIdx e ∧ scriptOff (f e) = scriptOff e ∧
        savedFirstStack (f e) = savedFirstStack e ∧ witnessProgram (f e) = witnessProgram e) → stays (upd f).
Proof. intros Hf e a e' [= <- <-]. apply Hf. Qed.

Lemma stays_or_panic {A} (m : outcome A) : stays (or_panic m).
Proof. destruct m; [apply stays_ret|apply stays_ret|apply stays_lift]. Qed.
End Engine.

Create HintDb stays discriminated.
#[export] Hint Resolve stays_ret stays_asks stays_lift stays_fail stays_ensure stays_or_panic : stays.

(** Takes a handler apart. *)
Ltac solve_stays :=
  repeat first
    [ progress intros
    | by eauto 2 with stays
    | apply stays_bind
    | apply stays_if
    | (apply stays_upd; by intros [])
    | match goal with |- stays (match ?x with _ => _ end) => destruct x end
    | match goal with |- stays ((λ '(_, _), _) ?p) => destruct p end ].

Section Handlers.
Context `{HashFunction} `{Ecdsa} (ripemd160 sha1 : bytes → bytes)
  (victim : gmap bytes (Signature * PublicKey) → bytes).

Lemma stays_to_dstack f : stays (to_dstack f).
Proof. unfold to_dstack. solve_stays. Qed.
Lemma stays_on_dstack {A} (f : stack → outcome (A * stack)) : stays (on_dstack f).
Proof. unfold on_dstack. solve_stays. Qed.
#[local] Hint Resolve stays_to_dstack stays_on_dstack : stays.

Lemma stays_popInt : stays popInt.
Proof. unfold popInt, minimal. solve_stays. Qed.
Lemma stays_popIfBool : stays popIfBool.
Proof. unfold popIfBool, isWitnessVersionActive, hasFlag, popBool, popBytes. solve_stays. Qed.
Lemma stays_abstractVerify c : stays (abstractVerify c).
Proof. unfold abstractVerify, popBool. solve_stays. Qed.
#[local] Hint Resolve stays_popInt stays_popIfBool stays_abstractVerify : stays.

Lemma stays_unary f : stays (unary f).
Proof. unfold unary, pushInt. solve_stays. Qed.
Lemma stays_binary f : stays (binary f).
Proof. unfold binary, pushInt. solve_stays. Qed.
Lemma stays_hashing f : stays (hashing f).
Proof. unfold hashing, popBytes, pushBytes. solve_stays. Qed.
Lemma stays_peek_lock x : stays (peek_lock x).
Proof. unfold peek_lock, peekBytes, minimal. solve_stays. Qed.
Lemma stays_subScript : stays subScript.
Proof. unfold subScript. solve_stays. Qed.
Lemma stays_signature_hash script t : stays (signature_hash script t).
Proof. unfold signature_hash, isWitnessVersionActive. solve_stays. Qed.
Lemma stays_parse_signature s : stays (parse_signature s).
Proof. unfold parse_signature, hasFlag. solve_stays. Qed.
Lemma stays_verify_cached h s k : stays (verify_cached victim h s k).
Proof. unfold verify_cached. solve_stays. Qed.
Lemma stays_checkHashType t : stays (checkHashTypeEncoding t).
Proof. unfold checkHashTypeEncoding, hasFlag. solve_stays. Qed.
Lemma stays_checkSignature s : stays (checkSignatureEncoding s).
Proof. unfold checkSignatureEncoding, hasFlag. solve_stays. Qed.
Lemma stays_checkPubKey k : stays (checkPubKeyEncoding k).
Proof. unfold checkPubKeyEncoding, hasFlag, isWitnessVersionActive. solve_stays. Qed.
Lemma stays_pop_many n : stays (pop_many n).
Proof. induction n as [|n IH]; cbn [pop_many]; unfold popBytes; solve_stays. Qed.
#[local] Hint Resolve stays_unary stays_binary stays_hashing stays_peek_lock stays_subScript stays_signature_hash stays_parse_signature
  stays_verify_cached stays_checkHashType stays_checkSignature stays_checkPubKey stays_pop_many : stays.

Lemma stays_multisig script pubKeys sigs : stays (multisig_loop victim script pubKeys sigs).
Proof.
  revert sigs. induction pubKeys as [|k pubKeys IH]; intros [|[raw parsed] rest]; cbn [multisig_loop]; solve_stays.
Qed.
#[local] Hint Resolve stays_multisig : stays.

Lemma stays_checkSig op : stays (opcodeCheckSig victim op).
Proof. unfold opcodeCheckSig, popBytes, pushBool, isWitnessVersionActive, hasFlag. solve_stays. Qed.
Lemma stays_checkMultiSig op : stays (opcodeCheckMultiSig victim op).
Proof. unfold opcodeCheckMultiSig, popBytes, pushBool, isWitnessVersionActive, hasFlag. solve_stays. Qed.
#[local] Hint Resolve stays_checkSig stays_checkMultiSig : stays.

(** No handler moves the program counter or touches the scripts. *)
Lemma stays_opfunc op pop : stays (opfunc ripemd160 sha1 victim op pop).
Proof.
  unfold opfunc. destruct op; cbv beta iota;
    unfold opcodeDisabled, opcodeReserved, opcodeInvalid, opcodeFalse, opcodePushData, opcode1Negate, opcodeN, opcodeNop, opcodeIf, opcodeNotIf,
      opcodeElse, opcodeEndif, opcodeVerify, opcodeReturn, opcodeCheckLockTimeVerify, opcodeCheckSequenceVerify, opcodeToAltStack, opcodeFromAltStack,
      opcode2Drop, opcode2Dup, opcode3Dup, opcode2Over, opcode2Rot, opcode2Swap, opcodeIfDup, opcodeDepth, opcodeDrop, opcodeDup, opcodeNip, opcodeOver,
      opcodePick, opcodeRoll, opcodeRot, opcodeSwap, opcodeTuck, opcodeSize, opcodeEqual, opcodeEqualVerify, opcode1Add, opcode1Sub, opcodeNegate, opcodeAbs,
      opcodeNot, opcode0NotEqual, opcodeAdd, opcodeSub, opcodeBoolAnd, opcodeBoolOr, opcodeNumEqual, opcodeNumEqualVerify, opcodeNumNotEqual, opcodeLessThan,
      opcodeGreaterThan, opcodeLessThanOrEqual, opcodeGreaterThanOrEqual, opcodeMin, opcodeMax, opcodeWithin, opcodeRipemd160, opcodeSha1, opcodeSha256,
      opcodeHash160, opcodeHash256, opcodeCodeSeparator, opcodeCheckSigVerify, opcodeCheckMultiSigVerify, pushBytes, pushInt, pushBool, popBytes, peekBytes,
      push_cond, current_input, hasFlag, isBranchExecuting;
    solve_stays.
Qed.

Lemma stays_executeOpcode pop : stays (executeOpcode ripemd160 sha1 victim pop).
Proof.
  unfold executeOpcode, isBranchExecuting, minimal. pose proof (stays_opfunc (po_opcode pop) pop). solve_stays.
Qed.
End Handlers.

(** ** Running to the end *)

Section Running.
Context `{HashFunction} `{Ecdsa} (ripemd160 sha1 : bytes → bytes)
  (victim : gmap bytes (Signature * PublicKey) → bytes).
Local Abbreviation Step := (Step ripemd160 sha1 victim).
Local Abbreviation steps := (steps ripemd160 sha1 victim).
Local Abbreviation Execute := (Execute ripemd160 sha1 victim).

(** Code that stays in its script. *)
Definition keeps_idx {A} (m : vm A) : Prop := ∀ e a e', m e = Ret (a, e') → scriptIdx e' = scriptIdx e.

Lemma keeps_bind {A B} (m : vm A) (f : A → vm B) : keeps_idx m → (∀ a, keeps_idx (f a)) → keeps_idx (m ≫= f).
Proof. intros Hm Hf e b e' (a & e1 & E1 & E2)%vm_bind_inv. by rewrite (Hf _ _ _ _ E2), (Hm _ _ _ E1). Qed.

Lemma keeps_stays {A} (m : vm A) : stays m → keeps_idx m.
Proof. intros Hm e a e' E. apply Hm in E. tauto. Qed.

Lemma keeps_upd f : (∀ e, scriptIdx (f e) = scriptIdx e) → keeps_idx (upd f).
Proof. intros Hf e a e' [= <- <-]. apply Hf. Qed.

Lemma keeps_if {A} (b : bool) (m1 m2 : vm A) : keeps_idx m1 → keeps_idx m2 → keeps_idx (if b then m1 else m2).
Proof. by destruct b. Qed.

Ltac solve_keeps :=
  repeat first
    [ progress intros
    | (apply keeps_stays; by eauto 2 with stays)
    | apply keeps_bind
    | apply keeps_if
    | (apply keeps_upd; by intros [])
    | match goal with |- keeps_idx (match ?x with _ => _ end) => destruct x end
    | match goal with |- keeps_idx ((λ '(_, _), _) ?p) => destruct p end ].

Lemma keeps_popBool : keeps_idx popBool.
Proof. apply keeps_stays, stays_on_dstack. Qed.

Lemma keeps_parse script : keeps_idx (parse script).
Proof. unfold parse. destruct (parseScript script) as [pops [e|]]; solve_keeps. Qed.

Lemma keeps_CheckErrorCondition final : keeps_idx (CheckErrorCondition final).
Proof. unfold CheckErrorCondition, isWitnessVersionActive, hasFlag. pose proof keeps_popBool. solve_keeps; done. Qed.

Lemma keeps_verifyWitnessProgram wit : keeps_idx (verifyWitnessProgram wit).
Proof.
  unfold verifyWitnessProgram, isWitnessVersionActive, hasFlag, append_script_pops, SetStack, GetStack. pose proof keeps_parse. solve_keeps; auto.
Qed.

(** The next script is a later one, and from the fourth on no scripts are added. *)
Lemma next_script_spec e b e' :
  next_script e = Ret (b, e') →
  (scriptIdx e < scriptIdx e')%nat ∧ (3 ≤ scriptIdx e → scripts e' = scripts e)%nat ∧ b = bool_decide (length (scripts e') ≤ scriptIdx e')%nat.
Proof.
  unfold next_script. intros (c & e0 & [= <- <-] & E)%vm_bind_inv. apply vm_bind_inv in E as (u & e1 & [_ ->]%ensure_inv & E).
  apply vm_bind_inv in E as (u1 & e2 & [= <- <-] & E). apply vm_bind_inv in E as (ee & e3 & [= <- <-] & E).
  apply vm_bind_inv in E as (u2 & e4 & [= <- <-] & E). apply vm_bind_inv in E as (u3 & e5 & E5 & E).
  cbn [id scriptIdx scripts savedFirstStack witnessProgram set_scriptIdx set_scriptOff set_numOps set_astack env] in E5.
  assert (scriptIdx e5 = S (scriptIdx e) ∧ (3 ≤ scriptIdx e → scripts e5 = scripts e)%nat) as [Hidx Hscr].
  { split.
    - revert E5. match goal with |- ?m ?x = _ → _ => assert (keeps_idx m) as Hk end; [|intros E5; by rewrite (Hk _ _ _ E5)].
      unfold GetStack, append_script_pops, SetStack, current_input. pose proof keeps_parse. pose proof keeps_CheckErrorCondition. pose proof keeps_verifyWitnessProgram.
      solve_keeps; auto.
    - intros H3. revert E5. rewrite !(bool_decide_false (scriptIdx e = _)) by lia. cbn [andb orb]. by intros [= <- <-]. }
  apply vm_bind_inv in E as (ee & e6 & [= <- <-] & E). apply vm_bind_inv in E as (u4 & e7 & E7 & E).
  assert ((scriptIdx e5 ≤ scriptIdx e7)%nat ∧ scripts e7 = scripts e5) as [Hidx7 Hscr7].
  { unfold id in E7. destruct (scripts e5 !! scriptIdx e5) as [[|p s]|]; injection E7 as <- <-; cbn; (split; [lia|done]). }
  apply vm_bind_inv in E as (u5 & e8 & [= <- <-] & E). apply vm_bind_inv in E as (ee & e9 & [= <- <-] & E). injection E as <- <-. cbn.
  split; [lia|]. split; [intros H3; rewrite Hscr7; auto|done].
Qed.

(** What gets smaller with every step: the scripts that are ahead, then the opcodes ahead in the script. *)
Definition measure (e : Engine) : nat * (nat * nat) :=
  (3 - scriptIdx e, (length (scripts e) - scriptIdx e, length (default [] (scripts e !! scriptIdx e)) - scriptOff e))%nat.

Definition smaller : relation (nat * (nat * nat)) := slexprod nat (nat * nat) lt (slexprod nat nat lt lt).

Lemma smaller_wf : well_founded smaller.
Proof. apply wf_slexprod; [apply lt_wf|]. apply wf_slexprod; apply lt_wf. Qed.

Lemma Step_smaller e e' : Step e = Ret (false, e') → smaller (measure e') (measure e).
Proof.
  unfold Step. intros (ee & e0 & [= <- <-] & E)%vm_bind_inv. unfold id in E.
  destruct (scripts e !! scriptIdx e) as [script|] eqn:Es; [|done]. cbn [mbind option_bind] in E.
  destruct (script !! scriptOff e) as [opcode|] eqn:Eo; [|done]. cbn [fmap option_fmap option_map] in E. apply lookup_lt_Some in Eo as Hoff.
  apply vm_bind_inv in E as (u & e1 & [= <- <-] & E). apply vm_bind_inv in E as (u1 & e2 & E2 & E).
  apply stays_executeOpcode in E2 as (_ & Hscr & Hidx & Hof & _ & _). cbn in Hscr, Hidx, Hof.
  apply vm_bind_inv in E as (ee & e3 & [= <- <-] & E). apply vm_bind_inv in E as (u2 & e4 & [_ ->]%ensure_inv & E). unfold id in E.
  rewrite Hof in E. case_bool_decide as Hend.
  - apply next_script_spec in E as (Hlt & Hsame & Hdone). rewrite Hidx in Hlt, Hsame. symmetry in Hdone. apply bool_decide_eq_false in Hdone.
    unfold measure. destruct (decide (3 ≤ scriptIdx e)%nat) as [H3|H3].
    + rewrite (Hsame H3), Hscr in *. replace (3 - scriptIdx e')%nat with (3 - scriptIdx e)%nat by lia. apply right_slex, left_slex. lia.
    + apply left_slex. lia.
  - injection E as <-. unfold measure. rewrite Hscr, Hidx, Hof, Es. cbn [default from_option id]. apply right_slex, right_slex. lia.
Qed.

Lemma steps_end e : ∃ fuel r, steps fuel e = Some r.
Proof.
  remember (measure e) as n eqn:Hn. revert e Hn. induction (smaller_wf n) as [n _ IH]. intros e ->.
  destruct (Step e) as [[[|] e']|x|x] eqn:E.
  - exists 1%nat, (Ret e'). cbn. by rewrite E.
  - destruct (IH (measure e') (Step_smaller _ _ E) e' eq_refl) as (fuel & r & Hr). exists (S fuel), r. cbn. by rewrite E.
  - exists 1%nat, (Err x). cbn. by rewrite E.
  - exists 1%nat, (Panic x). cbn. by rewrite E.
Qed.

Lemma steps_more fuel fuel' e r : steps fuel e = Some r → (fuel ≤ fuel')%nat → steps fuel' e = Some r.
Proof.
  revert fuel' e. induction fuel as [|fuel IH]; intros fuel' e; [done|]. destruct fuel' as [|fuel']; [lia|]. cbn.
  destruct (Step e) as [[[|] e']|x|x]; [done| |done|done]. intros E Hle. apply IH; [done|lia].
Qed.

End Running.
