(* ===== verification/SigCacheTheorems.v ===== *)
(** * The signature cache does not change what the engine says *)

From Stdlib Require Import ZArith Lia.
From S2P Require Import Prelude Buffers Sha256 Crypto Utils WireCommon BtcWire BtcTheorems Script ScriptTheorems SigHash Stack Engine Opcodes Execute EngineTheorems.

Local Open Scope Z_scope.

Section Agree.
Context `{HashFunction} `{Ecdsa}.

(** A cache holds only signatures that verify. *)
Definition cache_sound (c : SigCache) : Prop :=
  ∀ h sig key, validSigs c !! h = Some (sig, key) → Verify sig h key = true.

(** The same results on an engine without cache and with a sound one, up to the cache. *)
Definition agree_on {A} (P : A → Prop) (r1 r2 : outcome (A * Engine)) : Prop :=
  match r1, r2 with
  | Ret (a1, e1), Ret (a2, e2) => a1 = a2 ∧ P a1 ∧ sigCache e1 = None ∧ ∃ c, cache_sound c ∧ e2 = set_sigCache (Some c) e1
  | Err x, Err y => x = y
  | Panic x, Panic y => x = y
  | _, _ => False
  end.

Definition agrees_with {A} (P : A → Prop) (m : vm A) : Prop :=
  ∀ e c, sigCache e = None → cache_sound c → agree_on P (m e) (m (set_sigCache (Some c) e)).

Definition agrees {A} (m : vm A) : Prop := agrees_with (λ _, True) m.

Lemma set_sigCache_None e : sigCache e = None → set_sigCache None e = e.
Proof. destruct e. cbn. by intros ->. Qed.

Lemma agrees_ret {A} (a : A) : agrees (mret a).
Proof. intros e c He Hc. split; [done|]. split; [done|]. split; [done|]. by exists c. Qed.

Lemma agrees_bind_with {A B} (P : A → Prop) (m : vm A) (f : A → vm B) : agrees_with P m → (∀ a, P a → agrees (f a)) → agrees (m ≫= f).
Proof.
  intros Hm Hf e c He Hc. specialize (Hm e c He Hc). unfold mbind, vm_bind.
  destruct (m e) as [[a1 e1]|x|x], (m (set_sigCache (Some c) e)) as [[a2 e2]|y|y]; cbn in Hm; try done.
  destruct Hm as (<- & HP & He1 & c' & Hc' & ->). by apply Hf.
Qed.

Lemma agrees_bind {A B} (m : vm A) (f : A → vm B) : agrees m → (∀ a, agrees (f a)) → agrees (m ≫= f).
Proof. intros Hm Hf. by apply (agrees_bind_with (λ _, True)). Qed.

Lemma agrees_asks {A} (f : Engine → A) : (∀ e x, f (set_sigCache x e) = f e) → agrees (asks f).
Proof. intros Hf e c He Hc. cbn. rewrite Hf. split; [done|]. split; [done|]. split; [done|]. by exists c. Qed.

(** The whole engine may be looked at, but for its cache. *)
Lemma agrees_engine {A} (f : Engine → vm A) : (∀ e x, f (set_sigCache x e) = f e) → (∀ e, agrees (f e)) → agrees (asks id ≫= f).
Proof.
  intros Hsame Hf e c He Hc. unfold mbind, vm_bind, asks, id. rewrite Hsame. by apply Hf.
Qed.

Lemma agrees_lift_with {A} (P : A → Prop) (m : outcome A) : (∀ a, m = Ret a → P a) → agrees_with P (lift m).
Proof. intros HP e c He Hc. unfold lift. destruct m as [a| |]; [|done..]. split; [done|]. split; [by apply HP|]. split; [done|]. by exists c. Qed.

Lemma agrees_lift {A} (m : outcome A) : agrees (lift m).
Proof. by apply agrees_lift_with. Qed.

Lemma agrees_upd f : (∀ e x, f (set_sigCache x e) = set_sigCache x (f e)) → (∀ e, sigCache (f e) = sigCache e) → agrees (upd f).
Proof. intros Hf Hs e c He Hc. cbn. rewrite Hf. split; [done|]. split; [done|]. split; [by rewrite Hs|]. by exists c. Qed.

Lemma agrees_fail {A} x : agrees (A := A) (fail x).
Proof. apply agrees_lift. Qed.

Lemma agrees_ensure ok x : agrees (ensure ok x).
Proof. destruct ok; [apply agrees_ret|apply agrees_fail]. Qed.

Lemma agrees_if {A} (b : bool) (m1 m2 : vm A) : agrees m1 → agrees m2 → agrees (if b then m1 else m2).
Proof. by destruct b. Qed.

Lemma agrees_or_panic {A} (m : outcome A) : agrees (or_panic m).
Proof. destruct m; [apply agrees_ret|apply agrees_ret|apply agrees_lift]. Qed.
End Agree.

Create HintDb agrees discriminated.
#[export] Hint Resolve agrees_ret agrees_lift agrees_fail agrees_ensure agrees_or_panic : agrees.
#[export] Hint Extern 2 (agrees (asks _)) => (apply agrees_asks; by intros []) : agrees.
#[export] Hint Extern 2 (agrees (upd _)) => (apply agrees_upd; by intros []) : agrees.

Ltac solve_agrees :=
  repeat first
    [ progress intros
    | by eauto 2 with agrees
    | (apply agrees_engine; [by intros []|])
    | apply agrees_bind
    | apply agrees_if
    | match goal with |- agrees (match ?x with _ => _ end) => destruct x end
    | match goal with |- agrees ((λ '(_, _), _) ?p) => destruct p end ].

Section Handlers.
Context `{HashFunction} `{Ecdsa} (ripemd160 sha1 : bytes → bytes)
  (victim : gmap bytes (Signature * PublicKey) → bytes).

(** ** The cache *)

Lemma Add_sound c h sig key : cache_sound c → Verify sig h key = true → cache_sound (Add victim c h sig key).
Proof.
  intros Hc Hv. unfold Add. case_bool_decide; [done|]. intros h' sig' key'. cbn [validSigs]. rewrite lookup_insert_Some.
  intros [[<- [= <- <-]]|[_ Hl]]; [done|]. case_bool_decide; [rewrite lookup_delete_Some in Hl; destruct Hl as [_ Hl]|]; by eapply Hc.
Qed.

Lemma verify_cached_agrees h sig key : length h = 32%nat → agrees (verify_cached victim h sig key).
Proof.
  intros Hl e c He Hc. unfold verify_cached. unfold mbind, vm_bind, asks. rewrite He. cbn [sigCache set_sigCache].
  rewrite go_copy_same by (by rewrite length_zeros). unfold Exists. destruct (validSigs c !! h) as [[sig' key']|] eqn:E.
  - destruct (bool_decide (key' = key) && bool_decide (sig' = sig)) eqn:Eq.
    + apply andb_true_iff in Eq as [->%bool_decide_eq_true ->%bool_decide_eq_true]. rewrite (Hc _ _ _ E). cbn. split; [done|]. split; [done|]. split; [done|]. by exists c.
    + destruct (Verify sig h key) eqn:Ev; cbn; (split; [done|]; split; [done|]; split; [done|]); [|by exists c].
      exists (Add victim c h sig key). split; [by apply Add_sound|done].
  - destruct (Verify sig h key) eqn:Ev; cbn; (split; [done|]; split; [done|]; split; [done|]); [|by exists c].
    exists (Add victim c h sig key). split; [by apply Add_sound|done].
Qed.

(** Digests have 32 bytes. *)
Lemma calcSignatureHash_length script t tx i h : calcSignatureHash script t tx i = Ret h → length h = 32%nat.
Proof.
  unfold calcSignatureHash. destruct (_ && _); [by intros [= <-]|]. destruct (if bool_decide _ then _ else _) as [ins outs].
  destruct (if negb _ then _ else _) as [ins'|x|x]; [|done..]. cbn. intros [= <-]. apply Sum256_length.
Qed.

Lemma calcWitnessSignatureHash_length script sh t tx i amt h : calcWitnessSignatureHash script sh t tx i amt = Ret h → length h = 32%nat.
Proof. unfold calcWitnessSignatureHash. destruct (tx_TxIn tx !! i); [|done]. intros [= <-]. apply Sum256_length. Qed.

Lemma signature_hash_agrees script t : agrees_with (λ h, length h = 32%nat) (signature_hash script t).
Proof.
  intros e c He Hc. unfold signature_hash, isWitnessVersionActive, mbind, vm_bind, asks. cbn [env witnessProgram set_sigCache].
  destruct (match witnessProgram e with Some _ => _ | None => _ end).
  - apply agrees_lift_with; [|done|done]. intros h. apply calcWitnessSignatureHash_length.
  - apply agrees_lift_with; [|done|done]. intros h. apply calcSignatureHash_length.
Qed.

(** ** Handlers *)

Lemma agrees_to_dstack f : agrees (to_dstack f).
Proof. unfold to_dstack. solve_agrees. Qed.
Lemma agrees_on_dstack {A} (f : stack → outcome (A * stack)) : agrees (on_dstack f).
Proof. unfold on_dstack. solve_agrees. Qed.
Lemma agrees_hasFlag f : agrees (hasFlag f).
Proof. unfold hasFlag. solve_agrees. Qed.
Lemma agrees_active v : agrees (isWitnessVersionActive v).
Proof. unfold isWitnessVersionActive. solve_agrees. Qed.
#[local] Hint Resolve agrees_to_dstack agrees_on_dstack agrees_hasFlag agrees_active : agrees.

Lemma agrees_popInt : agrees popInt.
Proof. unfold popInt, minimal. solve_agrees. Qed.
Lemma agrees_popIfBool : agrees popIfBool.
Proof. unfold popIfBool, popBool, popBytes. solve_agrees. Qed.
Lemma agrees_abstractVerify x : agrees (abstractVerify x).
Proof. unfold abstractVerify, popBool. solve_agrees. Qed.
Lemma agrees_checkHashType t : agrees (checkHashTypeEncoding t).
Proof. unfold checkHashTypeEncoding. solve_agrees. Qed.
Lemma agrees_checkSignature s : agrees (checkSignatureEncoding s).
Proof. unfold checkSignatureEncoding. solve_agrees. Qed.
Lemma agrees_checkPubKey k : agrees (checkPubKeyEncoding k).
Proof. unfold checkPubKeyEncoding. solve_agrees. Qed.
Lemma agrees_subScript : agrees subScript.
Proof. unfold subScript. solve_agrees. Qed.
Lemma agrees_parse_signature s : agrees (parse_signature s).
Proof. unfold parse_signature. solve_agrees. Qed.
#[local] Hint Resolve agrees_popInt agrees_popIfBool agrees_abstractVerify agrees_checkHashType agrees_checkSignature agrees_checkPubKey
  agrees_subScript agrees_parse_signature : agrees.

(** A digest and its verification. *)
Lemma agrees_hash_verify {B} script t sig key (f : bytes → bool → vm B) :
  (∀ h v, agrees (f h v)) → agrees (h ← signature_hash script t; v ← verify_cached victim h sig key; f h v).
Proof.
  intros Hf. apply (agrees_bind_with (λ h, length h = 32%nat)); [apply signature_hash_agrees|]. intros h Hl.
  apply agrees_bind; [by apply verify_cached_agrees|]. intros v. apply Hf.
Qed.

Lemma agrees_unary f : agrees (unary f).
Proof. unfold unary, pushInt. solve_agrees. Qed.
Lemma agrees_binary f : agrees (binary f).
Proof. unfold binary, pushInt. solve_agrees. Qed.
Lemma agrees_hashing f : agrees (hashing f).
Proof. unfold hashing, popBytes, pushBytes. solve_agrees. Qed.
Lemma agrees_peek_lock x : agrees (peek_lock x).
Proof. unfold peek_lock, peekBytes, minimal. solve_agrees. Qed.
Lemma agrees_pop_many n : agrees (pop_many n).
Proof. induction n as [|n IH]; cbn [pop_many]; unfold popBytes; solve_agrees. Qed.
#[local] Hint Resolve agrees_unary agrees_binary agrees_hashing agrees_peek_lock agrees_pop_many : agrees.

Lemma agrees_multisig script pubKeys sigs : agrees (multisig_loop victim script pubKeys sigs).
Proof.
  revert sigs. induction pubKeys as [|k pubKeys IH]; intros [|[raw parsed] rest]; cbn [multisig_loop]; try (by solve_agrees).
  apply agrees_if; [solve_agrees|]. destruct (split_sig raw) as [[t s]|]; [|apply IH]. apply agrees_bind; [solve_agrees|]. intros [signature|]; [|apply IH].
  apply agrees_bind; [solve_agrees|]. intros _. apply agrees_bind; [solve_agrees|]. intros [key|]; [|apply IH].
  apply agrees_hash_verify. intros h [|]; apply IH.
Qed.
#[local] Hint Resolve agrees_multisig : agrees.

Lemma agrees_checkSig op : agrees (opcodeCheckSig victim op).
Proof.
  unfold opcodeCheckSig, popBytes, pushBool. apply agrees_bind; [solve_agrees|]. intros pk. apply agrees_bind; [solve_agrees|]. intros full.
  destruct (split_sig full) as [[t s]|]; [|solve_agrees]. do 5 (apply agrees_bind; [solve_agrees|]; intros ?).
  apply (agrees_bind_with (λ h, length h = 32%nat)); [apply signature_hash_agrees|]. intros h Hl.
  apply agrees_bind; [solve_agrees|]. intros [key|]; [|solve_agrees]. apply agrees_bind; [solve_agrees|]. intros parsed.
  apply agrees_bind; [solve_agrees|]. intros [signature|]; [|solve_agrees]. apply agrees_bind; [by apply verify_cached_agrees|]. solve_agrees.
Qed.
Lemma agrees_checkMultiSig op : agrees (opcodeCheckMultiSig victim op).
Proof. unfold opcodeCheckMultiSig, popBytes, pushBool. solve_agrees. Qed.
#[local] Hint Resolve agrees_checkSig agrees_checkMultiSig : agrees.

Lemma agrees_opfunc op pop : agrees (opfunc ripemd160 sha1 victim op pop).
Proof.
  unfold opfunc. destruct op; cbv beta iota;
    unfold opcodeDisabled, opcodeReserved, opcodeInvalid, opcodeFalse, opcodePushData, opcode1Negate, opcodeN, opcodeNop, opcodeIf, opcodeNotIf,
      opcodeElse, opcodeEndif, opcodeVerify, opcodeReturn, opcodeCheckLockTimeVerify, opcodeCheckSequenceVerify, opcodeToAltStack, opcodeFromAltStack,
      opcode2Drop, opcode2Dup, opcode3Dup, opcode2Over, opcode2Rot, opcode2Swap, opcodeIfDup, opcodeDepth, opcodeDrop, opcodeDup, opcodeNip, opcodeOver,
      opcodePick, opcodeRoll, opcodeRot, opcodeSwap, opcodeTuck, opcodeSize, opcodeEqual, opcodeEqualVerify, opcode1Add, opcode1Sub, opcodeNegate, opcodeAbs,
      opcodeNot, opcode0NotEqual, opcodeAdd, opcodeSub, opcodeBoolAnd, opcodeBoolOr, opcodeNumEqual, opcodeNumEqualVerify, opcodeNumNotEqual, opcodeLessThan,
      opcodeGreaterThan, opcodeLessThanOrEqual, opcodeGreaterThanOrEqual, opcodeMin, opcodeMax, opcodeWithin, opcodeRipemd160, opcodeSha1, opcodeSha256,
      opcodeHash160, opcodeHash256, opcodeCodeSeparator, opcodeCheckSigVerify, opcodeCheckMultiSigVerify, pushBytes, pushInt, pushBool, popBytes, peekBytes,
      push_cond, current_input, isBranchExecuting;
    solve_agrees.
Qed.
#[local] Hint Resolve agrees_opfunc : agrees.

Lemma agrees_executeOpcode pop : agrees (executeOpcode ripemd160 sha1 victim pop).
Proof. unfold executeOpcode, isBranchExecuting, minimal. solve_agrees. Qed.
#[local] Hint Resolve agrees_executeOpcode : agrees.

(** ** Running *)

Lemma agrees_parse script : agrees (parse script).
Proof. unfold parse. destruct (parseScript script) as [pops [x|]]; solve_agrees. Qed.
#[local] Hint Resolve agrees_parse : agrees.
Lemma agrees_CheckErrorCondition final : agrees (CheckErrorCondition final).
Proof. unfold CheckErrorCondition, popBool. solve_agrees. Qed.
#[local] Hint Resolve agrees_CheckErrorCondition : agrees.
Lemma agrees_verifyWitnessProgram wit : agrees (verifyWitnessProgram wit).
Proof. unfold verifyWitnessProgram, append_script_pops, SetStack, GetStack. solve_agrees. Qed.
#[local] Hint Resolve agrees_verifyWitnessProgram : agrees.
Lemma agrees_next_script : agrees next_script.
Proof. unfold next_script, GetStack, append_script_pops, SetStack, current_input. solve_agrees. Qed.
#[local] Hint Resolve agrees_next_script : agrees.
Lemma agrees_Step : agrees (Step ripemd160 sha1 victim).
Proof. unfold Step. solve_agrees. Qed.

Lemma steps_agree fuel : ∀ e c, sigCache e = None → cache_sound c →
  match steps ripemd160 sha1 victim fuel e, steps ripemd160 sha1 victim fuel (set_sigCache (Some c) e) with
  | Some (Ret e1), Some (Ret e2) => sigCache e1 = None ∧ ∃ c', cache_sound c' ∧ e2 = set_sigCache (Some c') e1
  | r1, r2 => r1 = r2
  end.
Proof.
  induction fuel as [|fuel IH]; intros e c He Hc; cbn [steps]; [done|]. pose proof (agrees_Step e c He Hc) as Hs.
  destruct (Step ripemd160 sha1 victim e) as [[b1 e1]|x|x], (Step ripemd160 sha1 victim (set_sigCache (Some c) e)) as [[b2 e2]|y|y];
    cbn in Hs; try done; [|by subst..].
  destruct Hs as (<- & _ & He1 & c' & Hc' & ->). destruct b1; [|by apply IH]. split; [done|]. by exists c'.
Qed.

Lemma Execute_cached fuel e c :
  sigCache e = None → cache_sound c →
  Execute ripemd160 sha1 victim fuel (set_sigCache (Some c) e) = Execute ripemd160 sha1 victim fuel e.
Proof.
  intros He Hc. pose proof (steps_agree fuel e c He Hc) as Hs. unfold Execute.
  destruct (steps ripemd160 sha1 victim fuel e) as [[e1|x|x]|], (steps ripemd160 sha1 victim fuel (set_sigCache (Some c) e)) as [[e2|y|y]|];
    try done; try (by injection Hs as ->).
  destruct Hs as (He1 & c' & Hc' & ->). pose proof (agrees_CheckErrorCondition true e1 c' He1 Hc') as Hf.
  destruct (CheckErrorCondition true e1) as [[[] e1']|x|x], (CheckErrorCondition true (set_sigCache (Some c') e1)) as [[[] e2']|y|y]; cbn in Hf; try done; by subst.
Qed.

(** C21. The signature cache is an optimisation only.  On a cache whose entries all verify, whatever transactions they were put in for and
    whichever entry is evicted when it is full, a script runs to the result it has without a cache, the same error or panic included, and
    the cache it leaves behind again holds only signatures that verify. *)
Theorem cache_transparent (fuel : nat) (e : Engine) (c : SigCache) (He : sigCache e = None) (Hc : cache_sound c) :
  Execute ripemd160 sha1 victim fuel (set_sigCache (Some c) e) = Execute ripemd160 sha1 victim fuel e
  ∧ ∀ e', steps ripemd160 sha1 victim fuel (set_sigCache (Some c) e) = Some (Ret e') → ∃ c', sigCache e' = Some c' ∧ cache_sound c'.
Proof.
  split; [by apply Execute_cached|]. intros e' E. pose proof (steps_agree fuel e c He Hc) as Hs. rewrite E in Hs.
  destruct (steps ripemd160 sha1 victim fuel e) as [[e1|x|x]|]; try done. destruct Hs as (_ & c' & Hc' & ->). by exists c'.
Qed.
End Handlers.

(** ** A closed run *)

(** A scheme of signatures where everybody can sign the digests that start with zero. *)
#[local] Instance demo_scheme : Ecdsa := {|
  Signature := bytes; PublicKey := bytes; ParsePubKey := Ret; ParseSignature := Ret; ParseDERSignature := Ret;
  Verify s h k := bool_decide (head h = Some x00)
|}.

(** OP_CHECKSIG with its key, and a transaction that spends such an output. *)
Definition demo_pubkey_script : bytes := x03 :: replicate 3 x02 ++ [xac].
Definition demo_spend : MsgTx := MkMsgTx 1 [MkTxIn (MkOutPoint (zeros 32) 0) [x02; x0a; x01] [] 0] [MkTxOut 7 []] 0.

Lemma cache_transparent_witness :
  ∃ e, NewEngine demo_pubkey_script demo_spend 0 0 None None 7 = Ret e ∧
    Execute (λ x, x) (λ x, x) (λ _, []) 3 (set_sigCache (Some (MkSigCache {[ zeros 32 := ([x0a], replicate 3 x02) ]} 1)) e) =
    Execute (λ x, x) (λ x, x) (λ _, []) 3 e ∧
    Execute (λ x, x) (λ x, x) (λ _, []) 3 e = Some (Err "false stack entry at end of script execution").
Proof.
  eexists. split; [vm_compute; reflexivity|]. split; [|vm_compute; reflexivity].
  eapply proj1, cache_transparent; [reflexivity|].
  intros h sig key E. cbn [validSigs] in E. rewrite lookup_singleton_Some in E. destruct E as [<- _]. reflexivity.
Defined.
