(* ===== verification/WitnessSpend.v ===== *)
(** * Spending a witness key hash: the engine on the scripts the wallet uses *)

From Stdlib Require Import ZArith Lia.
From S2P Require Import Prelude Buffers Sha256 Crypto Utils WireCommon BtcWire BtcTheorems Script ScriptTheorems SigHash Stack Engine Opcodes Execute EngineTheorems.

Local Open Scope Z_scope.

(** ** The checks of a signature's encoding *)

Lemma bind_Ret_mono {A B} (m : outcome A) (f g : A → outcome B) b :
  (∀ a, f a = Ret b → g a = Ret b) → (m ≫= f) = Ret b → (m ≫= g) = Ret b.
Proof. intros Hfg. destruct m as [a|x|x]; [apply Hfg|discriminate..]. Qed.

Lemma check_der_weaken sig : check_der true sig = Ret tt → check_der false sig = Ret tt.
Proof. unfold check_der. repeat (apply bind_Ret_mono; intros ?). reflexivity. Qed.

(** ** The scripts *)

(** The opcodes of a public key hash script. *)
Definition p2pkh_pops (pkh : bytes) : list parsedOpcode :=
  [MkParsedOpcode x76 []; MkParsedOpcode xa9 []; MkParsedOpcode x14 pkh; MkParsedOpcode x88 []; MkParsedOpcode xac []].

Definition p2pkh (pkh : bytes) : bytes := [x76; xa9; x14] ++ pkh ++ [x88; xac].

(** A list of twenty bytes by its bytes. *)
Ltac twenty l H := do 20 (destruct l as [|? l]; [discriminate H|]); destruct l as [|? l]; [clear H|discriminate H].

Lemma payToPubKeyHash_p2pkh pkh : length pkh = 20%nat → payToPubKeyHashScript pkh = Ret (p2pkh pkh).
Proof. intros Hl. twenty pkh Hl. vm_compute. reflexivity. Qed.

Lemma parse_p2pkh pkh : length pkh = 20%nat → parseScript (p2pkh pkh) = (p2pkh_pops pkh, None).
Proof. intros Hl. twenty pkh Hl. vm_compute. reflexivity. Qed.

(** The digest for the witness program is the one for the script it stands for. *)
Lemma script_code_p2wpkh pkh :
  length pkh = 20%nat → script_code [MkParsedOpcode x00 []; MkParsedOpcode x14 pkh] = script_code (p2pkh_pops pkh).
Proof. intros Hl. twenty pkh Hl. vm_compute. reflexivity. Qed.

Lemma witness_program_p2wpkh pkh : length pkh = 20%nat → ExtractWitnessProgramInfo (p2wpkh pkh) = Ret (0, pkh).
Proof. intros Hl. twenty pkh Hl. vm_compute. reflexivity. Qed.

(** ** Steps *)

Section Spend.
Context `{HashFunction} `{Ecdsa} (ripemd160 sha1 : bytes → bytes)
  (victim : gmap bytes (Signature * PublicKey) → bytes).
Local Abbreviation executeOpcode := (executeOpcode ripemd160 sha1 victim).
Local Abbreviation Step := (Step ripemd160 sha1 victim).

(** A step that runs one opcode, and what comes after it. *)
Lemma Step_runs e script op e' :
  scripts e !! scriptIdx e = Some script → script !! scriptOff e = Some op →
  executeOpcode op (set_scriptOff (S (scriptOff e)) e) = Ret (tt, e') → Depth (dstack e') + Depth (astack e') <= MaxStackSize →
  Step e = if decide (length script ≤ S (scriptOff e))%nat then next_script e' else Ret (false, e').
Proof.
  intros Hs Ho Hx Hd. pose proof (stays_executeOpcode _ _ _ _ _ _ _ Hx) as (_ & _ & _ & Hoff & _). cbn in Hoff.
  unfold Step, mbind, vm_bind, asks, id. cbv beta. rewrite Hs. cbn [mbind option_bind]. rewrite Ho. cbn [fmap option_fmap option_map].
  unfold upd. cbv beta iota. rewrite Hx. cbv beta iota. rewrite (bool_decide_false (_ > _)) by lia. cbn [negb ensure mret vm_ret].
  unfold mret, vm_ret. cbv beta iota. rewrite Hoff. case_decide as E; [by rewrite bool_decide_true|by rewrite bool_decide_false].
Qed.

Lemma Step_fails e script op x :
  scripts e !! scriptIdx e = Some script → script !! scriptOff e = Some op →
  executeOpcode op (set_scriptOff (S (scriptOff e)) e) = Err x → Step e = Err x.
Proof.
  intros Hs Ho Hx. unfold Step, mbind, vm_bind, asks, id. cbv beta. rewrite Hs. cbn [mbind option_bind]. rewrite Ho.
  cbn [fmap option_fmap option_map]. unfold upd. cbv beta iota. by rewrite Hx.
Qed.

Lemma Step_panics e script op x :
  scripts e !! scriptIdx e = Some script → script !! scriptOff e = Some op →
  executeOpcode op (set_scriptOff (S (scriptOff e)) e) = Panic x → Step e = Panic x.
Proof.
  intros Hs Ho Hx. unfold Step, mbind, vm_bind, asks, id. cbv beta. rewrite Hs. cbn [mbind option_bind]. rewrite Ho.
  cbn [fmap option_fmap option_map]. unfold upd. cbv beta iota. by rewrite Hx.
Qed.

(** An opcode that is counted, and a push. *)
Lemma executeOpcode_op op e :
  byte_Z op > OP_16 → isDisabled (MkParsedOpcode op []) = false → alwaysIllegal (MkParsedOpcode op []) = false →
  condStack e = [] → numOps e < MaxOpsPerScript →
  executeOpcode (MkParsedOpcode op []) e = opfunc ripemd160 sha1 victim op (MkParsedOpcode op []) (set_numOps (numOps e + 1) e).
Proof.
  intros Hop Hd Hi Hc Hn. unfold Execute.executeOpcode. rewrite Hd, Hi. cbn [po_opcode po_data]. rewrite (bool_decide_true (byte_Z op > OP_16)) by done.
  unfold mbind, vm_bind, ensure, mret, vm_ret, upd, asks, isBranchExecuting, minimal, asks. cbn [negb]. cbv beta iota. cbn [numOps set_numOps condStack env].
  rewrite (bool_decide_false (_ > _)) by lia. cbn [negb]. cbn [condStack set_numOps]. rewrite Hc. cbn [executing negb andb]. unfold OP_16, OP_PUSHDATA4 in *.
  rewrite (bool_decide_false (0 <= byte_Z op <= 78)) by lia. by rewrite !andb_false_r.
Qed.

Lemma executeOpcode_push pop e :
  byte_Z (po_opcode pop) <= OP_PUSHDATA4 → condStack e = [] → len (po_data pop) <= MaxScriptElementSize → checkMinimalDataPush pop = None →
  isDisabled pop = false → alwaysIllegal pop = false →
  executeOpcode pop e = opfunc ripemd160 sha1 victim (po_opcode pop) pop e.
Proof.
  intros Hop Hc Hl Hm Hd Hi. unfold Execute.executeOpcode. rewrite Hd, Hi. unfold OP_16, OP_PUSHDATA4 in *.
  rewrite (bool_decide_false (byte_Z _ > _)) by (unfold OP_16; lia). rewrite (bool_decide_false (len _ > _)) by lia. rewrite Hm.
  unfold mbind, vm_bind, ensure, mret, vm_ret, asks, isBranchExecuting, minimal, asks. cbn [negb]. cbv beta iota. rewrite Hc. cbn [executing negb andb].
  destruct (_ && _); reflexivity.
Qed.

(** ** Encodings that every flag accepts *)

Lemma SigHashAll_accepted e : checkHashTypeEncoding SigHashAll e = Ret (tt, e).
Proof. unfold checkHashTypeEncoding, mbind, vm_bind, hasFlag, asks. by destruct (bool_decide _). Qed.

Lemma der_accepted sig e : check_der true sig = Ret tt → checkSignatureEncoding sig e = Ret (tt, e).
Proof.
  intros Hs. unfold checkSignatureEncoding, mbind, vm_bind, hasFlag, asks. destruct (negb _ && negb _ && negb _); [reflexivity|].
  unfold lift. destruct (bool_decide (Z.land _ ScriptVerifyLowS = _)); [|apply check_der_weaken in Hs]; by rewrite Hs.
Qed.

Lemma compressed_starts key : IsCompressedPubKey key = true → bool_decide (len key = 33) && starts_with key [2; 3] = true.
Proof.
  unfold IsCompressedPubKey. intros [Hl Hk]%andb_true_iff. rewrite Hl. destruct key as [|x key]; [discriminate|]. cbn [starts_with andb].
  by destruct x.
Qed.

Lemma compressed_accepted key e : IsCompressedPubKey key = true → checkPubKeyEncoding key e = Ret (tt, e).
Proof.
  intros Hk. unfold checkPubKeyEncoding, mbind, vm_bind, hasFlag, isWitnessVersionActive, asks. rewrite Hk. rewrite andb_false_r.
  destruct (negb _); [reflexivity|]. by rewrite compressed_starts.
Qed.

(** ** The run *)

Lemma DropN_all st : times (length st) (λ s, '(_, s) ← PopByteArray s; mret s) st = Ret [].
Proof. induction st as [|b st IH]; [done|]. cbn [length times]. cbn. exact IH. Qed.

Lemma setStack_all st data : setStack st data = rev data.
Proof.
  unfold setStack. replace (match DropN (Depth st) st with Ret s => s | _ => st end) with (@nil bytes).
  - assert (∀ l, foldl (λ s so, PushByteArray so s) l data = rev data ++ l) as Hf; [|by rewrite Hf, app_nil_r].
    induction data as [|d data IH]; intros l; [done|]. cbn [foldl rev]. rewrite IH. unfold PushByteArray. by rewrite <- app_assoc.
  - destruct st as [|b st]; [done|]. unfold DropN, counted, Depth. rewrite bool_decide_false by (rewrite len_cons; pose proof (len_nonneg st); lia).
    unfold len. rewrite Nat2Z.id. by rewrite DropN_all.
Qed.

Definition program_pops (pkh : bytes) : list parsedOpcode := [MkParsedOpcode x00 []; MkParsedOpcode x14 pkh].

(** The engine between two opcodes of such a run. *)
Definition at_op (env : Env) (pkh : bytes) (more : list (list parsedOpcode)) (idx off : nat) (st : stack) (ops : Z) : Engine :=
  MkEngine env ([] :: program_pops pkh :: more) idx off 0 st [] [] ops None [] (Some pkh).

Context (en : Env) (pkh full key : bytes) (ti : TxIn).
Hypothesis Hpkh : length pkh = 20%nat.
Hypothesis Hbip16 : e_bip16 en = false.
Hypothesis Hversion : e_witnessVersion en = 0.
Hypothesis Hinput : tx_TxIn (e_tx en) !! e_txIdx en = Some ti.
Hypothesis Hwitness : Witness ti = [full; key].
Hypothesis Hfull : len full <= MaxScriptElementSize.
Hypothesis Hkey : len key <= MaxScriptElementSize.

Lemma minimal_data : checkMinimalDataPush (MkParsedOpcode x14 pkh) = None.
Proof. unfold checkMinimalDataPush. cbn [po_data]. assert (len pkh = 20) as -> by (unfold len; lia). by rewrite single_long by (unfold len; lia). Qed.

Lemma push_program off st more idx ops :
  executeOpcode (MkParsedOpcode x14 pkh) (at_op en pkh more idx off st ops) = Ret (tt, at_op en pkh more idx off (pkh :: st) ops).
Proof.
  assert (len pkh = 20) as Hn by (unfold len; lia).
  by rewrite executeOpcode_push by (done || apply minimal_data || (cbn [po_data]; rewrite Hn; done)).
Qed.

(** The end of the witness program starts the script it stands for. *)
Lemma verify_program st :
  verifyWitnessProgram [full; key] (at_op en pkh [] 2 0 st 0) = Ret (tt, at_op en pkh [p2pkh_pops pkh] 2 0 [key; full] 0).
Proof.
  assert (len pkh = 20) as Hn by (unfold len; lia). unfold verifyWitnessProgram.
  assert (∀ more st, isWitnessVersionActive 0 (at_op en pkh more 2 0 st 0) = Ret (true, at_op en pkh more 2 0 st 0)) as Hactive.
  { intros. unfold isWitnessVersionActive, asks, at_op. cbn [witnessProgram Engine.env]. by rewrite Hversion. }
  rewrite (vm_bind_Ret _ _ _ _ _ (Hactive _ _)). erewrite vm_bind_Ret; [|reflexivity]. cbn [witnessProgram at_op default from_option id].
  rewrite Hn, (bool_decide_true (20 = _)) by done.
  rewrite (vm_bind_Ret _ _ _ tt (at_op en pkh [p2pkh_pops pkh] 2 0 [key; full] 0)).
  2:{ erewrite vm_bind_Ret; [|reflexivity]. rewrite payToPubKeyHash_p2pkh by done. erewrite vm_bind_Ret; [|reflexivity].
      unfold parse. rewrite parse_p2pkh by done. erewrite vm_bind_Ret; [|reflexivity]. erewrite vm_bind_Ret; [|reflexivity].
      unfold SetStack, upd. rewrite (setStack_all st). reflexivity. }
  rewrite (vm_bind_Ret _ _ _ _ _ (Hactive _ _)). erewrite vm_bind_Ret; [|reflexivity]. cbn. rewrite !bool_decide_false by lia. reflexivity.
Qed.

Lemma program_ends : next_script (at_op en pkh [] 1 2 [pkh; []] 0) = Ret (false, at_op en pkh [p2pkh_pops pkh] 2 0 [key; full] 0).
Proof.
  unfold next_script. do 4 (erewrite vm_bind_Ret; [|reflexivity]). erewrite vm_bind_Ret; [|reflexivity].
  rewrite (vm_bind_Ret _ _ _ tt (at_op en pkh [p2pkh_pops pkh] 2 0 [key; full] 0)); [reflexivity|].
  cbn [Engine.env at_op id set_scriptOff set_numOps set_astack witnessProgram scriptIdx]. rewrite Hbip16.
  rewrite !andb_false_r, (bool_decide_true (1%nat = 1%nat)), (bool_decide_true (Some pkh ≠ None)) by done. cbn [andb orb].
  erewrite vm_bind_Ret; [|unfold current_input, mbind, vm_bind, asks; cbn; rewrite Hinput; reflexivity].
  rewrite Hwitness. apply (verify_program [pkh; []]).
Qed.

Lemma equalverify a b st op e :
  dstack e = a :: b :: st → opcodeEqualVerify op e = if bytes_eqb a b then Ret (tt, set_dstack st e) else Err "OP_EQUALVERIFY failed".
Proof.
  destruct e. cbn. intros ->. unfold opcodeEqualVerify, opcodeEqual. erewrite vm_bind_Ret; [|reflexivity].
  by destruct (bytes_eqb a b).
Qed.

(** Up to the check of the signature. *)
Lemma run_to_checksig :
  steps ripemd160 sha1 victim 7 (at_op en pkh [] 1 0 [] 0) =
  if bytes_eqb pkh (Hash160 ripemd160 key) then steps ripemd160 sha1 victim 1 (at_op en pkh [p2pkh_pops pkh] 2 4 [key; full] 3)
  else Some (Err "OP_EQUALVERIFY failed").
Proof.
  set (more := [p2pkh_pops pkh]). set (h := Hash160 ripemd160 key).
  cbn [steps]. rewrite (Step_runs (at_op en pkh [] 1 0 [] 0) (program_pops pkh) (MkParsedOpcode x00 []) (at_op en pkh [] 1 1 [[]] 0)) by (done || by rewrite executeOpcode_push).
  cbn [decide]. rewrite decide_False by (cbn; lia).
  rewrite (Step_runs (at_op en pkh [] 1 1 [[]] 0) (program_pops pkh) (MkParsedOpcode x14 pkh) (at_op en pkh [] 1 2 [pkh; []] 0)) by (done || apply push_program).
  rewrite decide_True by (cbn; lia). rewrite program_ends. fold more.
  rewrite (Step_runs (at_op en pkh more 2 0 [key; full] 0) (p2pkh_pops pkh) (MkParsedOpcode x76 []) (at_op en pkh more 2 1 [key; key; full] 1)) by (done || by rewrite executeOpcode_op).
  rewrite decide_False by (cbn; lia).
  rewrite (Step_runs (at_op en pkh more 2 1 [key; key; full] 1) (p2pkh_pops pkh) (MkParsedOpcode xa9 []) (at_op en pkh more 2 2 [h; key; full] 2)) by (done || by rewrite executeOpcode_op).
  rewrite decide_False by (cbn; lia).
  rewrite (Step_runs (at_op en pkh more 2 2 [h; key; full] 2) (p2pkh_pops pkh) (MkParsedOpcode x14 pkh) (at_op en pkh more 2 3 [pkh; h; key; full] 2)) by (done || apply push_program).
  rewrite decide_False by (cbn; lia). destruct (bytes_eqb pkh h) eqn:E.
  - rewrite (Step_runs (at_op en pkh more 2 3 [pkh; h; key; full] 2) (p2pkh_pops pkh) (MkParsedOpcode x88 []) (at_op en pkh more 2 4 [key; full] 3)); [|done..| |done].
    + rewrite decide_False by (cbn; lia). done.
    + rewrite executeOpcode_op by done. cbn [opfunc]. rewrite (equalverify pkh h [key; full]), E by done. done.
  - rewrite (Step_fails _ (p2pkh_pops pkh) (MkParsedOpcode x88 []) "OP_EQUALVERIFY failed"); [done|done..|].
    rewrite executeOpcode_op by done. cbn [opfunc]. rewrite (equalverify pkh h [key; full]), E by done. done.
Qed.

(** The digest of BIP 143 of this input. *)
Definition bip143_digest : outcome bytes :=
  calcWitnessSignatureHash (p2pkh_pops pkh) (match e_hashCache en with Some h => h | None => NewTxSigHashes (e_tx en) end) SigHashAll
    (e_tx en) (e_txIdx en) (e_inputAmount en).

Context (sig h : bytes) (s : Signature) (pk : PublicKey).
Hypothesis Hsig : full = sig ++ [x01].
Hypothesis Hder : check_der true sig = Ret tt.
Hypothesis Hcompressed : IsCompressedPubKey key = true.
Hypothesis Hpk : ParsePubKey key = Ret pk.
Hypothesis Hstrict : ParseDERSignature sig = Ret s.
Hypothesis Hlax : ParseSignature sig = Ret s.
Hypothesis Hdigest : bip143_digest = Ret h.

Lemma checksig_run op e :
  e = at_op en pkh [p2pkh_pops pkh] 2 5 [key; full] 4 →
  opcodeCheckSig victim op e =
  if negb (Verify s h pk) && bool_decide (Z.land (e_flags en) ScriptVerifyNullFail = ScriptVerifyNullFail) && bool_decide (len sig > 0)
  then Err "signature not empty on failed checksig" else Ret (tt, at_op en pkh [p2pkh_pops pkh] 2 5 [fromBool (Verify s h pk)] 4).
Proof.
  set (e0 := at_op en pkh [p2pkh_pops pkh] 2 5 [] 4). intros ->. unfold opcodeCheckSig.
  rewrite (vm_bind_Ret _ _ _ key (at_op en pkh [p2pkh_pops pkh] 2 5 [full] 4)) by reflexivity. rewrite (vm_bind_Ret _ _ _ full e0) by reflexivity.
  assert (split_sig full = Some (SigHashAll, sig)) as -> by (unfold split_sig; by rewrite Hsig, last_snoc, removelast_last).
  rewrite (vm_bind_Ret _ _ _ _ _ (SigHashAll_accepted _)), (vm_bind_Ret _ _ _ _ _ (der_accepted _ _ Hder)), (vm_bind_Ret _ _ _ _ _ (compressed_accepted _ _ Hcompressed)).
  rewrite (vm_bind_Ret _ _ _ (p2pkh_pops pkh) e0) by reflexivity.
  assert (isWitnessVersionActive 0 e0 = Ret (true, e0)) as Hactive.
  { unfold isWitnessVersionActive, asks, e0, at_op. cbn [witnessProgram Engine.env]. by rewrite Hversion. }
  rewrite (vm_bind_Ret _ _ _ _ _ Hactive). cbv beta zeta.
  rewrite (vm_bind_Ret _ _ _ h e0).
  2:{ unfold signature_hash. rewrite (vm_bind_Ret _ _ _ _ _ Hactive). erewrite vm_bind_Ret; [|reflexivity]. cbv beta zeta. unfold lift.
      change (match bip143_digest with Ret a => Ret (a, e0) | Err x => Err x | Panic x => Panic x end = Ret (h, e0)). by rewrite Hdigest. }
  rewrite Hpk. rewrite (vm_bind_Ret _ _ _ (Some pk) e0) by reflexivity. rewrite (vm_bind_Ret _ _ _ (Ret s) e0).
  2:{ unfold parse_signature, mbind, vm_bind, hasFlag, asks. destruct (_ || _); [by rewrite Hstrict|by rewrite Hlax]. }
  rewrite (vm_bind_Ret _ _ _ (Some s) e0) by reflexivity. rewrite (vm_bind_Ret _ _ _ (Verify s h pk) e0) by reflexivity.
  erewrite vm_bind_Ret; [|reflexivity]. cbn [Engine.env e_flags e0 at_op]. by destruct (negb (Verify s h pk) && _ && _).
Qed.

Lemma checksig_step : executeOpcode (MkParsedOpcode xac []) (at_op en pkh [p2pkh_pops pkh] 2 5 [key; full] 3) =
  opcodeCheckSig victim (MkParsedOpcode xac []) (at_op en pkh [p2pkh_pops pkh] 2 5 [key; full] 4).
Proof. by rewrite executeOpcode_op. Qed.

Lemma script_ends b :
  next_script (at_op en pkh [p2pkh_pops pkh] 2 5 [fromBool b] 4) = Ret (true, at_op en pkh [p2pkh_pops pkh] 3 0 [fromBool b] 0).
Proof.
  unfold next_script. do 5 (erewrite vm_bind_Ret; [|reflexivity]).
  rewrite (vm_bind_Ret _ _ _ tt (at_op en pkh [p2pkh_pops pkh] 3 0 [fromBool b] 0)); [reflexivity|].
  cbn [Engine.env at_op id set_scriptOff set_numOps set_astack witnessProgram scriptIdx]. by rewrite Hbip16, !andb_false_r.
Qed.

Lemma final_check b :
  CheckErrorCondition true (at_op en pkh [p2pkh_pops pkh] 3 0 [fromBool b] 0) =
  if b then Ret (tt, at_op en pkh [p2pkh_pops pkh] 3 0 [] 0) else Err "false stack entry at end of script execution".
Proof.
  unfold CheckErrorCondition. do 2 (erewrite vm_bind_Ret; [|reflexivity]). erewrite vm_bind_Ret; [|reflexivity].
  cbn [dstack at_op id Engine.env witnessProgram]. change (bool_decide (Depth [fromBool b] = 1)) with true. cbn [negb]. rewrite !andb_false_r.
  erewrite vm_bind_Ret; [|reflexivity]. erewrite vm_bind_Ret; [|reflexivity]. rewrite andb_false_r.
  erewrite vm_bind_Ret; [|reflexivity]. by destruct b.
Qed.

(** The verdict of the engine. *)
Lemma Execute_p2wpkh :
  Execute ripemd160 sha1 victim 7 (at_op en pkh [] 1 0 [] 0) =
  Some (if negb (bytes_eqb pkh (Hash160 ripemd160 key)) then Err "OP_EQUALVERIFY failed"
        else if Verify s h pk then Ret tt
        else if bool_decide (Z.land (e_flags en) ScriptVerifyNullFail = ScriptVerifyNullFail) && bool_decide (len sig > 0)
        then Err "signature not empty on failed checksig" else Err "false stack entry at end of script execution").
Proof.
  unfold Execute. rewrite run_to_checksig. destruct (bytes_eqb _ _); [|done]. cbn [negb steps].
  pose proof (checksig_run (MkParsedOpcode xac []) _ eq_refl) as Hc. rewrite <- checksig_step in Hc.
  destruct (negb (Verify s h pk) && _ && _) eqn:E.
  - rewrite (Step_fails _ (p2pkh_pops pkh) (MkParsedOpcode xac []) "signature not empty on failed checksig") by (done || exact Hc).
    apply andb_true_iff in E as [[Hv Hn]%andb_true_iff Hl]. apply negb_true_iff in Hv. by rewrite Hv, Hn, Hl.
  - rewrite (Step_runs _ (p2pkh_pops pkh) (MkParsedOpcode xac []) (at_op en pkh [p2pkh_pops pkh] 2 5 [fromBool (Verify s h pk)] 4)) by (done || exact Hc).
    rewrite decide_True by (cbn; lia). rewrite script_ends, final_check. destruct (Verify s h pk); [done|]. cbn [negb andb] in E. by rewrite E.
Qed.
End Spend.

(** ** Any witness *)

Section AnyWitness.
Context `{HashFunction} `{Ecdsa} (ripemd160 sha1 : bytes → bytes)
  (victim : gmap bytes (Signature * PublicKey) → bytes).

(** The encodings that the flags ask for. *)
Record encoding_ok (flags hashType : Z) (sig key : bytes) : Prop := EncodingOk {
  eo_type : flagged flags ScriptVerifyStrictEncoding = true → SigHashAll <= Z.ldiff hashType SigHashAnyOneCanPay <= SigHashSingle;
  eo_sig : flagged flags ScriptVerifyDERSignatures || flagged flags ScriptVerifyLowS || flagged flags ScriptVerifyStrictEncoding = true →
    check_der (flagged flags ScriptVerifyLowS) sig = Ret tt;
  eo_segwit : flagged flags ScriptVerifyWitnessPubKeyType = true → IsCompressedPubKey key = true;
  eo_key : flagged flags ScriptVerifyStrictEncoding = true →
    len key = 33 ∧ starts_with key [0x02; 0x03] = true ∨ len key = 65 ∧ starts_with key [0x04] = true
}.

Lemma hashType_checked t e :
  checkHashTypeEncoding t e =
  if negb (flagged (e_flags (env e)) ScriptVerifyStrictEncoding) || bool_decide (SigHashAll <= Z.ldiff t SigHashAnyOneCanPay <= SigHashSingle)
  then Ret (tt, e) else Err "invalid hash type".
Proof.
  unfold checkHashTypeEncoding, mbind, vm_bind, hasFlag, asks, flagged. destruct (bool_decide (Z.land _ _ = _)); cbn [negb orb]; [|done].
  unfold ensure. repeat case_bool_decide; cbn [negb orb]; try done; lia.
Qed.

Lemma signature_checked sig e :
  let flags := e_flags (env e) in
  checkSignatureEncoding sig e =
  if flagged flags ScriptVerifyDERSignatures || flagged flags ScriptVerifyLowS || flagged flags ScriptVerifyStrictEncoding
  then lift (check_der (flagged flags ScriptVerifyLowS) sig) e else Ret (tt, e).
Proof.
  cbv zeta. unfold checkSignatureEncoding, mbind, vm_bind, hasFlag, asks, flagged.
  by destruct (bool_decide (Z.land _ ScriptVerifyDERSignatures = _)), (bool_decide (Z.land _ ScriptVerifyLowS = _)), (bool_decide (Z.land _ ScriptVerifyStrictEncoding = _)).
Qed.

Lemma key_checked key e :
  isWitnessVersionActive 0 e = Ret (true, e) →
  let flags := e_flags (env e) in
  let ok := (negb (flagged flags ScriptVerifyWitnessPubKeyType) || IsCompressedPubKey key) &&
            (negb (flagged flags ScriptVerifyStrictEncoding) || (bool_decide (len key = 33) && starts_with key [0x02; 0x03]) ||
             (bool_decide (len key = 65) && starts_with key [0x04])) in
  (ok = true → checkPubKeyEncoding key e = Ret (tt, e)) ∧ (ok = false → ∃ x, checkPubKeyEncoding key e = Err x).
Proof.
  intros Ha. cbv zeta. unfold checkPubKeyEncoding, hasFlag, flagged. erewrite vm_bind_Ret; [|reflexivity]. rewrite (vm_bind_Ret _ _ _ _ _ Ha).
  destruct (bool_decide (Z.land _ ScriptVerifyWitnessPubKeyType = _)), (IsCompressedPubKey key); cbn [andb orb negb];
    try (split; [done|]; intros _; by eexists);
    erewrite !vm_bind_Ret by reflexivity;
    (destruct (bool_decide (Z.land _ ScriptVerifyStrictEncoding = _)); cbn [negb orb]; [|done]);
    (destruct (bool_decide (len key = 33) && _); cbn [orb]; [done|]);
    (destruct (bool_decide (len key = 65) && _); [done|]); (split; [done|]; intros _; by eexists).
Qed.

Lemma parsed_signature sig e :
  ∃ r, parse_signature sig e = Ret (r, e) ∧
    (if flagged (e_flags (env e)) ScriptVerifyStrictEncoding || flagged (e_flags (env e)) ScriptVerifyDERSignatures
     then ParseDERSignature sig else ParseSignature sig) = r.
Proof. eexists. split; [reflexivity|]. reflexivity. Qed.

(** What OP_CHECKSIG does with a signature and a key when there is no cache. *)
Definition signed (tx : MsgTx) (i : nat) (flags amt : Z) (pkh full key : bytes) : Prop :=
  ∃ sig ht pk s h, full = sig ++ [ht] ∧ encoding_ok flags (byte_Z ht) sig key ∧ ParsePubKey key = Ret pk ∧
    (if flagged flags ScriptVerifyStrictEncoding || flagged flags ScriptVerifyDERSignatures then ParseDERSignature sig else ParseSignature sig) = Ret s ∧
    CalcWitnessSigHash (p2wpkh pkh) (NewTxSigHashes tx) (byte_Z ht) tx i amt = Ret h ∧ Verify s h pk = true.

Context (en : Env) (pkh full key : bytes) (ti : TxIn).
Hypothesis Hpkh : length pkh = 20%nat.
Hypothesis Hversion : e_witnessVersion en = 0.
Hypothesis Hinput : tx_TxIn (e_tx en) !! e_txIdx en = Some ti.
Hypothesis Hcache : e_hashCache en = None ∨ e_hashCache en = Some (NewTxSigHashes (e_tx en)).

Local Abbreviation after st := (at_op en pkh [p2pkh_pops pkh] 2 5 st 4).

Lemma checksig_any op :
  match opcodeCheckSig victim op (after [key; full]) with
  | Ret (_, e) => ∃ b, e = after [fromBool b] ∧ (b = true ↔ signed (e_tx en) (e_txIdx en) (e_flags en) (e_inputAmount en) pkh full key)
  | _ => ¬ signed (e_tx en) (e_txIdx en) (e_flags en) (e_inputAmount en) pkh full key
  end.
Proof.
  assert (∀ st, isWitnessVersionActive 0 (after st) = Ret (true, after st)) as Hactive.
  { intros. unfold isWitnessVersionActive, asks, at_op. cbn [witnessProgram Engine.env]. by rewrite Hversion. }
  unfold opcodeCheckSig.
  rewrite (vm_bind_Ret _ _ _ key (after [full])) by reflexivity. rewrite (vm_bind_Ret _ _ _ full (after [])) by reflexivity.
  unfold split_sig. destruct (last full) as [ht|] eqn:El; cbn [fmap option_fmap option_map].
  2:{ exists false. split; [done|]. split; [done|]. intros (sig & ht & pk & s & h & -> & _). by rewrite last_snoc in El. }
  apply last_Some in El as [sig ->]. rewrite removelast_last.
  assert (Huniq : signed (e_tx en) (e_txIdx en) (e_flags en) (e_inputAmount en) pkh (sig ++ [ht]) key →
    ∃ pk s h, encoding_ok (e_flags en) (byte_Z ht) sig key ∧ ParsePubKey key = Ret pk ∧
    (if flagged (e_flags en) ScriptVerifyStrictEncoding || flagged (e_flags en) ScriptVerifyDERSignatures then ParseDERSignature sig else ParseSignature sig) = Ret s ∧
    CalcWitnessSigHash (p2wpkh pkh) (NewTxSigHashes (e_tx en)) (byte_Z ht) (e_tx en) (e_txIdx en) (e_inputAmount en) = Ret h ∧ Verify s h pk = true).
  { intros (sig' & ht' & pk & s & h & Heq & Hrest). apply app_inj_tail in Heq as [<- <-]. by exists pk, s, h. }
  (* the encodings *)
  pose proof (hashType_checked (byte_Z ht) (after [])) as Et. cbn [Engine.env at_op] in Et.
  destruct (negb (flagged (e_flags en) ScriptVerifyStrictEncoding) || _) eqn:Ht.
  2:{ unfold mbind at 1, vm_bind at 1. rewrite Et. intros (pk & s & h & [E1 _ _ _] & _)%Huniq. apply orb_false_iff in Ht as [Ht1 Ht2].
      apply negb_false_iff in Ht1. apply bool_decide_eq_false in Ht2. by apply Ht2, E1. }
  rewrite (vm_bind_Ret _ _ _ _ _ Et). clear Et.
  pose proof (signature_checked sig (after [])) as Es. cbv zeta in Es. cbn [Engine.env at_op] in Es.
  assert (Hder : match checkSignatureEncoding sig (after []) with
    | Ret (_, e) => e = after [] ∧ (flagged (e_flags en) ScriptVerifyDERSignatures || flagged (e_flags en) ScriptVerifyLowS || flagged (e_flags en) ScriptVerifyStrictEncoding = true →
        check_der (flagged (e_flags en) ScriptVerifyLowS) sig = Ret tt)
    | _ => ¬ (flagged (e_flags en) ScriptVerifyDERSignatures || flagged (e_flags en) ScriptVerifyLowS || flagged (e_flags en) ScriptVerifyStrictEncoding = true →
        check_der (flagged (e_flags en) ScriptVerifyLowS) sig = Ret tt) end).
  { rewrite Es. destruct (_ || _ || _); [|by split]. unfold lift. destruct (check_der _ sig) as [[]|x|x]; [by split|..]; intros Hn; by specialize (Hn eq_refl). }
  unfold mbind at 1, vm_bind at 1.
  destruct (checkSignatureEncoding sig (after [])) as [[[] e1]|x|x]; [destruct Hder as [-> Hder]|intros (pk & s & h & [] & _)%Huniq; by destruct Hder..]. clear Es.
  destruct (key_checked key (after []) (Hactive [])) as [Ek1 Ek2]. cbn [Engine.env at_op] in Ek1, Ek2.
  destruct ((negb (flagged (e_flags en) ScriptVerifyWitnessPubKeyType) || _) && _) eqn:Hk.
  2:{ destruct (Ek2 eq_refl) as [x Ex]. unfold mbind at 1, vm_bind at 1. rewrite Ex. intros (pk & s & h & [_ _ E3 E4] & _)%Huniq.
      apply andb_false_iff in Hk as [Hk|Hk].
      - apply orb_false_iff in Hk as [Hk1 Hk2]. apply negb_false_iff in Hk1. rewrite E3 in Hk2 by done. done.
      - apply orb_false_iff in Hk as [Hk Hk3]. apply orb_false_iff in Hk as [Hk1 Hk2]. apply negb_false_iff in Hk1.
        destruct (E4 Hk1) as [[El Est]|[El Est]]; rewrite El, Est in *; done. }
  rewrite (vm_bind_Ret _ _ _ _ _ (Ek1 eq_refl)). clear Ek1 Ek2.
  assert (Henc : encoding_ok (e_flags en) (byte_Z ht) sig key).
  { apply andb_prop in Hk as [Hk1 Hk2]. split.
    - intros Hf. rewrite Hf in Ht. cbn [negb orb] in Ht. by apply bool_decide_eq_true in Ht.
    - done.
    - intros Hf. by rewrite Hf in Hk1.
    - intros Hf. rewrite Hf in Hk2. cbn [negb orb] in Hk2. apply orb_prop in Hk2 as [Hk2|Hk2]; apply andb_prop in Hk2 as [Hl%bool_decide_eq_true Hs]; auto. }
  rewrite (vm_bind_Ret _ _ _ (p2pkh_pops pkh) (after [])) by reflexivity. rewrite (vm_bind_Ret _ _ _ _ _ (Hactive [])). cbv beta zeta.
  (* the digest *)
  assert (∃ h, CalcWitnessSigHash (p2wpkh pkh) (NewTxSigHashes (e_tx en)) (byte_Z ht) (e_tx en) (e_txIdx en) (e_inputAmount en) = Ret h ∧
    signature_hash (p2pkh_pops pkh) (byte_Z ht) (after []) = Ret (h, after [])) as (h & Hh & Eh).
  { unfold CalcWitnessSigHash. rewrite parse_p2wpkh by done. unfold signature_hash. rewrite (vm_bind_Ret _ _ _ _ _ (Hactive [])).
    erewrite vm_bind_Ret by reflexivity. cbv beta zeta. unfold lift, calcWitnessSignatureHash. cbn [Engine.env at_op]. rewrite Hinput.
    eexists. split; [reflexivity|]. unfold mret, outcome_ret. do 3 f_equal. unfold witness_preimage. rewrite script_code_p2wpkh by done.
    by destruct Hcache as [->| ->]. }
  rewrite (vm_bind_Ret _ _ _ _ _ Eh).
  (* the key, the signature and the verification *)
  destruct (ParsePubKey key) as [pk|x|x] eqn:Epk; unfold or_panic at 1.
  2:{ erewrite vm_bind_Ret by reflexivity. exists false. split; [done|]. split; [done|]. intros (? & ? & ? & _ & ? & _)%Huniq. congruence. }
  2:{ intros (? & ? & ? & _ & ? & _)%Huniq. congruence. }
  erewrite vm_bind_Ret by reflexivity. cbv beta iota.
  destruct (parsed_signature sig (after [])) as (parsed & Eparsed & Hparsed). cbn [Engine.env at_op] in Hparsed.
  rewrite (vm_bind_Ret _ _ _ _ _ Eparsed). cbv beta iota.
  destruct parsed as [s|x|x]; cbv beta iota.
  2:{ erewrite vm_bind_Ret by reflexivity. exists false. split; [done|]. split; [done|]. intros (? & ? & ? & _ & _ & ? & _)%Huniq. congruence. }
  2:{ intros (? & ? & ? & _ & _ & ? & _)%Huniq. congruence. }
  erewrite vm_bind_Ret by reflexivity. cbv beta iota. rewrite (vm_bind_Ret _ _ _ (Verify s h pk) (after [])) by reflexivity.
  erewrite vm_bind_Ret by reflexivity. cbv beta iota.
  assert (Hiff : Verify s h pk = true ↔ signed (e_tx en) (e_txIdx en) (e_flags en) (e_inputAmount en) pkh (sig ++ [ht]) key).
  { split; [intros Hv; by exists sig, ht, pk, s, h|]. intros (pk' & s' & h' & _ & Hpk' & Hs' & Hh' & Hv)%Huniq.
    rewrite Hh in Hh'. rewrite Hparsed in Hs'. injection Hh' as <-. injection Hs' as <-. by injection Hpk' as <-. }
  destruct (negb (Verify s h pk) && _ && _) eqn:Ev; [|by exists (Verify s h pk)].
  intros Hs%Hiff. by rewrite Hs in Ev.
Qed.

(** Witnesses of another shape end the run with the witness program. *)
Hypothesis Hbip16 : e_bip16 en = false.

Lemma verify_refuses wit st :
  (∀ full key, wit = [full; key] → len full <= MaxScriptElementSize → len key <= MaxScriptElementSize → False) →
  ∃ x, verifyWitnessProgram wit (at_op en pkh [] 2 0 st 0) = Err x.
Proof.
  intros Hno. assert (len pkh = 20) as Hn by (unfold len; lia). unfold verifyWitnessProgram.
  assert (∀ more st, isWitnessVersionActive 0 (at_op en pkh more 2 0 st 0) = Ret (true, at_op en pkh more 2 0 st 0)) as Hactive.
  { intros. unfold isWitnessVersionActive, asks, at_op. cbn [witnessProgram Engine.env]. by rewrite Hversion. }
  rewrite (vm_bind_Ret _ _ _ _ _ (Hactive _ _)). erewrite vm_bind_Ret; [|reflexivity]. cbn [witnessProgram at_op default from_option id].
  rewrite Hn, (bool_decide_true (20 = _)) by done.
  destruct (decide (len wit = 2)) as [H2|H2].
  2:{ rewrite (bool_decide_false (len wit = 2)) by done. by eexists. }
  destruct wit as [|f [|k [|z wit]]]; try (unfold len in H2; cbn in H2; lia). rewrite (bool_decide_true (len [f; k] = 2)) by done.
  rewrite (vm_bind_Ret _ _ _ tt (at_op en pkh [p2pkh_pops pkh] 2 0 [k; f] 0)).
  2:{ erewrite vm_bind_Ret; [|reflexivity]. rewrite payToPubKeyHash_p2pkh by done. erewrite vm_bind_Ret; [|reflexivity].
      unfold parse. rewrite parse_p2pkh by done. erewrite vm_bind_Ret; [|reflexivity]. erewrite vm_bind_Ret; [|reflexivity].
      unfold SetStack, upd. rewrite (setStack_all st). reflexivity. }
  rewrite (vm_bind_Ret _ _ _ _ _ (Hactive _ _)). erewrite vm_bind_Ret; [|reflexivity]. cbn [getStack rev app dstack at_op existsb andb].
  destruct (decide (len f <= MaxScriptElementSize)) as [Hf|Hf]; [|rewrite (bool_decide_true (len f > _)) by lia; by eexists].
  destruct (decide (len k <= MaxScriptElementSize)) as [Hk|Hk]; [exfalso; by eapply Hno|].
  rewrite (bool_decide_true (len k > _)) by lia. rewrite orb_true_r. by eexists.
Qed.

Lemma refused_run :
  (∀ full key, Witness ti = [full; key] → len full <= MaxScriptElementSize → len key <= MaxScriptElementSize → False) →
  ∃ x, Execute ripemd160 sha1 victim 7 (at_op en pkh [] 1 0 [] 0) = Some (Err x).
Proof.
  intros Hno. destruct (verify_refuses (Witness ti) [pkh; []] Hno) as [x Hx]. exists x. unfold Execute. cbn [steps].
  rewrite (Step_runs ripemd160 sha1 victim (at_op en pkh [] 1 0 [] 0) (program_pops pkh) (MkParsedOpcode x00 []) (at_op en pkh [] 1 1 [[]] 0)) by (done || by rewrite executeOpcode_push).
  rewrite decide_False by (cbn; lia).
  rewrite (Step_runs ripemd160 sha1 victim (at_op en pkh [] 1 1 [[]] 0) (program_pops pkh) (MkParsedOpcode x14 pkh) (at_op en pkh [] 1 2 [pkh; []] 0)) by (done || by apply push_program).
  rewrite decide_True by (cbn; lia).
  assert (next_script (at_op en pkh [] 1 2 [pkh; []] 0) = Err x) as ->; [|done].
  unfold next_script. do 4 (erewrite vm_bind_Ret; [|reflexivity]). erewrite vm_bind_Ret; [|reflexivity].
  cbn [Engine.env at_op id set_scriptOff set_numOps set_astack witnessProgram scriptIdx]. rewrite Hbip16.
  rewrite !andb_false_r, (bool_decide_true (1%nat = 1%nat)), (bool_decide_true (Some pkh ≠ None)) by done. cbn [andb orb].
  unfold mbind at 1, vm_bind at 1. erewrite vm_bind_Ret; [|unfold current_input, mbind, vm_bind, asks; cbn; rewrite Hinput; reflexivity].
  change (set_scriptIdx 2 _) with (at_op en pkh [] 2 0 [pkh; []] 0). by rewrite Hx.
Qed.

(** The verdict on any witness. *)
Definition authorizes (tx : MsgTx) (i : nat) (flags amt : Z) (pkh : bytes) (wit : list bytes) : Prop :=
  ∃ full key, wit = [full; key] ∧ len full <= MaxScriptElementSize ∧ len key <= MaxScriptElementSize ∧
    Hash160 ripemd160 key = pkh ∧ signed tx i flags amt pkh full key.
End AnyWitness.

(** ** From the transaction *)

Section Transaction.
Context `{HashFunction} `{Ecdsa} (ripemd160 sha1 : bytes → bytes)
  (victim : gmap bytes (Signature * PublicKey) → bytes).

(** The flags under which witnesses count. *)
Definition segwit_flags (flags : Z) : Prop := flagged flags ScriptBip16 = true ∧ flagged flags ScriptVerifyWitness = true.

Lemma NewEngine_p2wpkh tx i ti pkh flags cache amt :
  length pkh = 20%nat → tx_TxIn tx !! i = Some ti → SignatureScript ti = [] → segwit_flags flags →
  NewEngine (p2wpkh pkh) tx (Z.of_nat i) flags None cache amt =
  Ret (at_op (MkEnv tx i flags cache false (flagged flags ScriptVerifyMinimalData) 0 amt) pkh [] 1 0 [] 0).
Proof.
  intros Hl Hi Hs [Hb Hw]. assert (len (p2wpkh pkh) = 22) as Hn by (unfold p2wpkh; rewrite len_app; unfold len; rewrite Hl; done).
  unfold NewEngine. rewrite bool_decide_false by lia. rewrite Nat2Z.id, Hi, Hs. rewrite Hn, Hb, Hw. cbn [negb andb]. rewrite !andb_false_r.
  change (parse_checked []) with (Ret (A := list parsedOpcode) []). cbn [mbind outcome_bind].
  unfold parse_checked. rewrite Hn, (bool_decide_false (22 > _)) by done. rewrite parse_p2wpkh by done. cbn [mbind outcome_bind mret outcome_ret isScriptHash andb].
  unfold witness_program_of. rewrite witness_program_p2wpkh by done.
  assert (isWitnessProgram [MkParsedOpcode x00 []; MkParsedOpcode x14 pkh] = true) as ->; [by twenty pkh Hl|].
  change (bool_decide (len [] = 0)) with true. reflexivity.
Qed.

Lemma spend_verdict tx i ti pkh flags cache amt sig key h s pk :
  length pkh = 20%nat → tx_TxIn tx !! i = Some ti → SignatureScript ti = [] → segwit_flags flags →
  cache = None ∨ cache = Some (NewTxSigHashes tx) →
  Witness ti = [sig ++ [x01]; key] → check_der true sig = Ret tt → IsCompressedPubKey key = true →
  ParsePubKey key = Ret pk → ParseDERSignature sig = Ret s → ParseSignature sig = Ret s →
  CalcWitnessSigHash (p2wpkh pkh) (NewTxSigHashes tx) SigHashAll tx i amt = Ret h →
  ∃ e x, NewEngine (p2wpkh pkh) tx (Z.of_nat i) flags None cache amt = Ret e ∧
    Execute ripemd160 sha1 victim 7 e = Some (if bool_decide (Hash160 ripemd160 key = pkh ∧ Verify s h pk = true) then Ret tt else Err x).
Proof.
  intros Hl Hi Hs Hf Hc Hw Hder Hcomp Hpk Hstrict Hlax Hh. rewrite (NewEngine_p2wpkh tx i ti) by done.
  set (en := MkEnv _ _ _ _ _ _ _ _).
  assert (len sig <= 72) as Hsl.
  { clear -Hder. unfold check_der in Hder. destruct (req _ "malformed signature: too short") in Hder; [|discriminate..]. cbn [mbind outcome_bind] in Hder.
    case_bool_decide; [discriminate Hder|lia]. }
  assert (len key = 33) as Hkl by (clear -Hcomp; unfold IsCompressedPubKey in Hcomp; apply andb_true_iff in Hcomp as [Hk _]; by apply bool_decide_eq_true in Hk).
  assert (bip143_digest en pkh = Ret h) as Hd.
  { unfold CalcWitnessSigHash in Hh. rewrite parse_p2wpkh in Hh by done. unfold bip143_digest. cbn [e_hashCache e_tx e_txIdx e_inputAmount en].
    replace (match cache with Some h => h | None => _ end) with (NewTxSigHashes tx) by (destruct Hc as [->| ->]; done).
    unfold calcWitnessSignatureHash, witness_preimage in *. by rewrite <- script_code_p2wpkh. }
  pose proof (Execute_p2wpkh ripemd160 sha1 victim en pkh (sig ++ [x01]) key ti Hl eq_refl eq_refl Hi Hw) as He.
  specialize (He ltac:(rewrite len_app; change (len [x01]) with 1; unfold MaxScriptElementSize; lia) ltac:(unfold MaxScriptElementSize; lia)
    sig h s pk eq_refl Hder Hcomp Hpk Hstrict Hlax Hd).
  eexists. rewrite He. destruct (bytes_eqb pkh (Hash160 ripemd160 key)) eqn:Eh; cbn [negb].
  - apply bytes_eqb_true in Eh as ->. destruct (Verify s h pk).
    + exists ""%string. split; [done|]. by rewrite bool_decide_true.
    + destruct (_ && _); eexists; (split; [reflexivity|]); by rewrite (bool_decide_false (_ ∧ false = true)) by naive_solver.
  - eexists. split; [reflexivity|]. rewrite (bool_decide_false (_ ∧ _)); [reflexivity|]. intros [E _]. by rewrite E, bytes_eqb_refl in Eh.
Qed.

Lemma any_verdict (en : Env) (pkh : bytes) (ti : TxIn) :
  length pkh = 20%nat → e_bip16 en = false → e_witnessVersion en = 0 → tx_TxIn (e_tx en) !! e_txIdx en = Some ti →
  e_hashCache en = None ∨ e_hashCache en = Some (NewTxSigHashes (e_tx en)) →
  ∃ r, Execute ripemd160 sha1 victim 7 (at_op en pkh [] 1 0 [] 0) = Some r ∧
    (r = Ret tt ↔ authorizes ripemd160 (e_tx en) (e_txIdx en) (e_flags en) (e_inputAmount en) pkh (Witness ti)).
Proof.
  intros Hl Hb Hv Hi Hc.
  assert (Hdec : (∃ full key, Witness ti = [full; key] ∧ len full <= MaxScriptElementSize ∧ len key <= MaxScriptElementSize) ∨
    (∀ full key, Witness ti = [full; key] → len full <= MaxScriptElementSize → len key <= MaxScriptElementSize → False)).
  { destruct (Witness ti) as [|f [|k [|z w]]]; [right; naive_solver..| |right; naive_solver].
    destruct (decide (len f <= MaxScriptElementSize)), (decide (len k <= MaxScriptElementSize)); [by left; exists f, k|right; naive_solver..]. }
  destruct Hdec as [(full & key & Hw & Hf & Hk)|Hno].
  2:{ destruct (refused_run ripemd160 sha1 victim en pkh ti Hl Hv Hi Hb Hno) as [x Hx]. exists (Err x). split; [done|]. split; [done|].
      intros (full & key & Hw & Hf & Hk & _). exfalso. by eapply Hno. }
  assert (Hauth : authorizes ripemd160 (e_tx en) (e_txIdx en) (e_flags en) (e_inputAmount en) pkh (Witness ti) ↔
    Hash160 ripemd160 key = pkh ∧ signed (e_tx en) (e_txIdx en) (e_flags en) (e_inputAmount en) pkh full key).
  { rewrite Hw. split; [intros (f & k & [= <- <-] & _ & _ & ? & ?); done|]. intros [? ?]. by exists full, key. }
  unfold Execute. rewrite (run_to_checksig ripemd160 sha1 victim en pkh full key ti Hl Hb Hv Hi Hw Hf Hk).
  destruct (bytes_eqb pkh (Hash160 ripemd160 key)) eqn:Eh.
  2:{ eexists. split; [reflexivity|]. split; [done|]. intros [He _]%Hauth. by rewrite He, bytes_eqb_refl in Eh. }
  apply bytes_eqb_true in Eh. cbn [steps].
  pose proof (checksig_any victim en pkh full key ti Hl Hv Hi Hc (MkParsedOpcode xac [])) as Hcs.
  pose proof (checksig_step ripemd160 sha1 victim en pkh full key) as Est. unfold Execute.executeOpcode in Est.
  fold (executeOpcode ripemd160 sha1 victim (MkParsedOpcode xac [])) in Est.
  destruct (opcodeCheckSig victim (MkParsedOpcode xac []) _) as [[[] e]|x|x].
  - destruct Hcs as (ok & -> & Hok).
    rewrite (Step_runs ripemd160 sha1 victim _ (p2pkh_pops pkh) (MkParsedOpcode xac []) (at_op en pkh [p2pkh_pops pkh] 2 5 [fromBool ok] 4)) by (done || exact Est).
    rewrite decide_True by (cbn; lia). rewrite (script_ends en pkh Hb), (final_check en pkh).
    eexists. split; [reflexivity|]. rewrite Hauth, <- Hok. destruct ok; naive_solver.
  - eexists. rewrite (Step_fails ripemd160 sha1 victim _ (p2pkh_pops pkh) (MkParsedOpcode xac []) x) by (done || exact Est).
    split; [reflexivity|]. split; [done|]. by intros [_ Hs]%Hauth.
  - eexists. rewrite (Step_panics ripemd160 sha1 victim _ (p2pkh_pops pkh) (MkParsedOpcode xac []) x) by (done || exact Est).
    split; [reflexivity|]. split; [done|]. by intros [_ Hs]%Hauth.
Qed.

End Transaction.

(** ** A closed run *)

(** A scheme of signatures where a signature is valid for the keys that end like it. *)
#[local] Instance demo_tail : Ecdsa := {|
  Signature := bytes; PublicKey := bytes; ParsePubKey := Ret; ParseSignature := Ret; ParseDERSignature := Ret;
  Verify s h k := bool_decide (last s = last k)
|}.

Definition spend_sig : bytes := [x30; x06; x02; x01; x01; x02; x01; x07].
Definition spend_key : bytes := x03 :: replicate 32 x07.
Definition spend_tx : MsgTx := MkMsgTx 1 [MkTxIn (MkOutPoint (zeros 32) 0) [] [spend_sig ++ [x01]; spend_key] 0] [MkTxOut 7 []] 0.
Definition spend_flags : Z := Z.lor ScriptBip16 (Z.lor ScriptVerifyWitness ScriptVerifyStrictEncoding).

Definition spend_pkh : bytes := Eval vm_compute in take 20 (Sum256 spend_key).
