(* ===== verification/EngineBound.v ===== *)
(** * How many steps a script takes

    [Execute] runs the signature script, the public key script and at most two
    scripts that are only found while running: the redeem script that a
    pay-to-script-hash input pushes, and the script behind a witness program.
    The first is an element that the push-only signature script left on the
    stack, so it has at most [MaxScriptElementSize] bytes; the second has at
    most [MaxScriptSize].  Every step passes an opcode, so the sizes of the two
    scripts and these limits bound the number of steps. *)

From Stdlib Require Import ZArith Lia.
From S2P Require Import Prelude Buffers Sha256 Crypto Utils WireCommon BtcWire BtcTheorems Script ScriptTheorems SigHash Stack Engine Opcodes Execute EngineTheorems WitnessSpend.

Local Open Scope Z_scope.

(** ** Scripts that are added *)

Section Adding.
Context `{HashFunction} `{Ecdsa}.

(** Code that appends scripts of at most [n] opcodes in all, and does not move. *)
Definition adds {A} (n : Z) (m : vm A) : Prop :=
  ∀ e a e', m e = Ret (a, e') →
    env e' = env e ∧ scriptIdx e' = scriptIdx e ∧ scriptOff e' = scriptOff e ∧ savedFirstStack e' = savedFirstStack e ∧
    ∃ l, scripts e' = scripts e ++ l ∧ len (concat l) <= n.

Lemma adds_stays {A} (m : vm A) n : 0 <= n → stays m → adds n m.
Proof.
  intros Hn Hm e a e' E. apply Hm in E as (? & Hs & ? & ? & ? & _). split_and!; try done.
  exists []. rewrite app_nil_r. by split.
Qed.

Lemma adds_bind {A B} (m : vm A) (f : A → vm B) n k : adds n m → (∀ a, adds k (f a)) → adds (n + k) (m ≫= f).
Proof.
  intros Hm Hf e b e' (a & e1 & E1 & E2)%vm_bind_inv. apply Hm in E1 as (H1 & H2 & H3 & H4 & l & Hl & Hn).
  apply Hf in E2 as (G1 & G2 & G3 & G4 & l' & Hl' & Hk). split_and!; try congruence. exists (l ++ l').
  split; [by rewrite Hl', Hl, app_assoc|]. rewrite concat_app, len_app. lia.
Qed.

Lemma adds_after {A B} (m : vm A) (f : A → vm B) n : stays m → (∀ a, adds n (f a)) → adds n (m ≫= f).
Proof. intros Hm Hf. apply (adds_bind m f 0 n); [by apply adds_stays|done]. Qed.

Lemma adds_before {A B} (m : vm A) (f : A → vm B) n : adds n m → (∀ a, stays (f a)) → adds n (m ≫= f).
Proof. intros Hm Hf. rewrite <- (Z.add_0_r n). apply adds_bind; [done|]. intros a. by apply adds_stays. Qed.

Lemma adds_lift {A B} (m : outcome A) (f : A → vm B) n : (∀ a, m = Ret a → adds n (f a)) → adds n (lift m ≫= f).
Proof. intros Hf e b e' (a & e1 & E1 & E2)%vm_bind_inv. unfold lift in E1. destruct m; [|done..]. injection E1 as -> ->. exact (Hf a eq_refl e1 b e' E2). Qed.

Lemma adds_ensure {B} ok x (f : unit → vm B) n : (ok = true → adds n (f tt)) → adds n (ensure ok x ≫= f).
Proof. intros Hf e b e' ([] & e1 & [-> ->]%ensure_inv & E2)%vm_bind_inv. exact (Hf eq_refl e b e' E2). Qed.

Lemma adds_fail {A} x n : adds n (fail (A := A) x).
Proof. by intros e a e'. Qed.

Lemma adds_upd f n :
  0 <= n → (∀ e, env (f e) = env e ∧ scripts (f e) = scripts e ∧ scriptIdx (f e) = scriptIdx e ∧ scriptOff (f e) = scriptOff e ∧
        savedFirstStack (f e) = savedFirstStack e) → adds n (upd f).
Proof.
  intros Hn Hf e a e' [= <- <-]. destruct (Hf e) as (? & Hs & ? & ? & ?). split_and!; try done.
  exists []. rewrite app_nil_r. by split.
Qed.

Lemma adds_pops pops n : len pops <= n → adds n (append_script_pops pops).
Proof.
  intros Hn e a e' [= <- <-]. split_and!; try done. exists [pops]. split; [done|]. cbn [concat]. by rewrite app_nil_r.
Qed.

(** Parsing a script of at most [n] bytes and appending it. *)
Lemma adds_parsed script (k : vm unit) n :
  len script <= n → stays k → adds n (pops ← parse script; _ ← append_script_pops pops; k).
Proof.
  intros Hn Hk. unfold parse. pose proof (parseScript_length script) as Hp.
  destruct (parseScript script) as [pops [x|]]; cbn [fst] in Hp.
  - intros e a e' (? & ? & ? & _)%vm_bind_inv. done.
  - intros e a e' (p & e1 & [= <- <-] & E)%vm_bind_inv. revert e a e' E.
    apply adds_before; [|done]. apply adds_pops. unfold len in *. lia.
Qed.

Lemma stays_SetStack data : stays (SetStack data).
Proof. apply stays_upd. by intros []. Qed.

(** The script behind a witness program. *)
Lemma adds_verifyWitness wit : adds MaxScriptSize (verifyWitnessProgram wit).
Proof.
  assert (Hmax : 0 <= MaxScriptSize) by (unfold MaxScriptSize; lia).
  unfold verifyWitnessProgram. apply adds_after; [apply stays_asks|]. intros active.
  apply adds_after; [apply stays_asks|]. intros program. apply adds_before.
  2: { intros _. unfold isWitnessVersionActive, GetStack. solve_stays. }
  destruct active.
  - case_bool_decide as H20.
    + apply adds_ensure. intros _. apply adds_lift. intros script Hs. apply adds_parsed; [|apply stays_SetStack].
      assert (length (default [] program) = 20%nat) as Hl by (unfold payToWitnessPubKeyHashDataSize, len in H20; lia).
      rewrite (payToPubKeyHash_p2pkh _ Hl) in Hs. injection Hs as <-. unfold p2pkh, len, MaxScriptSize. rewrite !length_app, Hl. cbn. lia.
    + case_bool_decide; [|apply adds_fail]. destruct (last wit) as [script|]; [|apply adds_fail].
      apply adds_ensure. intros Hs%negb_true_iff%bool_decide_eq_false. apply adds_ensure. intros _.
      apply adds_parsed; [lia|apply stays_SetStack].
  - apply adds_after; [unfold hasFlag; solve_stays|]. intros [|]; [apply adds_fail|]. apply adds_upd; [done|]. by intros [].
Qed.

(** ** Changing to the next script *)

Definition small (b : bytes) : Prop := len b <= MaxScriptElementSize.

(** The opcodes that scripts may still add when script [idx] is running. *)
Definition reserve (p2sh : bool) (idx : nat) : Z :=
  match p2sh, idx with
  | true, 0%nat | true, 1%nat => MaxScriptElementSize + MaxScriptSize
  | true, 2%nat => MaxScriptSize
  | false, 0%nat | false, 1%nat => MaxScriptSize
  | _, _ => 0
  end.

Lemma reserve_mono b i j : (i ≤ j)%nat → 0 <= reserve b j <= reserve b i.
Proof.
  unfold reserve, MaxScriptElementSize, MaxScriptSize.
  destruct b, i as [|[|[|i]]], j as [|[|[|j]]]; lia.
Qed.

(** The middle part of [next_script], on the engine [e] at the end of its script. *)
Definition found_script (e : Engine) : vm unit :=
  let idx := scriptIdx e in
  let p2sh := e_bip16 (env e) in
  let has_program := bool_decide (witnessProgram e ≠ None) in
  if bool_decide (idx = 0%nat) && p2sh then s ← GetStack; upd (set_savedFirstStack s)
  else if bool_decide (idx = 1%nat) && p2sh then
    _ ← CheckErrorCondition false;
    match last (savedFirstStack e) with
    | None => lift (Panic out_of_range)
    | Some script =>
        pops ← parse script;
        _ ← append_script_pops pops;
        SetStack (removelast (savedFirstStack e))
    end
  else if (bool_decide (idx = 1%nat) && has_program) || (bool_decide (idx = 2%nat) && has_program && p2sh) then
    ti ← current_input; verifyWitnessProgram (Witness ti)
  else mret tt.

Lemma stays_CheckErrorCondition final : stays (CheckErrorCondition final).
Proof. unfold CheckErrorCondition, isWitnessVersionActive, hasFlag, popBool. solve_stays; apply stays_on_dstack. Qed.

Lemma found_adds e :
  (e_bip16 (env e) = true → scriptIdx e = 1%nat → Forall small (savedFirstStack e)) →
  bool_decide (scriptIdx e = 0%nat) && e_bip16 (env e) = false →
  adds (reserve (e_bip16 (env e)) (scriptIdx e) - reserve (e_bip16 (env e)) (S (scriptIdx e))) (found_script e).
Proof.
  intros Hsmall Hz0. unfold found_script. rewrite Hz0.
  pose proof (reserve_mono (e_bip16 (env e)) (scriptIdx e) (S (scriptIdx e)) ltac:(lia)) as Hmono.
  destruct (bool_decide (scriptIdx e = 1%nat) && e_bip16 (env e)) eqn:H1.
  { apply andb_prop in H1 as [Hi Hp]. apply bool_decide_eq_true in Hi. specialize (Hsmall Hp Hi). rewrite Hp, Hi.
    apply adds_after; [apply stays_CheckErrorCondition|]. intros _. destruct (last (savedFirstStack e)) as [script|] eqn:El.
    - apply adds_parsed; [|apply stays_SetStack]. rewrite last_lookup in El. pose proof (Forall_lookup_1 _ _ _ _ Hsmall El) as Hs.
      unfold small in Hs. cbn [reserve]. lia.
    - by intros ? ? ?. }
  destruct ((bool_decide (scriptIdx e = 1%nat) && _) || _) eqn:H2; [|apply adds_stays; [lia|apply stays_ret]].
  assert (reserve (e_bip16 (env e)) (scriptIdx e) - reserve (e_bip16 (env e)) (S (scriptIdx e)) = MaxScriptSize) as ->.
  { apply orb_prop in H2 as [H2|H2].
    - apply andb_prop in H2 as [Hi _]. rewrite Hi in H1. apply bool_decide_eq_true in Hi. cbn [andb] in H1. by rewrite Hi, H1.
    - apply andb_prop in H2 as [H2 Hp]. apply andb_prop in H2 as [Hi _]. apply bool_decide_eq_true in Hi. by rewrite Hi, Hp. }
  apply adds_after; [unfold current_input; solve_stays|]. intros ti. apply adds_verifyWitness.
Qed.

(** What runs next, and what was added for it. *)
Lemma next_script_adds e b e' :
  next_script e = Ret (b, e') →
  (e_bip16 (env e) = true → scriptIdx e = 1%nat → Forall small (savedFirstStack e)) →
  env e' = env e ∧ (scriptIdx e < scriptIdx e')%nat ∧ scriptOff e' = 0%nat ∧
  (e_bip16 (env e) = true → scriptIdx e = 0%nat → savedFirstStack e' = rev (dstack e)) ∧
  ∃ l, scripts e' = scripts e ++ l ∧
    len (concat l) <= reserve (e_bip16 (env e)) (scriptIdx e) - reserve (e_bip16 (env e)) (S (scriptIdx e)).
Proof.
  intros E Hsmall. unfold next_script in E. apply vm_bind_inv in E as (c & e0 & [= <- <-] & E).
  apply vm_bind_inv in E as (u & e1 & [_ ->]%ensure_inv & E). apply vm_bind_inv in E as (u1 & e2 & [= <- <-] & E).
  apply vm_bind_inv in E as (ee & e3 & [= <- <-] & E). apply vm_bind_inv in E as (u2 & e4 & [= <- <-] & E).
  apply vm_bind_inv in E as (u3 & e5 & E5 & E). set (eo := set_scriptOff 0 (set_numOps 0 (set_astack [] e))) in *. unfold id in E5.
  change (found_script eo (set_scriptIdx (S (scriptIdx eo)) eo) = Ret (u3, e5)) in E5.
  assert (env e5 = env e ∧ scriptIdx e5 = S (scriptIdx e) ∧ scriptOff e5 = 0%nat ∧
    (e_bip16 (env e) = true → scriptIdx e = 0%nat → savedFirstStack e5 = rev (dstack e)) ∧
    ∃ l, scripts e5 = scripts e ++ l ∧
      len (concat l) <= reserve (e_bip16 (env e)) (scriptIdx e) - reserve (e_bip16 (env e)) (S (scriptIdx e))) as (H1 & H2 & H3 & H4 & l & Hl & Hn).
  { destruct (bool_decide (scriptIdx eo = 0%nat) && e_bip16 (env eo)) eqn:Hz0.
    - unfold found_script in E5. rewrite Hz0 in E5. apply vm_bind_inv in E5 as (s & e6 & Eg & E5). unfold GetStack in Eg.
      apply vm_bind_inv in Eg as (s' & e7 & [= <- <-] & [= <- <-]). injection E5 as <- <-. split_and!; try done.
      exists []. rewrite app_nil_r. split; [done|]. apply andb_prop in Hz0 as [Hi%bool_decide_eq_true Hp]. cbn in Hi, Hp. by rewrite Hi, Hp.
    - apply (found_adds eo) in E5 as (H1 & H2 & H3 & H4 & l & Hl & Hn); [|exact Hsmall|exact Hz0]. split_and!; try done.
      + intros Hp Hi. cbn in Hz0. by rewrite Hp, Hi in Hz0.
      + by exists l. }
  apply vm_bind_inv in E as (ee & e6 & [= <- <-] & E). apply vm_bind_inv in E as (u4 & e7 & E7 & E). unfold id in E7.
  assert (env e7 = env e5 ∧ (scriptIdx e5 ≤ scriptIdx e7)%nat ∧ scriptOff e7 = scriptOff e5 ∧ savedFirstStack e7 = savedFirstStack e5 ∧
    scripts e7 = scripts e5) as (G1 & G2 & G3 & G4 & G5).
  { destruct (scripts e5 !! scriptIdx e5) as [[|p s]|]; injection E7 as <- <-; cbn; split_and!; done || lia. }
  apply vm_bind_inv in E as (u5 & e8 & [= <- <-] & E). apply vm_bind_inv in E as (ee & e9 & [= <- <-] & E). injection E as _ <-. cbn.
  split_and!; try congruence; [lia|intros; rewrite G4; auto|]. exists l. split; [congruence|done].
Qed.
End Adding.

(** ** The stack of a push-only script *)

Section Pushing.
Context `{HashFunction} `{Ecdsa} (ripemd160 sha1 : bytes → bytes)
  (victim : gmap bytes (Signature * PublicKey) → bytes).
Local Abbreviation opfunc_ := (opfunc ripemd160 sha1 victim).
Local Abbreviation executeOpcode := (executeOpcode ripemd160 sha1 victim).
Local Abbreviation Step := (Step ripemd160 sha1 victim).
Local Abbreviation steps := (steps ripemd160 sha1 victim).
Local Abbreviation Execute := (Execute ripemd160 sha1 victim).

(** What the handlers up to OP_16 do. *)
Inductive push_handler (op : Byte.byte) : (parsedOpcode → vm unit) → Prop :=
| handler_false : push_handler op opcodeFalse
| handler_data : push_handler op opcodePushData
| handler_negate : push_handler op opcode1Negate
| handler_reserved : push_handler op opcodeReserved
| handler_n (Hn : 81 <= byte_Z op <= 96) : push_handler op opcodeN.

Lemma opfunc_push op : byte_Z op <= OP_16 → push_handler op (opfunc_ op).
Proof.
  intros Hop. destruct (decide (byte_Z op = 0 ∨ byte_Z op = 79 ∨ byte_Z op = 80)) as [Hz|Hz].
  - destruct op; try (exfalso; vm_compute in Hz; intuition discriminate); constructor.
  - assert (opfunc_ op = if bool_decide (byte_Z op <= OP_PUSHDATA4) then opcodePushData else opcodeN) as ->.
    { destruct op; try (exfalso; apply Hz; vm_compute; tauto); try (exfalso; vm_compute in Hop; by apply Hop); reflexivity. }
    case_bool_decide as Hd; [constructor|]. apply handler_n. pose proof (byte_Z_range op). unfold OP_PUSHDATA4, OP_16 in *. lia.
Qed.

Lemma to_dstack_Ret f e u e' : to_dstack f e = Ret (u, e') → ∃ s, f (dstack e) = Ret s ∧ dstack e' = s.
Proof.
  unfold to_dstack. intros (s & e1 & [= <- <-] & E)%vm_bind_inv. apply vm_bind_inv in E as (s & e1 & E1 & [= <- <-]).
  unfold lift in E1. destruct (f (dstack e)) as [s'| |]; [|done..]. injection E1 as -> <-. by exists s.
Qed.

(** The numbers that OP_1NEGATE and OP_1 to OP_16 push are one byte long. *)
Lemma small_numbers n b : n = -1 ∨ 1 <= n <= 16 → scriptNum_Bytes n = Ret b → small b.
Proof.
  intros Hn Hb. assert (n ∈ [-1; 1; 2; 3; 4; 5; 6; 7; 8; 9; 10; 11; 12; 13; 14; 15; 16]) as Hin.
  { rewrite !elem_of_cons. destruct Hn as [->|Hn]; [by left|right]. lia. }
  repeat (apply elem_of_cons in Hin as [->|Hin]; [vm_compute in Hb; injection Hb as <-; by vm_compute|]). by apply not_elem_of_nil in Hin.
Qed.

Lemma push_keeps_small pop e u e' :
  byte_Z (po_opcode pop) <= OP_16 → executeOpcode pop e = Ret (u, e') → Forall small (dstack e) → Forall small (dstack e').
Proof.
  intros Hop E Hs. unfold executeOpcode in E. apply vm_bind_inv in E as (u1 & e1 & [_ ->]%ensure_inv & E).
  apply vm_bind_inv in E as (u2 & e2 & [_ ->]%ensure_inv & E). rewrite (bool_decide_false (_ > _)) in E by lia.
  apply vm_bind_inv in E as (u3 & e3 & [Hd ->]%ensure_inv & E). apply negb_true_iff, bool_decide_eq_false in Hd.
  apply vm_bind_inv in E as (ex & e4 & [= <- <-] & E). destruct (negb _ && _); [by injection E as _ <-|].
  apply vm_bind_inv in E as (m & e5 & [= <- <-] & E). apply vm_bind_inv in E as (u4 & e6 & E6 & E).
  assert (e6 = e) as ->.
  { destruct (_ && bool_decide _); [|by injection E6 as _ <-]. destruct (checkMinimalDataPush pop); [done|by injection E6 as _ <-]. }
  destruct (opfunc_push (po_opcode pop) Hop) as [| | | |Hn]; [..|done|]; apply to_dstack_Ret in E as (s & Hf & ->).
  - injection Hf as <-. constructor; [by vm_compute|done].
  - injection Hf as <-. constructor; [unfold small; lia|done].
  - apply bind_Ret_inv in Hf as (b & Hb & Hf). injection Hf as <-. constructor; [|done]. apply (small_numbers (-1)); [by left|done].
  - apply bind_Ret_inv in Hf as (b & Hb & Hf). injection Hf as <-. constructor; [|done].
    eapply small_numbers; [|exact Hb]. right. unfold u8, OP_1. rewrite Z.mod_small by lia. lia.
Qed.

(** ** The bound *)

(** In a pay-to-script-hash input the first script only pushes, and what it leaves is small. *)
Record pushing (e : Engine) : Prop := Pushing {
  pu_first : e_bip16 (env e) = true → scriptIdx e = 0%nat →
    Forall small (dstack e) ∧ ∀ script, scripts e !! 0%nat = Some script → isPushOnly script = true;
  pu_saved : e_bip16 (env e) = true → scriptIdx e = 1%nat → Forall small (savedFirstStack e)
}.

(** The opcodes ahead, those that may be added included. *)
Definition ahead (e : Engine) : Z :=
  len (concat (drop (scriptIdx e) (scripts e))) - Z.of_nat (scriptOff e) + reserve (e_bip16 (env e)) (scriptIdx e).

Lemma Step_ahead e e' :
  pushing e → Step e = Ret (false, e') → pushing e' ∧ 0 <= ahead e' < ahead e.
Proof.
  intros [Hfirst Hsaved] E. unfold Step in E. apply vm_bind_inv in E as (ee & e0 & [= <- <-] & E). unfold id in E.
  destruct (scripts e !! scriptIdx e) as [script|] eqn:Es; [|done]. cbn [mbind option_bind] in E.
  destruct (script !! scriptOff e) as [opcode|] eqn:Eo; [|done]. cbn [fmap option_fmap option_map] in E. apply lookup_lt_Some in Eo as Hoff.
  apply vm_bind_inv in E as (u & e1 & [= <- <-] & E). apply vm_bind_inv in E as (u1 & e2 & E2 & E).
  pose proof E2 as (Henv & Hscr & Hidx & Hof & Hsv & _)%stays_executeOpcode. cbn in Henv, Hscr, Hidx, Hof, Hsv.
  assert (e_bip16 (env e) = true → scriptIdx e = 0%nat → Forall small (dstack e2)) as Hst.
  { intros Hp Hi. destruct (Hfirst Hp Hi) as [Hds Hpo]. rewrite Hi in Es. specialize (Hpo script Es). unfold isPushOnly in Hpo.
    rewrite forallb_forall in Hpo. specialize (Hpo opcode). apply (push_keeps_small opcode _ _ _) in E2; [done| |exact Hds].
    apply (bool_decide_eq_true_1 (byte_Z (po_opcode opcode) <= OP_16)), Hpo, list_elem_of_In. by eapply list_elem_of_lookup_2. }
  apply vm_bind_inv in E as (ee & e3 & [= <- <-] & E). apply vm_bind_inv in E as (u2 & e4 & [_ ->]%ensure_inv & E). unfold id in E.
  assert (len (concat (drop (scriptIdx e) (scripts e))) = Z.of_nat (length script) + len (concat (drop (S (scriptIdx e)) (scripts e)))) as Hcur.
  { rewrite (drop_S _ _ _ Es). cbn [concat]. by rewrite len_app. }
  pose proof (len_nonneg (concat (drop (S (scriptIdx e)) (scripts e)))) as Hnn.
  pose proof (reserve_mono (e_bip16 (env e)) (scriptIdx e) (scriptIdx e) ltac:(lia)) as Hres.
  rewrite Hof in E. case_bool_decide as Hend.
  - apply next_script_adds in E as (He & Hlt & Hz & Hsf & l & Hl & Hn); rewrite ?Henv, ?Hidx, ?Hsv in *; [|done].
    assert (len (concat (drop (scriptIdx e') (scripts e'))) <= len (concat (drop (S (scriptIdx e)) (scripts e))) + len (concat l)) as Hle.
    { rewrite Hl, Hscr. rewrite <- len_app, <- concat_app.
      replace (scriptIdx e') with (S (scriptIdx e) + (scriptIdx e' - S (scriptIdx e)))%nat by lia. rewrite <- drop_drop.
      assert (Hge : ∀ n (x : list (list parsedOpcode)), len (concat (drop n x)) <= len (concat x)).
      { intros n x. rewrite <- (take_drop n x) at 2. rewrite concat_app, len_app. pose proof (len_nonneg (concat (take n x))). lia. }
      etransitivity; [apply Hge|]. apply lookup_lt_Some in Es. rewrite drop_app_le by lia. done. }
    pose proof (reserve_mono (e_bip16 (env e)) (S (scriptIdx e)) (scriptIdx e') ltac:(lia)) as Hm.
    pose proof (len_nonneg (concat (drop (scriptIdx e') (scripts e')))) as Hnn'.
    split; [split|].
    + intros _ Hi. lia.
    + intros Hp Hi. rewrite He in Hp. rewrite Hsf by (done || lia). apply Forall_rev. apply Hst; [done|lia].
    + unfold ahead. rewrite He, Hz. lia.
  - injection E as <-. split; [split|].
    + rewrite Henv, Hidx, Hscr. intros Hp Hi. split; [by apply Hst|by apply Hfirst].
    + rewrite Henv, Hidx, Hsv. done.
    + unfold ahead. rewrite Henv, Hidx, Hscr, Hof, Hcur. lia.
Qed.

Lemma steps_bounded fuel e : pushing e → 0 <= ahead e < Z.of_nat fuel → ∃ r, steps fuel e = Some r.
Proof.
  revert e. induction fuel as [|fuel IH]; intros e Hp Ha; [lia|]. cbn.
  destruct (Step e) as [[[|] e']|x|x] eqn:E; [by eexists| |by eexists..].
  destruct (Step_ahead e e' Hp E) as [Hp' Ha']. apply IH; [done|lia].
Qed.

(** A new engine. *)
Lemma parse_checked_length script pops : parse_checked script = Ret pops → len pops <= len script.
Proof.
  unfold parse_checked. case_bool_decide; [done|]. pose proof (parseScript_length script) as Hl.
  destruct (parseScript script) as [p [x|]]; [done|]. intros [= <-]. cbn in Hl. unfold len. lia.
Qed.

Lemma NewEngine_ahead scriptPubKey tx txIdx flags sc hc amount e :
  NewEngine scriptPubKey tx txIdx flags sc hc amount = Ret e →
  ∃ ti, tx_TxIn tx !! Z.to_nat txIdx = Some ti ∧ pushing e ∧
    0 <= ahead e <= len (SignatureScript ti) + len scriptPubKey + MaxScriptElementSize + MaxScriptSize.
Proof.
  unfold NewEngine. case_bool_decide; [done|]. destruct (tx_TxIn tx !! Z.to_nat txIdx) as [ti|]; [|done]. intros E.
  exists ti. split; [done|].
  destruct (bool_decide (len (SignatureScript ti) = 0) && _); [done|]. destruct (flagged flags ScriptVerifyCleanStack && _); [done|].
  destruct (flagged flags ScriptVerifySigPushOnly && _); [done|].
  apply bind_Ret_inv in E as (sigPops & Hsig & E). apply bind_Ret_inv in E as (pkPops & Hpk & E).
  destruct (flagged flags ScriptBip16 && isScriptHash pkPops && negb (isPushOnly sigPops)) eqn:Ep; [done|].
  apply bind_Ret_inv in E as (program & _ & E). apply parse_checked_length in Hsig, Hpk.
  pose proof (len_nonneg sigPops). pose proof (len_nonneg pkPops). revert E.
  set (p2sh := flagged flags ScriptBip16 && isScriptHash pkPops) in *. set (idx := if bool_decide _ then 1%nat else 0%nat).
  intros [= <-]. split; [split; cbn|].
  - intros Hp Hi. split; [constructor|]. intros script [= <-]. rewrite Hp in Ep. by apply negb_false_iff in Ep.
  - constructor.
  - unfold ahead. cbn [scriptIdx scripts scriptOff env e_bip16]. pose proof (reserve_mono p2sh 0 idx ltac:(lia)) as Hr.
    assert (reserve p2sh 0 <= MaxScriptElementSize + MaxScriptSize) by (unfold reserve, MaxScriptElementSize, MaxScriptSize; destruct p2sh; lia).
    assert (len (concat (drop idx [sigPops; pkPops])) <= len sigPops + len pkPops).
    { unfold idx. case_bool_decide; cbn [drop concat]; rewrite !len_app, ?app_nil_r; change (len (@nil parsedOpcode)) with 0; lia. }
    pose proof (len_nonneg (concat (drop idx [sigPops; pkPops]))). lia.
Qed.

(** C20. Scripts run to an end, within a bound. An engine that [NewEngine] made comes to the end
    of [Execute] with a result in fewer steps than the bytes of the signature script and of the
    public key script, [MaxScriptElementSize] (520, for the redeem script of a
    pay-to-script-hash input) and [MaxScriptSize] (10000, for the script behind a witness
    program) together allow; more fuel gives the same result.  Any other engine, whatever its
    scripts, stacks and flags, comes to an end too. *)
Theorem Execute_terminates :
  (∀ scriptPubKey tx txIdx flags sc hc amount e,
     NewEngine scriptPubKey tx txIdx flags sc hc amount = Ret e →
     ∃ ti r, tx_TxIn tx !! Z.to_nat txIdx = Some ti ∧
       ∀ fuel, len (SignatureScript ti) + len scriptPubKey + MaxScriptElementSize + MaxScriptSize < Z.of_nat fuel →
         Execute fuel e = Some r) ∧
  (∀ e, ∃ fuel r, ∀ fuel', (fuel ≤ fuel')%nat → Execute fuel' e = Some r).
Proof.
  assert (Hres : ∀ fuel e r, steps fuel e = Some r → ∃ x, ∀ fuel', (fuel ≤ fuel')%nat → Execute fuel' e = Some x).
  { intros fuel e r Hr.
    exists (match r with Ret e => match CheckErrorCondition true e with Ret _ => Ret tt | Err x => Err x | Panic x => Panic x end | Err x => Err x | Panic x => Panic x end).
    intros fuel' Hle. unfold Execute. rewrite (steps_more _ _ _ _ _ _ _ Hr Hle). by destruct r. }
  split.
  - intros pk tx txIdx flags sc hc amount e (ti & Hti & Hp & Ha)%NewEngine_ahead.
    set (bound := len (SignatureScript ti) + len pk + MaxScriptElementSize + MaxScriptSize) in *.
    destruct (steps_bounded (Z.to_nat (bound + 1)) e Hp ltac:(lia)) as [r Hr].
    destruct (Hres _ _ _ Hr) as [x Hx]. exists ti, x. split; [done|]. intros fuel Hf. apply Hx. lia.
  - intros e. destruct (steps_end ripemd160 sha1 victim e) as (fuel & r & Hr). exists fuel. by apply (Hres fuel e r).
Qed.
End Pushing.

(** ** A closed run *)

Lemma Execute_terminates_witness :
  ∃ e ti r, NewEngine (H0 := demo_tail) (p2wpkh spend_pkh) spend_tx 0 spend_flags None None 9 = Ret e ∧
    tx_TxIn spend_tx !! 0%nat = Some ti ∧
    ∀ fuel, len (SignatureScript ti) + len (p2wpkh spend_pkh) + MaxScriptElementSize + MaxScriptSize < Z.of_nat fuel →
      Execute (H0 := demo_tail) (take 20) (take 20) (λ _, []) fuel e = Some r.
Proof.
  pose proof (NewEngine_p2wpkh (H0 := demo_tail) spend_tx 0 (MkTxIn (MkOutPoint (zeros 32) 0) [] [spend_sig ++ [x01]; spend_key] 0)
    spend_pkh spend_flags None 9 eq_refl eq_refl eq_refl (conj eq_refl eq_refl)) as E.
  destruct (proj1 (Execute_terminates (H0 := demo_tail) (take 20) (take 20) (λ _, [])) _ _ _ _ _ _ _ _ E) as (ti & r & Hti & Hr).
  eexists _, ti, r. split; [exact E|]. split; [exact Hti|exact Hr].
Defined.
