(* ===== verification/Der.v ===== *)
(** * Signatures as bytes (crypto/btcec/signature.go, crypto/sig64, crypto/verify.go)

    A signature is the pair of its numbers.  [big.Int] is [Z]; numbers read from
    bytes are never negative.  Slices beyond the length of a slice but within its
    array are allowed in Go: [spare] is what lies behind the slice. *)

From Stdlib Require Import ZArith Lia.
From S2P Require Import Prelude Buffers Sha256 Crypto Utils WireCommon BtcWire Script SigHash Stack Engine.

Local Open Scope Z_scope.

(** The order of the group of secp256k1 and half of it. *)
Definition curve_N : Z := 0xFFFFFFFFFFFFFFFFFFFFFFFFFFFFFFFEBAAEDCE6AF48A03BBFD25E8CD0364141.
Definition curve_halfOrder : Z := Z.shiftr curve_N 1.

(** [big.Int.Bytes]: the absolute value in as few bytes as possible. *)
Definition byte_count (z : Z) : nat := if bool_decide (z = 0) then 0%nat else Z.to_nat (Z.log2 (Z.abs z) / 8 + 1).
Definition big_Bytes (z : Z) : bytes := be_bytes (byte_count z) (Z.abs z).

(** ** DER *)

Record DerSignature := MkDer { sig_R : Z; sig_S : Z }.
#[export] Instance DerSignature_eq_dec : EqDecision DerSignature.
Proof. solve_decision. Defined.

Definition high_bit (b : bytes) : bool := match b with x :: _ => negb (bool_decide (Z.land (byte_Z x) 0x80 = 0)) | [] => false end.

Definition canonicalizeInt (z : Z) : bytes :=
  let b := big_Bytes z in
  let b := if bool_decide (len b = 0) then [x00] else b in
  if high_bit b then x00 :: b else b.

(** The bytes of two numbers that are already canonical. *)
Definition der_bytes (rb sb : bytes) : bytes :=
  let length := 6 + len rb + len sb in
  [x30; Z_byte (u8 (length - 2)); x02; Z_byte (u8 (len rb))] ++ rb ++ [x02; Z_byte (u8 (len sb))] ++ sb.

Definition Signature_Serialize (sig : DerSignature) : bytes :=
  let sigS := if bool_decide (sig_S sig > curve_halfOrder) then curve_N - sig_S sig else sig_S sig in
  der_bytes (canonicalizeInt (sig_R sig)) (canonicalizeInt sigS).

Definition Signature_IsEqual (sig otherSig : DerSignature) : bool :=
  bool_decide (sig_R sig = sig_R otherSig) && bool_decide (sig_S sig = sig_S otherSig).

Definition errNegativeValue : string := "value may be interpreted as negative".
Definition errExcessivelyPaddedValue : string := "value is excessively padded".

Definition canonicalPadding (b : bytes) : outcome go_error :=
  b0 ← at_ b 0;
  if bool_decide (Z.land b0 0x80 = 0x80) then mret (Some errNegativeValue)
  else if bool_decide (len b > 1) && bool_decide (b0 = 0) then
    b1 ← at_ b 1;
    mret (if negb (bool_decide (Z.land b1 0x80 = 0x80)) then Some errExcessivelyPaddedValue else None)
  else mret None.

(** [sigStr[lo:hi]] of a slice that is long enough. *)
Definition sub (s : bytes) (lo hi : Z) : bytes := take (Z.to_nat (hi - lo)) (drop (Z.to_nat lo) s).

(** The check of the padding, for R and for S. *)
Definition check_padding (der : bool) (b : bytes) (name : string) : outcome unit :=
  if der then
    e ← canonicalPadding b;
    match e with
    | Some e => Err ("signature " +:+ name +:+ (if bool_decide (e = errNegativeValue) then " is negative" else " is excessively padded"))
    | None => mret tt
    end
  else mret tt.

Definition parseSig (sigStr : bytes) (der : bool) : outcome DerSignature :=
  _ ← req (negb (bool_decide (len sigStr < 8))) "malformed signature: too short";
  b0 ← at_ sigStr 0;
  _ ← req (bool_decide (b0 = 0x30)) "malformed signature: no header magic";
  siglen ← at_ sigStr 1;
  let total := u8 (siglen + 2) in
  _ ← req (negb (bool_decide (total > len sigStr))) "malformed signature: bad length";
  let sigStr := take (Z.to_nat total) sigStr in
  b2 ← at_ sigStr 2;
  _ ← req (bool_decide (b2 = 0x02)) "malformed signature: no 1st int marker";
  rLen ← at_ sigStr 3;
  _ ← req (negb (bool_decide (rLen <= 0) || bool_decide (rLen > len sigStr - 4 - 3))) "malformed signature: bogus R length";
  let rBytes := sub sigStr 4 (4 + rLen) in
  _ ← check_padding der rBytes "R";
  let R := be_val rBytes in
  let index := 4 + rLen in
  b ← at_ sigStr index;
  _ ← req (bool_decide (b = 0x02)) "malformed signature: no 2nd int marker";
  sLen ← at_ sigStr (index + 1);
  let index := index + 2 in
  _ ← req (negb (bool_decide (sLen <= 0) || bool_decide (sLen > len sigStr - index))) "malformed signature: bogus S length";
  let sBytes := sub sigStr index (index + sLen) in
  _ ← check_padding der sBytes "S";
  let S := be_val sBytes in
  _ ← req (bool_decide (index + sLen = len sigStr)) "malformed signature: bad final length";
  _ ← req (bool_decide (0 < R)) "signature R isn't 1 or more";
  _ ← req (bool_decide (0 < S)) "signature S isn't 1 or more";
  _ ← req (negb (bool_decide (R >= curve_N))) "signature R is >= curve.N";
  _ ← req (negb (bool_decide (S >= curve_N))) "signature S is >= curve.N";
  mret (MkDer R S).

Definition btcec_ParseSignature (sigStr : bytes) : outcome DerSignature := parseSig sigStr false.
Definition btcec_ParseDERSignature (sigStr : bytes) : outcome DerSignature := parseSig sigStr true.

(** ** Signatures in 64 bytes *)

Definition bad_start : string := "Can't compress; sig starts with something instead of 30".
Definition no_marker : string := "should have an 0x02 byte".

(** [copy(arr[32-n:], b)] for a new array of 32 bytes. *)
Definition right_aligned (n : Z) (b : bytes) : bytes := zeros (Z.to_nat (32 - n)) ++ b.

(** A number of the signature: its bytes, the error that does not stop the function, and the rest.
    [None] ends the function with the error. *)
Definition take_number (sig spare : bytes) : outcome (string + (bytes * go_error * bytes)) :=
  b ← at_ sig 0;
  if negb (bool_decide (b = 0x02)) then mret (inl no_marker)
  else
    nlen ← at_ sig 1;
    let sig := drop 2 sig in
    if bool_decide (nlen < 22) || bool_decide (nlen > 33) then mret (inl "byte number is too long")
    else
      let err := if bool_decide (nlen > len sig) then Some "length of value but only fewer bytes left" else None in
      '(sig, nlen) ← (if bool_decide (nlen = 33) then
                        if bool_decide (sig = []) then Panic out_of_range else mret (drop 1 sig, 32)
                      else mret (sig, nlen));
      if bool_decide (nlen > len sig + len spare) then Panic out_of_range
      else mret (inr (right_aligned nlen (take (Z.to_nat nlen) (sig ++ spare)), err, drop (Z.to_nat nlen) sig)).

(** The array and the error. *)
Definition SigCompress (sig spare : bytes) : outcome (bytes * go_error) :=
  let fail e := mret (zeros 64, Some e) in
  if bool_decide (len sig < 65) || bool_decide (len sig > 72) then fail "Can't compress; sig length is wrong"
  else
    b0 ← at_ sig 0;
    if negb (bool_decide (b0 = 0x30)) then fail bad_start
    else
      b1 ← at_ sig 1;
      let err := if bool_decide (b1 = len sig - 2) then None else Some "length byte but rest is of another length" in
      r ← take_number (drop 2 sig) spare;
      match r with
      | inl e => fail e
      | inr (r, err1, rest) =>
          s ← take_number rest spare;
          match s with
          | inl e => fail e
          | inr (s, err2, _) =>
              mret (r ++ s, match err2 with Some _ => err2 | None => match err1 with Some _ => err1 | None => err end end)
          end
      end.

(** The loop over the leading zero bytes of a number of 32 bytes: how many are dropped.
    [n] is one less than the length that is left. *)
Fixpoint leading (n : nat) (b : bytes) : nat :=
  match n, b with
  | S n, x :: ((y :: _) as b') =>
      if bool_decide (byte_Z x = 0) && bool_decide (Z.land (byte_Z y) 0x80 = 0) then S (leading n b') else 0%nat
  | _, _ => 0%nat
  end.

(** A number of 32 bytes as an integer of DER. *)
Definition padded (b : bytes) : bytes :=
  if high_bit b then x00 :: drop (leading 32 b) b else drop (leading 31 b) b.

Definition SigDecompress (csig : bytes) : bytes :=
  let padr := padded (take 32 csig) in
  let pads := padded (drop 32 csig) in
  let fulllen := u8 (len padr + len pads + 6) in
  [x30; Z_byte (u8 (fulllen - 2)); x02; Z_byte (u8 (len padr))] ++ padr ++ [x02; Z_byte (u8 (len pads))] ++ pads.

(** ** Verification *)

Section Verify.
Context `{HashFunction} {Key : Type} (ParseKey : bytes → outcome Key) (VerifyNumbers : DerSignature → bytes → Key → bool).

Definition VerifySig (plainText pubKey csig : bytes) : outcome unit :=
  let sig := SigDecompress csig in
  psig ← btcec_ParseSignature sig;
  pk ← ParseKey pubKey;
  let hash := Sum256 plainText in
  req (VerifyNumbers psig hash pk) "Signature verification failed".

(** What the script engine uses of the package. *)
Definition btcec `{EqDecision Key} : Ecdsa := {|
  Signature := DerSignature; PublicKey := Key;
  ParsePubKey := ParseKey; ParseSignature := btcec_ParseSignature; ParseDERSignature := btcec_ParseDERSignature;
  Verify := VerifyNumbers
|}.
End Verify.
