(* ===== verification/DerTheorems.v ===== *)
(** * Signatures as bytes: every signature that is written is read back *)

From Stdlib Require Import ZArith Lia.
From S2P Require Import Prelude Buffers Sha256 Crypto Utils WireCommon BtcWire BtcTheorems Script ScriptTheorems SigHash Stack Engine Der.

Local Open Scope Z_scope.

(** ** Numbers as bytes *)

Lemma byte_zero x : byte_Z x = 0 → x = x00.
Proof. intros E. by apply byte_Z_inj. Qed.

(** Without leading zero bytes. *)
Fixpoint strip (b : bytes) : bytes :=
  match b with
  | x :: b' => if bool_decide (byte_Z x = 0) then strip b' else b
  | [] => []
  end.

Lemma strip_val b : be_val (strip b) = be_val b.
Proof.
  induction b as [|x b IH]; [done|]. cbn [strip]. case_bool_decide as E; [|done]. rewrite IH, be_val_cons, E. lia.
Qed.

Lemma strip_head b : match strip b with x :: _ => 0 < byte_Z x | [] => be_val b = 0 end.
Proof.
  induction b as [|x b IH]; cbn [strip]; [apply be_val_nil|]. pose proof (byte_Z_range x). case_bool_decide as E; [|lia].
  destruct (strip b); [|done]. rewrite be_val_cons, E, IH. lia.
Qed.

Lemma byte_count_range z n : 0 < z → 256 ^ (Z.of_nat n - 1) <= z < 256 ^ Z.of_nat n → byte_count z = n.
Proof.
  intros Hz [Hlo Hhi]. unfold byte_count. rewrite bool_decide_false by lia. rewrite Z.abs_eq by lia.
  assert (1 <= Z.of_nat n) as Hn. { destruct (decide (1 <= Z.of_nat n)); [done|]. assert (Z.of_nat n = 0) as E by lia. rewrite E in Hhi. cbn in Hhi. lia. }
  assert (8 * (Z.of_nat n - 1) <= Z.log2 z) as H1.
  { apply Z.log2_le_pow2; [done|]. by rewrite Z.pow_mul_r by lia. }
  assert (Z.log2 z < 8 * Z.of_nat n) as H2.
  { apply Z.log2_lt_pow2; [done|]. by rewrite Z.pow_mul_r by lia. }
  assert (Z.log2 z / 8 = Z.of_nat n - 1) as -> by (Z.div_mod_to_equations; lia). lia.
Qed.

(** [Bytes] of a number that was read from bytes. *)
Lemma big_Bytes_val b : big_Bytes (be_val b) = strip b.
Proof.
  rewrite <- strip_val. pose proof (strip_head b) as Hs. pose proof (strip_val b) as Hv. destruct (strip b) as [|x c] eqn:E.
  { unfold big_Bytes, byte_count. rewrite be_val_nil, bool_decide_true by done. done. }
  pose proof (be_val_range c) as Hc. pose proof (byte_Z_range x). pose proof (len_nonneg c).
  assert (256 ^ len c <= be_val (x :: c)) as Hlo by (rewrite be_val_cons; nia).
  pose proof (be_val_range (x :: c)) as Hr. unfold big_Bytes. rewrite (byte_count_range _ (length (x :: c))).
  - rewrite Z.abs_eq by lia. apply be_bytes_be_val.
  - lia.
  - split; [|apply Hr]. replace (Z.of_nat (length (x :: c)) - 1) with (len c) by (unfold len; cbn [length]; lia). done.
Qed.

Lemma big_Bytes_be z : 0 <= z → be_val (big_Bytes z) = z.
Proof.
  intros Hz. unfold big_Bytes. rewrite Z.abs_eq, be_val_be_bytes by done. apply Z.mod_small. split; [done|]. unfold byte_count.
  case_bool_decide as E; [by rewrite E|]. rewrite Z.abs_eq by done. rewrite Z2Nat.id by (pose proof (Z.log2_nonneg z); Z.div_mod_to_equations; lia).
  change 256 with (2 ^ 8). rewrite <- Z.pow_mul_r by (pose proof (Z.log2_nonneg z); Z.div_mod_to_equations; lia).
  apply Z.log2_lt_pow2; [lia|]. pose proof (Z.log2_nonneg z). Z.div_mod_to_equations. lia.
Qed.

(** ** Integers of DER *)

(** A string without leading zeros as an integer of DER. *)
Definition canon (c : bytes) : bytes :=
  let c := match c with [] => [x00] | _ => c end in if high_bit c then x00 :: c else c.

Lemma canonicalizeInt_val b : canonicalizeInt (be_val b) = canon (strip b).
Proof. unfold canonicalizeInt, canon. rewrite big_Bytes_val. destruct (strip b); [done|]. by rewrite bool_decide_false. Qed.

Lemma high_bit_cons x b : high_bit (x :: b) = negb (bool_decide (Z.land (byte_Z x) 0x80 = 0)).
Proof. done. Qed.

Lemma leading_canon b : b ≠ [] → high_bit b = false → drop (leading (length b - 1) b) b = canon (strip b).
Proof.
  intros Hne. induction b as [|x b IH]; [done|]. intros Hh. destruct b as [|y b].
  { unfold canon. cbn [length Nat.sub leading drop strip]. case_bool_decide as E; [apply byte_zero in E as ->; done|]. by rewrite Hh. }
  cbn [length Nat.sub leading strip]. case_bool_decide as E; cbn [andb].
  - specialize (IH ltac:(done)). replace (length (y :: b) - 1)%nat with (length b) in IH by (cbn; lia).
    case_bool_decide as E1; cbn [drop]; [apply IH; rewrite high_bit_cons; by rewrite bool_decide_true|]. cbn [strip]. apply byte_zero in E as ->.
    rewrite (bool_decide_false (byte_Z y = 0)) by (intros E; by rewrite E in E1). unfold canon. rewrite high_bit_cons, bool_decide_false by done. done.
  - unfold canon. by rewrite Hh.
Qed.

Lemma padded_canonical b : length b = 32%nat → padded b = canonicalizeInt (be_val b).
Proof.
  intros Hl. rewrite canonicalizeInt_val. unfold padded. destruct (high_bit b) eqn:Hh.
  - destruct b as [|x b]; [done|]. assert (byte_Z x ≠ 0) as Hx by (intros E; by rewrite high_bit_cons, E in Hh).
    assert (leading 32 (x :: b) = 0%nat) as ->. { destruct b as [|y b]; [done|]. cbn [leading]. by rewrite bool_decide_false. }
    cbn [strip drop]. rewrite bool_decide_false by done. unfold canon. by rewrite Hh.
  - rewrite <- leading_canon by (done || by intros ->). by rewrite Hl.
Qed.

(** What makes a string the integer of DER for a number. *)
Record der_int (b : bytes) (z : Z) : Prop := {
  di_val : be_val b = z;
  di_len : 1 <= len b <= 33;
  di_positive : high_bit b = false;
  di_minimal : canonicalPadding b = Ret None
}.

Lemma at_cons x b i : 0 < i → at_ (x :: b) i = at_ b (i - 1).
Proof. intros Hi. unfold at_. replace (Z.to_nat i) with (S (Z.to_nat (i - 1))) by lia. done. Qed.

Lemma canon_der_int c : len c <= 32 → match c with x :: _ => 0 < byte_Z x | [] => True end → der_int (canon c) (be_val c).
Proof.
  intros Hl Hx. unfold canon. destruct c as [|x c]; [by split|]. rewrite high_bit_cons. case_bool_decide as E; cbn [negb].
  - split; [done|rewrite len_cons in *; pose proof (len_nonneg c); lia|by rewrite high_bit_cons, bool_decide_true|].
    unfold canonicalPadding. change (at_ (x :: c) 0) with (Ret (byte_Z x)). cbn [mbind outcome_bind].
    rewrite bool_decide_false by (by rewrite E). by rewrite (bool_decide_false (byte_Z x = 0)), andb_false_r by lia.
  - split; [by rewrite be_val_cons|rewrite !len_cons in *; pose proof (len_nonneg c); lia|done|].
    unfold canonicalPadding. change (at_ (x00 :: x :: c) 0) with (Ret 0). change (at_ (x00 :: x :: c) 1) with (Ret (byte_Z x)). cbn [mbind outcome_bind].
    rewrite bool_decide_false by done. case_bool_decide; [|done]. cbn [andb]. rewrite bool_decide_true by done.
    assert (Z.land (byte_Z x) 0x80 = 0x80) as -> by (clear -E; by destruct x). done.
Qed.

Lemma strip_length b : (length (strip b) ≤ length b)%nat.
Proof. induction b as [|x b IH]; [done|]. cbn [strip]. case_bool_decide; cbn [length]; lia. Qed.

Lemma canonicalizeInt_der z : 0 <= z < 2 ^ 256 → der_int (canonicalizeInt z) z.
Proof.
  intros Hz. assert (be_val (be_bytes 32 z) = z) as E by (rewrite be_val_be_bytes; apply Z.mod_small; done).
  rewrite <- E. rewrite canonicalizeInt_val, <- strip_val. apply canon_der_int.
  - pose proof (strip_length (be_bytes 32 z)). rewrite be_bytes_length in *. unfold len. lia.
  - pose proof (strip_head (be_bytes 32 z)). by destruct (strip (be_bytes 32 z)).
Qed.

(** ** The layout *)

Section Layout.
Context (rb sb : bytes).
Hypothesis Hr : 1 <= len rb <= 33.
Hypothesis Hs : 1 <= len sb <= 33.

Lemma der_len : len (der_bytes rb sb) = 6 + len rb + len sb.
Proof. unfold der_bytes. rewrite !len_app. change (len [x30; _; x02; _]) with 4. change (len [x02; _]) with 2. lia. Qed.

Lemma small_byte z : 0 <= z < 256 → byte_Z (Z_byte (u8 z)) = z.
Proof. intros Hz. unfold u8. by rewrite byte_Z_of_Z, !Z.mod_small by (rewrite ?Z.mod_small; lia). Qed.

Lemma der_0 : at_ (der_bytes rb sb) 0 = Ret 0x30.
Proof. done. Qed.
Lemma der_1 : at_ (der_bytes rb sb) 1 = Ret (4 + len rb + len sb).
Proof. unfold der_bytes, at_. cbn [Z.to_nat Pos.to_nat Pos.iter_op Nat.add lookup list_lookup app]. unfold mret, outcome_ret. f_equal. rewrite small_byte; lia. Qed.
Lemma der_2 : at_ (der_bytes rb sb) 2 = Ret 0x02.
Proof. done. Qed.
Lemma der_3 : at_ (der_bytes rb sb) 3 = Ret (len rb).
Proof. unfold der_bytes, at_. change (Z.to_nat 3) with 3%nat. cbn [lookup list_lookup app]. unfold mret, outcome_ret. f_equal. rewrite small_byte; lia. Qed.

Lemma der_r i : 0 <= i < len rb → at_ (der_bytes rb sb) (4 + i) = at_ rb i.
Proof.
  intros Hi. unfold der_bytes, at_. rewrite lookup_app_r by (cbn; lia). cbn [length]. rewrite lookup_app_l by (unfold len in *; lia).
  replace (Z.to_nat (4 + i) - 4)%nat with (Z.to_nat i) by lia. done.
Qed.

Lemma der_rest i : 0 <= i → at_ (der_bytes rb sb) (4 + len rb + i) = at_ ([x02; Z_byte (u8 (len sb))] ++ sb) i.
Proof.
  intros Hi. unfold der_bytes, at_. rewrite lookup_app_r by (cbn; unfold len; lia). cbn [length]. rewrite lookup_app_r by (unfold len; lia).
  replace (Z.to_nat (4 + len rb + i) - 4 - length rb)%nat with (Z.to_nat i) by (unfold len; lia). done.
Qed.

Lemma der_marker : at_ (der_bytes rb sb) (4 + len rb) = Ret 0x02.
Proof. rewrite <- (Z.add_0_r (4 + len rb)), der_rest by done. done. Qed.
Lemma der_slen : at_ (der_bytes rb sb) (4 + len rb + 1) = Ret (len sb).
Proof. rewrite der_rest by done. unfold at_. change (Z.to_nat 1) with 1%nat. cbn [lookup list_lookup app]. unfold mret, outcome_ret. f_equal. rewrite small_byte; lia. Qed.
Lemma der_s i : 0 <= i → at_ (der_bytes rb sb) (4 + len rb + (2 + i)) = at_ sb i.
Proof. intros Hi. rewrite der_rest by lia. unfold at_. by replace (Z.to_nat (2 + i)) with (S (S (Z.to_nat i))) by lia. Qed.

Lemma der_sub_r : sub (der_bytes rb sb) 4 (4 + len rb) = rb.
Proof.
  unfold sub. replace (4 + len rb - 4) with (len rb) by lia. change (Z.to_nat 4) with 4%nat. unfold der_bytes. cbn [app drop].
  rewrite drop_0. unfold len. rewrite Nat2Z.id. by rewrite take_app_length.
Qed.
Lemma der_sub_s : sub (der_bytes rb sb) (4 + len rb + 2) (4 + len rb + 2 + len sb) = sb.
Proof.
  unfold sub. replace (4 + len rb + 2 + len sb - (4 + len rb + 2)) with (len sb) by lia. unfold der_bytes.
  replace (Z.to_nat (4 + len rb + 2)) with (length ([x30; Z_byte (u8 (6 + len rb + len sb - 2)); x02; Z_byte (u8 (len rb))] ++ rb ++ [x02; Z_byte (u8 (len sb))])).
  2:{ rewrite !length_app. unfold len. cbn [length]. lia. }
  rewrite !app_assoc, drop_app_length. apply take_ge. unfold len. lia.
Qed.
End Layout.

(** ** Reading *)

(** The last checks of [parseSig]. *)
Definition in_range (R S : Z) : outcome DerSignature :=
  _ ← req (bool_decide (0 < R)) "signature R isn't 1 or more";
  _ ← req (bool_decide (0 < S)) "signature S isn't 1 or more";
  _ ← req (negb (bool_decide (R >= curve_N))) "signature R is >= curve.N";
  _ ← req (negb (bool_decide (S >= curve_N))) "signature S is >= curve.N";
  mret (MkDer R S).

Lemma in_range_ok R S : 0 < R < curve_N → 0 < S < curve_N → in_range R S = Ret (MkDer R S).
Proof.
  intros HR HS. unfold in_range. rewrite (bool_decide_true (0 < R)), (bool_decide_true (0 < S)), (bool_decide_false (R >= _)), (bool_decide_false (S >= _)) by lia. done.
Qed.

Lemma req_inv {A} ok x (f : unit → outcome A) a : (req ok x ≫= f) = Ret a → ok = true ∧ f tt = Ret a.
Proof. by destruct ok. Qed.

Lemma in_range_inv R S sig : in_range R S = Ret sig → sig = MkDer R S ∧ 0 < R < curve_N ∧ 0 < S < curve_N.
Proof.
  unfold in_range. intros [H1%bool_decide_eq_true [H2%bool_decide_eq_true [H3%negb_true_iff%bool_decide_eq_false
    [H4%negb_true_iff%bool_decide_eq_false [= <-]]%req_inv]%req_inv]%req_inv]%req_inv. split; [done|]. lia.
Qed.

Lemma check_padding_ok der b z name : der_int b z → check_padding der b name = Ret tt.
Proof. intros Hb. unfold check_padding. destruct der; [|done]. by rewrite (di_minimal _ _ Hb). Qed.

Lemma parse_der rb sb R S der : der_int rb R → der_int sb S → parseSig (der_bytes rb sb) der = in_range R S.
Proof.
  intros Hrb Hsb. pose proof (di_len _ _ Hrb) as Hr. pose proof (di_len _ _ Hsb) as Hs. unfold parseSig.
  rewrite (der_len rb sb) by done. rewrite (bool_decide_false (_ < 8)) by lia. cbn [negb req mbind outcome_bind mret outcome_ret].
  rewrite der_0. cbn [mbind outcome_bind]. rewrite (bool_decide_true (48 = 48)) by done. cbn [req mbind outcome_bind mret outcome_ret]. rewrite (der_1 rb sb) by done. cbn [mbind outcome_bind].
  assert (u8 (4 + len rb + len sb + 2) = len (der_bytes rb sb)) as -> by (rewrite der_len by done; unfold u8; rewrite Z.mod_small; lia).
  rewrite (bool_decide_false (_ > _)) by (rewrite der_len by done; lia). cbn [negb req mbind outcome_bind mret outcome_ret].
  assert (take (Z.to_nat (len (der_bytes rb sb))) (der_bytes rb sb) = der_bytes rb sb) as -> by (apply take_ge; unfold len; lia).
  rewrite der_2. cbn [mbind outcome_bind]. rewrite (bool_decide_true (2 = 2)) by done. cbn [req mbind outcome_bind mret outcome_ret].
  rewrite (der_3 rb sb) by done. cbn [mbind outcome_bind]. rewrite der_len by done.
  rewrite (bool_decide_false (len rb <= 0)), (bool_decide_false (len rb > _)) by lia. cbn [orb negb req mbind outcome_bind mret outcome_ret].
  rewrite der_sub_r by done. rewrite (check_padding_ok _ _ _ _ Hrb). cbn [mbind outcome_bind]. rewrite der_marker by done. cbn [mbind outcome_bind].
  rewrite (bool_decide_true (2 = 2)) by done. cbn [req mbind outcome_bind mret outcome_ret]. rewrite der_slen by done. cbn [mbind outcome_bind].
  rewrite (bool_decide_false (len sb <= 0)), (bool_decide_false (len sb > _)) by lia. cbn [orb negb req mbind outcome_bind mret outcome_ret].
  rewrite der_sub_s by done. rewrite (check_padding_ok _ _ _ _ Hsb). cbn [mbind outcome_bind]. rewrite (bool_decide_true (_ = _)) by lia.
  cbn [req mbind outcome_bind mret outcome_ret]. by rewrite (di_val _ _ Hrb), (di_val _ _ Hsb).
Qed.

(** ** What the script engine asks of an encoding *)

Lemma der_int_parts b z : der_int b z →
  ∃ x, at_ b 0 = Ret x ∧ Z.land x 0x80 = 0 ∧ (len b > 1 → x = 0 → ∃ y, at_ b 1 = Ret y ∧ Z.land y 0x80 ≠ 0).
Proof.
  intros [_ Hl Hp Hm]. destruct b as [|x b]; [by destruct Hl|]. exists (byte_Z x). split; [done|].
  rewrite high_bit_cons in Hp. apply negb_false_iff, bool_decide_eq_true in Hp. split; [done|]. intros H1 H0. destruct b as [|y b]; [by cbn in H1|].
  exists (byte_Z y). split; [done|]. unfold canonicalPadding in Hm. change (at_ (x :: y :: b) 0) with (Ret (byte_Z x)) in Hm.
  change (at_ (x :: y :: b) 1) with (Ret (byte_Z y)) in Hm. cbn [mbind outcome_bind] in Hm. rewrite bool_decide_false in Hm by (by rewrite Hp).
  rewrite (bool_decide_true (_ > 1)), (bool_decide_true (byte_Z x = 0)) in Hm by done. cbn [andb mbind outcome_bind mret outcome_ret] in Hm. 
  intros E. by rewrite E in Hm.
Qed.

Lemma check_der_ok rb sb R S low :
  der_int rb R → der_int sb S → (low = true → S <= halfOrder) → check_der low (der_bytes rb sb) = Ret tt.
Proof.
  intros Hrb Hsb Hlow. pose proof (di_len _ _ Hrb) as Hr. pose proof (di_len _ _ Hsb) as Hs. 
  destruct (der_int_parts _ _ Hrb) as (x & Ex & Hx & Hx1). destruct (der_int_parts _ _ Hsb) as (y & Ey & Hy & Hy1).
  unfold check_der. rewrite (der_len rb sb) by done. rewrite (bool_decide_false (_ < 8)), (bool_decide_false (_ > 72)) by lia. cbn [negb req mbind outcome_bind mret outcome_ret].
  rewrite der_0. cbn [mbind outcome_bind]. rewrite (bool_decide_true (48 = 48)) by done. cbn [req mbind outcome_bind mret outcome_ret].
  rewrite (der_1 rb sb) by done. cbn [mbind outcome_bind]. rewrite (bool_decide_true (4 + len rb + len sb = _)) by lia. cbn [req mbind outcome_bind mret outcome_ret].
  rewrite (der_3 rb sb) by done. cbn [mbind outcome_bind]. rewrite (bool_decide_false (len rb + 5 > _)) by lia. cbn [negb req mbind outcome_bind mret outcome_ret].
  replace (len rb + 5) with (4 + len rb + 1) by lia. rewrite der_slen by done. cbn [mbind outcome_bind]. rewrite (bool_decide_true (len rb + len sb + 6 = _)) by lia. cbn [req mbind outcome_bind mret outcome_ret].
  rewrite der_2. cbn [mbind outcome_bind]. rewrite (bool_decide_true (2 = 2)) by done. cbn [req mbind outcome_bind mret outcome_ret].
  rewrite (bool_decide_false (len rb = 0)) by lia. cbn [negb req mbind outcome_bind mret outcome_ret].
  change (at_ (der_bytes rb sb) 4) with (at_ (der_bytes rb sb) (4 + 0)). change (at_ (der_bytes rb sb) 5) with (at_ (der_bytes rb sb) (4 + 1)).
  rewrite (der_r rb sb 0) by (done || lia). rewrite Ex. cbn [mbind outcome_bind]. rewrite (bool_decide_true (Z.land x 128 = 0)) by done. cbn [req mbind outcome_bind mret outcome_ret].
  assert ((if bool_decide (len rb > 1) && bool_decide (x = 0) then b5 ← at_ (der_bytes rb sb) (4 + 1); mret (bool_decide (Z.land b5 128 = 0)) else mret false) = Ret false) as ->.
  { destruct (decide (len rb > 1 ∧ x = 0)) as [[H1 H0]|Hn].
    - rewrite der_r by (done || lia). destruct (Hx1 H1 H0) as (x1 & -> & Hx1'). rewrite !bool_decide_true by done. cbn. by rewrite bool_decide_false.
    - rewrite <- bool_decide_and, bool_decide_false by done. done. }
  cbn [negb req mbind outcome_bind mret outcome_ret]. replace (len rb + 4) with (4 + len rb) by lia. rewrite der_marker by done. cbn [mbind outcome_bind].
  rewrite (bool_decide_true (2 = 2)) by done. cbn [req mbind outcome_bind mret outcome_ret]. rewrite (bool_decide_false (len sb = 0)) by lia. cbn [negb req mbind outcome_bind mret outcome_ret].
  replace (len rb + 6) with (4 + len rb + (2 + 0)) by lia. replace (len rb + 7) with (4 + len rb + (2 + 1)) by lia.
  rewrite (der_s rb sb 0) by (done || lia). rewrite Ey. cbn [mbind outcome_bind]. rewrite (bool_decide_true (Z.land y 128 = 0)) by done. cbn [req mbind outcome_bind mret outcome_ret].
  assert ((if bool_decide (len sb > 1) && bool_decide (y = 0) then b ← at_ (der_bytes rb sb) (4 + len rb + (2 + 1)); mret (bool_decide (Z.land b 128 = 0)) else mret false) = Ret false) as ->.
  { destruct (decide (len sb > 1 ∧ y = 0)) as [[H1 H0]|Hn].
    - rewrite der_s by (done || lia). destruct (Hy1 H1 H0) as (y1 & -> & Hy1'). rewrite !bool_decide_true by done. cbn. by rewrite bool_decide_false.
    - rewrite <- bool_decide_and, bool_decide_false by done. done. }
  cbn [negb req mbind outcome_bind mret outcome_ret]. destruct low; [|done].
  pose proof (der_sub_s rb sb) as Hsub. unfold sub in Hsub. replace (4 + len rb + 2 + len sb - (4 + len rb + 2)) with (len sb) in Hsub by lia.
  rewrite Z.add_0_r, Hsub, (di_val _ _ Hsb). rewrite bool_decide_false by (specialize (Hlow eq_refl); lia). done.
Qed.

(** ** Sixty-four bytes *)

Lemma SigDecompress_der csig :
  length csig = 64%nat → SigDecompress csig = der_bytes (canonicalizeInt (be_val (take 32 csig))) (canonicalizeInt (be_val (drop 32 csig))).
Proof.
  intros Hl. unfold SigDecompress. rewrite !padded_canonical by (rewrite ?length_take, ?length_drop; lia).
  set (rb := canonicalizeInt (be_val (take 32 csig))). set (sb := canonicalizeInt (be_val (drop 32 csig))).
  assert (∀ b, length b = 32%nat → der_int (canonicalizeInt (be_val b)) (be_val b)) as Hd.
  { intros b Hb. apply canonicalizeInt_der. pose proof (be_val_range b) as Hr. unfold len in Hr. by rewrite Hb in Hr. }
  pose proof (di_len _ _ (Hd (take 32 csig) ltac:(rewrite length_take; lia))) as Hr. pose proof (di_len _ _ (Hd (drop 32 csig) ltac:(rewrite length_drop; lia))) as Hs.
  fold rb in Hr. fold sb in Hs. unfold der_bytes. do 4 f_equal. unfold u8. rewrite (Z.mod_small (len rb + len sb + 6)) by lia. do 2 f_equal. lia.
Qed.

Lemma be_val_zeros n b : be_val (zeros n ++ b) = be_val b.
Proof. induction n as [|n IH]; [done|]. change (zeros (S n) ++ b) with (x00 :: zeros n ++ b). rewrite be_val_cons, IH. change (byte_Z x00) with 0. lia. Qed.

Lemma be_bytes_unique l z : length l = 32%nat → be_val l = z → l = be_bytes 32 z.
Proof. intros Hl <-. rewrite <- Hl. symmetry. apply be_bytes_be_val. Qed.

(** The number of a signature, right-aligned. *)
Lemma take_number_ok b z rest spare :
  der_int b z → 22 <= len b → 0 <= z < 2 ^ 256 →
  take_number ([x02; Z_byte (u8 (len b))] ++ b ++ rest) spare = Ret (inr (be_bytes 32 z, None, rest)).
Proof.
  intros Hb Hl Hz. pose proof (di_len _ _ Hb) as Hlen. unfold take_number. change (at_ (_ ++ b ++ rest) 0) with (Ret 2). cbn [mbind outcome_bind].
  rewrite (bool_decide_true (2 = 2)) by done. cbn [negb].
  assert (at_ ([x02; Z_byte (u8 (len b))] ++ b ++ rest) 1 = Ret (len b)) as ->.
  { unfold at_. change (Z.to_nat 1) with 1%nat. cbn [lookup list_lookup app]. unfold mret, outcome_ret. f_equal. apply small_byte. lia. }
  cbn [mbind outcome_bind app drop]. rewrite drop_0. rewrite (bool_decide_false (len b < 22)), (bool_decide_false (len b > 33)) by lia. cbn [orb].
  rewrite len_app. pose proof (len_nonneg rest). pose proof (len_nonneg spare). rewrite (bool_decide_false (len b > _)) by lia.
  destruct (decide (len b = 33)) as [E|E]; [rewrite (bool_decide_true _ E)|rewrite (bool_decide_false _ E)].
  - destruct b as [|x c]; [done|]. cbn [app]. rewrite (bool_decide_false (_ = [])) by done. cbn [drop]. rewrite drop_0. cbn [mbind outcome_bind mret outcome_ret].
    rewrite len_cons in E. rewrite bool_decide_false by (rewrite len_app; lia). pose proof (di_val _ _ Hb) as Hv. rewrite be_val_cons in Hv.
    replace (len c) with 32 in Hv by lia. pose proof (byte_Z_range x). pose proof (be_val_range c). assert (byte_Z x = 0) as Hx by nia.
    assert (length c = 32%nat) as Hc by (unfold len in E; lia). change (Z.to_nat 32) with 32%nat. rewrite <- app_assoc, <- Hc at 1. rewrite take_app_length.
    rewrite <- Hc, drop_app_length. unfold right_aligned. change (zeros (Z.to_nat (32 - 32))) with (@nil Byte.byte). cbn [app].
    rewrite Hc, <- (be_bytes_unique c z) by (done || lia). done.
  - cbn [mbind outcome_bind mret outcome_ret]. rewrite bool_decide_false by (rewrite len_app; lia).
    assert (Z.to_nat (len b) = length b) as En by (unfold len; lia). rewrite En, <- app_assoc, take_app_length, drop_app_length.
    unfold mret, outcome_ret. do 4 f_equal. apply be_bytes_unique.
    + unfold right_aligned. rewrite length_app, length_zeros. unfold len in *. lia.
    + unfold right_aligned. rewrite be_val_zeros. apply Hb.
Qed.

Lemma SigCompress_der rb sb R S spare :
  der_int rb R → der_int sb S → 0 <= R < 2 ^ 256 → 0 <= S < 2 ^ 256 → 22 <= len rb → 22 <= len sb → 59 <= len rb + len sb →
  SigCompress (der_bytes rb sb) spare = Ret (be_bytes 32 R ++ be_bytes 32 S, None).
Proof.
  intros Hr Hs HR HS Hlr Hls Hsum. pose proof (di_len _ _ Hr). pose proof (di_len _ _ Hs). unfold SigCompress.
  rewrite der_len by done. rewrite (bool_decide_false (_ < 65)), (bool_decide_false (_ > 72)) by lia. cbn [orb].
  rewrite der_0. cbn [mbind outcome_bind]. rewrite (bool_decide_true (48 = 48)) by done. cbn [negb]. rewrite der_1 by done. cbn [mbind outcome_bind].
  rewrite (bool_decide_true (4 + len rb + len sb = _)) by lia.
  change (drop 2 (der_bytes rb sb)) with ([x02; Z_byte (u8 (len rb))] ++ rb ++ [x02; Z_byte (u8 (len sb))] ++ sb).
  rewrite (take_number_ok rb R) by done. cbn [mbind outcome_bind]. pose proof (take_number_ok sb S [] spare Hs Hls HS) as Ht. rewrite app_nil_r in Ht.
  by rewrite Ht.
Qed.

(** ** Claims *)

(** The smaller of the two numbers that make a valid signature. *)
Definition low_S (sig : DerSignature) : DerSignature :=
  MkDer (sig_R sig) (if bool_decide (sig_S sig > curve_halfOrder) then curve_N - sig_S sig else sig_S sig).

Definition valid_numbers (sig : DerSignature) : Prop := 0 < sig_R sig < curve_N ∧ 0 < sig_S sig < curve_N.

Lemma low_S_spec sig : valid_numbers sig → valid_numbers (low_S sig) ∧ sig_S (low_S sig) <= halfOrder.
Proof.
  intros [HR HS]. assert (curve_halfOrder = halfOrder) as E by done. assert (curve_N = 2 * halfOrder + 1) as EN by done.
  unfold low_S, valid_numbers. cbn [sig_R sig_S]. case_bool_decide; lia.
Qed.

Lemma Serialize_der sig : valid_numbers sig →
  ∃ rb sb, Signature_Serialize sig = der_bytes rb sb ∧ der_int rb (sig_R sig) ∧ der_int sb (sig_S (low_S sig)) ∧
    rb = canonicalizeInt (sig_R sig) ∧ sb = canonicalizeInt (sig_S (low_S sig)).
Proof.
  intros Hv. destruct (low_S_spec sig Hv) as [[HR HS] _]. cbn [sig_R low_S] in HR. do 2 eexists. split; [reflexivity|].
  assert (curve_N < 2 ^ 256) by done. split; [apply canonicalizeInt_der; lia|]. split; [|done]. apply canonicalizeInt_der. lia.
Qed.

Lemma Serialize_parses sig : valid_numbers sig →
  btcec_ParseSignature (Signature_Serialize sig) = Ret (low_S sig) ∧ btcec_ParseDERSignature (Signature_Serialize sig) = Ret (low_S sig) ∧
  check_der true (Signature_Serialize sig) = Ret tt.
Proof.
  intros Hv. destruct (Serialize_der sig Hv) as (rb & sb & -> & Hr & Hs & _). destruct (low_S_spec sig Hv) as [[HR HS] Hlow]. cbn [sig_R low_S] in HR.
  unfold btcec_ParseSignature, btcec_ParseDERSignature. rewrite !(parse_der rb sb _ _ _ Hr Hs), in_range_ok by (exact HR || exact HS). split; [reflexivity|]. split; [reflexivity|].
  by eapply check_der_ok.
Qed.

(** C28. Signatures are written in the form everybody asks for. A signature whose
    numbers are between 1 and the order of the group is written with the lower one
    of the two values of S that are valid together; both parsers read exactly these
    numbers back, and the bytes pass the strictest checks the script engine makes of
    an encoding: minimal integers, no sign, low S, at most 72 bytes. *)
Theorem der_roundtrip sig (Hv : valid_numbers sig) :
  btcec_ParseSignature (Signature_Serialize sig) = Ret (low_S sig) ∧
  btcec_ParseDERSignature (Signature_Serialize sig) = Ret (low_S sig) ∧
  check_der true (Signature_Serialize sig) = Ret tt ∧ len (Signature_Serialize sig) <= 72 ∧
  Signature_Serialize (low_S sig) = Signature_Serialize sig.
Proof.
  destruct (Serialize_parses sig Hv) as (H1 & H2 & H3). split; [exact H1|]. split; [exact H2|]. split; [exact H3|]. split.
  - destruct (Serialize_der sig Hv) as (rb & sb & -> & Hr & Hs & _). pose proof (di_len _ _ Hr). pose proof (di_len _ _ Hs). rewrite der_len by done. lia.
  - destruct (low_S_spec sig Hv) as [_ Hlow]. unfold Signature_Serialize at 1. rewrite bool_decide_false; [done|].
    change curve_halfOrder with halfOrder. lia.
Qed.

Section Compact.
Context `{HashFunction} {Key : Type} (ParseKey : bytes → outcome Key) (VerifyNumbers : DerSignature → bytes → Key → bool).

(** Signatures in 64 bytes. For every array of 64 bytes the parser gets the DER
    form of the two numbers in it, so that [VerifySig] accepts exactly if both are
    between 1 and the order, the key parses and the numbers verify for the hash of the
    text.  And a signature that [SigCompress] takes, one whose numbers are long enough,
    comes out as the numbers that were signed, S being the lower one. *)
Theorem compact_signatures plainText pubKey csig sig spare (Hl : length csig = 64%nat) (Hv : valid_numbers sig) :
  (VerifySig ParseKey VerifyNumbers plainText pubKey csig = Ret tt ↔
   valid_numbers (MkDer (be_val (take 32 csig)) (be_val (drop 32 csig))) ∧
   ∃ pk, ParseKey pubKey = Ret pk ∧ VerifyNumbers (MkDer (be_val (take 32 csig)) (be_val (drop 32 csig))) (Sum256 plainText) pk = true) ∧
  (22 <= len (canonicalizeInt (sig_R sig)) → 22 <= len (canonicalizeInt (sig_S (low_S sig))) → 65 <= len (Signature_Serialize sig) →
   SigCompress (Signature_Serialize sig) spare = Ret (be_bytes 32 (sig_R sig) ++ be_bytes 32 (sig_S (low_S sig)), None) ∧
   SigDecompress (be_bytes 32 (sig_R sig) ++ be_bytes 32 (sig_S (low_S sig))) = Signature_Serialize sig).
Proof.
  split.
  - assert (∀ b, length b = 32%nat → der_int (canonicalizeInt (be_val b)) (be_val b)) as Hd.
    { intros b Hb. apply canonicalizeInt_der. pose proof (be_val_range b) as Hr. unfold len in Hr. by rewrite Hb in Hr. }
    unfold VerifySig. rewrite SigDecompress_der by done. unfold btcec_ParseSignature.
    rewrite (parse_der _ _ _ _ _ (Hd (take 32 csig) ltac:(rewrite length_take; lia)) (Hd (drop 32 csig) ltac:(rewrite length_drop; lia))). split.
    + destruct (in_range _ _) as [s|x|x] eqn:E; [|done..]. apply in_range_inv in E as (-> & HR & HS). cbn [mbind outcome_bind].
      destruct (ParseKey pubKey) as [pk|x|x]; [|done..]. cbn [mbind outcome_bind]. destruct (VerifyNumbers _ _ pk) eqn:Ev; [|done]. intros _. split; [done|]. by exists pk.
    + intros [[HR HS] (pk & -> & Ev)]. rewrite in_range_ok by done. cbn [mbind outcome_bind]. by rewrite Ev.
  - intros H1 H2 H3. destruct (Serialize_der sig Hv) as (rb & sb & Es & Hr & Hs & -> & ->). rewrite Es in *.
    destruct (low_S_spec sig Hv) as [[HR HS] _]. cbn [sig_R low_S] in HR. assert (curve_N < 2 ^ 256) by done.
    rewrite der_len in H3 by apply Hr || apply Hs. split; [apply (SigCompress_der _ _ _ _ _ Hr Hs); lia|].
    rewrite SigDecompress_der by (by rewrite length_app, !be_bytes_length).
    rewrite take_app_length', drop_app_length' by (by rewrite be_bytes_length). rewrite !be_val_be_bytes, !Z.mod_small by lia. done.
Qed.
End Compact.

(** The numbers of a signature that was made with this package. *)
Definition example_sig : DerSignature :=
  MkDer 0xb7cfe9d300b30f9705633c3b031f8312a189dde2be5aad2e28d73aa617d8ad42 0x4ff09fd52705fee8733129466e9da417c17b99496360a9a202172b92b8bc78ef.

Lemma der_roundtrip_witness : valid_numbers example_sig ∧ btcec_ParseDERSignature (Signature_Serialize example_sig) = Ret example_sig.
Proof.
  assert (valid_numbers example_sig) as Hv by (repeat split). split; [exact Hv|].
  destruct (der_roundtrip example_sig Hv) as (_ & H2 & _). exact H2.
Defined.

Lemma compact_signatures_witness :
  SigCompress (Signature_Serialize example_sig) [] = Ret (be_bytes 32 (sig_R example_sig) ++ be_bytes 32 (sig_S example_sig), None) ∧
  VerifySig Ret (λ s h k, bool_decide (s = example_sig)) [] [] (be_bytes 32 (sig_R example_sig) ++ be_bytes 32 (sig_S example_sig)) = Ret tt.
Proof.
  assert (valid_numbers example_sig) as Hv by (repeat split).
  destruct (compact_signatures (Key := bytes) Ret (λ s h k, bool_decide (s = example_sig)) [] []
    (be_bytes 32 (sig_R example_sig) ++ be_bytes 32 (sig_S example_sig)) example_sig [] ltac:(vm_compute; reflexivity) Hv) as [H1 H2].
  split.
  - apply H2; vm_compute; discriminate.
  - apply H1. split; [vm_compute; repeat split|]. exists []. split; vm_compute; reflexivity.
Defined.
