(* ===== verification/Curve.v ===== *)
(** * Points of secp256k1 (crypto/btcec/btcec.go)

    A Jacobian point is three field values; (x, y) is the point (x/z^2, y/z^3), and the
    point at infinity has z = 0 or x = y = 0.  The routines write their result through
    three pointers and normalize operands in place.  [ScalarMult] passes the result's
    pointers also as the first operand: every routine has read a coordinate of the first
    operand for the last time when it starts to write the same coordinate of the result,
    so the result is a function of the operands.  The second operand is normalized in
    place and used again, so additions return it as well. *)

From Stdlib Require Import ZArith Lia.
From S2P Require Import Prelude Buffers Field Der.

Local Open Scope Z_scope.

(** ** Parameters of the curve *)

Definition curve_P : Z := 0xFFFFFFFFFFFFFFFFFFFFFFFFFFFFFFFFFFFFFFFFFFFFFFFFFFFFFFFEFFFFFC2F.
Definition curve_B : Z := 7.
Definition curve_Gx : Z := 0x79BE667EF9DCBBAC55A06295CE870B07029BFCDB2DCE28D959F2815B16F81798.
Definition curve_Gy : Z := 0x483ADA7726A3C4655DA4FBFC0E1108A8FD17B448A68554199C47D08FFB10D4B8.
Definition curve_q : Z := (curve_P + 1) / 4.
Definition curve_BitSize : Z := 256.
Definition curve_byteSize : Z := curve_BitSize / 8.
Definition curve_lambda : Z := 0x5363AD4CC05C30E0A5261C028812645A122E22EA20816678DF02967C1B23BD72.
Definition curve_beta : fieldVal := SetBytes (be_bytes 32 0x7AE96A2B657C07106E64479EAC3434E99CF0497512F58995C1396C28719501EE).
Definition curve_a1 : Z := 0x3086D221A7D46BCDE86C90E49284EB15.
Definition curve_b1 : Z := - 0xE4437ED6010E88286F547FA90ABFE4C3.
Definition curve_a2 : Z := 0x114CA50F7A8E2F3F657C1108D9D44CFD8.
Definition curve_b2 : Z := 0x3086D221A7D46BCDE86C90E49284EB15.

Definition fieldOne : fieldVal := SetInt 1.

Record jacobian := Jac { jx : fieldVal; jy : fieldVal; jz : fieldVal }.

Definition infinity : jacobian := Jac (SetInt 0) (SetInt 0) (SetInt 0).

(** ** Conversions *)

Definition bigAffineToField (x y : Z) : outcome (fieldVal * fieldVal) :=
  x3 ← SetByteSlice (big_Bytes x);
  y3 ← SetByteSlice (big_Bytes y);
  mret (x3, y3).

Definition fieldJacobianToBigAffine (p : jacobian) : Z * Z :=
  let zInv := Inverse (jz p) in
  let tempZ := SquareVal zInv in
  let x := Mul (jx p) tempZ in
  let y := Mul (jy p) (Mul tempZ zInv) in
  (be_val (Bytes (Normalize x)), be_val (Bytes (Normalize y))).

Definition IsOnCurve (x y : Z) : outcome bool :=
  '(fx, fy) ← bigAffineToField x y;
  let y2 := Normalize (SquareVal fy) in
  let result := Normalize (AddInt (Mul (SquareVal fx) fx) 7) in
  mret (Equals y2 result).

(** ** Doubling *)

(** The two routines differ in the computation of z3 only. *)
Definition double_with (x1 y1 z3 : fieldVal) : jacobian :=
  let a := SquareVal x1 in
  let b := SquareVal y1 in
  let c := SquareVal b in
  let b := Square (Field_Add b x1) in
  let d := Negate (Field_Add a c) 2 in
  let d := MulInt (Field_Add d b) 2 in
  let e := MulInt a 3 in
  let f := SquareVal e in
  let x3 := Negate (MulInt d 2) 16 in
  let x3 := Field_Add x3 f in
  let f := Normalize (Field_Add (Negate x3 18) d) in
  let y3 := Negate (MulInt c 8) 8 in
  let y3 := Field_Add y3 (Mul f e) in
  Jac (Normalize x3) (Normalize y3) (Normalize z3).

Definition doubleZ1EqualsOne (x1 y1 : fieldVal) : jacobian := double_with x1 y1 (MulInt y1 2).

Definition doubleGeneric (x1 y1 z1 : fieldVal) : jacobian := double_with x1 y1 (MulInt (Mul2 y1 z1) 2).

Definition doubleJacobian (p : jacobian) : jacobian :=
  if IsZero (jy p) || IsZero (jz p) then infinity
  else
    let z1 := Normalize (jz p) in
    if Equals z1 fieldOne then doubleZ1EqualsOne (jx p) (jy p) else doubleGeneric (jx p) (jy p) z1.

(** ** Addition *)

Definition addZ1AndZ2EqualsOne (x1 y1 z1 x2 y2 : fieldVal) : jacobian * (fieldVal * fieldVal) :=
  let x1 := Normalize x1 in
  let y1 := Normalize y1 in
  let x2 := Normalize x2 in
  let y2 := Normalize y2 in
  if Equals x1 x2 then
    if Equals y1 y2 then (doubleJacobian (Jac x1 y1 z1), (x2, y2)) else (infinity, (x2, y2))
  else
    let h := Field_Add (Negate x1 1) x2 in
    let i := MulInt (SquareVal h) 4 in
    let j := Mul2 h i in
    let r := MulInt (Field_Add (Negate y1 1) y2) 2 in
    let v := Mul2 x1 i in
    let negJ := Negate j 1 in
    let neg2V := Negate (MulInt v 2) 2 in
    let x3 := Field_Add (Field_Add (Square r) negJ) neg2V in
    let negX3 := Negate x3 6 in
    let j := Negate (MulInt (Mul j y1) 2) 2 in
    let y3 := Field_Add (Mul (Field_Add v negX3) r) j in
    let z3 := MulInt h 2 in
    (Jac (Normalize x3) (Normalize y3) (Normalize z3), (x2, y2)).

Definition addZ1EqualsZ2 (x1 y1 z1 x2 y2 : fieldVal) : jacobian * (fieldVal * fieldVal) :=
  let x1 := Normalize x1 in
  let y1 := Normalize y1 in
  let x2 := Normalize x2 in
  let y2 := Normalize y2 in
  if Equals x1 x2 then
    if Equals y1 y2 then (doubleJacobian (Jac x1 y1 z1), (x2, y2)) else (infinity, (x2, y2))
  else
    let negX1 := Negate x1 1 in
    let negY1 := Negate y1 1 in
    let a := Field_Add negX1 x2 in
    let b := SquareVal a in
    let c := Field_Add negY1 y2 in
    let d := SquareVal c in
    let e := Mul2 x1 b in
    let negE := Negate e 1 in
    let f := Mul2 x2 b in
    let x3 := Field_Add (Negate (Add2 e f) 3) d in
    let negX3 := Normalize (Negate x3 5) in
    let y3 := Negate (Mul y1 (Field_Add f negE)) 3 in
    let y3 := Field_Add y3 (Mul (Field_Add e negX3) c) in
    let z3 := Mul2 z1 a in
    (Jac (Normalize x3) (Normalize y3) z3, (x2, y2)).

Definition addZ2EqualsOne (x1 y1 z1 x2 y2 : fieldVal) : jacobian :=
  let x1 := Normalize x1 in
  let y1 := Normalize y1 in
  let z1z1 := SquareVal z1 in
  let u2 := Normalize (Mul x2 z1z1) in
  let s2 := Normalize (Mul (Mul y2 z1z1) z1) in
  if Equals x1 u2 then
    if Equals y1 s2 then doubleJacobian (Jac x1 y1 z1) else infinity
  else
    let negX1 := Negate x1 1 in
    let h := Add2 u2 negX1 in
    let hh := SquareVal h in
    let i := MulInt hh 4 in
    let j := Mul2 h i in
    let negY1 := Negate y1 1 in
    let r := MulInt (Field_Add s2 negY1) 2 in
    let rr := SquareVal r in
    let v := Mul2 x1 i in
    let x3 := Negate (Field_Add (MulInt v 2) j) 3 in
    let x3 := Field_Add x3 rr in
    let negX3 := Negate x3 5 in
    let y3 := Negate (MulInt (Mul y1 j) 2) 2 in
    let y3 := Field_Add y3 (Mul (Field_Add v negX3) r) in
    let z3 := Square (Add2 z1 h) in
    let z3 := Field_Add z3 (Negate (Field_Add z1z1 hh) 2) in
    Jac (Normalize x3) (Normalize y3) (Normalize z3).

Definition addGeneric (x1 y1 z1 x2 y2 z2 : fieldVal) : jacobian :=
  let z1z1 := SquareVal z1 in
  let z2z2 := SquareVal z2 in
  let u1 := Normalize (Mul x1 z2z2) in
  let u2 := Normalize (Mul x2 z1z1) in
  let s1 := Normalize (Mul (Mul y1 z2z2) z2) in
  let s2 := Normalize (Mul (Mul y2 z1z1) z1) in
  if Equals u1 u2 then
    if Equals s1 s2 then doubleJacobian (Jac x1 y1 z1) else infinity
  else
    let negU1 := Negate u1 1 in
    let h := Add2 u2 negU1 in
    let i := Square (MulInt h 2) in
    let j := Mul2 h i in
    let negS1 := Negate s1 1 in
    let r := MulInt (Field_Add s2 negS1) 2 in
    let rr := SquareVal r in
    let v := Mul2 u1 i in
    let x3 := Negate (Field_Add (MulInt v 2) j) 3 in
    let x3 := Field_Add x3 rr in
    let negX3 := Negate x3 5 in
    let y3 := Negate (MulInt (Mul2 s1 j) 2) 2 in
    let y3 := Field_Add y3 (Mul (Field_Add v negX3) r) in
    let z3 := Square (Add2 z1 z2) in
    let z3 := Field_Add z3 (Negate (Field_Add z1z1 z2z2) 2) in
    let z3 := Mul z3 h in
    Jac (Normalize x3) (Normalize y3) z3.

(** The sum, and the second operand as it is left. *)
Definition addJacobian (p1 p2 : jacobian) : jacobian * jacobian :=
  if (IsZero (jx p1) && IsZero (jy p1)) || IsZero (jz p1) then (p2, p2)
  else if (IsZero (jx p2) && IsZero (jy p2)) || IsZero (jz p2) then (p1, p2)
  else
    let z1 := Normalize (jz p1) in
    let z2 := Normalize (jz p2) in
    let isZ1One := Equals z1 fieldOne in
    let isZ2One := Equals z2 fieldOne in
    if isZ1One && isZ2One then
      let '(p3, (x2, y2)) := addZ1AndZ2EqualsOne (jx p1) (jy p1) z1 (jx p2) (jy p2) in (p3, Jac x2 y2 z2)
    else if Equals z1 z2 then
      let '(p3, (x2, y2)) := addZ1EqualsZ2 (jx p1) (jy p1) z1 (jx p2) (jy p2) in (p3, Jac x2 y2 z2)
    else if isZ2One then (addZ2EqualsOne (jx p1) (jy p1) z1 (jx p2) (jy p2), Jac (jx p2) (jy p2) z2)
    else (addGeneric (jx p1) (jy p1) z1 (jx p2) (jy p2) z2, Jac (jx p2) (jy p2) z2).

(** ** The interface elliptic.Curve *)

Definition Curve_Add (x1 y1 x2 y2 : Z) : outcome (Z * Z) :=
  if bool_decide (x1 = 0) && bool_decide (y1 = 0) then mret (x2, y2)
  else if bool_decide (x2 = 0) && bool_decide (y2 = 0) then mret (x1, y1)
  else
    '(fx1, fy1) ← bigAffineToField x1 y1;
    '(fx2, fy2) ← bigAffineToField x2 y2;
    let fOne := SetInt 1 in
    mret (fieldJacobianToBigAffine (addJacobian (Jac fx1 fy1 fOne) (Jac fx2 fy2 fOne)).1).

Definition Curve_Double (x1 y1 : Z) : outcome (Z * Z) :=
  if bool_decide (y1 = 0) then mret (0, 0)
  else
    '(fx1, fy1) ← bigAffineToField x1 y1;
    mret (fieldJacobianToBigAffine (doubleJacobian (Jac fx1 fy1 (SetInt 1)))).

(** ** Scalars *)

(** Two numbers by their absolute values and signs. *)
Definition splitK (k : bytes) : bytes * bytes * Z * Z :=
  let bigIntK := be_val k in
  let c1 := curve_b2 * bigIntK / curve_N in
  let c2 := curve_b1 * bigIntK / curve_N in
  let tmp1 := c1 * curve_a1 in
  let tmp2 := c2 * curve_a2 in
  let k1 := bigIntK - tmp1 + tmp2 in
  let tmp1 := c1 * curve_b1 in
  let tmp2 := c2 * curve_b2 in
  let k2 := tmp2 - tmp1 in
  (big_Bytes k1, big_Bytes k2, Z.sgn k1, Z.sgn k2).

Definition moduloReduce (k : bytes) : bytes :=
  if bool_decide (len k > curve_byteSize) then big_Bytes (be_val k mod curve_N) else k.

(** One bit of [NAF]: the rest of the byte, the carry, and the bytes for 1 and for -1. *)
Definition naf_bit (nextByte : bool) (st : Z * bool * Z * Z) (j : Z) : Z * bool * Z * Z :=
  let '(curByte, carry, pos, neg) := st in
  let curIsOne := bool_decide (Z.land curByte 1 = 1) in
  let nextIsOne := if bool_decide (j = 7) then nextByte else bool_decide (Z.land curByte 2 = 2) in
  let here := Z.shiftl 1 j in
  let '(carry, pos, neg) :=
    if carry then
      if curIsOne then (carry, pos, neg)
      else if nextIsOne then (carry, pos, u8 (neg + here))
      else (false, u8 (pos + here), neg)
    else if curIsOne then
      if nextIsOne then (true, pos, u8 (neg + here)) else (carry, u8 (pos + here), neg)
    else (carry, pos, neg) in
  (Z.shiftr curByte 1, carry, pos, neg).

Definition naf_byte (nextByte : bool) (b : byte) (carry : bool) : bool * Z * Z :=
  let '(_, carry, pos, neg) := fold_left (naf_bit nextByte) [0; 1; 2; 3; 4; 5; 6; 7] (byte_Z b, carry, 0, 0) in (carry, pos, neg).

(** The bytes from the last one on. *)
Fixpoint naf_loop (k : bytes) (carry : bool) : bytes * bytes * bool :=
  match k with
  | [] => ([], [], carry)
  | b :: k =>
      let nextByte := match k with b' :: _ => bool_decide (Z.land (byte_Z b') 1 = 1) | [] => false end in
      let '(carry, pos, neg) := naf_byte nextByte b carry in
      let '(poss, negs, carry) := naf_loop k carry in
      (Z_byte pos :: poss, Z_byte neg :: negs, carry)
  end.

Definition NAF (k : bytes) : bytes * bytes :=
  let '(poss, negs, carry) := naf_loop (rev k) false in
  if carry then (x01 :: rev poss, x00 :: rev negs) else (rev poss, rev negs).

(** The points of [ScalarMult], by the pointers they share, and the digits that are left. *)
Record multiplier := Mult { m_q : jacobian; m_x : fieldVal; m_y : fieldVal; m_yNeg : fieldVal; m_z : fieldVal;
  m_x2 : fieldVal; m_y2 : fieldVal; m_yNeg2 : fieldVal; m_z2 : fieldVal }.

Definition top_bit (b : Z) : bool := bool_decide (Z.land b 0x80 = 0x80).

Definition add_first (pos neg : Z) (st : multiplier) : multiplier :=
  let '(Mult q x y yNeg z x2 y2 yNeg2 z2) := st in
  if top_bit pos then let '(q, p) := addJacobian q (Jac x y z) in Mult q (jx p) (jy p) yNeg (jz p) x2 y2 yNeg2 z2
  else if top_bit neg then let '(q, p) := addJacobian q (Jac x yNeg z) in Mult q (jx p) y (jy p) (jz p) x2 y2 yNeg2 z2
  else st.

Definition add_second (pos neg : Z) (st : multiplier) : multiplier :=
  let '(Mult q x y yNeg z x2 y2 yNeg2 z2) := st in
  if top_bit pos then let '(q, p) := addJacobian q (Jac x2 y2 z2) in Mult q x y yNeg z (jx p) (jy p) yNeg2 (jz p)
  else if top_bit neg then let '(q, p) := addJacobian q (Jac x2 yNeg2 z2) in Mult q x y yNeg z (jx p) y2 (jy p) (jz p)
  else st.

Definition double_q (st : multiplier) : multiplier :=
  let '(Mult q x y yNeg z x2 y2 yNeg2 z2) := st in Mult (doubleJacobian q) x y yNeg z x2 y2 yNeg2 z2.

Fixpoint mult_bits (n : nat) (k1Pos k1Neg k2Pos k2Neg : Z) (st : multiplier) : multiplier :=
  match n with
  | 0%nat => st
  | S n =>
      let st := add_second k2Pos k2Neg (add_first k1Pos k1Neg (double_q st)) in
      mult_bits n (u8 (Z.shiftl k1Pos 1)) (u8 (Z.shiftl k1Neg 1)) (u8 (Z.shiftl k2Pos 1)) (u8 (Z.shiftl k2Neg 1)) st
  end.

(** Byte [i] of [m] bytes when the digits are padded in front. *)
Definition padded_digit (l : bytes) (m i : nat) : Z :=
  if bool_decide (i < m - length l)%nat then 0 else byte_Z (nth (i - (m - length l)) l x00).

Definition mult_loop (k1Pos k1Neg k2Pos k2Neg : bytes) (m : nat) (st : multiplier) : multiplier :=
  fold_left (λ st i, mult_bits 8 (padded_digit k1Pos m i) (padded_digit k1Neg m i) (padded_digit k2Pos m i) (padded_digit k2Neg m i) st) (seq 0 m) st.

Definition ScalarMult (Bx By : Z) (k : bytes) : outcome (Z * Z) :=
  let '(k1, k2, signK1, signK2) := splitK (moduloReduce k) in
  '(p1x, p1y) ← bigAffineToField Bx By;
  let p1yNeg := NegateVal p1y 1 in
  let p1z := SetInt 1 in
  let p2x := Mul2 p1x curve_beta in
  let p2y := p1y in
  let p2yNeg := NegateVal p2y 1 in
  let p2z := SetInt 1 in
  let '(p1y, p1yNeg) := if bool_decide (signK1 = -1) then (p1yNeg, p1y) else (p1y, p1yNeg) in
  let '(p2y, p2yNeg) := if bool_decide (signK2 = -1) then (p2yNeg, p2y) else (p2y, p2yNeg) in
  let '(k1PosNAF, k1NegNAF) := NAF k1 in
  let '(k2PosNAF, k2NegNAF) := NAF k2 in
  let m := length k1PosNAF in
  let m := if bool_decide (m < length k2PosNAF)%nat then length k2PosNAF else m in
  let st := mult_loop k1PosNAF k1NegNAF k2PosNAF k2NegNAF m
              (Mult (Jac Zero Zero Zero) p1x p1y p1yNeg p1z p2x p2y p2yNeg p2z) in
  mret (fieldJacobianToBigAffine (m_q st)).

(** The tables of byte points are decoded from data of the package: [table] is one of
    them, [bytePoints] or [bytePointsH]. *)
Definition base_loop (table : list (list jacobian)) (diff : nat) (newK : bytes) : outcome jacobian :=
  foldl (λ acc (ib : nat * byte),
    q ← acc;
    row ← from_option Ret (Panic out_of_range) (table !! (diff + ib.1)%nat);
    p ← from_option Ret (Panic out_of_range) (row !! Z.to_nat (byte_Z ib.2));
    mret (addJacobian q p).1) (Ret (Jac Zero Zero Zero)) (imap pair newK).

Definition ScalarBaseMult (table : list (list jacobian)) (k : bytes) : outcome (Z * Z) :=
  let newK := moduloReduce k in
  q ← base_loop table (length table - length newK) newK;
  mret (fieldJacobianToBigAffine q).

Definition ScalarBaseMultH (tableH : list (list jacobian)) (k : bytes) : outcome (Z * Z) :=
  let newK := moduloReduce k in
  q ← base_loop tableH (length tableH - length newK) newK;
  mret (fieldJacobianToBigAffine q).

Definition QPlus1Div4 : Z := curve_q.
