(* ===== verification/CurveTheorems.v ===== *)
(** * Jacobian arithmetic computes the group law of the curve *)

From Stdlib Require Import ZArith Lia Zdivisibility Zmod Field.
From S2P Require Import Prelude Buffers Field FieldTheorems PrimeField GroupLaw Der DerTheorems Curve.

Local Open Scope Z_scope.

(** ** Field values as elements *)

(** [f] has magnitude [m] and stands for the element [x]. *)
Definition elt (m : Z) (f : fieldVal) (x : F) : Prop := magnitude m f ∧ of_int (val f) = x.

(** The same in normal form. *)
Definition nelt (f : fieldVal) (x : F) : Prop := normalized f ∧ of_int (val f) = x.

Lemma elt_stands m f z : elt m f (of_int z) ↔ stands m f z.
Proof. unfold elt, stands. by rewrite of_int_eq. Qed.

Lemma elt_val m f x : elt m f x → stands m f (val f).
Proof. by intros [Hm _]. Qed.

Lemma elt_weaken m m' f x : elt m f x → 0 <= m <= m' → elt m' f x.
Proof. intros [Hf E] Hm. split; [|done]. by apply (stands_weaken m m' f (val f)). Qed.

Lemma elt_eq m f x y : elt m f x → x = y → elt m f y.
Proof. by intros Hf <-. Qed.

Lemma of_int_add a b : of_int (a + b) = (of_int a + of_int b)%F.
Proof. apply Zmod.of_Z_add. Qed.
Lemma of_int_mul a b : of_int (a * b) = (of_int a * of_int b)%F.
Proof. apply Zmod.of_Z_mul. Qed.
Lemma of_int_opp a : of_int (- a) = (- of_int a)%F.
Proof. apply Zmod.of_Z_opp. Qed.

(** From a fact on residues to one on elements. *)
Lemma stands_elt m f z x : stands m f z → of_int z = x → elt m f x.
Proof. intros Hf <-. by apply elt_stands. Qed.

Lemma Mul2_elt m k f g x y : elt m f x → elt k g y → 0 <= m <= 8 → 0 <= k <= 8 → elt 1 (Mul2 f g) (x * y)%F.
Proof.
  intros Hf Hg Hm Hk. eapply stands_elt; [apply Mul2_stands; eapply stands_weaken; [by eapply elt_val|done|by eapply elt_val|done]|].
  rewrite of_int_mul. destruct Hf as [_ ->], Hg as [_ ->]. done.
Qed.
Lemma SquareVal_elt m f x : elt m f x → 0 <= m <= 8 → elt 1 (SquareVal f) (x * x)%F.
Proof. intros Hf Hm. rewrite SquareVal_Mul2. by apply (Mul2_elt m m). Qed.
Lemma Add2_elt m k f g x y : elt m f x → elt k g y → 0 <= m → 0 <= k → m + k <= 63 → elt (m + k) (Add2 f g) (x + y)%F.
Proof.
  intros Hf Hg Hm Hk Hmk. eapply stands_elt; [apply Add2_stands; [by eapply elt_val..|done|done|done]|].
  rewrite of_int_add. destruct Hf as [_ ->], Hg as [_ ->]. done.
Qed.
Lemma MulInt_elt m k f x : elt m f x → 1 <= m → 0 <= k → m * k <= 63 → elt (m * k) (MulInt f k) (x * of_int k)%F.
Proof.
  intros Hf Hm Hk Hmk. eapply stands_elt; [apply MulInt_stands; [by eapply elt_val|lia|done..]|]. rewrite of_int_mul. by destruct Hf as [_ ->].
Qed.
Lemma NegateVal_elt m f x : elt m f x → 0 <= m <= 62 → elt (m + 1) (NegateVal f m) (- x)%F.
Proof. intros Hf Hm. eapply stands_elt; [apply NegateVal_stands; [by eapply elt_val|done]|]. rewrite of_int_opp. by destruct Hf as [_ ->]. Qed.
Lemma AddInt_elt m f x ui : elt m f x → 0 <= m <= 62 → 0 <= ui <= word_max → elt (m + 1) (AddInt f ui) (x + of_int ui)%F.
Proof. intros Hf Hm Hu. eapply stands_elt; [apply AddInt_stands; [by eapply elt_val|done..]|]. rewrite of_int_add. by destruct Hf as [_ ->]. Qed.
Lemma SetInt_elt ui : 0 <= ui <= word_max → elt 1 (SetInt ui) (of_int ui).
Proof. intros Hu. by apply elt_stands, SetInt_stands. Qed.

Lemma Normalize_nelt m f x : elt m f x → 0 <= m <= 63 → nelt (Normalize f) x.
Proof.
  intros [Hf <-] Hm. destruct (Normalize_spec m f Hf Hm) as [Hn Hv]. split; [done|]. apply of_int_eq. rewrite Hv. unfold eqp. by apply Z.mod_mod.
Qed.

Lemma nelt_elt f x : nelt f x → elt 1 f x.
Proof. intros [(Hw & H9 & _) E]. split; [|done]. split; [|lia]. eapply Forall_impl; [exact Hw|]. cbn. unfold word_max. lia. Qed.

Lemma normalized_range f : normalized f → 0 <= val f < fieldPrime.
Proof. intros Hf. split; [|apply Hf]. apply (val_range 1); [|done]. by apply (nelt_elt f (of_int (val f))). Qed.

Lemma Equals_nelt f g x y : nelt f x → nelt g y → Equals f g = bool_decide (x = y).
Proof.
  intros [Hf <-] [Hg <-]. rewrite Equals_val by done. apply bool_decide_ext. rewrite of_int_eq. unfold eqp. rewrite !Z.mod_small by by apply normalized_range. done.
Qed.

(** All words zero stand for zero, in normal form or not. *)
Lemma IsZero_zero f : IsZero f = true → val f = 0.
Proof.
  unfold IsZero. rewrite bool_decide_eq_true, or_all_zero. intros H. repeat (apply Forall_cons in H as [? H]). unfold val, words, eval. cbn. lia.
Qed.

Lemma IsZero_nelt f x : nelt f x → IsZero f = bool_decide (x = 0%F).
Proof.
  intros [Hf <-]. rewrite IsZero_val by done. apply bool_decide_ext. rewrite <- of_int_zero, of_int_eq. unfold eqp.
  rewrite Z.mod_small by by apply normalized_range. done.
Qed.

Lemma IsZero_nonzero m f x : elt m f x → x ≠ 0%F → IsZero f = false.
Proof. intros [_ <-] Hx. destruct (IsZero f) eqn:E; [|done]. apply IsZero_zero in E. by rewrite E in Hx. Qed.

(** [fe] finds the magnitude and the element that an expression stands for. *)
Ltac fe :=
  lazymatch goal with
  | H : elt _ ?f _ |- elt _ ?f _ => exact H
  | H : nelt ?f _ |- elt _ ?f _ => exact (nelt_elt _ _ H)
  | |- elt _ (Mul2 _ _) _ => eapply Mul2_elt; [fe|fe|lia|lia]
  | |- elt _ (Mul _ _) _ => eapply Mul2_elt; [fe|fe|lia|lia]
  | |- elt _ (SquareVal _) _ => eapply SquareVal_elt; [fe|lia]
  | |- elt _ (Square _) _ => eapply SquareVal_elt; [fe|lia]
  | |- elt _ (Add2 _ _) _ => eapply Add2_elt; [fe|fe|lia|lia|lia]
  | |- elt _ (Field_Add _ _) _ => eapply Add2_elt; [fe|fe|lia|lia|lia]
  | |- elt _ (MulInt _ _) _ => eapply MulInt_elt; [fe|lia|lia|lia]
  | |- elt _ (AddInt _ _) _ => eapply AddInt_elt; [fe|lia|by vm_compute]
  | |- elt _ (Negate _ ?m) _ => eapply (NegateVal_elt m); [fe_at m|lia]
  | |- elt _ (NegateVal _ ?m) _ => eapply (NegateVal_elt m); [fe_at m|lia]
  | |- elt _ (Normalize _) _ => eapply nelt_elt, Normalize_nelt; [fe|lia]
  | |- elt _ (SetInt _) _ => eapply SetInt_elt; by vm_compute
  end
(** The magnitude that a negation is told is a bound. *)
with fe_at m := eapply (elt_weaken _ m); [fe|lia].

(** Up to the rules of rings. *)
Ltac fe_as := eapply elt_weaken; [eapply elt_eq; [fe|ring]|lia].

(** [walk] goes through the assignments of a routine: each value stands for the element
    that its expression says. *)
Ltac walk1 :=
  lazymatch goal with
  | |- ?P (let x := Normalize ?e in @?b x) =>
      let h := fresh "h" in let Hh := fresh "Hh" in
      pose (h := Normalize e); change (P (b h)); cbv beta;
      eassert (nelt h _) as Hh by (eapply Normalize_nelt; [fe|lia]); clearbody h
  | |- ?P (let x := ?e in @?b x) =>
      let h := fresh "h" in let Hh := fresh "Hh" in
      pose (h := e); change (P (b h)); cbv beta;
      eassert (elt _ h _) as Hh by (unfold h; fe); clearbody h
  end.
Ltac walk := repeat walk1.

(** ** Jacobian points *)

(** The point that three field values stand for. *)
Definition rep (p : point) (j : jacobian) : Prop :=
  match p with
  | Some (x, y) => ∃ z : F, z ≠ 0%F ∧ elt 7 (jx j) (x * (z * z))%F ∧ elt 7 (jy j) (y * (z * z * z))%F ∧ elt 7 (jz j) z
  | None => magnitude 7 (jx j) ∧ magnitude 7 (jy j) ∧ magnitude 7 (jz j) ∧ ((IsZero (jx j) = true ∧ IsZero (jy j) = true) ∨ IsZero (jz j) = true)
  end.

Lemma infinity_rep : rep None infinity.
Proof.
  assert (magnitude 7 (SetInt 0)) by (eapply stands_weaken; [by apply SetInt_stands|lia]). split; [done|]. split; [done|]. split; [done|]. by left.
Qed.

(** Results in normal form stand for the point at infinity if z is zero, and for the
    quotients otherwise. *)
Lemma rep_result X Y Z x y z (p : point) :
  elt 7 X x → elt 7 Y y → nelt Z z →
  match p with Some (px, py) => z ≠ 0%F ∧ x = (px * (z * z))%F ∧ y = (py * (z * z * z))%F | None => z = 0%F end →
  rep p (Jac X Y Z).
Proof.
  intros HX HY HZ. assert (elt 7 Z z) as HZ7 by (apply (elt_weaken 1); [by apply nelt_elt|lia]). destruct p as [[px py]|]; cbn.
  - intros (Hz & -> & ->). by exists z.
  - intros ->. split; [apply HX|]. split; [apply HY|]. split; [apply HZ7|]. right. rewrite (IsZero_nelt _ _ HZ). by apply bool_decide_true.
Qed.

(** Where a point is not at infinity, neither test for it holds. *)
Lemma rep_finite x y j : rep (Some (x, y)) j → on_curve (Some (x, y)) → (IsZero (jx j) && IsZero (jy j)) || IsZero (jz j) = false ∧ IsZero (jy j) = false.
Proof.
  intros (z & Hz & Hx & Hy & Hzz) Hc. pose proof (y_nonzero _ _ Hc) as Hy0. rewrite (IsZero_nonzero _ _ _ Hzz) by done.
  rewrite (IsZero_nonzero _ _ _ Hy) by (by repeat apply F_mul_nonzero). by rewrite andb_false_r.
Qed.

Lemma rep_infinite j : rep None j → (IsZero (jx j) && IsZero (jy j)) || IsZero (jz j) = true.
Proof. intros (_ & _ & _ & [[-> ->]| ->]); [done|by rewrite orb_true_r]. Qed.

(** ** Doubling *)

Lemma nelt_one : nelt fieldOne 1%F.
Proof. by split; [repeat split; try apply Forall_cons; repeat constructor|]. Qed.

Lemma double_with_rep x y z x1 y1 z3 :
  on_curve (Some (x, y)) → z ≠ 0%F → elt 7 x1 (x * (z * z))%F → elt 7 y1 (y * (z * z * z))%F → elt 14 z3 (2 * (y * (z * z * z)) * z)%F →
  rep (pdouble (Some (x, y))) (double_with x1 y1 z3).
Proof.
  intros Hc Hz Hx1 Hy1 Hz3. cbv beta delta [double_with]. walk. pose proof (y_nonzero _ _ Hc) as Hy. pose proof two_nonzero as H2.
  rewrite pdouble_padd, padd_tangent by done. unfold chord.
  eapply rep_result; [eapply (elt_weaken 1); [fe|lia]|eapply (elt_weaken 1); [fe|lia]|eapply Normalize_nelt; [fe|lia]|].
  cbn in Hc. split; [by repeat apply F_mul_nonzero|]. split; field [Hc]; auto.
Qed.

Lemma doubleJacobian_rep p j : rep p j → on_curve p → rep (padd p p) (doubleJacobian j).
Proof.
  intros Hj Hc. unfold doubleJacobian. destruct p as [[x y]|].
  - destruct (rep_finite _ _ _ Hj Hc) as [H0 Hy0]. apply orb_false_elim in H0 as [_ Hz0]. rewrite Hy0, Hz0. cbv beta iota delta [orb].
    destruct Hj as (z & Hz & Hx1 & Hy1 & Hz1). pose proof (Normalize_nelt 7 _ _ Hz1 ltac:(lia)) as Hn.
    rewrite (Equals_nelt _ _ _ _ Hn nelt_one), <- pdouble_padd.
    case_bool_decide as E; unfold doubleZ1EqualsOne, doubleGeneric.
    + subst z. eapply double_with_rep; [done|exact Hz|done|done|]. fe_as.
    + eapply double_with_rep; [done|exact Hz|done|done|]. fe_as.
  - cbn [padd]. rewrite orb_comm. apply rep_infinite in Hj as H. destruct (IsZero (jz j)) eqn:Ez; [apply infinity_rep|].
    rewrite orb_false_r in H. apply andb_true_iff in H as [_ ->]. apply infinity_rep.
Qed.

(** ** Addition *)

Lemma rep_some X Y Z x y z px py :
  elt 1 X x → elt 1 Y y → elt 1 Z z → z ≠ 0%F → x = (px * (z * z))%F → y = (py * (z * z * z))%F → rep (Some (px, py)) (Jac X Y Z).
Proof. intros HX HY HZ Hz -> ->. exists z. split; [done|]. split; [|split]; by apply (elt_weaken 1). Qed.

(** The tests of the routines on coordinates with a common denominator decide the cases. *)
Lemma padd_cases x1 y1 x2 y2 (a b j : jacobian) :
  on_curve (Some (x1, y1)) → on_curve (Some (x2, y2)) → rep (padd (Some (x1, y1)) (Some (x1, y1))) a →
  (x1 ≠ x2 → rep (padd (Some (x1, y1)) (Some (x2, y2))) b) →
  rep (padd (Some (x1, y1)) (Some (x2, y2))) (if bool_decide (x1 = x2) then if bool_decide (y1 = y2) then a else infinity else b).
Proof.
  intros H1 H2 Ha Hb. case_bool_decide as Ex; [|by apply Hb]. subst x2. case_bool_decide as Ey; [by subst y2|].
  unfold padd. rewrite decide_True, decide_False by done. apply infinity_rep.
Qed.

Lemma scaled_eq (x y c : F) : c ≠ 0%F → bool_decide (x * c = y * c)%F = bool_decide (x = y).
Proof. intros Hc. apply bool_decide_ext. by apply F_cancel. Qed.

Lemma F_nonzero_eq (x y : F) : x = y → y ≠ 0%F → x ≠ 0%F.
Proof. by intros ->. Qed.

Lemma fst_if {A B} (b : bool) (p q : A * B) : (if b then p else q).1 = if b then p.1 else q.1.
Proof. by destruct b. Qed.

Section Add.
Context (x1 y1 x2 y2 : F) (H1 : on_curve (Some (x1, y1))) (H2 : on_curve (Some (x2, y2))).
Local Abbreviation sum := (padd (Some (x1, y1)) (Some (x2, y2))).

(** Points with one denominator, as the tests see them. *)
Lemma tests_common a b X1 X2 Y1 Y2 u1 u2 s1 s2 c d :
  nelt X1 u1 → nelt X2 u2 → nelt Y1 s1 → nelt Y2 s2 → u1 = (x1 * c)%F → u2 = (x2 * c)%F → s1 = (y1 * d)%F → s2 = (y2 * d)%F → c ≠ 0%F → d ≠ 0%F →
  rep (padd (Some (x1, y1)) (Some (x1, y1))) a → (x1 ≠ x2 → rep sum b) →
  rep sum (if Equals X1 X2 then if Equals Y1 Y2 then a else infinity else b).
Proof.
  intros HX1 HX2 HY1 HY2 -> -> -> -> Hc Hd Ha Hb. rewrite (Equals_nelt _ _ _ _ HX1 HX2), (Equals_nelt _ _ _ _ HY1 HY2), !scaled_eq by done.
  by apply padd_cases.
Qed.

Ltac nonzero x := apply (F_nonzero_eq _ x); [ring|by repeat apply F_mul_nonzero].

Lemma addGeneric_rep X1 Y1 Z1 X2 Y2 Z2 z1 z2 :
  z1 ≠ 0%F → z2 ≠ 0%F → elt 7 X1 (x1 * (z1 * z1))%F → elt 7 Y1 (y1 * (z1 * z1 * z1))%F → nelt Z1 z1 →
  elt 7 X2 (x2 * (z2 * z2))%F → elt 7 Y2 (y2 * (z2 * z2 * z2))%F → nelt Z2 z2 → rep sum (addGeneric X1 Y1 Z1 X2 Y2 Z2).
Proof.
  intros Hz1 Hz2 HX1 HY1 HZ1 HX2 HY2 HZ2. cbv beta delta [addGeneric]. walk. pose proof two_nonzero as Htwo.
  eapply (tests_common _ _ _ _ _ _ _ _ _ _ (z1 * z1 * z2 * z2)%F (z1 * z1 * z1 * z2 * z2 * z2)%F); [done|done|done|done|ring|ring|ring|ring|by repeat apply F_mul_nonzero..| |].
  - apply doubleJacobian_rep; [|done]. exists z1. split; [done|]. split; [done|]. split; [done|]. eapply (elt_weaken 1); [fe|lia].
  - intros Hx. walk. rewrite padd_chord by done. apply F_sub_nonzero in Hx.
    eapply rep_some; [fe|fe|fe|nonzero (2 * z1 * z2 * (z1 * z1 * z2 * z2) * (x2 - x1))%F|field; auto|field; auto].
Qed.

Lemma addZ2EqualsOne_rep X1 Y1 Z1 X2 Y2 z1 :
  z1 ≠ 0%F → elt 7 X1 (x1 * (z1 * z1))%F → elt 7 Y1 (y1 * (z1 * z1 * z1))%F → nelt Z1 z1 →
  elt 7 X2 x2 → elt 7 Y2 y2 → rep sum (addZ2EqualsOne X1 Y1 Z1 X2 Y2).
Proof.
  intros Hz1 HX1 HY1 HZ1 HX2 HY2. cbv beta delta [addZ2EqualsOne]. walk. pose proof two_nonzero as Htwo.
  eapply (tests_common _ _ _ _ _ _ _ _ _ _ (z1 * z1)%F (z1 * z1 * z1)%F); [done|done|done|done|ring|ring|ring|ring|by repeat apply F_mul_nonzero..| |].
  - apply doubleJacobian_rep; [|done]. exists z1. split; [done|]. split; [|split]; (eapply (elt_weaken 1); [fe|lia]).
  - intros Hx. walk. rewrite padd_chord by done. apply F_sub_nonzero in Hx.
    eapply rep_some; [fe|fe|fe|nonzero (2 * z1 * (z1 * z1) * (x2 - x1))%F|field; auto|field; auto].
Qed.

(** For the routines that return more than the sum. *)
Ltac first_walk f :=
  let P := fresh in pose (P := λ r : jacobian * (fieldVal * fieldVal), rep sum r.1);
  lazymatch goal with |- rep _ (fst ?x) => change (P x) end;
  try (cbv beta delta [f]); walk; cbv beta delta [P]; clear P.

Lemma addZ1EqualsZ2_rep X1 Y1 Z1 X2 Y2 z :
  z ≠ 0%F → elt 7 X1 (x1 * (z * z))%F → elt 7 Y1 (y1 * (z * z * z))%F → nelt Z1 z →
  elt 7 X2 (x2 * (z * z))%F → elt 7 Y2 (y2 * (z * z * z))%F → rep sum (addZ1EqualsZ2 X1 Y1 Z1 X2 Y2).1.
Proof.
  intros Hz HX1 HY1 HZ1 HX2 HY2. first_walk addZ1EqualsZ2. pose proof two_nonzero as Htwo. rewrite !fst_if.
  eapply (tests_common _ _ _ _ _ _ _ _ _ _ (z * z)%F (z * z * z)%F); [done|done|done|done|ring|ring|ring|ring|by repeat apply F_mul_nonzero..| |].
  - apply doubleJacobian_rep; [|done]. exists z. split; [done|]. split; [|split]; (eapply (elt_weaken 1); [fe|lia]).
  - intros Hx. first_walk I. rewrite padd_chord by done. apply F_sub_nonzero in Hx.
    eapply rep_some; [fe|fe|fe|nonzero (z * (z * z) * (x2 - x1))%F|field; auto|field; auto].
Qed.

Lemma addZ1AndZ2EqualsOne_rep X1 Y1 Z1 X2 Y2 :
  elt 7 X1 x1 → elt 7 Y1 y1 → nelt Z1 1%F → elt 7 X2 x2 → elt 7 Y2 y2 → rep sum (addZ1AndZ2EqualsOne X1 Y1 Z1 X2 Y2).1.
Proof.
  intros HX1 HY1 HZ1 HX2 HY2. first_walk addZ1AndZ2EqualsOne. pose proof two_nonzero as Htwo. rewrite !fst_if.
  assert (1 ≠ 0)%F as Hone by apply (F_1_neq_0 F_field).
  eapply (tests_common _ _ _ _ _ _ _ _ _ _ 1%F 1%F); [done|done|done|done|ring|ring|ring|ring|done|done| |].
  - apply doubleJacobian_rep; [|done]. exists 1%F. split; [done|]. split; [|split]; fe_as.
  - intros Hx. first_walk I. rewrite padd_chord by done. apply F_sub_nonzero in Hx.
    eapply rep_some; [fe|fe|fe|nonzero (2 * (x2 - x1))%F|field; auto|field; auto].
Qed.
End Add.

(** [j'] has the values of [j]: only the words may have been normalized. *)
Definition same_values (j j' : jacobian) : Prop :=
  (∀ x, elt 7 (jx j) x → elt 7 (jx j') x) ∧ (∀ x, elt 7 (jy j) x → elt 7 (jy j') x) ∧ (∀ x, elt 7 (jz j) x → elt 7 (jz j') x).

Lemma same_values_refl j : same_values j j.
Proof. done. Qed.

Lemma Normalize_seven f x : elt 7 f x → elt 7 (Normalize f) x.
Proof. intros Hf. apply (elt_weaken 1); [|lia]. apply nelt_elt. by apply (Normalize_nelt 7). Qed.

Lemma addZ1AndZ2EqualsOne_second X1 Y1 Z1 X2 Y2 : (addZ1AndZ2EqualsOne X1 Y1 Z1 X2 Y2).2 = (Normalize X2, Normalize Y2).
Proof. unfold addZ1AndZ2EqualsOne. by repeat case_match. Qed.
Lemma addZ1EqualsZ2_second X1 Y1 Z1 X2 Y2 : (addZ1EqualsZ2 X1 Y1 Z1 X2 Y2).2 = (Normalize X2, Normalize Y2).
Proof. unfold addZ1EqualsZ2. by repeat case_match. Qed.

Lemma addJacobian_second j1 j2 : same_values j2 (addJacobian j1 j2).2.
Proof.
  unfold addJacobian. destruct (_ || _); [apply same_values_refl|]. destruct (_ || _); [apply same_values_refl|]. cbv zeta.
  pose proof (addZ1AndZ2EqualsOne_second (jx j1) (jy j1) (Normalize (jz j1)) (jx j2) (jy j2)) as Ha.
  pose proof (addZ1EqualsZ2_second (jx j1) (jy j1) (Normalize (jz j1)) (jx j2) (jy j2)) as Hb.
  destruct (addZ1AndZ2EqualsOne _ _ _ _ _) as [? [? ?]], (addZ1EqualsZ2 _ _ _ _ _) as [? [? ?]]. cbn [snd] in Ha, Hb.
  apply pair_equal_spec in Ha as [-> ->], Hb as [-> ->].
  repeat case_match; (split; [|split]; cbn [jx jy jz snd]; auto using Normalize_seven).
Qed.

Lemma addJacobian_rep p1 p2 j1 j2 : rep p1 j1 → rep p2 j2 → on_curve p1 → on_curve p2 → rep (padd p1 p2) (addJacobian j1 j2).1.
Proof.
  intros H1 H2 C1 C2. unfold addJacobian. destruct p1 as [[x1 y1]|]; [|by rewrite rep_infinite]. destruct (rep_finite _ _ _ H1 C1) as [-> _].
  destruct p2 as [[x2 y2]|]; [|by rewrite rep_infinite]. destruct (rep_finite _ _ _ H2 C2) as [-> _]. cbv zeta.
  destruct H1 as (z1 & Hz1 & HX1 & HY1 & HZ1), H2 as (z2 & Hz2 & HX2 & HY2 & HZ2).
  pose proof (Normalize_nelt _ _ _ HZ1 ltac:(lia)) as N1. pose proof (Normalize_nelt _ _ _ HZ2 ltac:(lia)) as N2.
  rewrite (Equals_nelt _ _ _ _ N1 nelt_one), (Equals_nelt _ _ _ _ N2 nelt_one), (Equals_nelt _ _ _ _ N1 N2).
  case_bool_decide as E1; case_bool_decide as E2; cbn [andb].
  - subst z1 z2. pose proof (addZ1AndZ2EqualsOne_rep x1 y1 x2 y2 C1 C2 (jx j1) (jy j1) (Normalize (jz j1)) (jx j2) (jy j2)) as H.
    destruct (addZ1AndZ2EqualsOne _ _ _ _ _) as [? [? ?]]. apply H; [fe_as|fe_as|done|fe_as|fe_as].
  - rewrite bool_decide_false by congruence. by apply (addGeneric_rep x1 y1 x2 y2 C1 C2 _ _ _ _ _ _ z1 z2).
  - rewrite bool_decide_false by congruence. subst z2. apply (addZ2EqualsOne_rep x1 y1 x2 y2 C1 C2 _ _ _ _ _ z1); [done..|fe_as|fe_as].
  - case_bool_decide as E; [subst z2|by apply (addGeneric_rep x1 y1 x2 y2 C1 C2 _ _ _ _ _ _ z1 z2)].
    pose proof (addZ1EqualsZ2_rep x1 y1 x2 y2 C1 C2 (jx j1) (jy j1) (Normalize (jz j1)) (jx j2) (jy j2) z1) as H.
    destruct (addZ1EqualsZ2 _ _ _ _ _) as [? [? ?]]. by apply H.
Qed.

(** ** Big integers *)

(** A point as the package passes it: the point at infinity is (0, 0). *)
Definition to_big (p : point) : Z * Z := match p with Some (x, y) => (Zmod.to_Z x, Zmod.to_Z y) | None => (0, 0) end.

Lemma to_Z_range (x : F) : 0 <= Zmod.to_Z x < fieldPrime.
Proof. by apply Zmod.to_Z_pos_bound. Qed.

Lemma of_int_to_Z (x : F) : of_int (Zmod.to_Z x) = x.
Proof. apply Zmod.of_Z_to_Z. Qed.

Lemma to_Z_zero (x : F) : Zmod.to_Z x = 0 ↔ x = 0%F.
Proof. rewrite <- (Zmod.to_Z_inj_iff x 0%F). by rewrite Zmod.to_Z_0. Qed.

Lemma nelt_Bytes f x : nelt f x → be_val (Bytes f) = Zmod.to_Z x.
Proof.
  intros [Hf <-]. pose proof (normalized_range _ Hf) as Hr. destruct Hf as (Hw & H9 & Hp). unfold Bytes, of_int. destruct (PutBytes_spec f Hw H9) as [_ ->].
  by rewrite Zmod.to_Z_of_Z, Z.mod_small.
Qed.

Lemma Inverse_elt m f x : elt m f x → 0 <= m <= 8 → elt 1 (Inverse f) (/ x)%F.
Proof.
  intros Hf Hm. eapply stands_elt; [apply Inverse_stands; eapply stands_weaken; [by eapply elt_val|done]|]. destruct Hf as [_ E].
  unfold of_int in *. rewrite Zmod.of_Z_pow, E by done. destruct (decide (x = 0%F)) as [->|Hx].
  - by rewrite Zmod.inv_0, Zmod.pow_0_l.
  - by apply Zmod.fermat_inv, fieldPrime_prime.
Qed.

Lemma big_Bytes_length z n : 0 <= z < 256 ^ Z.of_nat n → (length (big_Bytes z) <= n)%nat.
Proof.
  intros Hz. unfold big_Bytes. rewrite be_bytes_length. unfold byte_count. case_bool_decide as E; [lia|]. rewrite Z.abs_eq by lia.
  assert (Z.log2 z < 8 * Z.of_nat n) as H by (apply Z.log2_lt_pow2; [lia|]; rewrite Z.pow_mul_r by lia; apply Hz).
  Z.div_mod_to_equations. lia.
Qed.

Lemma SetByteSlice_elt b : (length b <= 32)%nat → ∃ f, SetByteSlice b = Ret f ∧ elt 1 f (of_int (be_val b)).
Proof.
  intros Hl. unfold SetByteSlice. rewrite bool_decide_false by lia. eexists. split; [done|].
  destruct (SetBytes_spec (zeros (32 - length b) ++ b)) as (Hw & H9 & Hv); [rewrite length_app, length_zeros; lia|]. rewrite be_val_zeros in Hv. rewrite <- Hv.
  apply elt_stands. split; [|done]. split; [|lia]. eapply Forall_impl; [exact Hw|]. cbn. unfold word_max. lia.
Qed.

Lemma bigAffineToField_elt (x y : F) : ∃ fx fy, bigAffineToField (Zmod.to_Z x) (Zmod.to_Z y) = Ret (fx, fy) ∧ elt 1 fx x ∧ elt 1 fy y.
Proof.
  assert (∀ x : F, ∃ f, SetByteSlice (big_Bytes (Zmod.to_Z x)) = Ret f ∧ elt 1 f x) as H.
  { intros z. pose proof (to_Z_range z) as Hz. destruct (SetByteSlice_elt (big_Bytes (Zmod.to_Z z))) as (f & -> & Hf).
    - apply big_Bytes_length. split; [lia|]. etrans; [apply Hz|by vm_compute].
    - exists f. split; [done|]. by rewrite big_Bytes_be, of_int_to_Z in Hf by lia. }
  destruct (H x) as (fx & Ex & Hx), (H y) as (fy & Ey & Hy). exists fx, fy. unfold bigAffineToField. by rewrite Ex, Ey.
Qed.

Lemma affine_rep (x y : F) fx fy : elt 1 fx x → elt 1 fy y → rep (Some (x, y)) (Jac fx fy (SetInt 1)).
Proof.
  intros Hx Hy. exists 1%F. split; [apply (F_1_neq_0 F_field)|]. split; [|split]; cbn [jx jy jz]; [fe_as|fe_as|].
  apply (elt_weaken 1); [by apply (SetInt_elt 1)|lia].
Qed.

Lemma fieldJacobianToBigAffine_rep p j : rep p j → fieldJacobianToBigAffine j = to_big p.
Proof.
  intros Hj. assert (∃ x y z, elt 7 (jx j) x ∧ elt 7 (jy j) y ∧ elt 7 (jz j) z ∧
    to_big p = (Zmod.to_Z (x * (/ z * / z))%F, Zmod.to_Z (y * (/ z * / z * / z))%F)) as (x & y & z & Hx & Hy & Hz & ->).
  { destruct p as [[x y]|].
    - destruct Hj as (z & Hz & Hx & Hy & Hzz). eexists _, _, _. split; [exact Hx|]. split; [exact Hy|]. split; [exact Hzz|]. cbn [to_big]. apply (f_equal2 pair); apply f_equal; field; done.
    - destruct Hj as (Hx & Hy & Hz & H0). exists (of_int (val (jx j))), (of_int (val (jy j))), (of_int (val (jz j))). split; [done|]. split; [done|]. split; [done|].
      assert (∀ a : F, (0 * a)%F = 0%F) as Hl by (intros; ring). assert (∀ a : F, (a * 0)%F = 0%F) as Hr by (intros; ring).
      cbn [to_big]. destruct H0 as [[E1 E2]|E].
      + apply IsZero_zero in E1, E2. by rewrite E1, E2, of_int_zero, !Hl.
      + apply IsZero_zero in E. by rewrite E, of_int_zero, Zmod.inv_0, !Hr. }
  pose proof (Inverse_elt _ _ _ Hz ltac:(lia)) as Hi. unfold fieldJacobianToBigAffine. do 2 f_equal.
  - apply nelt_Bytes. eapply Normalize_nelt; [fe|lia].
  - apply nelt_Bytes. eapply Normalize_nelt; [fe|lia].
Qed.

Lemma to_big_infinity p : on_curve p → bool_decide ((to_big p).1 = 0) && bool_decide ((to_big p).2 = 0) = bool_decide (p = None).
Proof.
  destruct p as [[x y]|]; [|done]. intros Hy%y_nonzero. cbn [to_big fst snd]. rewrite (bool_decide_false (Zmod.to_Z y = 0)); [by rewrite andb_false_r|].
  by rewrite to_Z_zero.
Qed.

Lemma Curve_Add_correct p q : on_curve p → on_curve q → Curve_Add (to_big p).1 (to_big p).2 (to_big q).1 (to_big q).2 = Ret (to_big (padd p q)).
Proof.
  intros Hp Hq. unfold Curve_Add. rewrite !to_big_infinity by done. destruct p as [[x1 y1]|]; [|by destruct q as [[]|]]. destruct q as [[x2 y2]|]; [|done].
  rewrite !bool_decide_false by done. cbn [to_big fst snd]. destruct (bigAffineToField_elt x1 y1) as (fx1 & fy1 & -> & Hx1 & Hy1).
  destruct (bigAffineToField_elt x2 y2) as (fx2 & fy2 & -> & Hx2 & Hy2). cbn [mbind outcome_bind]. unfold mret, outcome_ret. f_equal.
  apply fieldJacobianToBigAffine_rep, addJacobian_rep; auto using affine_rep.
Qed.

Lemma Curve_Double_correct p : on_curve p → Curve_Double (to_big p).1 (to_big p).2 = Ret (to_big (padd p p)).
Proof.
  intros Hp. unfold Curve_Double. destruct p as [[x y]|]; [|done]. cbn [to_big fst snd]. rewrite bool_decide_false by (rewrite to_Z_zero; by apply (y_nonzero x)).
  destruct (bigAffineToField_elt x y) as (fx & fy & -> & Hx & Hy). cbn [mbind outcome_bind]. unfold mret, outcome_ret. f_equal.
  apply fieldJacobianToBigAffine_rep, doubleJacobian_rep; auto using affine_rep.
Qed.

Lemma IsOnCurve_correct (x y : F) : IsOnCurve (Zmod.to_Z x) (Zmod.to_Z y) = Ret (bool_decide (y * y = x * x * x + 7)%F).
Proof.
  unfold IsOnCurve. destruct (bigAffineToField_elt x y) as (fx & fy & -> & Hx & Hy). cbn [mbind outcome_bind]. unfold mret, outcome_ret. f_equal.
  apply Equals_nelt; (eapply Normalize_nelt; [fe|lia]).
Qed.

(** C30. Points of secp256k1 form a commutative group and the package computes in it. For
    points of the curve, with (0, 0) for the point at infinity, [Add] and [Double], which
    go through Jacobian coordinates on ten-word field values with three shortcuts for
    equal and unit denominators, return the sum by the chord and tangent rule; the sum is
    again on the curve, and addition is commutative and associative with the point at
    infinity as the neutral element and mirrored points as inverses.  [IsOnCurve] decides
    the equation of the curve.  The formulas are right for all Jacobian coordinates of the
    points, whatever their denominators (magnitudes up to 7), not only for those that [Add]
    and [Double] call them with: [addJacobian] gives coordinates of the sum, [doubleJacobian]
    of the double, and [fieldJacobianToBigAffine] gives back the point. *)
Theorem curve_group p q r (Hp : on_curve p) (Hq : on_curve q) (Hr : on_curve r) :
  Curve_Add (to_big p).1 (to_big p).2 (to_big q).1 (to_big q).2 = Ret (to_big (padd p q)) ∧
  Curve_Double (to_big p).1 (to_big p).2 = Ret (to_big (padd p p)) ∧
  on_curve (padd p q) ∧ padd p q = padd q p ∧ padd (padd p q) r = padd p (padd q r) ∧ padd p None = p ∧ padd p (popp p) = None ∧
  (∀ x y : F, IsOnCurve (Zmod.to_Z x) (Zmod.to_Z y) = Ret true ↔ on_curve (Some (x, y))) ∧
  (∀ j1 j2, rep p j1 → rep q j2 →
    rep (padd p q) (addJacobian j1 j2).1 ∧ rep (padd p p) (doubleJacobian j1) ∧ fieldJacobianToBigAffine j1 = to_big p).
Proof.
  split; [by apply Curve_Add_correct|]. split; [by apply Curve_Double_correct|]. split; [by apply padd_on_curve|]. split; [by apply padd_comm|].
  split; [by apply padd_assoc|]. split; [apply padd_none_r|]. split; [by apply padd_popp|]. split.
  - intros x y. rewrite IsOnCurve_correct. cbn [on_curve].
    split; [intros [= E]; by apply bool_decide_eq_true in E|intros E; by rewrite bool_decide_true].
  - intros j1 j2 H1 H2. split; [by apply addJacobian_rep|]. split; [by apply doubleJacobian_rep|by apply fieldJacobianToBigAffine_rep].
Qed.

(** The base point. *)
Definition base_point : point := Some (of_int curve_Gx, of_int curve_Gy).

Lemma base_on_curve : on_curve base_point.
Proof. apply Zmod.to_Z_inj. vm_compute. reflexivity. Qed.

Lemma curve_group_witness :
  Curve_Add curve_Gx curve_Gy curve_Gx (curve_P - curve_Gy) = Ret (0, 0) ∧
  Curve_Add curve_Gx curve_Gy curve_Gx curve_Gy = Curve_Double curve_Gx curve_Gy.
Proof.
  destruct (curve_group base_point (popp base_point) None base_on_curve (popp_on_curve _ base_on_curve) I) as (Ha & _ & _ & _ & _ & _ & Hn & _).
  destruct (curve_group base_point base_point None base_on_curve base_on_curve I) as (Hs & Hd & _).
  assert (to_big base_point = (curve_Gx, curve_Gy)) as E by (vm_compute; reflexivity).
  assert (to_big (popp base_point) = (curve_Gx, curve_P - curve_Gy)) as E' by (vm_compute; reflexivity).
  rewrite Hn, E, E' in Ha. rewrite <- Hs, E in Hd. split; [exact Ha|exact (eq_sym Hd)].
Defined.
