(* ===== verification/Multiples.v ===== *)
(** * Multiples of points, the endomorphism and the order of the base point *)

From Stdlib Require Import ZArith Lia Zdivisibility Zmod Field.
From S2P Require Import Prelude Buffers Field FieldTheorems PrimeField GroupLaw Der Curve CurveTheorems.

Local Open Scope Z_scope.

(** ** Multiples *)

Definition nmul (n : nat) (p : point) : point := Nat.iter n (padd p) None.

Definition smul (k : Z) (p : point) : point := if bool_decide (k < 0) then popp (nmul (Z.to_nat (- k)) p) else nmul (Z.to_nat k) p.

Lemma nmul_S n p : nmul (S n) p = padd p (nmul n p).
Proof. done. Qed.

Lemma nmul_on_curve n p : on_curve p → on_curve (nmul n p).
Proof. intros Hp. induction n as [|n IH]; [done|]. cbn. by apply padd_on_curve. Qed.

Lemma smul_on_curve k p : on_curve p → on_curve (smul k p).
Proof. intros Hp. unfold smul. case_bool_decide; auto using nmul_on_curve, popp_on_curve. Qed.
#[export] Hint Resolve nmul_on_curve smul_on_curve : curve.

Lemma smul_0 p : smul 0 p = None.
Proof. done. Qed.

Lemma smul_succ k p : on_curve p → smul (k + 1) p = padd p (smul k p).
Proof.
  intros Hp. unfold smul. destruct (decide (0 <= k)).
  - rewrite !bool_decide_false by lia. by replace (Z.to_nat (k + 1)) with (S (Z.to_nat k)) by lia.
  - rewrite (bool_decide_true (k < 0)) by lia. replace (Z.to_nat (- k)) with (S (Z.to_nat (- (k + 1)))) by lia.
    rewrite nmul_S, popp_padd, <- padd_assoc, padd_popp by auto with curve. cbn [padd].
    case_bool_decide; [done|]. assert (k = -1) as -> by lia. done.
Qed.

Lemma smul_1 p : on_curve p → smul 1 p = p.
Proof. intros Hp. change 1 with (0 + 1). rewrite smul_succ by done. by rewrite smul_0, padd_none_r. Qed.

Lemma smul_pred k p : on_curve p → smul (k - 1) p = padd (popp p) (smul k p).
Proof.
  intros Hp. replace k with ((k - 1) + 1) at 2 by lia. rewrite smul_succ, <- padd_assoc, (padd_comm (popp p)), padd_popp by auto with curve. done.
Qed.

Lemma smul_add a b p : on_curve p → smul (a + b) p = padd (smul a p) (smul b p).
Proof.
  intros Hp. revert a. apply Z.bi_induction; [by intros ? ? ->| |].
  - by rewrite smul_0.
  - intros a. replace (Z.succ a + b) with (a + b + 1) by lia. replace (Z.succ a) with (a + 1) by lia. rewrite !smul_succ, padd_assoc by auto with curve.
    split; [by intros ->|]. intros E. by apply padd_cancel in E; auto with curve.
Qed.

Lemma smul_opp k p : on_curve p → smul (- k) p = popp (smul k p).
Proof.
  intros Hp. apply (padd_cancel (smul k p)); [by auto with curve..|]. rewrite <- smul_add, padd_popp by auto with curve. by replace (k + - k) with 0 by lia.
Qed.

Lemma smul_none k : smul k None = None.
Proof. apply (Z.bi_induction (λ k, smul k None = None)); [by intros ? ? ->|done|]. intros a. change (Z.succ a) with (Z.succ a). rewrite <- Z.add_1_r, smul_succ by done. done. Qed.

Lemma smul_padd k p q : on_curve p → on_curve q → smul k (padd p q) = padd (smul k p) (smul k q).
Proof.
  intros Hp Hq. revert k. apply Z.bi_induction; [by intros ? ? ->|done|]. intros k. rewrite <- Z.add_1_r, !smul_succ by auto with curve.
  assert (padd (padd p (smul k p)) (padd q (smul k q)) = padd (padd p q) (padd (smul k p) (smul k q))) as ->.
  { rewrite !padd_assoc by auto with curve. f_equal. rewrite <- !padd_assoc by auto with curve. f_equal. by apply padd_comm; auto with curve. }
  split; [by intros ->|]. intros E. by apply padd_cancel in E; auto with curve.
Qed.

Lemma smul_smul a b p : on_curve p → smul a (smul b p) = smul (a * b) p.
Proof.
  intros Hp. revert a. apply Z.bi_induction; [by intros ? ? ->|done|]. intros a. rewrite <- Z.add_1_r, smul_succ, Z.mul_add_distr_r, Z.mul_1_l, Z.add_comm, smul_add by auto with curve.
  split; [by intros ->|]. intros E. by apply padd_cancel in E; auto with curve.
Qed.

Lemma smul_popp k p : on_curve p → smul k (popp p) = smul (- k) p.
Proof. intros Hp. rewrite <- (smul_1 p) at 1 by done. rewrite <- smul_opp, smul_smul by done. f_equal. lia. Qed.

(** ** The endomorphism *)

Definition beta : F := of_int 0x7AE96A2B657C07106E64479EAC3434E99CF0497512F58995C1396C28719501EE.

Lemma beta_roots : (beta * beta + beta + 1 = 0)%F.
Proof. apply Zmod.to_Z_inj. vm_compute. reflexivity. Qed.

Lemma beta_cube : (beta * beta * beta = 1)%F.
Proof. transitivity ((beta - 1) * (beta * beta + beta + 1) + 1)%F; [ring|]. rewrite beta_roots. ring. Qed.

#[local] Opaque beta.

Definition phi (p : point) : point := match p with Some (x, y) => Some ((beta * x)%F, y) | None => None end.

Lemma phi_on_curve p : on_curve p → on_curve (phi p).
Proof. destruct p as [[x y]|]; [|done]. cbn. intros ->. transitivity ((beta * beta * beta) * (x * x * x) + 7)%F; [|ring]. rewrite beta_cube. ring. Qed.
#[export] Hint Resolve phi_on_curve : curve.

Lemma beta_nonzero : (beta ≠ 0)%F.
Proof. intros E. pose proof beta_cube as H. rewrite E in H. apply (F_1_neq_0 F_field). rewrite <- H. ring. Qed.

Lemma phi_padd p q : phi (padd p q) = padd (phi p) (phi q).
Proof.
  destruct p as [[x1 y1]|], q as [[x2 y2]|]; [|done..]. cbn [phi]. unfold padd. pose proof beta_nonzero as Hb. pose proof two_nonzero as H2. pose proof beta_cube as H3.
  destruct (decide (x1 = x2)) as [->|Hx].
  - rewrite (decide_True (P := (beta * x2 = beta * x2)%F)) by reflexivity. destruct (decide (y1 = y2)) as [->|]; [|done]. unfold pdouble. destruct (decide (y2 = 0%F)) as [|Hy]; [done|].
    unfold chord. cbn [phi]. do 2 f_equal; field [H3]; auto.
  - rewrite decide_False. 2: { intros E. apply Hx. apply (F_cancel _ _ beta); [done|]. transitivity (beta * x1)%F; [ring|]. rewrite E. ring. }
    apply F_sub_nonzero in Hx. assert (beta * x2 - beta * x1 ≠ 0)%F. { apply (F_nonzero_eq _ (beta * (x2 - x1))%F); [ring|by apply F_mul_nonzero]. }
    unfold chord. cbn [phi]. do 2 f_equal; field [H3]; auto.
Qed.

Lemma phi_popp p : phi (popp p) = popp (phi p).
Proof. by destruct p as [[x y]|]. Qed.

Lemma phi_smul k p : on_curve p → phi (smul k p) = smul k (phi p).
Proof.
  intros Hp. revert k. apply Z.bi_induction; [by intros ? ? ->|done|]. intros k. rewrite <- Z.add_1_r, !smul_succ, phi_padd by auto with curve.
  split; [by intros ->|]. intros E. by apply padd_cancel in E; auto with curve.
Qed.

Lemma phi_cube p : phi (phi (phi p)) = p.
Proof. destruct p as [[x y]|]; [|done]. cbn. do 2 f_equal. transitivity (beta * beta * beta * x)%F; [ring|]. rewrite beta_cube. ring. Qed.

(** The three images of a point lie on a horizontal line. *)
Lemma phi_sum p : on_curve p → padd p (phi p) = popp (phi (phi p)).
Proof.
  destruct p as [[x y]|]; [|done]. intros Hc. pose proof (y_nonzero _ _ Hc) as Hy. pose proof two_nonzero as H2. pose proof beta_roots as Hb. cbn [phi popp].
  destruct (decide (x = 0%F)) as [->|Hx].
  - replace (beta * 0)%F with 0%F by ring. rewrite padd_tangent by done. unfold chord. do 2 f_equal; field; auto.
  - assert (beta * x - x ≠ 0)%F as Hd.
    { apply (F_nonzero_eq _ ((beta - 1) * x)%F); [ring|]. apply F_mul_nonzero; [|done]. intros E%F_sub_zero. rewrite E in Hb. clear -Hb.
      assert (of_int 3 = of_int 0) as E. { rewrite of_int_zero, <- Hb. ring. } by apply of_int_eq in E. }
    rewrite padd_chord. 2: { intros E. apply Hd. rewrite <- E. ring. } unfold chord.
    assert ((y - y) / (beta * x - x) = 0)%F as -> by (field; done). apply f_equal, (f_equal2 pair); [|ring].
    transitivity (beta * (beta * x) - (beta * beta + beta + 1) * x)%F; [ring|rewrite Hb; ring].
Qed.

(** ** The order of the base point

    The vector (a1, b1) of the package is a relation between the base point G and its
    image: a1 G + b1 phi(G) = O.  The kernel checks it by 128 doublings and 62 additions
    on residues.  With 1 + phi + phi^2 = 0 it gives the other vector, and the determinant
    of both is N: so N G = O, and phi(G) is the multiple of G by lambda. *)

Local Abbreviation red := fieldPrime_fold.

Lemma of_int_red z : of_int (red z) = of_int z.
Proof. apply of_int_eq, fieldPrime_fold_keeps. Qed.

(** Jacobian points as residues, and an affine point. *)
Definition zdouble (j : Z * Z * Z) : Z * Z * Z :=
  let '(x, y, z) := j in
  let a := red (x * x) in
  let b := red (y * y) in
  let d := red (4 * x * b) in
  let e := 3 * a in
  let x3 := red (e * e - 2 * d) in
  (x3, red (e * (d - x3) - 8 * red (b * b)), red (2 * y * z)).

Definition zadd (j : Z * Z * Z) (q : Z * Z) : Z * Z * Z :=
  let '(x, y, z) := j in
  let zz := red (z * z) in
  let h := red (q.1 * zz) - x in
  let r := red (red (q.2 * z) * zz) - y in
  let hh := red (h * h) in
  let hhh := red (h * hh) in
  let v := red (x * hh) in
  let x3 := red (r * r - hhh - 2 * v) in
  (x3, red (r * (v - x3) - red (y * hhh)), red (z * h)).

(** What a triple stands for as long as z has not become zero. *)
Definition zrep (p : point) (j : Z * Z * Z) : Prop :=
  let '(x, y, z) := j in of_int z ≠ 0%F →
  ∃ px py, p = Some (px, py) ∧ of_int x = (px * (of_int z * of_int z))%F ∧ of_int y = (py * (of_int z * of_int z * of_int z))%F.

Lemma of_int_sub a b : of_int (a - b) = (of_int a - of_int b)%F.
Proof. apply Zmod.of_Z_sub. Qed.

Create Rewrite HintDb of_int.
#[local] Hint Rewrite of_int_red of_int_mul of_int_sub : of_int.

Lemma zdouble_rep p j : on_curve p → zrep p j → zrep (padd p p) (zdouble j).
Proof.
  destruct j as [[x y] z]. intros Hp Hj. unfold zdouble, zrep in *. cbv zeta. autorewrite with of_int. intros Hz.
  assert (of_int z ≠ 0%F) as Hz0. { intros E. apply Hz. rewrite E. ring. }
  destruct (Hj Hz0) as (px & py & -> & Hx & Hy). pose proof (y_nonzero _ _ Hp). pose proof two_nonzero. rewrite padd_tangent by done. unfold chord.
  eexists _, _. split; [reflexivity|]. rewrite Hx, Hy.
  split; field; auto.
Qed.

Lemma zadd_rep p j q : on_curve p → on_curve (Some (of_int q.1, of_int q.2)) → zrep p j → zrep (padd p (Some (of_int q.1, of_int q.2))) (zadd j q).
Proof.
  destruct j as [[x y] z], q as [qx qy]. cbn [fst snd]. intros Hp Hq Hj. unfold zadd, zrep in *. cbv zeta. cbn [fst snd].
  autorewrite with of_int. intros Hz.
  assert (of_int z ≠ 0%F) as Hz0. { intros E. apply Hz. rewrite E. ring. }
  destruct (Hj Hz0) as (px & py & -> & Hx & Hy). rewrite Hx in Hz. assert (px ≠ of_int qx) as Hne. { intros E. apply Hz. rewrite E. ring. }
  rewrite padd_chord by done. apply F_sub_nonzero in Hne. unfold chord. eexists _, _. split; [reflexivity|].
  rewrite Hx, Hy.
  split; field; auto.
Qed.

(** Digits: multiples of G and of -phi(G), by a table of affine points. *)
Definition relation_digits : list Z :=
  [0; 0; 7; 1; 0; 3; 0; 0; 1; 3; 0; 0; 0; 5; 1; 0; 7; 1; 0; 1; 0; 0; 1; 4; 0; 0; 7; 0; 4; 0; 7; 0; 2; 0; 1; 0; 1; 0; 0; 3; 0; 2; 0; 5; 0; 1; 4; 0; 5; 0;
    2; 0; 5; 1; 0; 0; 0; 8; 0; 7; 4; 0; 2; 0; 3; 0; 0; 6; 2; 0; 0; 0; 7; 4; 0; 8; 0; 8; 0; 0; 5; 0; 0; 1; 0; 0; 0; 1; 4; 0; 8; 0; 3; 1; 0; 3; 1; 0; 0; 1;
    3; 0; 5; 0; 5; 3; 0; 0; 0; 1; 0; 1; 0; 0; 4; 2; 0; 8; 0; 8; 0; 4; 0; 1; 0; 5; 0].

Definition image : point := popp (phi base_point).

(** The coefficients of a digit and the coordinates of its point. *)
Definition digit (d : Z) : Z * Z * (Z * Z) :=
  let p1 := (curve_Gx, curve_Gy) in
  let p2 := to_big image in
  let sum := (66837770201594535779099350687042404727408598709762866365333192677982385899440,
              100652675408719987021357910538015346127426077519185866739835120963490438734674) in
  let diff := to_big (popp (phi (phi base_point))) in
  let neg q := (q.1, - q.2) in
  if bool_decide (d = 1) then (1, 0, p1) else if bool_decide (d = 2) then (-1, 0, neg p1)
  else if bool_decide (d = 3) then (0, 1, p2) else if bool_decide (d = 4) then (0, -1, neg p2)
  else if bool_decide (d = 5) then (1, 1, sum) else if bool_decide (d = 6) then (-1, -1, neg sum)
  else if bool_decide (d = 7) then (1, -1, diff) else (-1, 1, neg diff).

Definition combine (a b : Z) : point := padd (smul a base_point) (smul b image).

Lemma image_on_curve : on_curve image.
Proof. apply popp_on_curve, phi_on_curve, base_on_curve. Qed.
#[local] Hint Extern 0 (on_curve base_point) => exact base_on_curve : curve.
#[local] Hint Extern 0 (on_curve image) => exact image_on_curve : curve.
Lemma image_eq : image = popp (phi base_point).
Proof. reflexivity. Qed.
Lemma base_eq : base_point = Some (of_int curve_Gx, of_int curve_Gy).
Proof. reflexivity. Qed.
#[local] Opaque base_point image.

Lemma combine_on_curve a b : on_curve (combine a b).
Proof. unfold combine. auto with curve. Qed.
#[local] Hint Resolve combine_on_curve : curve.

Lemma combine_add a b c d : padd (combine a b) (combine c d) = combine (a + c) (b + d).
Proof.
  unfold combine. rewrite !smul_add, !padd_assoc by auto with curve. f_equal. rewrite <- !padd_assoc by auto with curve. f_equal. apply padd_comm; auto with curve.
Qed.

Lemma combine_opp a b : combine (- a) (- b) = popp (combine a b).
Proof. unfold combine. by rewrite !smul_opp, popp_padd by auto with curve. Qed.

Lemma to_big_eq p q : to_big p = q → q.2 ≠ 0 → p = Some (of_int q.1, of_int q.2).
Proof. intros <-. destruct p as [[x y]|]; [|done]. intros _. cbn [to_big fst snd]. by rewrite !of_int_to_Z. Qed.

Lemma popp_some x y : Some (of_int x, of_int (- y)) = popp (Some (of_int x, of_int y)).
Proof. cbn. by rewrite of_int_opp. Qed.

Lemma combine_1_1 : combine 1 1 = Some (of_int (digit 5).2.1, of_int (digit 5).2.2).
Proof.
  unfold combine. rewrite !smul_1 by auto with curve. apply to_big_eq; vm_compute; [reflexivity|discriminate].
Qed.

Lemma combine_1_m1 : combine 1 (-1) = Some (of_int (digit 7).2.1, of_int (digit 7).2.2).
Proof.
  unfold combine. rewrite (smul_opp 1), !smul_1 by auto with curve. rewrite image_eq, popp_popp, phi_sum by auto with curve.
  apply to_big_eq; [reflexivity|]. vm_compute. discriminate.
Qed.

Lemma digit_point d : Some (of_int (digit d).2.1, of_int (digit d).2.2) = combine (digit d).1.1 (digit d).1.2.
Proof.
  assert (combine 1 0 = Some (of_int curve_Gx, of_int curve_Gy)) as H1 by (unfold combine; by rewrite smul_1, smul_0, padd_none_r, base_eq by auto with curve).
  assert (combine 0 1 = Some (of_int (to_big image).1, of_int (to_big image).2)) as H2.
  { unfold combine. rewrite smul_1, smul_0 by auto with curve. apply to_big_eq; [done|]. vm_compute. discriminate. }
  pose proof combine_1_1 as H3. pose proof combine_1_m1 as H4. unfold digit. repeat (case_bool_decide; [cbn [fst snd]|]); cbn [fst snd].
  - by rewrite H1.
  - rewrite popp_some, <- H1. exact (eq_sym (combine_opp 1 0)).
  - by rewrite H2.
  - rewrite popp_some, <- H2. exact (eq_sym (combine_opp 0 1)).
  - exact (eq_sym H3).
  - rewrite popp_some. etrans; [apply f_equal; exact (eq_sym H3)|]. exact (eq_sym (combine_opp 1 1)).
  - exact (eq_sym H4).
  - rewrite popp_some. etrans; [apply f_equal; exact (eq_sym H4)|]. exact (eq_sym (combine_opp 1 (-1))).
Qed.

Definition zstep (st : Z * Z * Z * Z * Z) (d : Z) : Z * Z * Z * Z * Z :=
  let '(j, a, b) := st in
  let j := zdouble j in
  if bool_decide (d = 0) then (j, 2 * a, 2 * b) else let '(da, db, q) := digit d in (zadd j q, 2 * a + da, 2 * b + db).

Lemma zstep_rep j a b d : zrep (combine a b) j → let '(j', a', b') := zstep (j, a, b) d in zrep (combine a' b') j'.
Proof.
  intros Hj. unfold zstep. apply zdouble_rep in Hj; [|by auto with curve]. rewrite combine_add in Hj. replace (a + a) with (2 * a) in Hj by lia.
  replace (b + b) with (2 * b) in Hj by lia. case_bool_decide; [done|]. pose proof (digit_point d) as Hd. destruct (digit d) as [[da db] q]. cbn [fst snd] in Hd.
  rewrite <- combine_add, <- Hd. apply zadd_rep; [by auto with curve| |done]. rewrite Hd. auto with curve.
Qed.

Definition zloop (ds : list Z) : Z * Z * Z * Z * Z := fold_left zstep ds (let q := to_big image in (q.1, q.2, 1), 0, 1).

Lemma zloop_rep ds : let '(j, a, b) := zloop ds in zrep (combine a b) j.
Proof.
  unfold zloop. set (st := (_, 0, 1)). assert (let '(j, a, b) := st in zrep (combine a b) j) as H.
  { intros _. eexists _, _. split; [unfold combine; rewrite smul_1, smul_0 by auto with curve; cbn [padd]; apply (to_big_eq _ (to_big image)); [done|vm_compute; discriminate]|].
    split; ring. }
  generalize dependent st. induction ds as [|d ds IH]; intros [[j a] b] H; [done|]. cbn [fold_left]. pose proof (zstep_rep j a b d H) as H'.
  destruct (zstep (j, a, b) d) as [[j' a'] b']. by apply IH.
Qed.

Lemma of_int_zero_mod z : z mod fieldPrime = 0 ↔ of_int z = 0%F.
Proof. rewrite <- of_int_zero, of_int_eq. unfold eqp. by rewrite Z.mod_0_l. Qed.

(** The last digit takes the point to infinity. *)
Definition ends_at_infinity (st : Z * Z * Z * Z * Z) (m n : Z) : bool :=
  let '(j, a, b) := st in
  let '(x, y, z) := zdouble j in
  let '(da, db, q) := digit 7 in
  let zz := red (z * z) in
  negb (z mod fieldPrime =? 0) && ((x - q.1 * zz) mod fieldPrime =? 0) && ((y + q.2 * red (z * zz)) mod fieldPrime =? 0) &&
  (2 * a + da =? m) && (2 * b + db =? n).

Lemma ends_at_infinity_spec st m n : (let '(j, a, b) := st in zrep (combine a b) j) → ends_at_infinity st m n = true → combine m n = None.
Proof.
  destruct st as [[j a] b]. intros Hr H. unfold ends_at_infinity in H.
  apply zdouble_rep in Hr; [|by auto with curve]. rewrite combine_add in Hr. pose proof (digit_point 7) as Hd. destruct (digit 7) as [[da db] q]. cbn [fst snd] in Hd.
  destruct (zdouble j) as [[x y] z]. rewrite !andb_true_iff, negb_true_iff, Z.eqb_neq, !Z.eqb_eq, !of_int_zero_mod in H.
  destruct H as ((((Hz & Hx) & Hy) & <-) & <-). destruct (Hr Hz) as (px & py & E & Ex & Ey). autorewrite with of_int in Hx. rewrite of_int_add in Hy. autorewrite with of_int in Hy.
  replace (2 * a + da) with ((a + a) + da) by lia. replace (2 * b + db) with ((b + b) + db) by lia. rewrite <- combine_add, E, <- Hd.
  assert (px = of_int q.1) as ->. { apply F_sub_zero in Hx. rewrite Ex in Hx. by apply F_cancel in Hx; [|by apply F_mul_nonzero]. }
  assert (py = Zmod.opp (of_int q.2)) as ->.
  { apply (F_cancel _ _ (of_int z * of_int z * of_int z)%F); [by repeat apply F_mul_nonzero|]. rewrite <- Ey. rewrite <- (Zmod.add_0_r (- _ * _)%F), <- Hy. ring. }
  assert (on_curve (Some (of_int q.1, of_int q.2))) as Hq by (rewrite Hd; auto with curve).
  rewrite padd_comm by auto using opp_on_curve. by apply (padd_popp (Some (of_int q.1, of_int q.2))).
Qed.

Lemma relation_checked : ends_at_infinity (zloop relation_digits) curve_a1 (- curve_b1) = true.
Proof. vm_compute. reflexivity. Qed.

#[local] Opaque curve_a1 curve_b1 curve_a2 curve_b2 curve_N curve_lambda zloop.

Lemma relation : padd (smul curve_a1 base_point) (smul curve_b1 (phi base_point)) = None.
Proof.
  pose proof (ends_at_infinity_spec (zloop relation_digits) curve_a1 (- curve_b1) (zloop_rep relation_digits) relation_checked) as Hc. unfold combine in Hc.
  rewrite image_eq, smul_popp, Z.opp_involutive in Hc by auto with curve. exact Hc.
Qed.

Lemma padd_none_opp p q : on_curve p → on_curve q → padd p q = None → q = popp p.
Proof. intros Hp Hq E. apply (padd_cancel p); [by auto with curve..|]. by rewrite E, padd_popp. Qed.

Section Relation.
Context (g : point) (Hg : on_curve g) (a b : Z) (Hab : padd (smul a g) (smul b (phi g)) = None).
#[local] Hint Resolve Hg : curve.

(** The second vector is the first one times -phi^2. *)
Lemma relation_turn : padd (smul (a - b) g) (smul a (phi g)) = None.
Proof.
  pose proof (f_equal (λ p, phi (phi p)) Hab) as H. cbn [phi] in H. rewrite !phi_padd, !phi_smul, phi_cube in H by auto with curve.
  apply padd_none_opp in H; [|by auto with curve..].
  assert (smul a (padd g (phi g)) = smul b g) as Hs by (rewrite phi_sum, smul_popp, smul_opp, H by auto with curve; done).
  replace (a - b) with (- b + a) by lia. rewrite smul_add, padd_assoc, <- smul_padd, Hs, smul_opp, padd_comm by auto with curve. apply padd_popp. auto with curve.
Qed.

Lemma relation_order : smul (a * a - (a - b) * b) g = None.
Proof.
  pose proof (f_equal (smul a) Hab) as H1. pose proof (f_equal (smul b) relation_turn) as H2. rewrite smul_none, smul_padd, !smul_smul in H1, H2 by auto with curve.
  rewrite padd_comm in H1, H2 by auto with curve. apply padd_none_opp in H1, H2; [|by auto with curve..]. rewrite (Z.mul_comm a b) in H1. rewrite <- H2 in H1.
  replace (a * a - (a - b) * b) with (a * a + - (b * (a - b))) by lia. rewrite smul_add, H1, smul_opp by auto with curve. apply padd_popp. auto with curve.
Qed.

(** If b is invertible modulo the order, the image is a multiple. *)
Lemma relation_multiple n c k l m : smul n g = None → c * b = 1 + k * n → - (c * a) = l + m * n → phi g = smul l g.
Proof.
  intros Hn Hc Hl. assert (∀ i j, smul (i + j * n) g = smul i g) as Hmod.
  { intros i j. by rewrite smul_add, <- smul_smul, Hn, smul_none, padd_none_r by auto with curve. }
  assert (smul n (phi g) = None) as Hn' by (rewrite <- phi_smul, Hn by auto with curve; done).
  rewrite <- (Hmod l m), <- Hl. pose proof (f_equal (smul c) Hab) as H. rewrite smul_none, smul_padd, !smul_smul, Hc in H by auto with curve.
  rewrite (smul_add 1), <- (smul_smul k n), Hn', smul_none, padd_none_r, smul_1 in H by auto with curve.
  apply padd_none_opp in H; [|by auto with curve..]. by rewrite H, smul_opp by auto with curve.
Qed.
End Relation.

(** [c] is the inverse of b1 modulo N. *)
Definition b1_inverse : Z := Z.invmod curve_b1 curve_N.

Lemma base_order : smul curve_N base_point = None.
Proof.
  pose proof (relation_order _ base_on_curve _ _ relation) as H. assert (curve_N = curve_a1 * curve_a1 - (curve_a1 - curve_b1) * curve_b1) as ->; [|exact H].
  vm_compute. reflexivity.
Qed.

Lemma phi_base : phi base_point = smul curve_lambda base_point.
Proof.
  apply (relation_multiple _ base_on_curve _ _ relation curve_N b1_inverse ((b1_inverse * curve_b1 - 1) / curve_N) _ ((- (b1_inverse * curve_a1) - curve_lambda) / curve_N) base_order);
    vm_compute; reflexivity.
Qed.

(** Both facts carry over to all multiples of the base point. *)
Definition generated (p : point) : Prop := ∃ m, p = smul m base_point.

Lemma generated_on_curve p : generated p → on_curve p.
Proof. intros [m ->]. auto with curve. Qed.

Lemma generated_order p : generated p → smul curve_N p = None.
Proof. intros [m ->]. rewrite smul_smul, Z.mul_comm, <- smul_smul, base_order by auto with curve. apply smul_none. Qed.

Lemma generated_phi p : generated p → phi p = smul curve_lambda p.
Proof. intros [m ->]. by rewrite phi_smul, phi_base, !smul_smul, Z.mul_comm by auto with curve. Qed.

Lemma smul_mod p k : generated p → smul (k mod curve_N) p = smul k p.
Proof.
  intros Hp. pose proof (generated_on_curve _ Hp) as Hc. rewrite (Z.div_mod k curve_N) at 2 by done.
  by rewrite smul_add, Z.mul_comm, <- smul_smul, generated_order, smul_none by auto.
Qed.
