(* ===== verification/ScalarTheorems.v ===== *)
(** * Scalar multiplication: non-adjacent digits, the split of the scalar and the loops *)

From Stdlib Require Import ZArith Lia Zdivisibility Zmod Field.
From S2P Require Import Prelude Buffers BtcTheorems ScriptTheorems Field FieldTheorems PrimeField GroupLaw Der DerTheorems Curve CurveTheorems Multiples.

Local Open Scope Z_scope.

#[local] Hint Extern 0 (on_curve base_point) => exact base_on_curve : curve.
#[local] Hint Resolve generated_on_curve : curve.

(** ** Digits *)

(** What the loop of [ScalarMult] makes of the first bits of two bytes. *)
Definition bit_digit (pos neg : Z) : Z := if top_bit pos then 1 else if top_bit neg then -1 else 0.

Fixpoint bits_digit (n : nat) (pos neg : Z) : Z :=
  match n with
  | 0%nat => 0
  | S n => 2 ^ Z.of_nat n * bit_digit pos neg + bits_digit n (u8 (Z.shiftl pos 1)) (u8 (Z.shiftl neg 1))
  end.

Definition byte_digit (pos neg : byte) : Z := bits_digit 8 (byte_Z pos) (byte_Z neg).

(** One byte of [NAF], for every byte, carry and neighbour. *)
Lemma naf_byte_table :
  forallb (λ nx, forallb (λ c, forallb (λ z,
    let '(c', pos, neg) := naf_byte nx (Z_byte z) c in
    let used := Z.lor pos neg in
    (bits_digit 8 pos neg =? z + Z.b2z c - 256 * Z.b2z c') && (0 <=? pos) && (pos <? 256) && (0 <=? neg) && (neg <? 256) &&
    (Z.land used (Z.shiftr used 1) =? 0) && implb (Z.testbit used 7) (eqb c' nx) && eqb (Z.testbit used 0) (xorb (Z.odd z) c))
    (map Z.of_nat (seq 0 256))) [true; false]) [true; false] = true.
Proof. vm_compute. reflexivity. Qed.

Lemma naf_byte_facts nx b c :
  let '(c', pos, neg) := naf_byte nx b c in
  let used := Z.lor pos neg in
  bits_digit 8 pos neg = byte_Z b + Z.b2z c - 256 * Z.b2z c' ∧ 0 <= pos < 256 ∧ 0 <= neg < 256 ∧
  Z.land used (Z.shiftr used 1) = 0 ∧ (Z.testbit used 7 = true → c' = nx) ∧ Z.testbit used 0 = xorb (Z.odd (byte_Z b)) c.
Proof.
  pose proof naf_byte_table as H. rewrite forallb_forall in H. specialize (H nx). assert (List.In nx [true; false]) as Hn by (destruct nx; cbn; auto).
  apply H in Hn. rewrite forallb_forall in Hn. specialize (Hn c). assert (List.In c [true; false]) as Hc by (destruct c; cbn; auto).
  apply Hn in Hc. rewrite forallb_forall in Hc. pose proof (byte_Z_range b) as Hb. specialize (Hc (byte_Z b)). rewrite Z_byte_of_byte in Hc.
  assert (List.In (byte_Z b) (map Z.of_nat (seq 0 256))) as Hi. { apply in_map_iff. exists (Z.to_nat (byte_Z b)). split; [lia|]. apply in_seq. lia. }
  apply Hc in Hi. clear -Hi. destruct (naf_byte nx b c) as [[c' pos] neg]. rewrite !andb_true_iff, !Z.leb_le, !Z.ltb_lt, !Z.eqb_eq, !eqb_true_iff in Hi.
  destruct Hi as (((((((H1 & H2) & H3) & H4) & H5) & H6) & H7) & H8). cbv zeta. repeat (split; [lia|]). split; [|exact H8].
  intros E. rewrite E in H7. by apply eqb_prop in H7.
Qed.

Lemma naf_byte_spec nx b c :
  let '(c', pos, neg) := naf_byte nx b c in byte_digit (Z_byte pos) (Z_byte neg) = byte_Z b + Z.b2z c - 256 * Z.b2z c'.
Proof.
  pose proof (naf_byte_facts nx b c) as H. destruct (naf_byte nx b c) as [[c' pos] neg]. destruct H as (H & Hp & Hn & _).
  unfold byte_digit. rewrite !byte_Z_of_Z, !Z.mod_small by lia. exact H.
Qed.

(** Digits from the first one on. *)
Definition digits_val (ds : list Z) : Z := foldl (λ a d, 256 * a + d) 0 ds.

Lemma digits_val_app l d : digits_val (l ++ [d]) = 256 * digits_val l + d.
Proof. unfold digits_val. by rewrite foldl_app. Qed.

Definition naf_digits (poss negs : bytes) : list Z := zip_with byte_digit poss negs.

Lemma naf_loop_spec k : ∀ c, let '(poss, negs, c') := naf_loop k c in
  length poss = length k ∧ length negs = length k ∧
  digits_val (rev (naf_digits poss negs)) + 256 ^ len k * Z.b2z c' = le_val k + Z.b2z c.
Proof.
  induction k as [|b k IH]; intros c; cbn [naf_loop]; [split; [done|]; split; [done|]; change (256 ^ len []) with 1; unfold digits_val; cbn [rev naf_digits zip_with foldl]; rewrite le_val_nil; lia|].
  pose proof (naf_byte_spec (match k with b' :: _ => bool_decide (Z.land (byte_Z b') 1 = 1) | [] => false end) b c) as Hb.
  destruct (naf_byte _ b c) as [[c1 pos] neg]. specialize (IH c1). destruct (naf_loop k c1) as [[poss negs] c']. destruct IH as (Hp & Hn & IH).
  cbn [length]. split; [by rewrite Hp|]. split; [by rewrite Hn|]. cbn [naf_digits zip_with rev]. rewrite digits_val_app, len_cons, le_val_cons.
  replace (1 + len k) with (len k + 1) by lia. rewrite Z.pow_add_r by (pose proof (len_nonneg k); lia). fold (naf_digits poss negs). lia.
Qed.

Lemma naf_digits_rev poss negs : length poss = length negs → naf_digits (rev poss) (rev negs) = rev (naf_digits poss negs).
Proof.
  revert negs. induction poss as [|p poss IH]; intros [|n negs]; [done..|]. cbn [length rev]. intros [= Hl]. unfold naf_digits in *.
  rewrite zip_with_app by (by rewrite !length_rev). by rewrite IH.
Qed.

Lemma digits_val_cons d ds : digits_val (d :: ds) = d * 256 ^ len ds + digits_val ds.
Proof.
  induction ds as [|e ds IH] using rev_ind; [unfold digits_val; cbn [foldl]; change (256 ^ len []) with 1; lia|]. rewrite app_comm_cons, !digits_val_app, IH.
  unfold len. rewrite length_app. cbn [length]. rewrite Nat2Z.inj_add, Z.pow_add_r by lia. change (256 ^ Z.of_nat 1) with 256. ring.
Qed.

Lemma NAF_spec k : let '(poss, negs) := NAF k in
  length poss = length negs ∧ (length poss <= S (length k))%nat ∧ digits_val (naf_digits poss negs) = be_val k.
Proof.
  unfold NAF. pose proof (naf_loop_spec (rev k) false) as H. destruct (naf_loop (rev k) false) as [[poss negs] c]. destruct H as (Hp & Hn & H).
  rewrite length_rev in Hp, Hn. unfold be_val. destruct c.
  - cbn [length]. rewrite !length_rev. split; [lia|]. split; [lia|]. cbn [naf_digits zip_with]. fold (naf_digits (rev poss) (rev negs)).
    rewrite digits_val_cons, naf_digits_rev by lia. change (byte_digit x01 x00) with 1. unfold len in *. rewrite length_rev in *.
    unfold naf_digits at 1. rewrite length_zip_with, Hp, Hn, Nat.min_id. cbn [Z.b2z] in H. lia.
  - rewrite !length_rev, naf_digits_rev by lia. split; [lia|]. split; [lia|]. cbn [Z.b2z] in H. lia.
Qed.

(** No two neighbouring bits. *)
Definition sparse (u : Z) : Prop := ∀ i, 0 <= i → Z.testbit u i = true → Z.testbit u (i + 1) = false.

Lemma sparse_land u : Z.land u (Z.shiftr u 1) = 0 ↔ sparse u.
Proof.
  split.
  - intros H i Hi E. pose proof (f_equal (λ z, Z.testbit z i) H) as H'. cbn beta in H'. rewrite Z.land_spec, Z.shiftr_spec, E, Z.bits_0 in H' by done. exact H'.
  - intros H. apply Z.bits_inj'. intros i Hi. rewrite Z.land_spec, Z.shiftr_spec, Z.bits_0 by done. destruct (Z.testbit u i) eqn:E; [|done]. by apply H.
Qed.

Lemma testbit_byte a b i : 0 <= a < 256 → 0 <= i → Z.testbit (a + 256 * b) i = if bool_decide (i < 8) then Z.testbit a i else Z.testbit b (i - 8).
Proof.
  intros Ha Hi. case_bool_decide as H.
  - rewrite <- (Z.mod_pow2_bits_low (a + 256 * b) 8 i) by lia. change (2 ^ 8) with 256. rewrite Z.mul_comm, Z_mod_plus_full, Z.mod_small by lia. done.
  - replace i with ((i - 8) + 8) at 1 by lia. rewrite <- Z.div_pow2_bits by lia. change (2 ^ 8) with 256. rewrite Z.mul_comm, Z_div_plus_full, Z.div_small by lia. done.
Qed.

Lemma lor_byte p0 n0 p n : 0 <= p0 < 256 → 0 <= n0 < 256 → Z.lor (p0 + 256 * p) (n0 + 256 * n) = Z.lor p0 n0 + 256 * Z.lor p n ∧ 0 <= Z.lor p0 n0 < 256.
Proof.
  intros Hp Hn. assert (0 <= Z.lor p0 n0 < 256) as Hl.
  { split; [apply Z.lor_nonneg; lia|]. destruct (decide (Z.lor p0 n0 = 0)) as [->|]; [done|]. apply (Z.log2_lt_pow2 _ 8); [pose proof (Z.lor_nonneg p0 n0); lia|].
    rewrite Z.log2_lor by lia. apply Z.max_lub_lt; [destruct (decide (p0 = 0)) as [->|]; [done|]; apply Z.log2_lt_pow2; lia|].
    destruct (decide (n0 = 0)) as [->|]; [done|]. apply Z.log2_lt_pow2; lia. }
  split; [|done]. apply Z.bits_inj'. intros i Hi. rewrite Z.lor_spec, !testbit_byte by done. by case_bool_decide; rewrite Z.lor_spec.
Qed.

Lemma sparse_cons a b : 0 <= a < 256 → sparse a → sparse b → (Z.testbit a 7 = true → Z.testbit b 0 = false) → sparse (a + 256 * b).
Proof.
  intros Ha Sa Sb H i Hi. rewrite !testbit_byte by lia. destruct (decide (i < 7)) as [H7|]; [|destruct (decide (i = 7)) as [->|]].
  - rewrite !bool_decide_true by lia. by apply Sa.
  - by rewrite bool_decide_true, bool_decide_false by lia.
  - rewrite !bool_decide_false by lia. replace (i + 1 - 8) with (i - 8 + 1) by lia. apply Sb. lia.
Qed.

Lemma odd_land z : bool_decide (Z.land z 1 = 1) = Z.odd z.
Proof. assert (Z.land z 1 = z mod 2) as -> by (by apply (Z.land_ones _ 1)). rewrite Zmod_odd. by destruct (Z.odd z). Qed.

Lemma naf_loop_sparse k : ∀ c, let '(poss, negs, c') := naf_loop k c in
  let used := Z.lor (le_val poss) (le_val negs) in
  sparse used ∧ match k with b :: _ => Z.testbit used 0 = xorb (Z.odd (byte_Z b)) c ∧ (c' = true → Z.testbit used (8 * len k - 1) = false) | [] => used = 0 ∧ c' = c end.
Proof.
  induction k as [|b k IH]; intros c; cbn [naf_loop]; [rewrite le_val_nil; split; [|done]; intros i Hi; by rewrite Z.bits_0|].
  set (nx := match k with b' :: _ => _ | [] => false end). pose proof (naf_byte_facts nx b c) as Hb. destruct (naf_byte nx b c) as [[c1 pos] neg]. specialize (IH c1).
  destruct (naf_loop k c1) as [[poss negs] c']. destruct Hb as (_ & Hp & Hn & Hs & H7 & H0), IH as [Hs' IH]. cbv zeta in *. rewrite !le_val_cons, !byte_Z_of_Z, !Z.mod_small by lia.
  destruct (lor_byte pos neg (le_val poss) (le_val negs)) as [-> Hl]; [done..|]. apply sparse_land in Hs. set (u := Z.lor pos neg) in *. set (u' := Z.lor (le_val poss) (le_val negs)) in *.
  split; [|split].
  - apply sparse_cons; [done..|]. intros E. apply H7 in E. subst c1. destruct k as [|b' k]; [|destruct IH as [-> _]; unfold nx; rewrite odd_land; apply xorb_nilpotent].
    destruct IH as [-> _]. apply Z.bits_0.
  - by rewrite testbit_byte, bool_decide_true by lia.
  - intros E. rewrite len_cons, testbit_byte by (pose proof (len_nonneg k); lia). destruct k as [|b' k].
    + destruct IH as [_ ->]. subst c1. change (8 * (1 + len []) - 1) with 7. rewrite bool_decide_true by done. destruct (Z.testbit u 7) eqn:E7; [|done]. by specialize (H7 eq_refl).
    + destruct IH as [_ IH]. rewrite bool_decide_false by (rewrite len_cons; pose proof (len_nonneg k); lia).
      replace (8 * (1 + len (b' :: k)) - 1 - 8) with (8 * len (b' :: k) - 1) by lia. by apply IH.
Qed.

Lemma testbit_top z n i : 0 <= z < 2 ^ n → 0 <= n → 0 <= i → Z.testbit (z + 2 ^ n) i = if bool_decide (i < n) then Z.testbit z i else bool_decide (i = n).
Proof.
  intros Hz Hn Hi. replace (z + 2 ^ n) with (z + 1 * 2 ^ n) by lia. case_bool_decide as H.
  - rewrite <- (Z.mod_pow2_bits_low (z + 1 * 2 ^ n) n i) by lia. by rewrite Z_mod_plus_full, Z.mod_small by lia.
  - replace i with ((i - n) + n) at 1 by lia. rewrite <- Z.div_pow2_bits, Z_div_plus_full, Z.div_small by lia. destruct (decide (i = n)) as [->|Hne].
    + by rewrite Z.sub_diag, bool_decide_true.
    + rewrite bool_decide_false by done. apply (Z.bits_above_log2 1); [done|]. cbn. lia.
Qed.

(** A final carry does not touch the digit below. *)
Lemma carry_sparse p m t n : 0 < n → t = 2 ^ n → 0 <= p < 2 ^ n → 0 <= m < 2 ^ n → sparse (Z.lor p m) → Z.testbit (Z.lor p m) (n - 1) = false → sparse (Z.lor (p + t) m).
Proof.
  intros Hn -> Hp Hm Hs Ht i Hi. rewrite !Z.lor_spec, !testbit_top by lia.
  assert (∀ j, n <= j → Z.testbit m j = false) as Hh by (intros j Hj; rewrite <- (Z.mod_small m (2 ^ n)) by done; by apply Z.mod_pow2_bits_high; lia).
  destruct (decide (i < n - 1)); [|destruct (decide (i = n - 1)) as [->|]].
  - rewrite !bool_decide_true by lia. rewrite <- !Z.lor_spec. by apply Hs.
  - rewrite bool_decide_true by lia. rewrite <- Z.lor_spec, Ht. done.
  - rewrite !(bool_decide_false (_ < n)), (bool_decide_false (i + 1 = n)), (Hh (i + 1)) by lia. done.
Qed.

Lemma NAF_sparse k : let '(poss, negs) := NAF k in sparse (Z.lor (be_val poss) (be_val negs)).
Proof.
  unfold NAF. pose proof (naf_loop_sparse (rev k) false) as H. pose proof (naf_loop_spec (rev k) false) as Hl. destruct (naf_loop (rev k) false) as [[poss negs] c].
  destruct H as [Hs H], Hl as (Lp & Ln & _). cbv zeta in *. destruct c; [|unfold be_val; by rewrite !rev_involutive].
  rewrite !be_val_cons. unfold be_val. rewrite !rev_involutive. unfold len. rewrite !length_rev. destruct (rev k) as [|b k']; [by destruct H|].
  destruct H as [_ H]. specialize (H eq_refl). rewrite Lp, Ln in *. change (byte_Z x01) with 1. change (byte_Z x00) with 0. rewrite Z.mul_0_l, Z.mul_1_l, Z.add_0_l, Z.add_comm.
  pose proof (le_val_range poss) as Rp. pose proof (le_val_range negs) as Rn. unfold len in Rp, Rn. rewrite Lp in Rp. rewrite Ln in Rn.
  apply carry_sparse with (n := 8 * len (b :: k')); [unfold len; cbn [length]; lia| | | |done|done]; unfold len; rewrite ?Z.pow_mul_r by lia; done.
Qed.

(** ** The split of the scalar *)

(** One half: the remainders of the two divisions, weighted. *)
Lemma half_bound a b r1 r2 n z : 0 < n → 0 <= a → 0 <= b → 0 <= r1 < n → 0 <= r2 < n → n * z = a * r1 - b * r2 → - b <= z <= a.
Proof. intros Hn Ha Hb H1 H2 E. split; apply (Z.mul_le_mono_pos_l _ _ n Hn); nia. Qed.

Lemma splitK_spec k : let '(k1, k2, s1, s2) := splitK k in
  ∃ z1 z2, k1 = big_Bytes z1 ∧ k2 = big_Bytes z2 ∧ s1 = Z.sgn z1 ∧ s2 = Z.sgn z2 ∧
    (z1 + z2 * curve_lambda) mod curve_N = be_val k mod curve_N ∧ Z.abs z1 < 2 ^ 129 ∧ Z.abs z2 < 2 ^ 129.
Proof.
  unfold splitK. eexists _, _. split; [reflexivity|]. split; [reflexivity|]. split; [reflexivity|]. split; [reflexivity|].
  pose proof (Z.div_mod (curve_b2 * be_val k) curve_N ltac:(done)) as H1. pose proof (Z.div_mod (curve_b1 * be_val k) curve_N ltac:(done)) as H2.
  pose proof (Z.mod_pos_bound (curve_b2 * be_val k) curve_N ltac:(done)) as R1. pose proof (Z.mod_pos_bound (curve_b1 * be_val k) curve_N ltac:(done)) as R2.
  revert H1 H2 R1 R2. generalize (curve_b2 * be_val k / curve_N) (curve_b1 * be_val k / curve_N) ((curve_b2 * be_val k) mod curve_N) ((curve_b1 * be_val k) mod curve_N).
  intros c1 c2 r1 r2 H1 H2 R1 R2.
  assert (∃ m, curve_a1 + curve_b1 * curve_lambda = m * curve_N) as [m Hm] by (exists ((curve_a1 + curve_b1 * curve_lambda) / curve_N); vm_compute; reflexivity).
  assert (∃ n, curve_a2 + curve_b2 * curve_lambda = n * curve_N) as [n Hn] by (exists ((curve_a2 + curve_b2 * curve_lambda) / curve_N); vm_compute; reflexivity).
  assert (curve_N = curve_a1 * curve_b2 - curve_a2 * curve_b1) as HN by (vm_compute; reflexivity).
  split; [|split].
  - replace (be_val k - c1 * curve_a1 + c2 * curve_a2 + (c2 * curve_b2 - c1 * curve_b1) * curve_lambda) with (be_val k + (c2 * n - c1 * m) * curve_N); [apply Z_mod_plus_full|].
    transitivity (be_val k + c2 * (n * curve_N) - c1 * (m * curve_N)); [ring|]. rewrite <- Hm, <- Hn. ring.
  - assert (- curve_a2 <= be_val k - c1 * curve_a1 + c2 * curve_a2 <= curve_a1) as H.
    { apply (half_bound _ _ r1 r2 curve_N); [done..|]. transitivity (curve_N * be_val k - curve_a1 * (curve_N * c1) + curve_a2 * (curve_N * c2)); [ring|].
      replace (curve_N * c1) with (curve_b2 * be_val k - r1) by lia. replace (curve_N * c2) with (curve_b1 * be_val k - r2) by lia. rewrite HN at 1. ring. }
    assert (curve_a1 < 2 ^ 129 ∧ curve_a2 < 2 ^ 129) as [? ?] by (split; vm_compute; reflexivity). lia.
  - assert (curve_N * - (c2 * curve_b2 - c1 * curve_b1) = curve_b2 * r2 + - curve_b1 * r1) as H.
    { transitivity (curve_b1 * (curve_N * c1) - curve_b2 * (curve_N * c2)); [ring|].
      replace (curve_N * c1) with (curve_b2 * be_val k - r1) by lia. replace (curve_N * c2) with (curve_b1 * be_val k - r2) by lia. ring. }
    assert (0 < curve_N ∧ 0 < curve_b2 ∧ 0 < - curve_b1 ∧ curve_b2 + - curve_b1 < 2 ^ 129) as (? & ? & ? & ?) by (repeat split; vm_compute; reflexivity).
    assert (0 <= - (c2 * curve_b2 - c1 * curve_b1) <= curve_b2 + - curve_b1); [|lia].
    split; apply (Z.mul_le_mono_pos_l _ _ curve_N); nia.
Qed.

(** ** The loop of [ScalarMult] *)

(** A point in the four field values that its two signs share. *)
Definition operand (x y : F) (fx fy fyNeg fz : fieldVal) : Prop := elt 7 fx x ∧ elt 7 fy y ∧ elt 7 fyNeg (- y)%F ∧ elt 7 fz 1%F.

Lemma operand_rep x y fx fy fz : elt 7 fx x → elt 7 fy y → elt 7 fz 1%F → rep (Some (x, y)) (Jac fx fy fz).
Proof. intros Hx Hy Hz. exists 1%F. split; [apply (F_1_neq_0 F_field)|]. split; [fe_as|]. split; [fe_as|done]. Qed.

Section Loop.
Context (x1 y1 x2 y2 : F).
Local Abbreviation p1 := (Some (x1, y1)).
Local Abbreviation p2 := (Some (x2, y2)).
Context (C1 : on_curve p1) (C2 : on_curve p2).
#[local] Hint Extern 0 (on_curve p1) => exact C1 : curve.
#[local] Hint Extern 0 (on_curve p2) => exact C2 : curve.

(** The accumulator is a combination of the two points. *)
Definition loop_at (a b : Z) (st : multiplier) : Prop :=
  rep (padd (smul a p1) (smul b p2)) (m_q st) ∧ operand x1 y1 (m_x st) (m_y st) (m_yNeg st) (m_z st) ∧ operand x2 y2 (m_x2 st) (m_y2 st) (m_yNeg2 st) (m_z2 st).

Lemma loop_on_curve a b : on_curve (padd (smul a p1) (smul b p2)).
Proof. auto with curve. Qed.

Lemma loop_sum a b c d : padd (padd (smul a p1) (smul b p2)) (padd (smul c p1) (smul d p2)) = padd (smul (a + c) p1) (smul (b + d) p2).
Proof.
  rewrite !smul_add, !padd_assoc by auto with curve. f_equal. rewrite <- !padd_assoc by auto with curve. f_equal. by apply padd_comm; auto with curve.
Qed.

Lemma loop_first a b d : padd (padd (smul a p1) (smul b p2)) (smul d p1) = padd (smul (a + d) p1) (smul b p2).
Proof. pose proof (loop_sum a b d 0) as H. rewrite (smul_0 p2), padd_none_r, Z.add_0_r in H. exact H. Qed.
Lemma loop_second a b d : padd (padd (smul a p1) (smul b p2)) (smul d p2) = padd (smul a p1) (smul (b + d) p2).
Proof. pose proof (loop_sum a b 0 d) as H. rewrite (smul_0 p1), Z.add_0_r in H. exact H. Qed.

Lemma smul_minus_1 x y : on_curve (Some (x, y)) → smul (-1) (Some (x, y)) = Some (x, (- y)%F).
Proof. intros Hc. rewrite (smul_opp 1), smul_1 by done. reflexivity. Qed.

Lemma double_q_at a b st : loop_at a b st → loop_at (2 * a) (2 * b) (double_q st).
Proof.
  intros (Hq & H1 & H2). destruct st. cbn in *. split; [|done]. cbn. replace (2 * a) with (a + a) by lia. replace (2 * b) with (b + b) by lia.
  rewrite <- loop_sum. by apply doubleJacobian_rep; [|apply loop_on_curve].
Qed.

Lemma add_first_at a b pos neg st : loop_at a b st → loop_at (a + bit_digit pos neg) b (add_first pos neg st).
Proof.
  intros (Hq & H1 & H2). destruct st as [q x y yNeg z]. cbn in *. unfold bit_digit. destruct H1 as (Hx & Hy & Hyn & Hz).
  destruct (top_bit pos); [|destruct (top_bit neg)].
  - pose proof (addJacobian_rep _ _ _ _ Hq (operand_rep _ _ _ _ _ Hx Hy Hz) (loop_on_curve a b) C1) as Hs.
    pose proof (addJacobian_second q (Jac x y z)) as (Kx & Ky & Kz). destruct (addJacobian q _) as [q' p]. cbn in *.
    split; [cbn; by rewrite <- loop_first, smul_1 by done|]. split; [|done]. split; [by apply Kx|]. split; [by apply Ky|]. split; [done|by apply Kz].
  - pose proof (addJacobian_rep _ _ _ _ Hq (operand_rep _ _ _ _ _ Hx Hyn Hz) (loop_on_curve a b) (opp_on_curve _ _ C1)) as Hs.
    pose proof (addJacobian_second q (Jac x yNeg z)) as (Kx & Ky & Kz). destruct (addJacobian q _) as [q' p]. cbn in *.
    split; [cbn; by rewrite <- loop_first, smul_minus_1 by done|]. split; [|done]. split; [by apply Kx|]. split; [done|]. split; [by apply Ky|by apply Kz].
  - rewrite Z.add_0_r. done.
Qed.

Lemma add_second_at a b pos neg st : loop_at a b st → loop_at a (b + bit_digit pos neg) (add_second pos neg st).
Proof.
  intros (Hq & H1 & H2). destruct st as [q x y yNeg z x' y' yNeg' z']. cbn in *. unfold bit_digit. destruct H2 as (Hx & Hy & Hyn & Hz).
  destruct (top_bit pos); [|destruct (top_bit neg)].
  - pose proof (addJacobian_rep _ _ _ _ Hq (operand_rep _ _ _ _ _ Hx Hy Hz) (loop_on_curve a b) C2) as Hs.
    pose proof (addJacobian_second q (Jac x' y' z')) as (Kx & Ky & Kz). destruct (addJacobian q _) as [q' p]. cbn in *.
    split; [cbn; by rewrite <- loop_second, smul_1 by done|]. split; [done|]. split; [by apply Kx|]. split; [by apply Ky|]. split; [done|by apply Kz].
  - pose proof (addJacobian_rep _ _ _ _ Hq (operand_rep _ _ _ _ _ Hx Hyn Hz) (loop_on_curve a b) (opp_on_curve _ _ C2)) as Hs.
    pose proof (addJacobian_second q (Jac x' yNeg' z')) as (Kx & Ky & Kz). destruct (addJacobian q _) as [q' p]. cbn in *.
    split; [cbn; by rewrite <- loop_second, smul_minus_1 by done|]. split; [done|]. split; [by apply Kx|]. split; [done|]. split; [by apply Ky|by apply Kz].
  - rewrite Z.add_0_r. done.
Qed.

Lemma mult_bits_at n a b k1Pos k1Neg k2Pos k2Neg st :
  loop_at a b st →
  loop_at (2 ^ Z.of_nat n * a + bits_digit n k1Pos k1Neg) (2 ^ Z.of_nat n * b + bits_digit n k2Pos k2Neg) (mult_bits n k1Pos k1Neg k2Pos k2Neg st).
Proof.
  revert a b k1Pos k1Neg k2Pos k2Neg st. induction n as [|n IH]; intros a b k1Pos k1Neg k2Pos k2Neg st Hst; cbn [mult_bits bits_digit].
  { change (2 ^ Z.of_nat 0) with 1. by rewrite !Z.mul_1_l, !Z.add_0_r. }
  apply double_q_at, (add_first_at _ _ k1Pos k1Neg), (add_second_at _ _ k2Pos k2Neg) in Hst. rewrite Nat2Z.inj_succ, Z.pow_succ_r by lia.
  apply (IH _ _ (u8 (Z.shiftl k1Pos 1)) (u8 (Z.shiftl k1Neg 1)) (u8 (Z.shiftl k2Pos 1)) (u8 (Z.shiftl k2Neg 1))) in Hst.
  match type of Hst with loop_at ?u ?v _ => match goal with |- loop_at ?u' ?v' _ => replace u' with u by ring; replace v' with v by ring end end. exact Hst.
Qed.

(** The digits of the padded strings. *)
Definition padded_digits (poss negs : bytes) (m : nat) : list Z :=
  map (λ i, bits_digit 8 (padded_digit poss m i) (padded_digit negs m i)) (seq 0 m).

Lemma mult_loop_at k1Pos k1Neg k2Pos k2Neg m st :
  loop_at 0 0 st →
  loop_at (digits_val (padded_digits k1Pos k1Neg m)) (digits_val (padded_digits k2Pos k2Neg m)) (mult_loop k1Pos k1Neg k2Pos k2Neg m st).
Proof.
  intros Hst. unfold mult_loop, padded_digits. generalize (seq 0 m). intros l. induction l as [|i l IH] using rev_ind; [done|].
  rewrite fold_left_app, !map_app. cbn [map fold_left]. rewrite !digits_val_app. by apply (mult_bits_at 8 _ _ _ _ _ _ _ IH).
Qed.
End Loop.

Lemma digits_val_zeros n l : digits_val (replicate n 0 ++ l) = digits_val l.
Proof. induction n as [|n IH]; [done|]. cbn [replicate app]. rewrite digits_val_cons, IH. lia. Qed.

Lemma padded_digits_val poss negs m :
  length poss = length negs → (length poss <= m)%nat → digits_val (padded_digits poss negs m) = digits_val (naf_digits poss negs).
Proof.
  intros Hl Hm. rewrite <- (digits_val_zeros (m - length poss) (naf_digits poss negs)). f_equal. unfold padded_digits. apply list_eq. intros i.
  lazymatch goal with |- map ?f ?l !! _ = _ => change (map f l) with (f <$> l) end. rewrite list_lookup_fmap. destruct (decide (i < m)%nat) as [Hi|Hi].
  2: { rewrite lookup_ge_None_2 by (rewrite length_seq; lia). rewrite lookup_ge_None_2; [done|]. unfold naf_digits. rewrite length_app, length_replicate, length_zip_with. lia. }
  rewrite lookup_seq_lt by done. cbn [fmap option_fmap option_map Nat.add]. unfold padded_digit. rewrite <- Hl. case_bool_decide as Hb.
  - rewrite lookup_app_l by (rewrite length_replicate; lia). by rewrite lookup_replicate_2 by lia.
  - rewrite lookup_app_r by (rewrite length_replicate; lia). rewrite length_replicate. unfold naf_digits. rewrite lookup_zip_with.
    set (j := (i - (m - length poss))%nat). destruct (lookup_lt_is_Some_2 poss j) as [p Hp]; [lia|]. destruct (lookup_lt_is_Some_2 negs j) as [n Hn]; [lia|].
    rewrite Hp, Hn. cbn. by rewrite (nth_lookup_Some poss j x00 p Hp), (nth_lookup_Some negs j x00 n Hn).
Qed.

Lemma NAF_digits k poss negs m : NAF k = (poss, negs) → (length poss <= m)%nat → digits_val (padded_digits poss negs m) = be_val k.
Proof. intros E Hm. pose proof (NAF_spec k) as H. rewrite E in H. destruct H as (Hl & _ & H). by rewrite padded_digits_val. Qed.

Lemma big_Bytes_abs z : be_val (big_Bytes z) = Z.abs z.
Proof.
  rewrite <- (big_Bytes_be (Z.abs z)) by lia. f_equal. unfold big_Bytes, byte_count. rewrite Z.abs_idemp.
  destruct (decide (z = 0)) as [->|]; [done|]. by rewrite !bool_decide_false by lia.
Qed.

(** A point or its mirror image, by the sign of a number. *)
Lemma smul_signed z (x y : F) : on_curve (Some (x, y)) →
  smul (Z.abs z) (Some (x, if bool_decide (Z.sgn z = -1) then (- y)%F else y)) = smul z (Some (x, y)).
Proof.
  intros Hc. case_bool_decide as E.
  - change (Some (x, (- y)%F)) with (popp (Some (x, y))). rewrite smul_popp by done. f_equal. lia.
  - f_equal. lia.
Qed.

Lemma moduloReduce_mod k : be_val (moduloReduce k) mod curve_N = be_val k mod curve_N.
Proof.
  unfold moduloReduce. case_bool_decide; [|done]. rewrite big_Bytes_be by (by apply Z.mod_pos_bound). by apply Z.mod_mod.
Qed.

(** The sign of the scalar exchanges the two values of y. *)
Lemma operand_signed (x y : F) fx fy s : elt 1 fx x → elt 1 fy y →
  let '(a, b) := if bool_decide (s = -1) then (NegateVal fy 1, fy) else (fy, NegateVal fy 1) in
  operand x (if bool_decide (s = -1) then (- y)%F else y) fx a b (SetInt 1).
Proof.
  intros Hx Hy. assert (elt 7 (SetInt 1) 1%F) as H1 by (apply (elt_weaken 1); [by apply (SetInt_elt 1)|lia]).
  case_bool_decide; (split; [fe_as|]; split; [fe_as|]; split; [fe_as|done]).
Qed.

Lemma curve_beta_elt : elt 1 curve_beta beta.
Proof.
  destruct (SetBytes_spec (be_bytes 32 0x7AE96A2B657C07106E64479EAC3434E99CF0497512F58995C1396C28719501EE)) as (Hw & H9 & Hv); [done|].
  unfold curve_beta. split; [split; [|lia]; eapply Forall_impl; [exact Hw|]; cbn; unfold word_max; lia|].
  rewrite Hv, be_val_be_bytes. reflexivity.
Qed.

Lemma zero_rep : rep None (Jac Zero Zero Zero).
Proof. change (Jac Zero Zero Zero) with infinity. apply infinity_rep. Qed.

Lemma ScalarMult_correct p k : generated p → p ≠ None → ScalarMult (to_big p).1 (to_big p).2 k = Ret (to_big (smul (be_val k) p)).
Proof.
  intros Hg Hne. pose proof (generated_on_curve _ Hg) as Hc. destruct p as [[x y]|] eqn:Ep; [|done]. rewrite <- Ep in Hg, Hc |- * at 1.
  unfold ScalarMult. pose proof (splitK_spec (moduloReduce k)) as Hk. destruct (splitK _) as [[[k1 k2] s1] s2].
  destruct Hk as (z1 & z2 & -> & -> & -> & -> & Hk & _). rewrite moduloReduce_mod in Hk. rewrite Ep. cbn [to_big fst snd].
  destruct (bigAffineToField_elt x y) as (fx & fy & -> & Hx & Hy). cbn [mbind outcome_bind].
  pose proof (operand_signed x y fx fy (Z.sgn z1) Hx Hy) as H1.
  assert (elt 1 (Mul2 fx curve_beta) (beta * x)%F) as Hx2. { pose proof curve_beta_elt. eapply elt_eq; [fe|ring]. }
  pose proof (operand_signed _ y _ fy (Z.sgn z2) Hx2 Hy) as H2.
  destruct (if bool_decide (Z.sgn z1 = -1) then _ else _) as [a1 b1] eqn:E1. clear E1. destruct (if bool_decide (Z.sgn z2 = -1) then (NegateVal fy 1, fy) else _) as [a2 b2] eqn:E2. clear E2.
  destruct (NAF (big_Bytes z1)) as [pos1 neg1] eqn:N1. destruct (NAF (big_Bytes z2)) as [pos2 neg2] eqn:N2.
  set (m := if bool_decide (length pos1 < length pos2)%nat then length pos2 else length pos1).
  assert (length pos1 <= m ∧ length pos2 <= m)%nat as [M1 M2] by (unfold m; clear; case_bool_decide; lia).
  set (y1 := if bool_decide (Z.sgn z1 = -1) then (- y)%F else y) in *. set (y2 := if bool_decide (Z.sgn z2 = -1) then (- y)%F else y) in *.
  assert (on_curve (Some (x, y1))) as C1 by (rewrite Ep in Hc; unfold y1; clear -Hc; case_bool_decide; auto using opp_on_curve).
  assert (on_curve (Some ((beta * x)%F, y2))) as C2.
  { rewrite Ep in Hc. apply phi_on_curve in Hc. cbn [phi] in Hc. unfold y2. clear -Hc. case_bool_decide; auto using opp_on_curve. }
  unfold mret, outcome_ret. f_equal. apply fieldJacobianToBigAffine_rep.
  pose proof (mult_loop_at x y1 (beta * x)%F y2 C1 C2 pos1 neg1 pos2 neg2 m (Mult (Jac Zero Zero Zero) fx a1 b1 (SetInt 1) (Mul2 fx curve_beta) a2 b2 (SetInt 1))) as Hl.
  destruct Hl as (Hq & _). { split; [rewrite !smul_0; exact zero_rep|]. split; [exact H1|exact H2]. }
  rewrite (NAF_digits _ _ _ _ N1 M1), (NAF_digits _ _ _ _ N2 M2), !big_Bytes_abs in Hq. unfold y1, y2 in Hq. rewrite Ep in Hc, Hg.
  rewrite !smul_signed in Hq; [|apply (phi_on_curve _ Hc)|done]. change (Some ((beta * x)%F, y)) with (phi (Some (x, y))) in Hq.
  rewrite generated_phi, smul_smul, <- smul_add, <- smul_mod, Hk, smul_mod in Hq by done. exact Hq.
Qed.

(** ** Multiples by tables *)

(** Entry b of row i is the point that the byte b stands for at position i. *)
Definition table_ok (g : point) (table : list (list jacobian)) : Prop :=
  length table = 32%nat ∧
  ∀ i row, table !! i = Some row → length row = 256%nat ∧ ∀ b j, row !! b = Some j → rep (smul (Z.of_nat b * 256 ^ (31 - Z.of_nat i)) g) j.

Lemma table_entry g table i b : table_ok g table → (i < 32)%nat →
  ∃ row j, table !! i = Some row ∧ row !! Z.to_nat (byte_Z b) = Some j ∧ rep (smul (byte_Z b * 256 ^ (31 - Z.of_nat i)) g) j.
Proof.
  intros [Hl Ht] Hi. destruct (lookup_lt_is_Some_2 table i) as [row Hr]; [lia|]. destruct (Ht _ _ Hr) as [Hl' Hj]. pose proof (byte_Z_range b).
  destruct (lookup_lt_is_Some_2 row (Z.to_nat (byte_Z b))) as [j Ej]; [lia|]. exists row, j. split; [done|]. split; [done|].
  apply Hj in Ej. by rewrite Z2Nat.id in Ej by lia.
Qed.

Lemma base_loop_rep g table diff : on_curve g → table_ok g table → ∀ r n q v, rep (smul v g) q → (diff + n + length r = 32)%nat →
  ∃ q', foldl (λ acc (ib : nat * byte),
    q ← acc;
    row ← from_option Ret (Panic out_of_range) (table !! (diff + ib.1)%nat);
    p ← from_option Ret (Panic out_of_range) (row !! Z.to_nat (byte_Z ib.2));
    mret (addJacobian q p).1) (Ret q) (imap (λ i b, ((n + i)%nat, b)) r) = Ret q' ∧ rep (smul (v + be_val r) g) q'.
Proof.
  intros Hg Ht. induction r as [|b r IH]; intros n q v Hq Hn; cbn [imap foldl]; [exists q; by rewrite be_val_nil, Z.add_0_r|].
  cbn [length] in Hn. destruct (table_entry g table (diff + n) b Ht) as (row & j & Er & Ej & Hj); [lia|].
  unfold compose. cbn [mbind outcome_bind fst snd]. rewrite Nat.add_0_r, Er. cbn [from_option mbind outcome_bind]. rewrite Ej. cbn [from_option mbind outcome_bind].
  unfold mret, outcome_ret. destruct (IH (S n) (addJacobian q j).1 (v + byte_Z b * 256 ^ len r)) as (q' & E & H); [|lia|].
  - rewrite smul_add by done. replace (len r) with (31 - Z.of_nat (diff + n)) by (unfold len; lia). apply addJacobian_rep; auto with curve.
  - exists q'. rewrite be_val_cons. replace (v + (byte_Z b * 256 ^ len r + be_val r)) with (v + byte_Z b * 256 ^ len r + be_val r) by lia. split; [|done].
    rewrite <- E. f_equal. apply imap_ext. intros i x _. cbn. f_equal. lia.
Qed.

Lemma moduloReduce_length k : (length (moduloReduce k) <= 32)%nat.
Proof.
  unfold moduloReduce. case_bool_decide as H.
  - apply big_Bytes_length. pose proof (Z.mod_pos_bound (be_val k) curve_N ltac:(done)) as Hm. split; [lia|]. etrans; [apply Hm|]. vm_compute. reflexivity.
  - change curve_byteSize with 32 in H. unfold len in H. lia.
Qed.

Lemma ScalarBaseMult_correct g table k :
  on_curve g → smul curve_N g = None → table_ok g table → ScalarBaseMult table k = Ret (to_big (smul (be_val k) g)).
Proof.
  intros Hg HN Ht. unfold ScalarBaseMult, base_loop. pose proof (moduloReduce_length k) as Hl. destruct Ht as [Hl' Ht'] eqn:Et. clear Et. rewrite Hl'.
  destruct (base_loop_rep g table (32 - length (moduloReduce k)) Hg (conj Hl' Ht') (moduloReduce k) 0 (Jac Zero Zero Zero) 0) as (q & E & Hq).
  { rewrite smul_0. exact zero_rep. } { lia. }
  etrans; [apply (f_equal (λ m, m ≫= _)); exact E|]. cbn [mbind outcome_bind]. unfold mret, outcome_ret. f_equal. rewrite (fieldJacobianToBigAffine_rep _ _ Hq). f_equal.
  pose proof (moduloReduce_mod k) as Hm.
  assert (∀ z, smul (z mod curve_N) g = smul z g) as Hmod; [|rewrite Z.add_0_l, <- (Hmod (be_val (moduloReduce k))), Hm; apply Hmod].
  intros z. rewrite (Z.div_mod z curve_N) at 2 by done. by rewrite smul_add, Z.mul_comm, <- smul_smul, HN, smul_none by auto.
Qed.

(** A table as the package decodes it: affine points with z = 1. *)
Definition affine_jacobian (p : point) : jacobian :=
  match p with
  | Some (x, y) => Jac (SetBytes (be_bytes 32 (Zmod.to_Z x))) (SetBytes (be_bytes 32 (Zmod.to_Z y))) (SetInt 1)
  | None => Jac Zero Zero Zero
  end.

Definition point_table (g : point) : list (list jacobian) :=
  (λ i : nat, (λ b : nat, affine_jacobian (smul (Z.of_nat b * 256 ^ (31 - Z.of_nat i)) g)) <$> seq 0 256) <$> seq 0 32.

Lemma SetBytes_elt (x : F) : elt 1 (SetBytes (be_bytes 32 (Zmod.to_Z x))) x.
Proof.
  pose proof (to_Z_range x) as Hx. destruct (SetBytes_spec (be_bytes 32 (Zmod.to_Z x))) as (Hw & H9 & Hv); [apply be_bytes_length|].
  split; [split; [|lia]; eapply Forall_impl; [exact Hw|]; cbn; unfold word_max; lia|].
  rewrite Hv, be_val_be_bytes, Z.mod_small; [apply of_int_to_Z|]. split; [lia|]. etrans; [apply Hx|]. vm_compute. reflexivity.
Qed.

Lemma affine_jacobian_rep p : rep p (affine_jacobian p).
Proof. destruct p as [[x y]|]; [|apply zero_rep]. cbn [affine_jacobian]. apply affine_rep; apply SetBytes_elt. Qed.

Lemma point_table_ok g : table_ok g (point_table g).
Proof.
  unfold point_table. split; [by rewrite length_fmap, length_seq|]. intros i row Hr. rewrite list_lookup_fmap_Some in Hr. destruct Hr as (i' & -> & Hi).
  apply lookup_seq in Hi as [-> Hi]. split; [by rewrite length_fmap, length_seq|]. intros b j Hj. rewrite list_lookup_fmap_Some in Hj. destruct Hj as (b' & -> & Hb).
  apply lookup_seq in Hb as [-> Hb]. apply affine_jacobian_rep.
Qed.

(** ** Claims *)

(** C29. Scalar multiplication is exact. For every multiple p of the base point other than
    the point at infinity and every byte string k, [ScalarMult], which splits the scalar
    by the endomorphism, recodes both halves in non-adjacent form and shares the
    doublings, returns the k-fold sum of p, where k is the number of the bytes, of any
    length.  [ScalarBaseMult] and [ScalarBaseMultH] return the k-fold sum of the point of
    their table, if it has order N and the entry for byte b at position i stands for the
    multiple by b * 256^(31 - i); none of them fails.  The base point has order N. *)
Theorem scalar_multiplication p g table k (Hp : generated p) (Hne : p ≠ None) (Hg : on_curve g) (HN : smul curve_N g = None) (Ht : table_ok g table) :
  ScalarMult (to_big p).1 (to_big p).2 k = Ret (to_big (smul (be_val k) p)) ∧
  ScalarBaseMult table k = Ret (to_big (smul (be_val k) g)) ∧ ScalarBaseMultH table k = Ret (to_big (smul (be_val k) g)) ∧
  smul curve_N base_point = None.
Proof.
  split; [by apply ScalarMult_correct|]. split; [by apply ScalarBaseMult_correct|]. split; [by apply (ScalarBaseMult_correct g)|]. exact base_order.
Qed.

Lemma base_generated : generated base_point.
Proof. exists 1. by rewrite smul_1 by exact base_on_curve. Qed.

Lemma scalar_multiplication_witness :
  ScalarMult curve_Gx curve_Gy [x01; x00] = ScalarBaseMult (point_table base_point) [x00; x01; x00] ∧
  ScalarMult curve_Gx curve_Gy [x01; x00] = Ret (to_big (smul 256 base_point)).
Proof.
  assert (to_big base_point = (curve_Gx, curve_Gy)) as E by (vm_compute; reflexivity).
  destruct (scalar_multiplication base_point base_point (point_table base_point) [x01; x00] base_generated ltac:(discriminate) base_on_curve base_order (point_table_ok _)) as (H1 & _).
  destruct (scalar_multiplication base_point base_point (point_table base_point) [x00; x01; x00] base_generated ltac:(discriminate) base_on_curve base_order (point_table_ok _)) as (_ & H2 & _).
  rewrite E in H1. cbn [fst snd] in H1. rewrite H1, H2. split; reflexivity.
Defined.

(** C34. The recoding of scalars is exact and short. The positive and the negative digits of
    [NAF] have the same length, at most one byte more than the scalar, and their bits,
    read as [ScalarMult] reads them, sum up to the scalar; of two neighbouring digits one
    is zero. [splitK] writes the scalar as
    k1 + k2 * lambda modulo N with halves, returned by absolute value and sign, below
    2^129 for scalars of any size; [moduloReduce] keeps the residue modulo N and leaves
    at most 32 bytes. *)
Theorem scalar_recoding k :
  (let '(poss, negs) := NAF k in
   length poss = length negs ∧ (length poss <= S (length k))%nat ∧ digits_val (naf_digits poss negs) = be_val k ∧
   sparse (Z.lor (be_val poss) (be_val negs))) ∧
  (let '(k1, k2, s1, s2) := splitK k in
   (s1 * be_val k1 + s2 * be_val k2 * curve_lambda) mod curve_N = be_val k mod curve_N ∧ be_val k1 < 2 ^ 129 ∧ be_val k2 < 2 ^ 129) ∧
  be_val (moduloReduce k) mod curve_N = be_val k mod curve_N ∧ (length (moduloReduce k) <= 32)%nat.
Proof.
  split. { pose proof (NAF_spec k) as H. pose proof (NAF_sparse k) as Hs. destruct (NAF k) as [poss negs]. by destruct H as (? & ? & ?). }
  split; [|split; [apply moduloReduce_mod|apply moduloReduce_length]].
  pose proof (splitK_spec k) as H. destruct (splitK k) as [[[k1 k2] s1] s2]. destruct H as (z1 & z2 & -> & -> & -> & -> & H & H1 & H2).
  rewrite !big_Bytes_abs, (Z.mul_comm (Z.sgn z1)), (Z.mul_comm (Z.sgn z2)), !Z.abs_sgn. done.
Qed.
