(* ===== verification/PubKey.v ===== *)
(** * Keys (crypto/btcec/pubkey.go, privkey.go)

    A public key is the pair of its coordinates; the curve, which every key points to,
    is the one of the package.  [NewPrivateKey] draws from the random source of the
    system and is left out; [ToECDSA] and [PubKey] are conversions of pointers. *)

From Stdlib Require Import ZArith Lia.
From stdpp Require Import pretty.
From S2P Require Import Prelude Buffers Engine PrimeField Der Curve.

Local Open Scope Z_scope.

Definition PubKeyBytesLenCompressed : Z := 33.
Definition PubKeyBytesLenUncompressed : Z := 65.
Definition PubKeyBytesLenHybrid : Z := 65.

Definition pubkeyCompressed : Z := 0x2.
Definition pubkeyUncompressed : Z := 0x4.
Definition pubkeyHybrid : Z := 0x6.

(** [PublicKey] and [PrivateKey]: the coordinates, and the number with its public key. *)
Record PubKey := MkPub { pub_X : Z; pub_Y : Z }.
#[export] Instance PubKey_eq_dec : EqDecision PubKey.
Proof. solve_decision. Defined.

Record PrivKey := MkPriv { priv_pub : PubKey; priv_D : Z }.

(** [big.Int.Exp] for an exponent that is not negative and a positive modulus. *)
Definition big_Exp (x y m : Z) : Z := pow_mod (by_division m) x y mod m.

(** ** Public keys *)

Definition isOdd (a : Z) : bool := Z.testbit a 0.

Definition decompressPoint (x : Z) (ybit : bool) : outcome Z :=
  let x3 := x * x * x + curve_B in
  let y := big_Exp x3 QPlus1Div4 curve_P in
  let y := if bool_decide (ybit ≠ isOdd y) then curve_P - y else y in
  if bool_decide (ybit ≠ isOdd y) then Err "ybit doesn't match oddness" else mret y.

Definition btcec_ParsePubKey (pubKeyStr : bytes) : outcome PubKey :=
  match pubKeyStr with
  | [] => Err "pubkey string is empty"
  | b0 :: _ =>
      let format := byte_Z b0 in
      let ybit := bool_decide (Z.land format 0x1 = 0x1) in
      let format := Z.ldiff format 0x1 in
      '(X, Y) ←
        (if bool_decide (len pubKeyStr = PubKeyBytesLenUncompressed) then
           _ ← req (negb (bool_decide (format ≠ pubkeyUncompressed) && bool_decide (format ≠ pubkeyHybrid)))
                 ("invalid magic in pubkey str: " +:+ pretty (byte_Z b0));
           let X := be_val (sub pubKeyStr 1 33) in
           let Y := be_val (drop 33 pubKeyStr) in
           _ ← req (negb (bool_decide (format = pubkeyHybrid) && bool_decide (ybit ≠ isOdd Y))) "ybit doesn't match oddness";
           mret (X, Y)
         else if bool_decide (len pubKeyStr = PubKeyBytesLenCompressed) then
           _ ← req (negb (bool_decide (format ≠ pubkeyCompressed)))
                 ("invalid magic in compressed pubkey string: " +:+ pretty (byte_Z b0));
           let X := be_val (sub pubKeyStr 1 33) in
           Y ← decompressPoint X ybit;
           mret (X, Y)
         else Err ("invalid pub key length " +:+ pretty (len pubKeyStr)));
      _ ← req (negb (bool_decide (X >= curve_P))) "pubkey X parameter is >= to P";
      _ ← req (negb (bool_decide (Y >= curve_P))) "pubkey Y parameter is >= to P";
      on ← IsOnCurve X Y;
      _ ← req on "pubkey isn't on secp256k1 curve";
      mret (MkPub X Y)
  end.

Definition paddedAppend (size : nat) (dst src : bytes) : bytes := dst ++ zeros (size - length src) ++ src.

Definition SerializeUncompressed (p : PubKey) : bytes :=
  let b := [Z_byte pubkeyUncompressed] in
  let b := paddedAppend 32 b (big_Bytes (pub_X p)) in
  paddedAppend 32 b (big_Bytes (pub_Y p)).

Definition SerializeCompressed (p : PubKey) : bytes :=
  let format := if isOdd (pub_Y p) then Z.lor pubkeyCompressed 0x1 else pubkeyCompressed in
  paddedAppend 32 [Z_byte format] (big_Bytes (pub_X p)).

Definition SerializeHybrid (p : PubKey) : bytes :=
  let format := if isOdd (pub_Y p) then Z.lor pubkeyHybrid 0x1 else pubkeyHybrid in
  let b := paddedAppend 32 [Z_byte format] (big_Bytes (pub_X p)) in
  paddedAppend 32 b (big_Bytes (pub_Y p)).

Definition PublicKey_IsEqual (p otherPubKey : PubKey) : bool :=
  bool_decide (pub_X p = pub_X otherPubKey) && bool_decide (pub_Y p = pub_Y otherPubKey).

(** ** Private keys *)

Definition PrivKeyBytesLen : nat := 32.

Definition PrivKeyFromBytes (table : list (list jacobian)) (pk : bytes) : outcome (PrivKey * PubKey) :=
  '(x, y) ← ScalarBaseMult table pk;
  let priv := MkPriv (MkPub x y) (be_val pk) in
  mret (priv, priv_pub priv).

Definition PrivateKey_Serialize (p : PrivKey) : bytes := paddedAppend PrivKeyBytesLen [] (big_Bytes (priv_D p)).
