(* ===== verification/PubKeyTheorems.v ===== *)
(** * Public keys as bytes: what is parsed, and what is written

    The parser accepts exactly the encodings of the points of the curve in its formats. *)

From Stdlib Require Import ZArith Lia Zdivisibility Zmod Field.
From stdpp Require Import pretty.
From S2P Require Import Prelude Buffers ScriptTheorems Engine FieldTheorems PrimeField GroupLaw Der DerTheorems Curve CurveTheorems Multiples ScalarTheorems PubKey.

Local Open Scope Z_scope.

(** ** Square roots *)

Lemma big_Exp_spec x y m : 0 < m → 0 <= y → big_Exp x y m = x ^ y mod m.
Proof. intros Hm Hy. unfold big_Exp. by apply pow_mod_spec; [apply division_keeps|..]. Qed.

Lemma curve_q_pos : 0 <= curve_q.
Proof. vm_compute. discriminate. Qed.

Lemma curve_q_value : 4 * curve_q = fieldPrime + 1.
Proof. reflexivity. Qed.

Lemma square_of_root a (y : F) : of_int a = (y * y)%F → (of_int (a ^ curve_q) * of_int (a ^ curve_q))%F = (y * y)%F.
Proof.
  set (Y := Zmod.to_Z y). assert ((y * y)%F = of_int (Y * Y)) as -> by (unfold Y; by rewrite of_int_mul, of_int_to_Z).
  intros E. rewrite <- of_int_mul. apply of_int_eq in E. apply of_int_eq. unfold eqp in *.
  rewrite Z.mul_mod, <- (Z.mod_pow_l a), E, Z.mod_pow_l, <- Z.mul_mod by done.
  pose proof curve_q_pos. rewrite <- (Z.pow_2_r Y), <- !Z.pow_mul_r, <- Z.pow_add_r by lia.
  replace (2 * curve_q + 2 * curve_q) with (Z.succ fieldPrime) by (pose proof curve_q_value; lia).
  rewrite Z.pow_succ_r, <- Z.mul_mod_idemp_r, Z.fermat, Z.mul_mod_idemp_r by (exact fieldPrime_prime || done). f_equal. ring.
Qed.

Lemma F_square_roots (x y : F) : (x * x = y * y)%F → x = y ∨ x = (- y)%F.
Proof.
  intros E. destruct (F_mul_zero (x - y)%F (x + y)%F) as [H|H].
  - transitivity (x * x - y * y)%F; [ring|rewrite E; ring].
  - left. by apply F_sub_zero.
  - right. apply F_sub_zero. rewrite <- H. ring.
Qed.

Lemma to_Z_opp (y : F) : y ≠ 0%F → Zmod.to_Z (- y)%F = fieldPrime - Zmod.to_Z y.
Proof.
  intros Hy. pose proof (to_Z_range y). assert (Zmod.to_Z y ≠ 0) by (by rewrite to_Z_zero).
  rewrite Zmod.to_Z_opp, Z.mod_opp_l_nz by (rewrite ?Z.mod_small; lia). by rewrite Z.mod_small.
Qed.

Lemma isOdd_odd z : isOdd z = Z.odd z.
Proof. apply Z.bit0_odd. Qed.

Lemma odd_opp z : Z.odd (fieldPrime - z) = negb (Z.odd z).
Proof. by rewrite Z.odd_sub. Qed.

Lemma ne_self (b : bool) : bool_decide (b ≠ b) = false.
Proof. by destruct b. Qed.
Lemma ne_negb (b : bool) : bool_decide (b ≠ negb b) = true.
Proof. by destruct b. Qed.

(** The square root of the given oddness. *)
Lemma decompressPoint_correct (x y : F) : on_curve (Some (x, y)) → decompressPoint (Zmod.to_Z x) (isOdd (Zmod.to_Z y)) = Ret (Zmod.to_Z y).
Proof.
  intros Hon. pose proof (y_nonzero _ _ Hon) as Hy. cbn in Hon. cbv beta zeta delta [decompressPoint]. set (a := Zmod.to_Z x * Zmod.to_Z x * Zmod.to_Z x + curve_B).
  assert (of_int a = (y * y)%F) as Ha by (unfold a; by rewrite of_int_add, !of_int_mul, !of_int_to_Z, Hon).
  rewrite big_Exp_spec by (exact curve_q_pos || exact eq_refl). change QPlus1Div4 with curve_q. change curve_P with fieldPrime.
  assert (a ^ curve_q mod fieldPrime = Zmod.to_Z (of_int (a ^ curve_q))) as -> by (symmetry; apply Zmod.to_Z_of_Z).
  destruct (F_square_roots _ _ (square_of_root a y Ha)) as [-> | ->].
  - by rewrite !ne_self.
  - rewrite to_Z_opp by done. rewrite !isOdd_odd, odd_opp, ne_negb.
    replace (fieldPrime - (fieldPrime - Zmod.to_Z y)) with (Zmod.to_Z y) by lia. by rewrite ne_self.
Qed.

Lemma decompressPoint_odd x b y : decompressPoint x b = Ret y → isOdd y = b ∧ 0 <= y.
Proof.
  cbv beta zeta delta [decompressPoint]. rewrite big_Exp_spec by (exact curve_q_pos || exact eq_refl). set (r := _ mod _). assert (0 <= r < curve_P) as Hr by (by apply Z.mod_pos_bound).
  set (r' := if bool_decide _ then curve_P - r else r). destruct (bool_decide_reflect (b ≠ isOdd r')) as [|E]; [discriminate|]. injection 1 as <-. split.
  - destruct b, (isOdd r'); try done; by destruct E.
  - unfold r'. case_bool_decide; lia.
Qed.

Lemma decompressPoint_no_panic x b : (∃ y, decompressPoint x b = Ret y) ∨ ∃ e, decompressPoint x b = Err e.
Proof. cbv beta zeta delta [decompressPoint]. case_bool_decide; case_bool_decide; eauto. Qed.

(** ** Coordinates as bytes *)

Lemma padded_coordinate dst z : 0 <= z < curve_P → paddedAppend 32 dst (big_Bytes z) = dst ++ be_bytes 32 z.
Proof.
  intros Hz. unfold paddedAppend. f_equal. assert (length (big_Bytes z) <= 32)%nat as Hl by (apply big_Bytes_length; change curve_P with fieldPrime in Hz; unfold fieldPrime in Hz; lia).
  apply be_bytes_unique; [rewrite length_app, length_zeros; lia|]. by rewrite be_val_zeros, big_Bytes_be by lia.
Qed.

Definition key_of (p : point) : PubKey := MkPub (to_big p).1 (to_big p).2.

Lemma to_big_range p : 0 <= (to_big p).1 < curve_P ∧ 0 <= (to_big p).2 < curve_P.
Proof. destruct p as [[x y]|]; cbn; [split; apply to_Z_range|done]. Qed.

Lemma to_big_inj p q : on_curve p → on_curve q → to_big p = to_big q → p = q.
Proof.
  intros Hp Hq E. pose proof (to_big_infinity p Hp) as H1. rewrite E, (to_big_infinity q Hq) in H1.
  destruct p as [[x y]|], q as [[x' y']|]; [|rewrite bool_decide_true, bool_decide_false in H1 by discriminate || reflexivity; discriminate|rewrite bool_decide_false, bool_decide_true in H1 by discriminate || reflexivity; discriminate|done].
  injection E as Ex Ey. apply Zmod.to_Z_inj in Ex, Ey. by subst.
Qed.

(** The formats, by their first byte. *)
Definition format_byte (format : Z) (odd : bool) : byte := Z_byte (if odd then Z.lor format 1 else format).

Lemma SerializeCompressed_bytes p : SerializeCompressed (key_of p) = format_byte pubkeyCompressed (isOdd (to_big p).2) :: be_bytes 32 (to_big p).1.
Proof. destruct (to_big_range p). unfold SerializeCompressed, key_of. cbn [pub_X pub_Y]. by rewrite padded_coordinate. Qed.

Lemma SerializeUncompressed_bytes p : SerializeUncompressed (key_of p) = x04 :: be_bytes 32 (to_big p).1 ++ be_bytes 32 (to_big p).2.
Proof. destruct (to_big_range p). unfold SerializeUncompressed, key_of. cbn [pub_X pub_Y]. by rewrite !padded_coordinate. Qed.

Lemma SerializeHybrid_bytes p :
  SerializeHybrid (key_of p) = format_byte pubkeyHybrid (isOdd (to_big p).2) :: be_bytes 32 (to_big p).1 ++ be_bytes 32 (to_big p).2.
Proof. destruct (to_big_range p). unfold SerializeHybrid, key_of. cbn [pub_X pub_Y]. by rewrite !padded_coordinate. Qed.

(** ** Parsing *)

Lemma format_bits b0 f : Z.ldiff (byte_Z b0) 1 = f → b0 = format_byte f (bool_decide (Z.land (byte_Z b0) 1 = 1)).
Proof. intros <-. destruct b0; reflexivity. Qed.

Lemma format_byte_bits f odd : f = pubkeyCompressed ∨ f = pubkeyUncompressed ∨ f = pubkeyHybrid →
  Z.ldiff (byte_Z (format_byte f odd)) 1 = f ∧ bool_decide (Z.land (byte_Z (format_byte f odd)) 1 = 1) = odd.
Proof. by intros [-> | [-> | ->]]; destruct odd. Qed.

(** The checks that all formats share. *)
Definition checked (X Y : Z) : outcome PubKey :=
  _ ← req (negb (bool_decide (X >= curve_P))) "pubkey X parameter is >= to P";
  _ ← req (negb (bool_decide (Y >= curve_P))) "pubkey Y parameter is >= to P";
  on ← IsOnCurve X Y;
  _ ← req on "pubkey isn't on secp256k1 curve";
  mret (MkPub X Y).

Lemma to_Z_of_int z : 0 <= z < curve_P → Zmod.to_Z (of_int z) = z.
Proof. intros Hz. unfold of_int. rewrite Zmod.to_Z_of_Z. by apply Z.mod_small. Qed.

Lemma checked_inv X Y : 0 <= X → 0 <= Y →
  (∃ p, on_curve p ∧ p ≠ None ∧ to_big p = (X, Y) ∧ checked X Y = Ret (key_of p)) ∨ (∃ e, checked X Y = Err e).
Proof.
  intros HX HY. unfold checked, req.
  destruct (bool_decide_reflect (X >= curve_P)); [right; eexists; reflexivity|]. destruct (bool_decide_reflect (Y >= curve_P)); [right; eexists; reflexivity|].
  cbn [negb mbind outcome_bind mret outcome_ret].
  pose proof (IsOnCurve_correct (of_int X) (of_int Y)) as E. rewrite !to_Z_of_int in E by lia. rewrite E. cbn [mbind outcome_bind].
  destruct (bool_decide_reflect (of_int Y * of_int Y = of_int X * of_int X * of_int X + 7)%F) as [Hon|]; cbn [mbind outcome_bind mret outcome_ret]; [|right; eexists; reflexivity].
  left. exists (Some (of_int X, of_int Y)). split; [exact Hon|]. split; [done|]. assert (to_big (Some (of_int X, of_int Y)) = (X, Y)) as Eb by (cbn [to_big]; by rewrite !to_Z_of_int by lia).
  split; [done|]. unfold key_of. by rewrite Eb.
Qed.

Lemma checked_ok x y : on_curve (Some (x, y)) → checked (Zmod.to_Z x) (Zmod.to_Z y) = Ret (key_of (Some (x, y))).
Proof.
  intros Hon. unfold checked. pose proof (to_Z_range x). pose proof (to_Z_range y). rewrite !bool_decide_false by (unfold curve_P; unfold fieldPrime in *; lia).
  unfold req. cbn [negb mbind outcome_bind mret outcome_ret]. rewrite IsOnCurve_correct, bool_decide_true by exact Hon. done.
Qed.

Lemma parse_compressed b0 xs : length xs = 32%nat →
  btcec_ParsePubKey (b0 :: xs) =
    (_ ← req (negb (bool_decide (Z.ldiff (byte_Z b0) 1 ≠ pubkeyCompressed))) ("invalid magic in compressed pubkey string: " +:+ pretty (byte_Z b0));
     Y ← decompressPoint (be_val xs) (bool_decide (Z.land (byte_Z b0) 1 = 1));
     checked (be_val xs) Y).
Proof.
  intros Hl. cbv beta zeta delta [btcec_ParsePubKey]. assert (len (b0 :: xs) = 33) as El by (unfold len; cbn [length]; lia).
  rewrite El, bool_decide_false, bool_decide_true by done.
  assert (sub (b0 :: xs) 1 33 = xs) as -> by (apply take_ge; cbn; lia).
  destruct (req _ _); [|reflexivity..]. cbn [mbind outcome_bind]. destruct (decompressPoint _ _); reflexivity.
Qed.

Lemma parse_long b0 xs ys : length xs = 32%nat → length ys = 32%nat →
  btcec_ParsePubKey (b0 :: xs ++ ys) =
    (_ ← req (negb (bool_decide (Z.ldiff (byte_Z b0) 1 ≠ pubkeyUncompressed) && bool_decide (Z.ldiff (byte_Z b0) 1 ≠ pubkeyHybrid)))
           ("invalid magic in pubkey str: " +:+ pretty (byte_Z b0));
     _ ← req (negb (bool_decide (Z.ldiff (byte_Z b0) 1 = pubkeyHybrid) && bool_decide (bool_decide (Z.land (byte_Z b0) 1 = 1) ≠ isOdd (be_val ys)))) "ybit doesn't match oddness";
     checked (be_val xs) (be_val ys)).
Proof.
  intros Hx Hy. cbv beta zeta delta [btcec_ParsePubKey]. assert (len (b0 :: xs ++ ys) = 65) as El by (unfold len; cbn [length]; rewrite length_app; lia).
  rewrite El, bool_decide_true by done.
  assert (sub (b0 :: xs ++ ys) 1 33 = xs) as -> by (apply take_app_length'; cbn; lia).
  assert (drop 33 (b0 :: xs ++ ys) = ys) as -> by (change (drop 32 (xs ++ ys) = ys); by apply drop_app_length').
  destruct (req (negb (bool_decide (_ ≠ pubkeyUncompressed) && _)) _); [|reflexivity..]. cbn [mbind outcome_bind].
  destruct (req (negb (bool_decide (_ = pubkeyHybrid) && _)) _); reflexivity.
Qed.

Lemma parse_other b : length b ≠ 33%nat → length b ≠ 65%nat → ∃ e, btcec_ParsePubKey b = Err e.
Proof.
  intros H1 H2. destruct b as [|b0 b]; [by eexists|]. cbv beta zeta delta [btcec_ParsePubKey]. unfold len in *. rewrite !bool_decide_false by (unfold PubKeyBytesLenCompressed, PubKeyBytesLenUncompressed; lia).
  by eexists.
Qed.

(** What is accepted: the encodings of the points, and one more prefix. *)
Definition encodes (b : bytes) (p : point) : Prop :=
  b = SerializeCompressed (key_of p) ∨ b = SerializeUncompressed (key_of p) ∨ b = SerializeHybrid (key_of p) ∨
  b = x05 :: drop 1 (SerializeUncompressed (key_of p)).

Lemma be_val_32 z : 0 <= z < curve_P → be_val (be_bytes 32 z) = z.
Proof. intros Hz. rewrite be_val_be_bytes. apply Z.mod_small. unfold curve_P in Hz. lia. Qed.

Lemma parse_encoded b p : on_curve p → p ≠ None → encodes b p → btcec_ParsePubKey b = Ret (key_of p).
Proof.
  intros Hon Hp Hb. destruct p as [[x y]|]; [|done]. destruct (to_big_range (Some (x, y))) as [Hx Hy].
  assert (∀ b0, b0 = x04 ∨ b0 = x05 ∨ b0 = format_byte pubkeyHybrid (isOdd (to_big (Some (x, y))).2) →
    btcec_ParsePubKey (b0 :: be_bytes 32 (to_big (Some (x, y))).1 ++ be_bytes 32 (to_big (Some (x, y))).2) = Ret (key_of (Some (x, y)))) as Hlong.
  { intros b0 Hb0. rewrite parse_long, !be_val_32 by (done || apply be_bytes_length). rewrite <- (checked_ok _ _ Hon). cbn [to_big fst snd].
    destruct Hb0 as [-> | [-> | ->]]; [reflexivity..|]. destruct (format_byte_bits pubkeyHybrid (isOdd (to_big (Some (x, y))).2)) as [E1 E2]; [by auto|].
    rewrite E1, E2. cbn [to_big fst snd]. rewrite ne_self. reflexivity. }
  destruct Hb as [-> | [-> | [-> | ->]]].
  - rewrite SerializeCompressed_bytes, parse_compressed by apply be_bytes_length.
    destruct (format_byte_bits pubkeyCompressed (isOdd (to_big (Some (x, y))).2)) as [E1 E2]; [by auto|].
    rewrite E1, E2, be_val_32 by done. cbn [to_big fst snd]. rewrite decompressPoint_correct by done. exact (checked_ok _ _ Hon).
  - rewrite SerializeUncompressed_bytes. apply Hlong. auto.
  - rewrite SerializeHybrid_bytes. apply Hlong. auto.
  - rewrite SerializeUncompressed_bytes. apply Hlong. auto.
Qed.

Lemma key_of_split xs ys p : length xs = 32%nat → length ys = 32%nat → to_big p = (be_val xs, be_val ys) →
  xs = be_bytes 32 (to_big p).1 ∧ ys = be_bytes 32 (to_big p).2.
Proof. intros Hx Hy ->. cbn [fst snd]. split; by apply be_bytes_unique. Qed.

Lemma parsed_long b0 xs ys : length xs = 32%nat → length ys = 32%nat →
  (∃ p, on_curve p ∧ p ≠ None ∧ encodes (b0 :: xs ++ ys) p) ∨ ∃ e, btcec_ParsePubKey (b0 :: xs ++ ys) = Err e.
Proof.
  intros Hx Hy. rewrite parse_long by done. unfold req. pose proof (be_val_range xs). pose proof (be_val_range ys).
  destruct (bool_decide (Z.ldiff (byte_Z b0) 1 ≠ pubkeyUncompressed) && bool_decide (Z.ldiff (byte_Z b0) 1 ≠ pubkeyHybrid)) eqn:E1; [right; eexists; reflexivity|].
  destruct (bool_decide (Z.ldiff (byte_Z b0) 1 = pubkeyHybrid) && bool_decide (bool_decide (Z.land (byte_Z b0) 1 = 1) ≠ isOdd (be_val ys))) eqn:E2; [right; eexists; reflexivity|].
  cbn [negb mbind outcome_bind mret outcome_ret]. destruct (checked_inv (be_val xs) (be_val ys)) as [(p & Hon & Hp & Eb & _)|[e E]]; [lia..| |right; by exists e].
  left. exists p. split; [done|]. split; [done|]. destruct (key_of_split xs ys p Hx Hy Eb) as [Ex Ey].
  unfold encodes. rewrite SerializeUncompressed_bytes, SerializeHybrid_bytes, <- Ex, <- Ey. assert ((to_big p).2 = be_val ys) as -> by (by rewrite Eb).
  apply andb_false_iff in E1 as [E1|E1]; apply bool_decide_eq_false in E1; apply dec_stable in E1; pose proof (format_bits _ _ E1) as Hb0.
  - destruct (bool_decide (_ = 1)) in Hb0; subst b0; [do 3 right|right; left]; reflexivity.
  - rewrite E1, bool_decide_true in E2 by done. cbn [andb] in E2. apply bool_decide_eq_false, dec_stable in E2. rewrite E2 in Hb0. subst b0. do 2 right. left. reflexivity.
Qed.

Lemma parsed_short b0 xs : length xs = 32%nat →
  (∃ p, on_curve p ∧ p ≠ None ∧ encodes (b0 :: xs) p) ∨ ∃ e, btcec_ParsePubKey (b0 :: xs) = Err e.
Proof.
  intros Hx. rewrite parse_compressed by done. unfold req. pose proof (be_val_range xs).
  destruct (bool_decide_reflect (Z.ldiff (byte_Z b0) 1 ≠ pubkeyCompressed)) as [|E1]; [right; eexists; reflexivity|].
  cbn [negb mbind outcome_bind mret outcome_ret]. apply dec_stable in E1.
  destruct (decompressPoint_no_panic (be_val xs) (bool_decide (Z.land (byte_Z b0) 1 = 1))) as [[Y EY]|[e ->]]; [|right; eexists; reflexivity].
  rewrite EY. apply decompressPoint_odd in EY as [Hodd HY]. cbn [mbind outcome_bind].
  destruct (checked_inv (be_val xs) Y) as [(p & Hon & Hp & Eb & _)|[e E]]; [lia..| |right; by exists e].
  left. exists p. split; [done|]. split; [done|]. left. rewrite SerializeCompressed_bytes, Eb. cbn [fst snd]. rewrite Hodd, <- (format_bits b0 _ E1). f_equal. by apply be_bytes_unique.
Qed.

Lemma parsed_encodes b : (∃ p, on_curve p ∧ p ≠ None ∧ encodes b p) ∨ ∃ e, btcec_ParsePubKey b = Err e.
Proof.
  destruct (decide (length b = 33%nat)) as [Hl|]; [|destruct (decide (length b = 65%nat)) as [Hl|]; [|right; by apply parse_other]].
  - destruct b as [|b0 b]; [done|]. apply parsed_short. by injection Hl.
  - destruct b as [|b0 b]; [done|]. injection Hl as Hl. rewrite <- (take_drop 32 b). apply parsed_long; rewrite ?length_take, ?length_drop; lia.
Qed.

(** ** Claims *)

(** C31. Public keys are parsed exactly. [ParsePubKey] never panics, and it returns a key
    if and only if the bytes encode a point of the curve other than the point at
    infinity: as [SerializeCompressed], [SerializeUncompressed] or [SerializeHybrid]
    writes it, or in the uncompressed format with the prefix 0x05.  The key is that
    point; for the compressed format this includes that the exponentiation of
    [decompressPoint] finds the square root of the given oddness.  Distinct points have
    distinct keys, and [IsEqual] compares them. *)
Theorem public_keys b key :
  (btcec_ParsePubKey b = Ret key ↔ ∃ p, on_curve p ∧ p ≠ None ∧ key = key_of p ∧
     (b = SerializeCompressed key ∨ b = SerializeUncompressed key ∨ b = SerializeHybrid key ∨ b = x05 :: drop 1 (SerializeUncompressed key))) ∧
  (∀ s, btcec_ParsePubKey b ≠ Panic s) ∧
  (∀ p q, on_curve p → on_curve q → PublicKey_IsEqual (key_of p) (key_of q) = bool_decide (p = q)).
Proof.
  split; [|split].
  - split; [|by intros (p & Hon & Hp & -> & Hb); apply parse_encoded].
    intros E. destruct (parsed_encodes b) as [(p & Hon & Hp & Hb)|[e E']]; [|by rewrite E' in E]. exists p. split; [done|]. split; [done|].
    rewrite (parse_encoded b p Hon Hp Hb) in E. injection E as <-. auto.
  - intros s E. destruct (parsed_encodes b) as [(p & Hon & Hp & Hb)|[e E']]; [|by rewrite E' in E]. by rewrite (parse_encoded b p Hon Hp Hb) in E.
  - intros p q Hp Hq. unfold PublicKey_IsEqual, key_of. cbn [pub_X pub_Y]. rewrite <- bool_decide_and. apply bool_decide_ext. split; [|by intros ->].
    intros [Ex Ey]. by apply to_big_inj; [..|apply injective_projections].
Qed.
