(* ===== verification/EcdsaSign.v ===== *)
(** * Signing, verifying and recovering keys (crypto/btcec/signature.go, privkey.go)

    What the file uses of Go's library is modelled as it is documented: HMAC over
    SHA-256 (crypto/hmac), [big.Int.ModInverse], which gives nil when there is no inverse,
    and [ecdsa.Verify] for a curve without fast paths of its own.  The tables behind
    [ScalarBaseMult] are a parameter, as in [Curve].

    [nonceRFC6979] tries candidates until one is in range; [fuel] bounds their number and
    None means that no candidate was in range so far. *)

From Stdlib Require Import ZArith Lia Zcong.
From S2P Require Import Prelude Buffers Crypto Engine Der Curve PubKey.

Local Open Scope Z_scope.

(** ** What is used of the library *)

Definition BitLen (z : Z) : Z := if bool_decide (z = 0) then 0 else Z.log2 (Z.abs z) + 1.

Definition ModInverse (g n : Z) : option Z := if bool_decide (Z.gcd g n = 1) then Some (Z.invmod g n) else None.

(** A use of a number that may be nil. *)
Definition deref (z : option Z) : outcome Z := match z with Some z => mret z | None => Panic nil_deref end.

Definition byte_xor (x : Z) (b : byte) : byte := Z_byte (Z.lxor (byte_Z b) x).

(** ** Hashes as numbers *)

Definition hashToInt (hash : bytes) : Z :=
  let orderBits := BitLen curve_N in
  let orderBytes := (orderBits + 7) / 8 in
  let hash := if bool_decide (len hash > orderBytes) then take (Z.to_nat orderBytes) hash else hash in
  let ret := be_val hash in
  let excess := len hash * 8 - orderBits in
  if bool_decide (excess > 0) then Z.shiftr ret excess else ret.

Definition int2octets (v : Z) (rolen : nat) : bytes :=
  let out := big_Bytes v in
  if bool_decide (length out < rolen)%nat then zeros (rolen - length out) ++ out
  else if bool_decide (rolen < length out)%nat then go_copy (zeros rolen) (drop (length out - rolen) out)
  else out.

Definition bits2octets (b : bytes) (rolen : nat) : bytes :=
  let z1 := hashToInt b in
  let z2 := z1 - curve_N in
  if bool_decide (z2 < 0) then int2octets z1 rolen else int2octets z2 rolen.

Section Signatures.
Context `{HashFunction} (table : list (list jacobian)).

(** HMAC (RFC 2104) with the block size 64 of SHA-256. *)
Definition mac (k m : bytes) : bytes :=
  let k := if bool_decide (len k > 64) then Sum256 k else k in
  let k := k ++ zeros (64 - length k) in
  Sum256 (map (byte_xor 0x5c) k ++ Sum256 (map (byte_xor 0x36) k ++ m)).

(** ** The nonce *)

(** Step H2: [v] until there are enough bits. *)
Fixpoint collect (fuel : nat) (k v t : bytes) : bytes * bytes :=
  match fuel with
  | 0%nat => (v, t)
  | S fuel => if bool_decide (len t * 8 < BitLen curve_N) then let v := mac k v in collect fuel k v (t ++ v) else (v, t)
  end.

Fixpoint nonce_loop (fuel : nat) (k v : bytes) : option Z :=
  match fuel with
  | 0%nat => None
  | S fuel =>
      let '(v, t) := collect 32 k v [] in
      let secret := hashToInt t in
      if bool_decide (secret >= 1) && bool_decide (secret < curve_N) then Some secret
      else
        let k := mac k (v ++ [x00]) in
        let v := mac k v in
        nonce_loop fuel k v
  end.

Definition nonceRFC6979 (fuel : nat) (privkey : Z) (hash : bytes) : option Z :=
  let qlen := BitLen curve_N in
  let holen := 32%nat in
  let rolen := Z.to_nat (Z.shiftr (qlen + 7) 3) in
  let bx := int2octets privkey rolen ++ bits2octets hash rolen in
  let v := replicate holen x01 in
  let k := zeros holen in
  let k := mac k (v ++ [x00] ++ bx) in
  let v := mac k v in
  let k := mac k (v ++ [x01] ++ bx) in
  let v := mac k v in
  nonce_loop fuel k v.

(** ** Signing *)

(** [signRFC6979] after the nonce. *)
Definition sign_with (k : Z) (privateKey : PrivKey) (hash : bytes) : outcome DerSignature :=
  let inv := ModInverse k curve_N in
  '(r, _) ← ScalarBaseMult table (big_Bytes k);
  let r := if bool_decide (r > curve_N) then r - curve_N else r in
  if bool_decide (r = 0) then Err "calculated R is zero"
  else
    let e := hashToInt hash in
    inv ← deref inv;
    let s := (priv_D privateKey * r + e) * inv mod curve_N in
    let s := if bool_decide (s > curve_halfOrder) then curve_N - s else s in
    if bool_decide (s = 0) then Err "calculated S is zero" else mret (MkDer r s).

Definition signRFC6979 (fuel : nat) (privateKey : PrivKey) (hash : bytes) : option (outcome DerSignature) :=
  k ← nonceRFC6979 fuel (priv_D privateKey) hash;
  Some (sign_with k privateKey hash).

Definition Sign (fuel : nat) (p : PrivKey) (hash : bytes) : option (outcome DerSignature) := signRFC6979 fuel p hash.

(** ** Verifying *)

(** The number that crypto/ecdsa verifies: as SEC 1 (4.1.4) says, the leftmost bits of the
    hash, as many as the order has. *)
Definition ecdsa_hashToInt (hash : bytes) : Z := Z.shiftr (be_val hash) (Z.max 0 (8 * len hash - BitLen curve_N)).

(** [ecdsa.Verify] of the library. *)
Definition ecdsa_Verify (pub : PubKey) (hash : bytes) (r s : Z) : outcome bool :=
  if bool_decide (r <= 0) || bool_decide (s <= 0) then mret false
  else if bool_decide (r >= curve_N) || bool_decide (s >= curve_N) then mret false
  else
    let e := ecdsa_hashToInt hash in
    w ← deref (ModInverse s curve_N);
    let u1 := e * w mod curve_N in
    let u2 := r * w mod curve_N in
    '(x1, y1) ← ScalarBaseMult table (big_Bytes u1);
    '(x2, y2) ← ScalarMult (pub_X pub) (pub_Y pub) (big_Bytes u2);
    '(x, y) ← Curve_Add x1 y1 x2 y2;
    if bool_decide (x = 0) && bool_decide (y = 0) then mret false
    else mret (bool_decide (x mod curve_N = r)).

Definition Signature_Verify (sig : DerSignature) (hash : bytes) (pubKey : PubKey) : outcome bool :=
  ecdsa_Verify pubKey hash (sig_R sig) (sig_S sig).

(** ** Recovering the key *)

Definition recoverKeyFromSignature (sig : DerSignature) (msg : bytes) (iter : Z) (doChecks : bool) : outcome PubKey :=
  let Rx := curve_N * (iter ÷ 2) + sig_R sig in
  if bool_decide (Rx >= curve_P) then Err "calculated Rx is larger than curve P"
  else
    Ry ← decompressPoint Rx (bool_decide (Z.rem iter 2 = 1));
    _ ← (if doChecks then
           '(nRx, nRy) ← ScalarMult Rx Ry (big_Bytes curve_N);
           req (bool_decide (nRx = 0) && bool_decide (nRy = 0)) "n*R does not equal the point at infinity"
         else mret tt);
    let e := hashToInt msg in
    invr ← deref (ModInverse (sig_R sig) curve_N);
    let invrS := invr * sig_S sig mod curve_N in
    '(sRx, sRy) ← ScalarMult Rx Ry (big_Bytes invrS);
    let e := (- e) mod curve_N in
    let e := e * invr mod curve_N in
    '(minuseGx, minuseGy) ← ScalarBaseMult table (big_Bytes e);
    '(Qx, Qy) ← Curve_Add sRx sRy minuseGx minuseGy;
    mret (MkPub Qx Qy).

Definition curve_H : Z := 1.

(** The bytes of a number, padded to [curvelen]. *)
Definition append_padded (result : bytes) (z : Z) : bytes :=
  let curvelen := (curve_BitSize + 7) / 8 in
  let bytelen := (BitLen z + 7) / 8 in
  let result := if bool_decide (bytelen < curvelen) then result ++ zeros (Z.to_nat (curvelen - bytelen)) else result in
  result ++ big_Bytes z.

Definition compact_bytes (i : Z) (isCompressedKey : bool) (sig : DerSignature) : bytes :=
  let b0 := u8 (27 + u8 i) in
  let b0 := if isCompressedKey then u8 (b0 + 4) else b0 in
  append_padded (append_padded [Z_byte b0] (sig_R sig)) (sig_S sig).

(** The iterations from [i] on; an error of one of them leads to the next one. *)
Fixpoint compact_loop (n : nat) (i : Z) (key : PrivKey) (sig : DerSignature) (hash : bytes) (isCompressedKey : bool) : outcome bytes :=
  match n with
  | 0%nat => Err "no valid solution for pubkey found"
  | S n =>
      match recoverKeyFromSignature sig hash i true with
      | Panic s => Panic s
      | Err _ => compact_loop n (i + 1) key sig hash isCompressedKey
      | Ret pk =>
          if bool_decide (pub_X pk = pub_X (priv_pub key)) && bool_decide (pub_Y pk = pub_Y (priv_pub key))
          then mret (compact_bytes i isCompressedKey sig)
          else compact_loop n (i + 1) key sig hash isCompressedKey
      end
  end.

Definition SignCompact (fuel : nat) (key : PrivKey) (hash : bytes) (isCompressedKey : bool) : option (outcome bytes) :=
  o ← Sign fuel key hash;
  Some (sig ← o; compact_loop (Z.to_nat ((curve_H + 1) * 2)) 0 key sig hash isCompressedKey).

Definition RecoverCompact (signature hash : bytes) : outcome (PubKey * bool) :=
  let bitlen := (curve_BitSize + 7) / 8 in
  _ ← req (bool_decide (len signature = 1 + bitlen * 2)) "invalid compact signature size";
  b0 ← at_ signature 0;
  let iteration := Z.ldiff (u8 (b0 - 27)) 4 in
  let sig := MkDer (be_val (sub signature 1 (bitlen + 1))) (be_val (drop (Z.to_nat (bitlen + 1)) signature)) in
  key ← recoverKeyFromSignature sig hash iteration false;
  mret (key, bool_decide (Z.land (u8 (b0 - 27)) 4 = 4)).
End Signatures.
