(* ===== verification/EcdsaTheorems.v ===== *)
(** * Signatures verify, and keys are recovered from them *)

From Stdlib Require Import ZArith Lia Zdivisibility Zcong Zmod Field.
From S2P Require Import Prelude Buffers Crypto BtcTheorems ScriptTheorems Engine Field FieldTheorems PrimeField GroupLaw Der DerTheorems Curve CurveTheorems Multiples ScalarTheorems PubKey PubKeyTheorems EcdsaSign.

Local Open Scope Z_scope.

#[local] Hint Extern 0 (on_curve base_point) => exact base_on_curve : curve.
#[local] Hint Resolve generated_on_curve : curve.

(** ** The order of the base point is a prime

    Signing divides modulo the order N of the base point, with [big.Int.ModInverse],
    which is nil for numbers that are not prime to N. *)

Ltac pocklington_by red qs keeps := apply (pocklington red _ 2 qs);
  [keeps|reflexivity|auto using Forall_cons_2, Forall_nil_2|apply (bool_decide_unpack _); vm_compute; exact I|vm_compute; discriminate|vm_compute; reflexivity].
Ltac small_prime fuel := apply (prime_by_division _ fuel); [lia..|]; vm_compute; reflexivity.

Lemma prime_28181 : Z.prime 28181.
Proof. small_prime 168%nat. Qed.
Lemma prime_1627771 : Z.prime 1627771.
Proof. small_prime 1276%nat. Qed.
Lemma prime_9349 : Z.prime 9349.
Proof. small_prime 96%nat. Qed.
Lemma prime_797 : Z.prime 797.
Proof. small_prime 28%nat. Qed.
Lemma prime_120233 : Z.prime 120233.
Proof. small_prime 346%nat. Qed.

Definition order_factor_a : Z := 29047611873442575647497758179.
Definition order_factor_b : Z := 341948486974166000522343609283189.
Definition order_factor_c : Z := 174723607534414371449.

Lemma prime_545358713 : Z.prime 545358713.
Proof. pose proof prime_28181. pocklington_by (by_division 545358713) [28181] ltac:(by apply division_keeps). Qed.
Lemma prime_297159362677 : Z.prime 297159362677.
Proof. pose proof prime_1627771. pocklington_by (by_division 297159362677) [1627771] ltac:(by apply division_keeps). Qed.
Lemma prime_44706919 : Z.prime 44706919.
Proof. pose proof prime_9349. pose proof prime_797. pocklington_by (by_division 44706919) [9349; 797] ltac:(by apply division_keeps). Qed.

Lemma order_factor_a_prime : Z.prime order_factor_a.
Proof.
  pose proof prime_297159362677. pose proof prime_545358713.
  pocklington_by (by_division order_factor_a) [297159362677; 545358713] ltac:(by apply division_keeps).
Qed.
Lemma order_factor_b_prime : Z.prime order_factor_b.
Proof. pose proof order_factor_a_prime. pocklington_by (by_division order_factor_b) [order_factor_a] ltac:(by apply division_keeps). Qed.
Lemma order_factor_c_prime : Z.prime order_factor_c.
Proof.
  pose proof prime_44706919. pose proof prime_120233.
  pocklington_by (by_division order_factor_c) [44706919; 120233] ltac:(by apply division_keeps).
Qed.

(** Twice, because 2^256 - N has 129 bits. *)
Definition order_fold (x : Z) : Z :=
  let fold := fold_top 256 0x14551231950B75FC4402DA1732FC9BEBF (Z.ones 256) in fold (fold x).
Lemma order_fold_keeps : keeps_residue order_fold curve_N.
Proof. intros x. unfold order_fold. by rewrite !(fold_keeps 256 0x14551231950B75FC4402DA1732FC9BEBF). Qed.

Lemma curve_N_prime : Z.prime curve_N.
Proof.
  pose proof order_factor_b_prime. pose proof order_factor_c_prime.
  pocklington_by order_fold [order_factor_b; order_factor_c] ltac:(apply order_fold_keeps).
Qed.

(** ** Arithmetic modulo the order *)

Lemma curve_N_range : 2 ^ 255 < curve_N < fieldPrime ∧ fieldPrime < 2 * curve_N ∧ fieldPrime < 2 ^ 256.
Proof. vm_compute. repeat split; reflexivity. Qed.

Lemma BitLen_order : BitLen curve_N = 256.
Proof. reflexivity. Qed.

Lemma ModInverse_some z : z mod curve_N ≠ 0 → ∃ w, ModInverse z curve_N = Some w ∧ 0 <= w < curve_N ∧ w * z mod curve_N = 1.
Proof.
  intros Hz. exists (Z.invmod z curve_N). unfold ModInverse. rewrite bool_decide_true.
  - split; [done|]. split; [|by apply Z.invmod_prime; [apply curve_N_prime|]]. apply Z.mod_pos_bound. reflexivity.
  - rewrite Z.gcd_comm. apply Z.coprime_prime_l; [apply curve_N_prime|]. intros Hd. apply Hz, Z.mod_divide; [discriminate|done].
Qed.

Lemma ModInverse_none z : z mod curve_N = 0 → ModInverse z curve_N = None.
Proof.
  intros Hz. unfold ModInverse. rewrite bool_decide_false; [done|]. apply Z.mod_divide in Hz; [|discriminate]. intros E.
  assert ((curve_N | 1)) as Hd by (rewrite <- E; by apply Z.gcd_greatest). by apply Z.divide_1_r in Hd as [|].
Qed.

Lemma hashToInt_nonneg h : 0 <= hashToInt h.
Proof.
  unfold hashToInt. destruct (bool_decide (_ > 0)); [rewrite Z.shiftr_nonneg|]; apply be_val_range.
Qed.

Lemma be_val_app b c : be_val (b ++ c) = be_val b * 256 ^ len c + be_val c.
Proof.
  induction b as [|x b IH]; [by rewrite be_val_nil|]. cbn [app]. rewrite !be_val_cons, IH, len_app, Z.pow_add_r by apply len_nonneg. ring.
Qed.

(** The hash that is signed and recovered with is the one the library verifies: cutting the
    bytes of the order's length is cutting the excess bits. *)
Lemma ecdsa_hashToInt_eq h : ecdsa_hashToInt h = hashToInt h.
Proof.
  unfold ecdsa_hashToInt, hashToInt. cbv zeta. rewrite BitLen_order. change ((256 + 7) / 8) with 32. destruct (bool_decide_reflect (len h > 32)) as [Hl|Hl].
  - rewrite <- (take_drop 32 h) at 1. change (Z.to_nat 32) with 32%nat. rewrite be_val_app. assert (len (take 32 h) = 32) as -> by (unfold len in *; rewrite length_take; lia).
    rewrite bool_decide_false by lia. rewrite Z.max_r, Z.shiftr_div_pow2 by lia. assert (len (drop 32 h) = len h - 32) as -> by (unfold len in *; rewrite length_drop; lia).
    replace (2 ^ (8 * len h - 256)) with (256 ^ (len h - 32)) by (change 256 with (2 ^ 8) at 1; rewrite <- Z.pow_mul_r by lia; f_equal; lia).
    pose proof (be_val_range (drop 32 h)) as Hr. assert (len (drop 32 h) = len h - 32) as El by (unfold len in *; rewrite length_drop; lia). rewrite El in Hr.
    rewrite Z.div_add_l, (Z.div_small (be_val _)) by lia. lia.
  - rewrite bool_decide_false by lia. rewrite Z.max_l by lia. apply Z.shiftr_0_r.
Qed.

(** ** Multiples of the base point *)

Lemma smul_cong a b : a mod curve_N = b mod curve_N → smul a base_point = smul b base_point.
Proof. intros E. rewrite <- (smul_mod base_point a base_generated), E. by apply smul_mod, base_generated. Qed.

Lemma multiple_finite k : k mod curve_N ≠ 0 → smul k base_point ≠ None.
Proof.
  intros Hk E. destruct (ModInverse_some k Hk) as (w & _ & _ & Hw). assert (smul 1 base_point = None) as E1.
  { rewrite <- (smul_cong (w * k)), <- smul_smul, E by (auto with curve; by rewrite Hw). apply smul_none. }
  rewrite smul_1 in E1 by auto with curve. discriminate.
Qed.

Lemma generated_smul k : generated (smul k base_point).
Proof. by exists k. Qed.

(** No point of the curve has x = 0: 7 is not a square. *)
Lemma seven_no_square : pow_mod fieldPrime_fold 7 ((fieldPrime - 1) / 2) mod fieldPrime ≠ 1.
Proof. vm_compute. discriminate. Qed.

Lemma x_nonzero x y : on_curve (Some (x, y)) → x ≠ 0%F.
Proof.
  intros Hon ->. pose proof (y_nonzero _ _ Hon) as Hy. cbn in Hon. apply seven_no_square.
  rewrite pow_mod_spec; [|apply fieldPrime_fold_keeps|reflexivity|vm_compute; discriminate].
  assert (of_int 7 = (y * y)%F) as E by (rewrite Hon; ring).
  pose proof (Zmod.fermat_nz y Hy fieldPrime_prime) as Hf. apply (f_equal Zmod.to_Z) in E, Hf.
  rewrite Zmod.to_Z_pow_nonneg_r in Hf by (vm_compute; discriminate). unfold of_int in E. rewrite Zmod.to_Z_of_Z in E.
  rewrite <- Z.mod_pow_l, E, Zmod.to_Z_mul, Z.mod_pow_l, <- Z.pow_2_r, <- Z.pow_mul_r by (vm_compute; discriminate). exact Hf.
Qed.

Section Signatures.
Context `{HashFunction} (table : list (list jacobian)) (Htable : table_ok base_point table).

Lemma base_multiple k : 0 <= k → ScalarBaseMult table (big_Bytes k) = Ret (to_big (smul k base_point)).
Proof.
  intros Hk. rewrite (ScalarBaseMult_correct base_point) by first [exact base_on_curve|exact base_order|exact Htable].
  by rewrite big_Bytes_be.
Qed.

Lemma point_multiple p k : generated p → p ≠ None → 0 <= k → ScalarMult (to_big p).1 (to_big p).2 (big_Bytes k) = Ret (to_big (smul k p)).
Proof. intros Hp Hne Hk. rewrite ScalarMult_correct by done. by rewrite big_Bytes_be. Qed.

(** ** The nonce *)

Lemma mac_length k m : length (mac k m) = 32%nat.
Proof. apply Sum256_length. Qed.

Lemma collect_one k v : collect 32 k v [] = (mac k v, mac k v).
Proof.
  cbn [collect]. rewrite BitLen_order. change (len (@nil byte)) with 0. rewrite bool_decide_true by lia. cbv zeta. change ([] ++ mac k v) with (mac k v).
  rewrite (bool_decide_false (len (mac k v) * 8 < 256)); [done|]. unfold len. rewrite mac_length. lia.
Qed.

(** The candidates in the order in which they are tried. *)
Fixpoint candidates (n : nat) (k v : bytes) : list Z :=
  match n with
  | 0%nat => []
  | S n => let v := mac k v in let k' := mac k (v ++ [x00]) in hashToInt v :: candidates n k' (mac k' v)
  end.

Definition usable (secret : Z) : Prop := 1 <= secret < curve_N.
#[local] Instance usable_dec z : Decision (usable z).
Proof. unfold usable. apply _. Defined.

Lemma nonce_loop_spec n k v : nonce_loop n k v = head (filter usable (candidates n k v)).
Proof.
  revert k v. induction n as [|n IH]; intros k v; [done|]. cbn [nonce_loop candidates]. rewrite collect_one, <- bool_decide_and, filter_cons.
  destruct (decide (usable (hashToInt (mac k v)))) as [Hu|Hu]; unfold usable in Hu.
  - by rewrite bool_decide_true by lia.
  - rewrite bool_decide_false by lia. apply IH.
Qed.

Lemma candidates_prefix n m k v : (n <= m)%nat → candidates n k v `prefix_of` candidates m k v.
Proof.
  revert m k v. induction n as [|n IH]; intros m k v Hm; [apply prefix_nil|]. destruct m as [|m]; [lia|]. cbn [candidates]. apply prefix_cons, IH. lia.
Qed.

Lemma nonce_loop_more n m k v z : (n <= m)%nat → nonce_loop n k v = Some z → nonce_loop m k v = Some z.
Proof. intros Hm. rewrite !nonce_loop_spec. destruct (candidates_prefix n m k v Hm) as [l ->]. rewrite filter_app. by destruct (filter usable (candidates n k v)). Qed.

Lemma nonce_more n m d hash z : (n <= m)%nat → nonceRFC6979 n d hash = Some z → nonceRFC6979 m d hash = Some z.
Proof.
  unfold nonceRFC6979. cbv zeta. apply nonce_loop_more.
Qed.

Lemma nonce_usable n d hash z : nonceRFC6979 n d hash = Some z → 1 <= z < curve_N.
Proof.
  unfold nonceRFC6979. cbv zeta. rewrite nonce_loop_spec. intros E. apply head_Some_elem_of in E. by apply list_elem_of_filter in E as [? _].
Qed.

(** ** Verification *)

(** The check of [ecdsa.Verify] on a point. *)
Definition accepts (T : point) (r : Z) : bool :=
  match T with Some (x, _) => bool_decide (Zmod.to_Z x mod curve_N = r) | None => false end.

Lemma verify_spec d hash r s w : d mod curve_N ≠ 0 → 0 < r < curve_N → 0 < s < curve_N → w * s mod curve_N = 1 →
  ecdsa_Verify table (key_of (smul d base_point)) hash r s = Ret (accepts (smul (w * (hashToInt hash + r * d)) base_point) r).
Proof.
  intros Hd Hr Hs Hw. unfold ecdsa_Verify. rewrite !bool_decide_false by lia. cbn [orb]. cbv zeta. rewrite ecdsa_hashToInt_eq.
  destruct (ModInverse_some s) as (w' & -> & Hw' & E'); [rewrite Z.mod_small by lia; lia|]. cbn [deref mret outcome_ret mbind outcome_bind].
  assert (w' = w mod curve_N) as ->.
  { rewrite <- (Z.mod_small w' curve_N) by lia. rewrite <- (Z.mul_1_r w'), <- Hw, Z.mul_mod_idemp_r by lia.
    replace (w' * (w * s)) with (w * (w' * s)) by ring. by rewrite <- Z.mul_mod_idemp_r, E', Z.mul_1_r by lia. }
  rewrite !Z.mul_mod_idemp_r by lia. rewrite base_multiple by (apply Z.mod_pos_bound; lia). cbn [mbind outcome_bind].
  destruct (to_big (smul _ base_point)) as [x1 y1] eqn:E1. unfold key_of at 1 2. cbn [pub_X pub_Y].
  rewrite point_multiple by (apply generated_smul || by apply multiple_finite || (apply Z.mod_pos_bound; lia)). cbn [mbind outcome_bind].
  destruct (to_big (smul _ (smul d base_point))) as [x2 y2] eqn:E2. set (P1 := smul _ base_point) in E1. set (P2 := smul _ (smul d base_point)) in E2.
  assert (on_curve P1) as H1 by (unfold P1; auto with curve). assert (on_curve P2) as H2 by (unfold P2; auto with curve).
  pose proof (Curve_Add_correct P1 P2 H1 H2) as E. rewrite E1, E2 in E. cbn [fst snd] in E. rewrite E. cbn [mbind outcome_bind].
  assert (padd P1 P2 = smul (w * (hashToInt hash + r * d)) base_point) as EP.
  { unfold P1, P2. rewrite smul_mod by apply base_generated. rewrite smul_mod by apply generated_smul. rewrite smul_smul, <- smul_add by auto with curve. f_equal. ring. }
  rewrite <- EP. assert (on_curve (padd P1 P2)) as H3 by (by apply padd_on_curve). pose proof (to_big_infinity _ H3) as Ei.
  destruct (to_big (padd P1 P2)) as [x y] eqn:E3. cbn [fst snd] in Ei. rewrite Ei.
  destruct (padd P1 P2) as [[x' y']|]; [|by rewrite bool_decide_true]. rewrite bool_decide_false by done. cbn [to_big] in E3. by injection E3 as <- <-.
Qed.

(** ** Signing *)

(** R of a signature, from the x coordinate. *)
Definition coordinate_r (x : F) : Z := if bool_decide (Zmod.to_Z x > curve_N) then Zmod.to_Z x - curve_N else Zmod.to_Z x.

Lemma coordinate_r_range x : x ≠ 0%F → 0 < coordinate_r x <= curve_N.
Proof.
  intros Hx. pose proof (to_Z_range x). assert (Zmod.to_Z x ≠ 0) by (by rewrite to_Z_zero). pose proof curve_N_range.
  unfold coordinate_r. destruct (bool_decide_reflect (Zmod.to_Z x > curve_N)); lia.
Qed.

Lemma coordinate_r_mod x : coordinate_r x ≠ curve_N → Zmod.to_Z x mod curve_N = coordinate_r x.
Proof.
  pose proof (to_Z_range x). pose proof curve_N_range. unfold coordinate_r. destruct (bool_decide_reflect (Zmod.to_Z x > curve_N)); intros Hne.
  - replace (Zmod.to_Z x) with (Zmod.to_Z x - curve_N + 1 * curve_N) at 1 by lia. rewrite Z.mod_add by lia. apply Z.mod_small. lia.
  - apply Z.mod_small. lia.
Qed.

Lemma halfOrder_value : 2 * curve_halfOrder + 1 = curve_N.
Proof. reflexivity. Qed.

Lemma low_half s0 k m : 0 <= s0 < curve_N → s0 * k mod curve_N = m mod curve_N →
  let s := if bool_decide (s0 > curve_halfOrder) then curve_N - s0 else s0 in
  0 <= s <= curve_halfOrder ∧ ∃ k', (k' = k ∨ k' = - k) ∧ s * k' mod curve_N = m mod curve_N.
Proof.
  intros Hs Hk. cbv zeta. pose proof halfOrder_value. destruct (bool_decide_reflect (s0 > curve_halfOrder)).
  - split; [lia|]. exists (- k). split; [by right|]. rewrite <- Hk. replace ((curve_N - s0) * - k) with (s0 * k + - k * curve_N) by ring.
    apply Z.mod_add. lia.
  - split; [lia|]. exists k. auto.
Qed.

(** What signing with the nonce [k] gives: R from the point k G, and S such that
    S k' = D R + e for k' one of k and -k. *)
Lemma sign_with_spec k key hash : 1 <= k < curve_N →
  ∃ x y, smul k base_point = Some (x, y) ∧
    (sign_with table k key hash = Err "calculated S is zero" ∨
     ∃ s k', sign_with table k key hash = Ret (MkDer (coordinate_r x) s) ∧ 1 <= s <= curve_halfOrder ∧ (k' = k ∨ k' = - k) ∧
       s * k' mod curve_N = (priv_D key * coordinate_r x + hashToInt hash) mod curve_N).
Proof.
  intros Hk. assert (k mod curve_N ≠ 0) as Hk0 by (rewrite Z.mod_small; lia).
  pose proof (multiple_finite k Hk0) as Hf. assert (on_curve (smul k base_point)) as Hon by auto with curve.
  unfold sign_with. rewrite base_multiple by lia. destruct (smul k base_point) as [[x y]|]; [|done]. exists x, y. split; [done|].
  cbn [to_big mbind outcome_bind]. change (if bool_decide (Zmod.to_Z x > curve_N) then _ else _) with (coordinate_r x).
  pose proof (coordinate_r_range x (x_nonzero _ _ Hon)). rewrite (bool_decide_false (coordinate_r x = 0)) by lia.
  destruct (ModInverse_some k Hk0) as (w & -> & Hw & Ew). cbn [deref mret outcome_ret mbind outcome_bind].
  set (m := priv_D key * coordinate_r x + hashToInt hash). destruct (low_half (m * w mod curve_N) k m) as [Hs (k' & Hk' & E)].
  { apply Z.mod_pos_bound. lia. } { rewrite Z.mul_mod_idemp_l, <- Z.mul_assoc, <- Z.mul_mod_idemp_r, Ew by lia. f_equal. lia. }
  set (s := if bool_decide (m * w mod curve_N > curve_halfOrder) then _ else _) in Hs, E |- *.
  destruct (bool_decide_reflect (s = 0)); [by left|]. right. exists s, k'. split; [done|]. split; [lia|]. done.
Qed.

(** Such a number is accepted. *)
Lemma signature_accepted d k k' x y s hash :
  smul k base_point = Some (x, y) → d mod curve_N ≠ 0 → 1 <= s < curve_N → (k' = k ∨ k' = - k) → coordinate_r x ≠ curve_N →
  s * k' mod curve_N = (d * coordinate_r x + hashToInt hash) mod curve_N →
  Signature_Verify table (MkDer (coordinate_r x) s) hash (key_of (smul d base_point)) = Ret true.
Proof.
  intros HR Hd Hs Hk' Hne E. assert (on_curve (Some (x, y))) as Hon by (rewrite <- HR; auto with curve).
  pose proof (coordinate_r_range x (x_nonzero _ _ Hon)). destruct (ModInverse_some s) as (w & _ & _ & Hw); [rewrite Z.mod_small; lia|].
  unfold Signature_Verify. cbn [sig_R sig_S]. rewrite (verify_spec _ _ _ _ w) by (done || lia). f_equal.
  assert (smul (w * (hashToInt hash + coordinate_r x * d)) base_point = smul k' base_point) as ->.
  { apply smul_cong. rewrite (Z.add_comm (hashToInt hash)), (Z.mul_comm (coordinate_r x)), <- Z.mul_mod_idemp_r, <- E, Z.mul_mod_idemp_r by lia.
    replace (w * (s * k')) with (w * s * k') by ring. rewrite <- Z.mul_mod_idemp_l, Hw by lia. f_equal. lia. }
  assert (∃ y', smul k' base_point = Some (x, y')) as [y' ->].
  { destruct Hk' as [-> | ->]; [by exists y|]. rewrite smul_opp, HR by auto with curve. by eexists. }
  cbn [accepts]. by rewrite bool_decide_true by (by apply coordinate_r_mod).
Qed.

Lemma too_large_rejected s hash key : Signature_Verify table (MkDer curve_N s) hash key = Ret false.
Proof. unfold Signature_Verify, ecdsa_Verify. cbn [sig_R sig_S]. destruct (_ || _); [done|]. by rewrite bool_decide_true. Qed.
End Signatures.

(** ** Claims *)

(** C26. Signatures verify. Let the private key be made by [PrivKeyFromBytes] from a number
    that is not a multiple of the order, and let the loop of [nonceRFC6979] find a nonce,
    which it then does with any larger bound as well.  Then [Sign] returns, does not
    panic, and its only error is that S is zero.  Otherwise R is from 1 to N and S from 1
    to half of N, and [Verify] with the public key accepts the signature, unless R is N
    itself, which the code leaves unreduced and [Verify] rejects. *)
Theorem signatures_verify `{HashFunction} table pk fuel k (hash : bytes)
  (Htable : table_ok base_point table) (Hpk : be_val pk mod curve_N ≠ 0) (Hk : nonceRFC6979 fuel (be_val pk) hash = Some k) :
  ∃ priv pub, PrivKeyFromBytes table pk = Ret (priv, pub) ∧ pub = key_of (smul (be_val pk) base_point) ∧
    (∀ fuel', (fuel <= fuel')%nat → Sign table fuel' priv hash = Sign table fuel priv hash) ∧
    (Sign table fuel priv hash = Some (Err "calculated S is zero") ∨
     ∃ sig, Sign table fuel priv hash = Some (Ret sig) ∧ 1 <= sig_R sig <= curve_N ∧ 1 <= sig_S sig <= curve_halfOrder ∧
       Signature_Verify table sig hash pub = Ret (bool_decide (sig_R sig ≠ curve_N))).
Proof.
  unfold PrivKeyFromBytes. rewrite (ScalarBaseMult_correct base_point) by first [exact base_on_curve|exact base_order|exact Htable].
  set (Q := smul (be_val pk) base_point). destruct (to_big Q) as [qx qy] eqn:EQ. eexists _, _. split; [reflexivity|]. cbn [priv_pub].
  assert (MkPub qx qy = key_of Q) as -> by (unfold key_of; by rewrite EQ). split; [done|]. unfold Sign, signRFC6979. cbn [priv_D]. split.
  - intros fuel' Hf. by rewrite Hk, (nonce_more fuel fuel' _ _ k Hf Hk).
  - rewrite Hk. cbn [mbind option_bind]. destruct (sign_with_spec table Htable k (MkPriv (key_of Q) (be_val pk)) hash (nonce_usable _ _ _ _ Hk)) as (x & y & HR & [-> | (s & k' & -> & Hs & Hk' & E)]); [by left|].
    right. eexists. split; [reflexivity|]. cbn [sig_R sig_S priv_D] in *. assert (on_curve (Some (x, y))) as Hon by (rewrite <- HR; auto with curve).
    pose proof (coordinate_r_range x (x_nonzero _ _ Hon)). pose proof halfOrder_value. split; [lia|]. split; [done|].
    destruct (decide (coordinate_r x = curve_N)) as [EN|Hne].
    + rewrite EN, bool_decide_false by auto. apply too_large_rejected.
    + rewrite bool_decide_true by done. apply (signature_accepted table Htable _ k k' x y); [done..|lia|done|done|done].
Qed.

(** The private key 1 and the hash of a name, a published test vector of RFC 6979 for this
    curve. *)
Definition vector_hash : bytes := Sum256 (map Z_byte [83; 97; 116; 111; 115; 104; 105; 32; 78; 97; 107; 97; 109; 111; 116; 111]).
Definition vector_nonce : Z := 0x8F8A276C19F4149656B280621E358CCE24F5F52542772691EE69063B74F15D15.

Lemma vector_nonce_found : nonceRFC6979 1 (be_val [x01]) vector_hash = Some vector_nonce.
Proof. vm_compute. reflexivity. Qed.

Lemma signatures_verify_witness :
  nonceRFC6979 1 (be_val [x01]) vector_hash = Some vector_nonce ∧
  ∃ priv pub, PrivKeyFromBytes (point_table base_point) [x01] = Ret (priv, pub) ∧
    (Sign (point_table base_point) 1 priv vector_hash = Some (Err "calculated S is zero") ∨
     ∃ sig, Sign (point_table base_point) 1 priv vector_hash = Some (Ret sig) ∧ 1 <= sig_S sig <= curve_halfOrder ∧
       Signature_Verify (point_table base_point) sig vector_hash pub = Ret (bool_decide (sig_R sig ≠ curve_N))).
Proof.
  split; [exact vector_nonce_found|].
  destruct (signatures_verify (point_table base_point) [x01] 1 vector_nonce vector_hash (point_table_ok _) ltac:(discriminate) vector_nonce_found)
    as (priv & pub & E & _ & _ & [E'|(sig & E' & _ & Hs & Hv)]).
  - exists priv, pub. split; [exact E|]. left. exact E'.
  - exists priv, pub. split; [exact E|]. right. exists sig. split; [exact E'|]. split; [exact Hs|exact Hv].
Defined.
