(* ===== verification/KeyRecovery.v ===== *)
(** * Keys recovered from signatures, and compact signatures *)

From Stdlib Require Import ZArith Lia Zdivisibility Zcong Zmod Field.
From S2P Require Import Prelude Buffers Crypto BtcTheorems ScriptTheorems Engine Field FieldTheorems PrimeField GroupLaw Der DerTheorems Curve CurveTheorems Multiples ScalarTheorems PubKey PubKeyTheorems EcdsaSign EcdsaTheorems.

Local Open Scope Z_scope.

#[local] Hint Extern 0 (on_curve base_point) => exact base_on_curve : curve.
#[local] Hint Resolve generated_on_curve : curve.

Section Recovery.
Context `{HashFunction} (table : list (list jacobian)) (Htable : table_ok base_point table).

(** ** The curve's methods on any pair of numbers *)

Definition word256 (z : Z) : Prop := 0 <= z < 2 ^ 256.

Lemma bigAffine_total x y : word256 x → word256 y → ∃ f, bigAffineToField x y = Ret f.
Proof.
  intros Hx Hy. unfold bigAffineToField.
  destruct (SetByteSlice_elt (big_Bytes x)) as (fx & -> & _); [by apply (big_Bytes_length x 32)|].
  destruct (SetByteSlice_elt (big_Bytes y)) as (fy & -> & _); [by apply (big_Bytes_length y 32)|]. by eexists.
Qed.

Lemma to_affine_range j : word256 (fieldJacobianToBigAffine j).1 ∧ word256 (fieldJacobianToBigAffine j).2.
Proof.
  unfold fieldJacobianToBigAffine. cbv zeta. cbn [fst snd].
  assert (∀ f, word256 (be_val (Bytes f))) as Hb; [|auto]. intros f. exact (be_val_range (Bytes f)).
Qed.

Lemma ScalarMult_total x y k : word256 x → word256 y → ∃ a b, ScalarMult x y k = Ret (a, b) ∧ word256 a ∧ word256 b.
Proof.
  intros Hx Hy. unfold ScalarMult. destruct (splitK _) as [[[k1 k2] s1] s2]. destruct (bigAffine_total x y Hx Hy) as [[fx fy] ->]. cbn [mbind outcome_bind].
  destruct (if bool_decide (s1 = -1) then _ else _) as [p1y p1n]. destruct (if bool_decide (s2 = -1) then _ else _) as [p2y p2n].
  destruct (NAF k1) as [a1 b1], (NAF k2) as [a2 b2]. destruct (to_affine_range (m_q (mult_loop a1 b1 a2 b2
    (if bool_decide (length a1 < length a2)%nat then length a2 else length a1) (Mult (Jac Zero Zero Zero) fx p1y p1n (SetInt 1) (Mul2 fx curve_beta) p2y p2n (SetInt 1))))) as [H1 H2].
  eexists _, _. split; [apply (f_equal Ret), surjective_pairing|]. split; [exact H1|exact H2].
Qed.

Lemma Curve_Add_total x1 y1 x2 y2 : word256 x1 → word256 y1 → word256 x2 → word256 y2 → ∃ a b, Curve_Add x1 y1 x2 y2 = Ret (a, b).
Proof.
  intros H1 H2 H3 H4. unfold Curve_Add. destruct (_ && _); [by eexists _, _|]. destruct (_ && _); [by eexists _, _|].
  destruct (bigAffine_total x1 y1 H1 H2) as [[f1 g1] ->]. destruct (bigAffine_total x2 y2 H3 H4) as [[f2 g2] ->].
  eexists _, _. apply (f_equal Ret), surjective_pairing.
Qed.

(** Any point, on the curve or not, times the order is (0, 0): both halves of the
    scalar N are 0. *)
Lemma times_order x y : word256 x → word256 y → ScalarMult x y (big_Bytes curve_N) = Ret (0, 0).
Proof.
  intros Hx Hy. unfold ScalarMult. destruct (bigAffine_total x y Hx Hy) as [[fx fy] ->].
  assert (splitK (moduloReduce (big_Bytes curve_N)) = ([], [], 0, 0)) as -> by (vm_compute; reflexivity). cbn [mbind outcome_bind].
  rewrite !bool_decide_false by done. assert (NAF [] = ([], [])) as -> by reflexivity. cbn [length]. rewrite bool_decide_false by lia.
  change (m_q (mult_loop _ _ _ _ _ _)) with (Jac Zero Zero Zero). apply (f_equal Ret). apply (fieldJacobianToBigAffine_rep None). apply zero_rep.
Qed.

Lemma decompressPoint_total x b : ∃ y, decompressPoint x b = Ret y ∧ 0 <= y <= fieldPrime.
Proof.
  cbv beta zeta delta [decompressPoint]. rewrite big_Exp_spec by (exact curve_q_pos || exact eq_refl). set (r := _ mod _).
  change curve_P with fieldPrime in *. assert (0 <= r < fieldPrime) as Hr by (apply Z.mod_pos_bound; reflexivity).
  destruct (bool_decide_reflect (b ≠ isOdd r)) as [E|E].
  - rewrite bool_decide_false; [exists (fieldPrime - r); split; [done|lia]|]. rewrite isOdd_odd in E. rewrite isOdd_odd, odd_opp. destruct b, (Z.odd r); naive_solver.
  - rewrite bool_decide_false by done. exists r. split; [done|lia].
Qed.

(** ** Recovery *)

Lemma recover_checks sig msg iter doChecks : 0 <= sig_R sig → 0 <= iter →
  recoverKeyFromSignature table sig msg iter doChecks = recoverKeyFromSignature table sig msg iter false.
Proof.
  intros HR Hi. destruct doChecks; [|done]. unfold recoverKeyFromSignature. assert (0 <= iter ÷ 2) by (apply Z.quot_pos; lia). pose proof curve_N_range as HN.
  set (Rx := curve_N * (iter ÷ 2) + sig_R sig). destruct (bool_decide_reflect (Rx >= curve_P)) as [|HRx]; [done|].
  destruct (decompressPoint_total Rx (bool_decide (Z.rem iter 2 = 1))) as (Ry & -> & HRy). cbn [mbind outcome_bind]. change curve_P with fieldPrime in HRx.
  rewrite times_order by (unfold word256, Rx in *; nia). done.
Qed.

(** Recovery gives some key for every R that is not a multiple of the order: nothing
    depends on whether there is a point with this coordinate. *)
Lemma recover_returns sig msg iter doChecks :
  0 <= sig_R sig → 0 <= iter → sig_R sig mod curve_N ≠ 0 → curve_N * (iter ÷ 2) + sig_R sig < curve_P →
  ∃ key, recoverKeyFromSignature table sig msg iter doChecks = Ret key.
Proof.
  intros HR Hi Hr HRx. rewrite recover_checks by done. unfold recoverKeyFromSignature. assert (0 <= iter ÷ 2) by (apply Z.quot_pos; lia). pose proof curve_N_range as HN.
  set (Rx := curve_N * (iter ÷ 2) + sig_R sig) in *. rewrite bool_decide_false by lia.
  destruct (decompressPoint_total Rx (bool_decide (Z.rem iter 2 = 1))) as (Ry & -> & HRy). cbn [mbind outcome_bind]. change curve_P with fieldPrime in HRx.
  destruct (ModInverse_some _ Hr) as (w & -> & Hw & Ew). cbn [deref mret outcome_ret mbind outcome_bind].
  destruct (ScalarMult_total Rx Ry (big_Bytes (w * sig_S sig mod curve_N))) as (a & b & -> & Ha & Hb); [unfold word256, Rx in *; nia..|]. cbn [mbind outcome_bind].
  rewrite (base_multiple table Htable) by (apply Z.mod_pos_bound; lia). set (p := smul _ base_point). destruct (to_big_range p) as [Hp1 Hp2]. change curve_P with fieldPrime in Hp1, Hp2.
  destruct (to_big p) as [c e]. cbn [mbind outcome_bind]. cbn [fst snd] in *.
  destruct (Curve_Add_total a b c e) as (x & y & ->); [unfold word256 in *; lia..|]. by eexists.
Qed.

(** The iteration that belongs to a point. *)
Definition iteration_of (x y : F) : Z := (if bool_decide (Zmod.to_Z x > curve_N) then 2 else 0) + (if isOdd (Zmod.to_Z y) then 1 else 0).

Lemma iteration_of_spec x y : 0 <= iteration_of x y < 4 ∧ curve_N * (iteration_of x y ÷ 2) + coordinate_r x = Zmod.to_Z x ∧
  bool_decide (Z.rem (iteration_of x y) 2 = 1) = isOdd (Zmod.to_Z y).
Proof.
  unfold iteration_of, coordinate_r. generalize (isOdd (Zmod.to_Z y)), (Zmod.to_Z x), curve_N. intros [] z n; destruct (bool_decide (z > n)); (split; [lia|]).
  - change ((2 + 1) ÷ 2) with 1. split; [lia|reflexivity].
  - change ((0 + 1) ÷ 2) with 0. split; [lia|reflexivity].
  - change ((2 + 0) ÷ 2) with 1. split; [lia|reflexivity].
  - change ((0 + 0) ÷ 2) with 0. split; [lia|reflexivity].
Qed.

Lemma recover_right d k x y s hash doChecks :
  smul k base_point = Some (x, y) → coordinate_r x ≠ curve_N → s * k mod curve_N = (d * coordinate_r x + hashToInt hash) mod curve_N →
  recoverKeyFromSignature table (MkDer (coordinate_r x) s) hash (iteration_of x y) doChecks = Ret (key_of (smul d base_point)).
Proof.
  intros HR Hne E. assert (on_curve (Some (x, y))) as Hon by (rewrite <- HR; auto with curve). pose proof (coordinate_r_range x (x_nonzero _ _ Hon)) as Hr.
  destruct (iteration_of_spec x y) as (Hi & HRx & Hodd). rewrite recover_checks by (cbn; lia). unfold recoverKeyFromSignature. cbn [sig_R sig_S].
  rewrite HRx, Hodd. destruct (to_big_range (Some (x, y))) as [Hx _]. cbn [to_big fst] in Hx. rewrite bool_decide_false by lia.
  rewrite decompressPoint_correct by done. cbn [mbind outcome_bind].
  destruct (ModInverse_some (coordinate_r x)) as (w & -> & Hw & Ew); [rewrite Z.mod_small; lia|]. cbn [deref mret outcome_ret mbind outcome_bind].
  pose proof (point_multiple (Some (x, y)) (w * s mod curve_N)) as Hm. cbn [to_big fst snd] in Hm. rewrite Hm; [|rewrite <- HR; apply generated_smul|done|apply Z.mod_pos_bound; lia].
  rewrite <- HR. set (P1 := smul (w * s mod curve_N) _). destruct (to_big P1) as [x1 y1] eqn:E1. cbn [mbind outcome_bind].
  rewrite (base_multiple table Htable) by (apply Z.mod_pos_bound; lia). set (P2 := smul _ base_point). destruct (to_big P2) as [x2 y2] eqn:E2. cbn [mbind outcome_bind].
  assert (on_curve P1) as H1 by (unfold P1; auto with curve). assert (on_curve P2) as H2 by (unfold P2; auto with curve).
  pose proof (Curve_Add_correct P1 P2 H1 H2) as EA. rewrite E1, E2 in EA. cbn [fst snd] in EA. rewrite EA. cbn [mbind outcome_bind].
  assert (padd P1 P2 = smul d base_point) as ->; [|unfold key_of; by destruct (to_big (smul d base_point))].
  unfold P1, P2. rewrite smul_smul, <- smul_add by auto with curve. apply smul_cong.
  rewrite Z.mul_mod_idemp_l by lia. rewrite Z.add_mod_idemp_r by lia. rewrite <- Z.add_mod_idemp_l, Z.mul_mod_idemp_l by lia.
  replace (w * s * k) with (w * (s * k)) by ring. rewrite <- Z.mul_mod_idemp_r, E, Z.mul_mod_idemp_r, Z.add_mod_idemp_l by lia.
  replace (_ + _) with (w * coordinate_r x * d) by ring. rewrite <- Z.mul_mod_idemp_l, Ew by lia. f_equal. lia.
Qed.

(** ** Compact signatures *)

Lemma append_padded_bytes b z : word256 z → append_padded b z = b ++ be_bytes 32 z.
Proof.
  intros Hz. unfold append_padded. change ((curve_BitSize + 7) / 8) with 32.
  assert ((BitLen z + 7) / 8 = len (big_Bytes z)) as ->.
  { unfold BitLen, len, big_Bytes, byte_count. rewrite be_bytes_length. destruct (bool_decide_reflect (z = 0)); [done|].
    pose proof (Z.log2_nonneg (Z.abs z)). rewrite Z2Nat.id by (Z.div_mod_to_equations; lia). replace (Z.log2 (Z.abs z) + 1 + 7) with (Z.log2 (Z.abs z) + 1 * 8) by lia. by rewrite Z.div_add. }
  pose proof (big_Bytes_length z 32 Hz).
  rewrite <- (be_bytes_unique (zeros (32 - length (big_Bytes z)) ++ big_Bytes z) z) by (rewrite ?length_app, ?length_zeros, ?be_val_zeros, ?big_Bytes_be; unfold word256 in Hz; lia).
  destruct (bool_decide_reflect (len (big_Bytes z) < 32)) as [Hl|Hl]; unfold len in Hl.
  - rewrite <- app_assoc. do 2 f_equal. f_equal. unfold len. lia.
  - by replace (32 - length (big_Bytes z))%nat with 0%nat by lia.
Qed.

Lemma compact_bytes_eq i c sig : 0 <= i < 4 → word256 (sig_R sig) → word256 (sig_S sig) →
  compact_bytes i c sig = Z_byte (27 + i + (if c : bool then 4 else 0)) :: be_bytes 32 (sig_R sig) ++ be_bytes 32 (sig_S sig).
Proof.
  intros Hi HR HS. unfold compact_bytes. rewrite !append_padded_bytes by done. cbn [app]. do 2 f_equal. unfold u8. rewrite (Z.mod_small i) by lia.
  change (2 ^ 8) with 256. rewrite (Z.mod_small (27 + i)) by lia. destruct c; [rewrite Z.mod_small by lia|]; lia.
Qed.

Lemma recover_compact i c sig hash : 0 <= i < 4 → word256 (sig_R sig) → word256 (sig_S sig) →
  RecoverCompact table (compact_bytes i c sig) hash = (key ← recoverKeyFromSignature table sig hash i false; mret (key, c)).
Proof.
  intros Hi HR HS. rewrite compact_bytes_eq by done. unfold RecoverCompact. change ((curve_BitSize + 7) / 8) with 32.
  set (b0 := Z_byte _). set (rb := be_bytes 32 (sig_R sig)). set (sb := be_bytes 32 (sig_S sig)).
  assert (length rb = 32%nat) as Hr by apply be_bytes_length. assert (length sb = 32%nat) as Hs by apply be_bytes_length.
  rewrite bool_decide_true by (unfold len; cbn [length]; rewrite length_app; lia). cbn [req mbind outcome_bind mret outcome_ret].
  change (at_ (b0 :: rb ++ sb) 0) with (Ret (byte_Z b0)). unfold req. cbn [mbind outcome_bind mret outcome_ret].
  assert (sub (b0 :: rb ++ sb) 1 (32 + 1) = rb) as -> by (apply take_app_length'; done).
  assert (drop (Z.to_nat (32 + 1)) (b0 :: rb ++ sb) = sb) as -> by (change (drop 32 (rb ++ sb) = sb); by apply drop_app_length').
  assert (be_val rb = sig_R sig) as -> by (unfold rb; rewrite be_val_be_bytes; by apply Z.mod_small).
  assert (be_val sb = sig_S sig) as -> by (unfold sb; rewrite be_val_be_bytes; by apply Z.mod_small).
  assert (Z.ldiff (u8 (byte_Z b0 - 27)) 4 = i ∧ bool_decide (Z.land (u8 (byte_Z b0 - 27)) 4 = 4) = c) as [-> ->].
  { unfold b0. assert (i = 0 ∨ i = 1 ∨ i = 2 ∨ i = 3) as [-> | [-> | [-> | ->]]] by lia; by destruct c. }
  by destruct sig.
Qed.

Lemma compact_loop_spec n i key sig hash c :
  (∀ j s, i <= j < i + Z.of_nat n → recoverKeyFromSignature table sig hash j true ≠ Panic s) →
  (∃ j, i <= j < i + Z.of_nat n ∧ recoverKeyFromSignature table sig hash j true = Ret (priv_pub key)) →
  ∃ j, i <= j < i + Z.of_nat n ∧ recoverKeyFromSignature table sig hash j true = Ret (priv_pub key) ∧
    compact_loop table n i key sig hash c = Ret (compact_bytes j c sig).
Proof.
  revert i. induction n as [|n IH]; intros i Hnp (j & Hj & E); [lia|].
  assert (∀ o, recoverKeyFromSignature table sig hash i true = o → o ≠ Ret (priv_pub key) →
    ∃ j, i <= j < i + Z.of_nat (S n) ∧ recoverKeyFromSignature table sig hash j true = Ret (priv_pub key) ∧
      compact_loop table n (i + 1) key sig hash c = Ret (compact_bytes j c sig)) as Hnext.
  { intros o Eo Hne. destruct (IH (i + 1)) as (j' & Hj' & H'); [intros j' s Hj'; apply Hnp; lia| |exists j'; split; [lia|done]].
    exists j. split; [|done]. destruct (decide (j = i)) as [-> |]; [congruence|lia]. }
  cbn [compact_loop]. destruct (recoverKeyFromSignature table sig hash i true) as [pk|e|s] eqn:Ei; [|by apply (Hnext _ eq_refl)|by destruct (Hnp i s); [lia|]].
  rewrite <- bool_decide_and. destruct (bool_decide_reflect (pub_X pk = pub_X (priv_pub key) ∧ pub_Y pk = pub_Y (priv_pub key))) as [[Ex Ey]|Hne].
  - exists i. split; [lia|]. split; [|done]. rewrite Ei. f_equal. destruct pk, (priv_pub key). cbn in *. by subst.
  - apply (Hnext _ eq_refl). intros [= ->]. by apply Hne.
Qed.

(** The signature of [sign_with_spec] in compact form. *)
Lemma compact_right d k k' x y s hash c :
  smul k base_point = Some (x, y) → (k' = k ∨ k' = - k) → coordinate_r x ≠ curve_N → 1 <= s < curve_N →
  s * k' mod curve_N = (d * coordinate_r x + hashToInt hash) mod curve_N →
  ∃ b, compact_loop table 4 0 (MkPriv (key_of (smul d base_point)) d) (MkDer (coordinate_r x) s) hash c = Ret b ∧ length b = 65%nat ∧
    RecoverCompact table b hash = Ret (key_of (smul d base_point), c).
Proof.
  intros HR Hk' Hne Hs E. assert (on_curve (Some (x, y))) as Hon by (rewrite <- HR; auto with curve). pose proof (coordinate_r_range x (x_nonzero _ _ Hon)) as Hr.
  pose proof curve_N_range as HN. assert (∃ y', smul k' base_point = Some (x, y')) as [y' HR'].
  { destruct Hk' as [-> | ->]; [by exists y|]. rewrite smul_opp, HR by auto with curve. by eexists. }
  set (sig := MkDer (coordinate_r x) s). destruct (iteration_of_spec x y') as (Hi & _ & _).
  destruct (compact_loop_spec 4 0 (MkPriv (key_of (smul d base_point)) d) sig hash c) as (j & Hj & Ej & El).
  - intros j e Hj Ep. destruct (decide (curve_N * (j ÷ 2) + sig_R sig < curve_P)).
    + destruct (recover_returns sig hash j true) as [pk Epk]; [cbn; lia|lia|cbn; rewrite Z.mod_small; lia|done|]. congruence.
    + unfold recoverKeyFromSignature in Ep. rewrite bool_decide_true in Ep by lia. discriminate.
  - exists (iteration_of x y'). split; [lia|]. by apply (recover_right d k').
  - exists (compact_bytes j c sig). split; [done|]. assert (word256 (sig_R sig) ∧ word256 (sig_S sig)) as [H1 H2] by (unfold word256; cbn; lia).
    split; [rewrite compact_bytes_eq by (done || lia); cbn [length]; by rewrite length_app, !be_bytes_length|].
    rewrite recover_compact by (done || lia). rewrite recover_checks in Ej by (cbn; lia). by rewrite Ej.
Qed.
End Recovery.

(** ** Claims *)

(** C32. Compact signatures give the key back. Under the conditions of signing, [SignCompact]
    returns: an error if S is zero, and otherwise, unless R is N itself, 65 bytes from
    which [RecoverCompact] recovers exactly the public key of the signer and whether it
    is to be written compressed. *)
Theorem compact_recovers `{HashFunction} table pk fuel k (hash : bytes) (compressed : bool)
  (Htable : table_ok base_point table) (Hpk : be_val pk mod curve_N ≠ 0) (Hk : nonceRFC6979 fuel (be_val pk) hash = Some k) :
  ∃ priv pub, PrivKeyFromBytes table pk = Ret (priv, pub) ∧
    (SignCompact table fuel priv hash compressed = Some (Err "calculated S is zero") ∨
     (∃ sig, Sign table fuel priv hash = Some (Ret sig) ∧ sig_R sig = curve_N) ∨
     ∃ b, SignCompact table fuel priv hash compressed = Some (Ret b) ∧ length b = 65%nat ∧ RecoverCompact table b hash = Ret (pub, compressed)).
Proof.
  unfold PrivKeyFromBytes. rewrite (ScalarBaseMult_correct base_point) by first [exact base_on_curve|exact base_order|exact Htable].
  set (Q := smul (be_val pk) base_point). destruct (to_big Q) as [qx qy] eqn:EQ. eexists _, _. split; [reflexivity|]. cbn [priv_pub].
  assert (MkPub qx qy = key_of Q) as -> by (unfold key_of; by rewrite EQ). unfold SignCompact, Sign, signRFC6979. cbn [priv_D]. rewrite Hk. cbn [mbind option_bind].
  destruct (sign_with_spec table Htable k (MkPriv (key_of Q) (be_val pk)) hash (nonce_usable _ _ _ _ Hk)) as (x & y & HR & [-> | (s & k' & -> & Hs & Hk' & E)]); [by left|].
  right. destruct (decide (coordinate_r x = curve_N)) as [EN|Hne]; [left; by eexists|right]. cbn [priv_D] in E. pose proof halfOrder_value. pose proof curve_N_range.
  destruct (compact_right table Htable (be_val pk) k k' x y s hash compressed) as (b & Eb & Hl & Er); [done..|lia|done|].
  exists b. split; [|done]. cbn [mbind outcome_bind]. by rewrite <- Eb.
Qed.

Lemma compact_recovers_witness :
  ∃ priv pub, PrivKeyFromBytes (point_table base_point) [x01] = Ret (priv, pub) ∧
    (SignCompact (point_table base_point) 1 priv vector_hash true = Some (Err "calculated S is zero") ∨
     (∃ sig, Sign (point_table base_point) 1 priv vector_hash = Some (Ret sig) ∧ sig_R sig = curve_N) ∨
     ∃ b, SignCompact (point_table base_point) 1 priv vector_hash true = Some (Ret b) ∧ length b = 65%nat ∧
       RecoverCompact (point_table base_point) b vector_hash = Ret (pub, true)).
Proof.
  exact (compact_recovers (point_table base_point) [x01] 1 vector_nonce vector_hash true (point_table_ok _) ltac:(discriminate) vector_nonce_found).
Defined.

(** There is no point with x = 5. *)
Lemma five_no_square : pow_mod fieldPrime_fold 132 ((fieldPrime - 1) / 2) mod fieldPrime ≠ 1.
Proof. vm_compute. discriminate. Qed.

Lemma no_point_at_five (y : F) : ¬ on_curve (Some (of_int 5, y)).
Proof.
  intros Hon. pose proof (y_nonzero _ _ Hon) as Hy. cbn in Hon. apply five_no_square.
  rewrite pow_mod_spec; [|apply fieldPrime_fold_keeps|reflexivity|vm_compute; discriminate].
  assert (of_int 132 = (y * y)%F) as E by (rewrite Hon, <- !of_int_mul, <- of_int_add; reflexivity).
  pose proof (Zmod.fermat_nz y Hy fieldPrime_prime) as Hf. apply (f_equal Zmod.to_Z) in E, Hf.
  rewrite Zmod.to_Z_pow_nonneg_r in Hf by (vm_compute; discriminate). unfold of_int in E. rewrite Zmod.to_Z_of_Z in E.
  rewrite <- Z.mod_pow_l, E, Zmod.to_Z_mul, Z.mod_pow_l, <- Z.pow_2_r, <- Z.pow_mul_r by (vm_compute; discriminate). exact Hf.
Qed.

(** C39. Recovery does not check what it says. The comment of [RecoverCompact] promises an
    error for signatures that do not match.  The check that n R is the point at infinity
    passes for every pair of numbers below 2^256; [RecoverCompact] returns a key for every
    R from 1 to N - 1 and every S, also when no point of the curve has that coordinate,
    as for 5; and for R = 0 it panics, since ModInverse gives nil. *)
Theorem recovery_unchecked `{HashFunction} table (hash sb : bytes) (Htable : table_ok base_point table) (Hsb : length sb = 32%nat) :
  (∀ x y, word256 x → word256 y → ScalarMult x y (big_Bytes curve_N) = Ret (0, 0)) ∧
  (∀ r, 1 <= r < curve_N → ∃ key, RecoverCompact table (x1b :: be_bytes 32 r ++ sb) hash = Ret (key, false)) ∧
  (∀ y, ¬ on_curve (Some (of_int 5, y))) ∧
  RecoverCompact table (x1b :: zeros 32 ++ sb) hash = Panic nil_deref.
Proof.
  pose proof curve_N_range as HN. pose proof (be_val_range sb) as Hs. unfold len in Hs. rewrite Hsb in Hs.
  assert (∀ r, word256 r → RecoverCompact table (x1b :: be_bytes 32 r ++ sb) hash = (key ← recoverKeyFromSignature table (MkDer r (be_val sb)) hash 0 false; mret (key, false))) as Hrec.
  { intros r Hr. rewrite <- (recover_compact table 0 false) by (done || lia). rewrite compact_bytes_eq by (done || lia). cbn [sig_R sig_S]. do 3 f_equal. by apply be_bytes_unique. }
  split; [exact times_order|]. split; [|split; [exact no_point_at_five|]].
  - intros r Hr. rewrite Hrec by (unfold word256; lia). destruct (recover_returns table Htable (MkDer r (be_val sb)) hash 0 false) as [key ->]; cbn [sig_R];
      [lia|lia|rewrite Z.mod_small by lia; lia|change curve_P with fieldPrime; change (0 ÷ 2) with 0; lia|]. by exists key.
  - change (zeros 32) with (be_bytes 32 0). rewrite Hrec by done. unfold recoverKeyFromSignature. cbn [sig_R]. change (curve_N * (0 ÷ 2) + 0) with 0. rewrite bool_decide_false by (change curve_P with fieldPrime; lia).
    destruct (decompressPoint_total 0 (bool_decide (Z.rem 0 2 = 1))) as (y & -> & _). cbn [mbind outcome_bind].
    rewrite ModInverse_none by done. reflexivity.
Qed.

Lemma recovery_unchecked_witness :
  (∃ key, RecoverCompact (point_table base_point) (x1b :: be_bytes 32 5 ++ zeros 32) (zeros 32) = Ret (key, false)) ∧
  RecoverCompact (point_table base_point) (x1b :: zeros 32 ++ zeros 32) (zeros 32) = Panic nil_deref.
Proof.
  destruct (recovery_unchecked (point_table base_point) (zeros 32) (zeros 32) (point_table_ok _) eq_refl) as (_ & H5 & _ & H0).
  split; [apply (H5 5); split; [lia|reflexivity]|exact H0].
Defined.
