(* ===== verification/Precompute.v ===== *)
(** * The tables behind the base point (crypto/btcec/gensecp256k1.go, precompute.go)

    The generator computes for every byte of a scalar and every value of it a multiple of
    the base point, and writes the words of the points; the package decodes them when it
    is initialized.  base64 and zlib are not part of the repository: [decompress] stands
    for both.  The buffer of the generator is filled from front to back without gaps, so
    it is the concatenation of what is written.

    [addJacobian] normalizes its second operand in place: the eight points of a window
    are passed on from one sum to the next. *)

From Stdlib Require Import ZArith Lia.
From S2P Require Import Prelude Buffers Sha256 Crypto Field Der Curve PubKey EcdsaSign.

Local Open Scope Z_scope.

(** ** The generator *)

(** A point and its doubles. *)
Fixpoint doublings (n : nat) (p : jacobian) : list jacobian :=
  match n with 0%nat => [] | S n => p :: doublings n (doubleJacobian p) end.

Definition doubling_points (x y : Z) : outcome (list jacobian) :=
  '(px, py) ← bigAffineToField x y;
  mret (doublings (Z.to_nat curve_BitSize) (Jac px py (SetInt 1))).

Definition getDoublingPoints : outcome (list jacobian) := doubling_points curve_Gx curve_Gy.

(** The second base point: the point with an even y whose x is a hash. *)
Definition getDoublingPointsH `{HashFunction} : outcome (list jacobian) :=
  let potentialXValue := x02 :: Sum256 (big_Bytes (curve_Gx + 2)) in
  gen2 ← btcec_ParsePubKey potentialXValue;
  doubling_points (pub_X gen2) (pub_Y gen2).

(** The sum of the points at the bits of [i], from bit [j] on, and the points as they are
    left. *)
Fixpoint add_bits (i j : Z) (computingPoints : list jacobian) (p : jacobian) : jacobian * list jacobian :=
  match computingPoints with
  | [] => (p, [])
  | c :: cs =>
      let '(p, c) := if bool_decide (Z.land (Z.shiftr i j) 1 = 1) then addJacobian p c else (p, c) in
      let '(p, cs) := add_bits i (j + 1) cs p in
      (p, c :: cs)
  end.

Fixpoint window (values : list Z) (computingPoints : list jacobian) : list jacobian :=
  match values with
  | [] => []
  | i :: values => let '(p, cs) := add_bits i 0 computingPoints (Jac Zero Zero Zero) in p :: window values cs
  end.

Definition limbs (f : fieldVal) : list Z := [n0 f; n1 f; n2 f; n3 f; n4 f; n5 f; n6 f; n7 f; n8 f; n9 f].

Definition point_bytes (p : jacobian) : bytes := concat (map (le_bytes 4) (limbs (jx p) ++ limbs (jy p) ++ limbs (jz p))).

Definition byte_window (doublingPoints : list jacobian) (byteNum : nat) : list jacobian :=
  let startingBit := (8 * (32 - byteNum - 1))%nat in
  window (map Z.of_nat (seq 0 256)) (take 8 (drop startingBit doublingPoints)).

Definition serialized_points (doublingPoints : list jacobian) : bytes :=
  concat (map (λ byteNum, concat (map point_bytes (byte_window doublingPoints byteNum))) (seq 0 32)).

Definition SerializedBytePoints : outcome bytes :=
  doublingPoints ← getDoublingPoints;
  mret (serialized_points doublingPoints).

Definition SerializedBytePointsH `{HashFunction} : outcome bytes :=
  doublingPoints ← getDoublingPointsH;
  mret (serialized_points doublingPoints).

(** ** The loader *)

Definition read_word (r : bytes) : outcome (Z * bytes) :=
  if bool_decide (len r < 4) then Panic out_of_range else mret (le_val (take 4 r), drop 4 r).

Definition read_words (r : bytes) : outcome (fieldVal * bytes) :=
  '(w0, r) ← read_word r; '(w1, r) ← read_word r; '(w2, r) ← read_word r; '(w3, r) ← read_word r; '(w4, r) ← read_word r;
  '(w5, r) ← read_word r; '(w6, r) ← read_word r; '(w7, r) ← read_word r; '(w8, r) ← read_word r; '(w9, r) ← read_word r;
  mret (FV w0 w1 w2 w3 w4 w5 w6 w7 w8 w9, r).

Definition read_point (r : bytes) : outcome (jacobian * bytes) :=
  '(px, r) ← read_words r;
  '(py, r) ← read_words r;
  '(pz, r) ← read_words r;
  mret (Jac px py pz, r).

Fixpoint read_times {A} (read : bytes → outcome (A * bytes)) (n : nat) (r : bytes) : outcome (list A * bytes) :=
  match n with
  | 0%nat => mret ([], r)
  | S n => '(a, r) ← read r; '(l, r) ← read_times read n r; mret (a :: l, r)
  end.

(** [bytePoints], nil if there is no data. *)
Definition loadS256BytePoints (decompress : bytes → outcome bytes) (bp : bytes) : outcome (option (list (list jacobian))) :=
  if bool_decide (len bp = 0) then mret None
  else
    serialized ← decompress bp;
    '(bytePoints, _) ← read_times (read_times read_point 256) 32 serialized;
    mret (Some bytePoints).

(** [loadS256BytePointsH] is the same code for the second variable. *)
Definition loadS256BytePointsH (decompress : bytes → outcome bytes) (bp : bytes) : outcome (option (list (list jacobian))) :=
  loadS256BytePoints decompress bp.

(** ** The vectors of the endomorphism *)

(** Newton's method, until the guess does not change. *)
Fixpoint sqrt_loop (fuel : nat) (n guess : Z) : option Z :=
  match fuel with
  | 0%nat => None
  | S fuel =>
      let prevGuess := guess in
      let guess := (guess + n / guess) / 2 in
      if bool_decide (guess = prevGuess) then Some guess else sqrt_loop fuel n guess
  end.

Definition sqrt (fuel : nat) (n : Z) : option Z := sqrt_loop fuel n (2 ^ (BitLen n / 2)).

(** The variables of the loop; [ev_first] are a1 and b1 once they are found. *)
Record euclid := Euclid { ev_u : Z; ev_v : Z; ev_x1 : Z; ev_x2 : Z; ev_y1 : Z; ev_y2 : Z; ev_ri : Z; ev_ti : Z; ev_first : option (Z * Z) }.

Fixpoint euclid_loop (fuel : nat) (nSqrt : Z) (st : euclid) : option (Z * Z * Z * Z) :=
  match fuel with
  | 0%nat => None
  | S fuel =>
      let '(Euclid u v x1 x2 y1 y2 ri ti first) := st in
      if bool_decide (u = 0) then Some (match first with Some (a1, b1) => (a1, b1, 0, 0) | None => (0, 0, 0, 0) end)
      else
        let q := v / u in
        let r := v - q * u in
        let s := x2 - q * x1 in
        let t := y2 - q * y1 in
        match first with
        | None =>
            if bool_decide (r < nSqrt) then euclid_loop fuel nSqrt (Euclid r u s x1 t y1 ri ti (Some (r, t * -1)))
            else euclid_loop fuel nSqrt (Euclid r u s x1 t y1 r t None)
        | Some (a1, b1) =>
            let sum1 := ri * ri + ti * ti in
            let sum2 := r * r + t * t in
            Some (if bool_decide (sum1 <= sum2) then (a1, b1, ri, ti * -1) else (a1, b1, r, t * -1))
        end
  end.

Definition EndomorphismVectors (fuel : nat) : option (Z * Z * Z * Z) :=
  nSqrt ← sqrt fuel curve_N;
  euclid_loop fuel nSqrt (Euclid curve_N curve_lambda 1 0 0 1 0 0 None).
