(* ===== verification/PrecomputeTheorems.v ===== *)
(** * The tables of the base points are right

    What the generator writes is read back by the loader as tables that satisfy the
    condition of [scalar_multiplication]. *)

From Stdlib Require Import ZArith Lia Zdivisibility Zmod Field.
From S2P Require Import Prelude Buffers Sha256 Crypto Engine Field FieldTheorems PrimeField GroupLaw Der DerTheorems Curve CurveTheorems Multiples ScalarTheorems PubKey PubKeyTheorems EcdsaSign Precompute.

Local Open Scope Z_scope.

#[local] Hint Extern 0 (on_curve base_point) => exact base_on_curve : curve.

Section Tables.
Context (g : point) (Hg : on_curve g).

(** ** The points *)

Lemma doublings_rep n p m i c : rep (smul m g) p → doublings n p !! i = Some c → rep (smul (m * 2 ^ Z.of_nat i) g) c.
Proof.
  revert p m i. induction n as [|n IH]; intros p m i Hp; [done|]. cbn [doublings]. destruct i as [|i]; cbn [lookup list_lookup].
  - intros [= <-]. by rewrite Z.mul_1_r.
  - intros Hc. replace (m * 2 ^ Z.of_nat (S i)) with ((m + m) * 2 ^ Z.of_nat i) by (rewrite Nat2Z.inj_succ, Z.pow_succ_r by lia; ring).
    apply (IH (doubleJacobian p)); [|done]. rewrite smul_add by done. apply doubleJacobian_rep; auto with curve.
Qed.

Lemma doublings_length n p : length (doublings n p) = n.
Proof. revert p. induction n as [|n IH]; intros p; [done|]. cbn. by rewrite IH. Qed.

(** The points of a window stand for m, 2 m, 4 m and so on. *)
Definition window_ok (m : Z) (cs : list jacobian) : Prop := ∀ i c, cs !! i = Some c → rep (smul (m * 2 ^ Z.of_nat i) g) c.

Lemma window_ok_cons m c cs : window_ok m (c :: cs) ↔ rep (smul m g) c ∧ window_ok (2 * m) cs.
Proof.
  split.
  - intros H. split; [rewrite <- (Z.mul_1_r m); by apply (H 0%nat)|]. intros i c' Hc. specialize (H (S i) c' Hc).
    by replace (2 * m * 2 ^ Z.of_nat i) with (m * 2 ^ Z.of_nat (S i)) by (rewrite Nat2Z.inj_succ, Z.pow_succ_r by lia; ring).
  - intros [Hc Hcs] [|i] c' Hc'; cbn [lookup list_lookup] in Hc'; [injection Hc' as <-; by rewrite Z.mul_1_r|].
    specialize (Hcs i c' Hc'). by replace (m * 2 ^ Z.of_nat (S i)) with (2 * m * 2 ^ Z.of_nat i) by (rewrite Nat2Z.inj_succ, Z.pow_succ_r by lia; ring).
Qed.

Lemma rep_same p j j' : rep p j → p ≠ None → same_values j j' → rep p j'.
Proof. intros Hr Hp (Hx & Hy & Hz). destruct p as [[x y]|]; [|done]. destruct Hr as (z & Hz0 & H1 & H2 & H3). exists z. auto. Qed.

Lemma addJacobian_keeps_infinity j1 j2 : rep None j2 → (addJacobian j1 j2).2 = j2.
Proof. intros H. unfold addJacobian. destruct (_ || _); [done|]. by rewrite rep_infinite. Qed.

Lemma addJacobian_keeps p j1 j2 : rep p j2 → rep p (addJacobian j1 j2).2.
Proof.
  intros H. destruct p as [p|]; [by apply (rep_same (Some p) j2); [..|apply addJacobian_second]|]. by rewrite addJacobian_keeps_infinity.
Qed.

Lemma mod_next z n : 0 <= n → z mod 2 ^ (n + 1) = z mod 2 + 2 * (Z.shiftr z 1 mod 2 ^ n).
Proof. intros Hn. rewrite Z.add_1_r, Z.pow_succ_r, Z.rem_mul_r by lia. by rewrite Z.shiftr_div_pow2 by lia. Qed.

Lemma add_bits_rep i m v cs p : 0 <= i → rep (smul v g) p → window_ok m cs → ∀ j, 0 <= j →
  let '(p', cs') := add_bits i j cs p in
  rep (smul (v + m * (Z.shiftr i j mod 2 ^ len cs)) g) p' ∧ window_ok m cs' ∧ length cs' = length cs.
Proof.
  intros Hi. revert m v p. induction cs as [|c cs IH]; intros m v p Hp Hcs j Hj; cbn [add_bits].
  { change (2 ^ len []) with 1. rewrite Z.mod_1_r, Z.mul_0_r, Z.add_0_r. auto. }
  apply window_ok_cons in Hcs as [Hc Hcs].
  set (step := if bool_decide _ then addJacobian p c else (p, c)).
  assert (rep (smul (v + m * (Z.shiftr i j mod 2)) g) step.1 ∧ rep (smul m g) step.2) as [H1 H2].
  { unfold step. assert (Z.land (Z.shiftr i j) 1 = Z.shiftr i j mod 2) as -> by (apply (Z.land_ones _ 1); lia). pose proof (Z.mod_pos_bound (Z.shiftr i j) 2 ltac:(lia)).
    destruct (bool_decide_reflect (Z.shiftr i j mod 2 = 1)) as [E|E].
    - rewrite E, Z.mul_1_r, smul_add by done. split; [apply addJacobian_rep; auto with curve|by apply addJacobian_keeps].
    - assert (Z.shiftr i j mod 2 = 0) as -> by lia. by rewrite Z.mul_0_r, Z.add_0_r. }
  destruct step as [p1 c1]. cbn [fst snd] in H1, H2. specialize (IH (2 * m) _ p1 H1 Hcs (j + 1) ltac:(lia)). destruct (add_bits i (j + 1) cs p1) as [p' cs'].
  destruct IH as (H3 & H4 & H5). split; [|split; [by apply window_ok_cons|cbn; by rewrite H5]].
  replace (len (c :: cs)) with (len cs + 1) by (unfold len; cbn [length]; lia). rewrite mod_next, Z.shiftr_shiftr by (unfold len; lia).
  by replace (v + m * _) with (v + m * (Z.shiftr i j mod 2) + 2 * m * (Z.shiftr i (j + 1) mod 2 ^ len cs)) by ring.
Qed.

Lemma window_rep values m cs b i p : window_ok m cs → length cs = 8%nat → Forall (λ i, 0 <= i < 256) values →
  values !! b = Some i → window values cs !! b = Some p → rep (smul (m * i) g) p.
Proof.
  intros Hcs Hl Hv. revert cs b Hcs Hl. induction Hv as [|v values Hv Hvs IH]; intros cs b Hcs Hl; [done|]. cbn [window].
  pose proof (add_bits_rep v m 0 cs (Jac Zero Zero Zero) ltac:(lia) ltac:(rewrite smul_0; exact zero_rep) Hcs 0 ltac:(lia)) as H.
  destruct (add_bits v 0 cs (Jac Zero Zero Zero)) as [p' cs']. destruct H as (H1 & H2 & H3). destruct b as [|b]; cbn [lookup list_lookup].
  - intros [= <-] [= <-]. rewrite Z.shiftr_0_r, Z.add_0_l in H1. unfold len in H1. rewrite Hl in H1. by rewrite Z.mod_small in H1 by (change (2 ^ Z.of_nat 8) with 256; lia).
  - apply (IH cs'); [done|lia].
Qed.

Lemma window_length values cs : length (window values cs) = length values.
Proof. revert cs. induction values as [|v values IH]; intros cs; [done|]. cbn [window]. destruct (add_bits _ _ _ _) as [p cs']. cbn. by rewrite IH. Qed.

(** ** The bytes *)

Definition word_ok (f : fieldVal) : Prop := Forall (λ w, 0 <= w < 2 ^ 32) (limbs f).

Lemma seven_words f : magnitude 7 f → word_ok f.
Proof.
  intros [Hw H9]. rewrite !Forall_cons in Hw. unfold word_max in Hw. unfold word_ok, limbs. rewrite !Forall_cons. repeat split; try apply Forall_nil_2; lia.
Qed.

Lemma rep_words p j : rep p j → word_ok (jx j) ∧ word_ok (jy j) ∧ word_ok (jz j).
Proof. destruct p as [[x y]|]; [intros (z & _ & [Hx _] & [Hy _] & [Hz _])|intros (Hx & Hy & Hz & _)]; auto using seven_words. Qed.

Lemma read_word_le w r : 0 <= w < 2 ^ 32 → read_word (le_bytes 4 w ++ r) = Ret (w, r).
Proof.
  intros Hw. unfold read_word. rewrite bool_decide_false by (unfold len; rewrite length_app, le_bytes_length; lia).
  rewrite take_app_length', drop_app_length' by (symmetry; apply le_bytes_length). rewrite le_val_le_bytes, Z.mod_small by (change (256 ^ Z.of_nat 4) with (2 ^ 32); lia). done.
Qed.

Lemma read_words_bytes f r : word_ok f → read_words (concat (map (le_bytes 4) (limbs f)) ++ r) = Ret (f, r).
Proof.
  intros Hf. unfold word_ok, limbs in Hf. rewrite !Forall_cons in Hf. destruct Hf as (? & ? & ? & ? & ? & ? & ? & ? & ? & ? & _).
  unfold limbs, read_words. cbn [map concat]. rewrite <- !app_assoc. do 10 (rewrite read_word_le by done; cbn [mbind outcome_bind]). by destruct f.
Qed.

Lemma read_point_bytes p j r : rep p j → read_point (point_bytes j ++ r) = Ret (j, r).
Proof.
  intros Hj. destruct (rep_words _ _ Hj) as (Hx & Hy & Hz). unfold read_point, point_bytes. rewrite !map_app, !concat_app, <- !app_assoc.
  do 3 (rewrite read_words_bytes by done; cbn [mbind outcome_bind]). by destruct j.
Qed.

Lemma read_times_concat {A} (read : bytes → outcome (A * bytes)) (write : A → bytes) n l r :
  length l = n → (∀ a r, a ∈ l → read (write a ++ r) = Ret (a, r)) → read_times read n (concat (map write l) ++ r) = Ret (l, r).
Proof.
  intros <-. induction l as [|a l IH]; intros Hr; [done|]. cbn [read_times length map concat]. rewrite <- app_assoc, Hr by left. cbn [mbind outcome_bind].
  rewrite IH by (intros a' r' Ha; apply Hr; by right). done.
Qed.

(** ** The tables *)

Definition generated_table (dps : list jacobian) : list (list jacobian) := map (byte_window dps) (seq 0 32).

Lemma generated_table_ok p : rep g p → table_ok g (generated_table (doublings 256 p)).
Proof.
  intros Hp. unfold generated_table. split; [by rewrite length_map, length_seq|]. intros i row Hr. apply list_lookup_fmap_Some in Hr.
  destruct Hr as (i' & -> & Hi). apply lookup_seq in Hi as [-> Hi]. cbn [Nat.add]. unfold byte_window.
  split; [by rewrite window_length, length_map, length_seq|]. intros b j Hj.
  pose proof (lookup_lt_Some _ _ _ Hj) as Hb. rewrite window_length, length_map, length_seq in Hb.
  rewrite Z.mul_comm. eapply (window_rep _ _ _ b (Z.of_nat b)); [| | | |exact Hj].
  - intros k c Hc. rewrite lookup_take_Some, lookup_drop in Hc. destruct Hc as [Hc _].
    apply (doublings_rep _ _ 1) in Hc; [|by rewrite smul_1]. replace (256 ^ (31 - Z.of_nat i) * 2 ^ Z.of_nat k) with (1 * 2 ^ Z.of_nat (8 * (32 - i - 1) + k)); [done|].
    change 256 with (2 ^ 8). rewrite <- Z.pow_mul_r, <- Z.pow_add_r, Z.mul_1_l by lia. f_equal. lia.
  - rewrite length_take, length_drop, doublings_length. lia.
  - apply Forall_forall. intros z Hz. apply list_elem_of_fmap in Hz as (n & -> & Hn). apply elem_of_seq in Hn. lia.
  - change (map Z.of_nat (seq 0 256)) with (Z.of_nat <$> seq 0 256). rewrite list_lookup_fmap, lookup_seq_lt by lia. done.
Qed.

Lemma table_read p r : rep g p →
  read_times (read_times read_point 256) 32 (serialized_points (doublings 256 p) ++ r) = Ret (generated_table (doublings 256 p), r).
Proof.
  intros Hp. destruct (generated_table_ok p Hp) as [Hl Ht]. unfold serialized_points.
  assert (∀ dps : list jacobian, map (λ n, concat (map point_bytes (byte_window dps n))) (seq 0 32) = map (λ row, concat (map point_bytes row)) (generated_table dps)) as ->.
  { intros dps. unfold generated_table. by rewrite map_map. }
  apply read_times_concat; [exact Hl|]. intros row r' Hrow. apply list_elem_of_lookup_1 in Hrow as [i Hi]. destruct (Ht i row Hi) as [Hl' Hj].
  apply read_times_concat; [exact Hl'|]. intros j r'' Hin. apply list_elem_of_lookup_1 in Hin as [b Hb]. by eapply read_point_bytes, Hj.
Qed.

Lemma serialized_length p : rep g p → len (serialized_points (doublings 256 p)) = 32 * 256 * 3 * 10 * 4.
Proof.
  intros Hp. unfold serialized_points. assert (∀ {A} (f : A → bytes) n l, (∀ a, length (f a) = n) → length (concat (map f l)) = (length l * n)%nat) as Hc.
  { intros A f n l Hf. induction l as [|a l IH]; [done|]. cbn. rewrite length_app, Hf, IH. lia. }
  unfold len. rewrite (Hc _ _ (256 * 120)%nat).
  - rewrite length_seq. lia.
  - intros n. rewrite (Hc _ _ 120%nat); [unfold byte_window; by rewrite window_length, length_map, length_seq|]. intros j. unfold point_bytes.
    rewrite (Hc _ _ 4%nat) by apply le_bytes_length. done.
Qed.

(** [ScalarBaseMult] with scalars that need no reduction. *)
Lemma ScalarBaseMult_short table k : table_ok g table → (length k <= 32)%nat → ScalarBaseMult table k = Ret (to_big (smul (be_val k) g)).
Proof.
  intros Ht Hk. unfold ScalarBaseMult, base_loop. assert (moduloReduce k = k) as -> by (unfold moduloReduce, len; by rewrite bool_decide_false by (change curve_byteSize with 32; lia)).
  pose proof (proj1 Ht) as Hl. rewrite Hl.
  destruct (base_loop_rep g table (32 - length k) Hg Ht k 0 (Jac Zero Zero Zero) 0) as (q & E & Hq); [rewrite smul_0; exact zero_rep|lia|].
  etrans; [apply (f_equal (λ m, m ≫= _)); exact E|]. cbn [mbind outcome_bind]. unfold mret, outcome_ret. f_equal. by rewrite (fieldJacobianToBigAffine_rep _ _ Hq), Z.add_0_l.
Qed.

Lemma doubling_points_rep : g ≠ None → ∃ j, doubling_points (to_big g).1 (to_big g).2 = Ret (doublings 256 j) ∧ rep g j.
Proof.
  destruct g as [[x y]|]; [|done]. intros _. destruct (bigAffineToField_elt x y) as (fx & fy & E & Hx & Hy). exists (Jac fx fy (SetInt 1)).
  unfold doubling_points. cbn [to_big fst snd]. rewrite E. split; [done|]. by apply affine_rep.
Qed.

Lemma parsed_points b : g ≠ None → encodes b g →
  ∃ j, (gen2 ← btcec_ParsePubKey b; doubling_points (pub_X gen2) (pub_Y gen2)) = Ret (doublings 256 j) ∧ rep g j.
Proof.
  intros Hne Hb. destruct (doubling_points_rep Hne) as (j & E & Hj). exists j. split; [|exact Hj]. rewrite (parse_encoded b g Hg Hne Hb). exact E.
Qed.

(** What is loaded from data that the generator wrote. *)
Lemma loaded_table j decompress bp : rep g j → bp ≠ [] → decompress bp = Ret (serialized_points (doublings 256 j)) →
  ∃ table, loadS256BytePoints decompress bp = Ret (Some table) ∧ table_ok g table.
Proof.
  intros Hj Hbp Hdec. pose proof (table_read j [] Hj) as Er. pose proof (generated_table_ok j Hj) as Ht. rewrite app_nil_r in Er.
  revert Hdec Er Ht. generalize (doublings 256 j). intros dps Hdec Er Ht. exists (generated_table dps). split; [|exact Ht]. unfold loadS256BytePoints.
  rewrite bool_decide_false by (destruct bp; [done|unfold len; cbn [length]; lia]). rewrite Hdec. cbn [mbind outcome_bind]. rewrite Er. reflexivity.
Qed.
End Tables.

(** ** The second base point *)

Definition second_point : point :=
  Some (of_int 62019798872375673197196323141544521599614696302127232575019575894141490314671,
        of_int 20990574468431654695806343167909350405996356549618483958198491851167819921628).

Lemma second_on_curve : on_curve second_point.
Proof. cbv beta iota delta [on_curve second_point]. rewrite <- !of_int_mul, <- of_int_add. apply of_int_eq. vm_compute. reflexivity. Qed.

Lemma second_encoded : x02 :: Sum256 (big_Bytes (curve_Gx + 2)) = SerializeCompressed (key_of second_point).
Proof. vm_compute. reflexivity. Qed.

(** ** Claims *)

(** C33. The tables of the base points are right. If the data of the package decompress to
    what the generator serializes, then the loader makes of them a table with which
    [ScalarBaseMult] multiplies the base point by every scalar.  The same holds for the
    second base point, which is the point of the curve with even y whose x is the hash of
    Gx + 2: [ScalarBaseMultH] multiplies it by every scalar of at most 32 bytes.  The
    generator's Euclidean algorithm ends, and gives the four numbers that [splitK] uses. *)
Theorem tables_generated decompress bp bpH (Hbp : bp ≠ []) (HbpH : bpH ≠ [])
  (Hd : decompress bp = SerializedBytePoints) (HdH : decompress bpH = SerializedBytePointsH) :
  (∃ table, loadS256BytePoints decompress bp = Ret (Some table) ∧ table_ok base_point table ∧
    ∀ k, ScalarBaseMult table k = Ret (to_big (smul (be_val k) base_point))) ∧
  (∃ tableH, loadS256BytePointsH decompress bpH = Ret (Some tableH) ∧
    ∀ k, (length k <= 32)%nat → ScalarBaseMultH tableH k = Ret (to_big (smul (be_val k) second_point))) ∧
  EndomorphismVectors 100 = Some (curve_a1, curve_b1, curve_a2, curve_b2).
Proof.
  split; [|split; [|vm_compute; reflexivity]].
  - destruct (doubling_points_rep base_point base_on_curve ltac:(discriminate)) as (j & E & Hj). assert (to_big base_point = (curve_Gx, curve_Gy)) as Eb by (vm_compute; reflexivity).
    unfold SerializedBytePoints, getDoublingPoints in Hd. rewrite Eb in E. cbn [fst snd] in E. rewrite E in Hd. cbn [mbind outcome_bind] in Hd.
    destruct (loaded_table base_point base_on_curve j decompress bp Hj Hbp Hd) as (table & El & Ht). exists table. split; [done|]. split; [done|].
    intros k. apply (ScalarBaseMult_correct base_point); [exact base_on_curve|exact base_order|exact Ht].
  - destruct (parsed_points second_point second_on_curve _ ltac:(discriminate) (or_introl second_encoded)) as (j & E & Hj).
    assert (decompress bpH = Ret (serialized_points (doublings 256 j))) as Hser.
    { rewrite HdH. unfold SerializedBytePointsH, getDoublingPointsH. cbv zeta. etrans; [apply (f_equal (λ m, m ≫= _)); exact E|]. reflexivity. }
    destruct (loaded_table second_point second_on_curve j decompress bpH Hj HbpH Hser) as (table & El & Ht). exists table. split; [done|].
    intros k Hk. exact (ScalarBaseMult_short second_point second_on_curve table k Ht Hk).
Qed.

Lemma tables_generated_witness :
  ∃ table, loadS256BytePoints (λ b, if bool_decide (b = [x00]) then SerializedBytePoints else SerializedBytePointsH) [x00] = Ret (Some table) ∧
    ∀ k, ScalarBaseMult table k = Ret (to_big (smul (be_val k) base_point)).
Proof.
  destruct (tables_generated (λ b, if bool_decide (b = [x00]) then SerializedBytePoints else SerializedBytePointsH) [x00] [x01]
    ltac:(discriminate) ltac:(discriminate) eq_refl eq_refl) as ((table & E & _ & Hk) & _). exists table. split; [exact E|exact Hk].
Defined.
