(* ===== verification/Wallet.v ===== *)
(** * The wallet of the server (wallet/wallet.go, wallet/types.go)

    The wallet watches the blocks of a bitcoin node for outputs that pay to its
    key and pays for commitments with all of them.  Its database is a
    [KeyValue] store, with keys by kind; the file chainstate.hex is a field, and
    what is sent to the listeners for new blocks is recorded.

    The node behind the RPC client is a parameter: what it answers to the n-th
    request for a header, to requests for blocks and to transactions that are
    sent to it.  The private key is that of [SigHash]. *)

From Stdlib Require Import ZArith Lia.
From S2P Require Import Prelude Buffers Sha256 Store Crypto Utils WireCommon BtcWire Script SigHash.

Local Open Scope Z_scope.

Definition MINOUTPUT : Z := 1000.

(** ** Unspent outputs *)

Record Utxo := MkUtxo {
  u_TxHash : bytes;      (** 32 bytes *)
  u_Outpoint : Z;        (** uint32 *)
  u_Value : Z;           (** uint64 *)
  u_PkScript : bytes
}.

#[export] Instance Utxo_eq_dec : EqDecision Utxo.
Proof. solve_decision. Defined.

Definition Utxo_Bytes (u : Utxo) : bytes := u_TxHash u ++ be_bytes 4 (u_Outpoint u) ++ be_bytes 8 (u_Value u) ++ u_PkScript u.

(** [binary.Read] of an unsigned number whose error is ignored: a short input is used up. *)
Definition read_or_zero (n : nat) (r : bytes) : Z * bytes :=
  (if bool_decide (n ≤ length r)%nat then be_val (take n r) else 0, drop n r).

(** [*hash] of the nil that [NewHash] returns for a short input panics. *)
Definition UtxoFromBytes (b : bytes) : outcome Utxo :=
  let '(h, r) := next 32 b in
  match NewHash h with
  | Ret hash =>
      let '(outpoint, r) := read_or_zero 4 r in
      let '(value, r) := read_or_zero 8 r in
      mret (MkUtxo hash outpoint value (go_copy (zeros (length r)) r))
  | _ => Panic nil_deref
  end.

(** Whether [u] is the output that [op] names. *)
Definition is_output (op : OutPoint) (u : Utxo) : bool :=
  IsEqual (Some (Hash op)) (Some (u_TxHash u)) && bool_decide (op_Index op = u_Outpoint u).

Definition outpoint (u : Utxo) : OutPoint := MkOutPoint (u_TxHash u) (u_Outpoint u).

(** ** The index of the chain *)

Fixpoint find_block_from (i : Z) (activeChain : list bytes) (hash : bytes) : Z :=
  match activeChain with
  | [] => -1
  | b :: activeChain => if IsEqual (Some b) (Some hash) then i else find_block_from (i + 1) activeChain hash
  end.

Definition FindBlock (activeChain : list bytes) (hash : bytes) : Z := find_block_from 0 activeChain hash.

(** ** State *)

(** utxo-<hash>-<index> and lastcommit-txid. *)
Inductive wkey := KUtxo (op : OutPoint) | KLastCommit.

#[export] Instance wkey_eq_dec : EqDecision wkey.
Proof. solve_decision. Defined.

#[export] Program Instance OutPoint_countable : Countable OutPoint :=
  inj_countable' (λ op, (Hash op, op_Index op)) (λ '(h, i), MkOutPoint h i) _.
Next Obligation. by intros []. Qed.

#[export] Program Instance wkey_countable : Countable wkey :=
  inj_countable' (λ k, match k with KUtxo op => Some op | KLastCommit => None end)
    (λ o, match o with Some op => KUtxo op | None => KLastCommit end) _.
Next Obligation. by intros []. Qed.

(** The wallet's database. *)
Abbreviation WalletStore := (KeyValue wkey bytes).

(** A block as [rpcclient] returns it. *)
Record MsgBlock := MkMsgBlock { Header : BlockHeader; Transactions : list MsgTx }.

Record Wallet {DB : Type} := MkWallet {
  privateKey : PrivateKey;
  pubKeyHash : bytes;                  (** 20 bytes *)
  utxos : list Utxo;
  w_db : DB;
  activeChain : list bytes;
  synced : bool;
  lastCommitmentTxId : bytes;
  chainFile : option bytes;            (** chainstate.hex *)
  notified : list MsgBlock             (** sent to the listeners *)
}.
Arguments Wallet : clear implicits.
Arguments MkWallet {DB}.

Section Setters.
Context {DB : Type}.
Definition set_utxos (x : list Utxo) (w : Wallet DB) : Wallet DB :=
  MkWallet (privateKey w) (pubKeyHash w) x (w_db w) (activeChain w) (synced w) (lastCommitmentTxId w) (chainFile w) (notified w).
Definition set_w_db (x : DB) (w : Wallet DB) : Wallet DB :=
  MkWallet (privateKey w) (pubKeyHash w) (utxos w) x (activeChain w) (synced w) (lastCommitmentTxId w) (chainFile w) (notified w).
Definition set_activeChain (x : list bytes) (w : Wallet DB) : Wallet DB :=
  MkWallet (privateKey w) (pubKeyHash w) (utxos w) (w_db w) x (synced w) (lastCommitmentTxId w) (chainFile w) (notified w).
Definition set_synced (x : bool) (w : Wallet DB) : Wallet DB :=
  MkWallet (privateKey w) (pubKeyHash w) (utxos w) (w_db w) (activeChain w) x (lastCommitmentTxId w) (chainFile w) (notified w).
Definition set_lastCommitmentTxId (x : bytes) (w : Wallet DB) : Wallet DB :=
  MkWallet (privateKey w) (pubKeyHash w) (utxos w) (w_db w) (activeChain w) (synced w) x (chainFile w) (notified w).
Definition set_chainFile (x : option bytes) (w : Wallet DB) : Wallet DB :=
  MkWallet (privateKey w) (pubKeyHash w) (utxos w) (w_db w) (activeChain w) (synced w) (lastCommitmentTxId w) x (notified w).
Definition set_notified (x : list MsgBlock) (w : Wallet DB) : Wallet DB :=
  MkWallet (privateKey w) (pubKeyHash w) (utxos w) (w_db w) (activeChain w) (synced w) (lastCommitmentTxId w) (chainFile w) x.
End Setters.

Section Methods.
Context `{HashFunction} {DB : Type} `{WalletStore DB}.

(** ** Start *)

(** The values in the range of the keys of outputs. *)
Fixpoint decode_utxos (l : list (wkey * bytes)) : outcome (list Utxo) :=
  match l with
  | [] => mret []
  | (KUtxo _, v) :: l => u ← UtxoFromBytes v; us ← decode_utxos l; mret (u :: us)
  | _ :: l => decode_utxos l
  end.

Definition loadStuff (w : Wallet DB) : outcome (Wallet DB) :=
  us ← decode_utxos (db_list (w_db w));
  let w := set_utxos (utxos w ++ us) w in
  match db_get (w_db w) KLastCommit with
  | None => mret w
  | Some txid => mret (set_lastCommitmentTxId txid w)
  end.

Definition persistChainState (w : Wallet DB) : Wallet DB := set_chainFile (Some (concat (activeChain w))) w.

(** The loop of [readChainState] reads 32 bytes until there are fewer. *)
Fixpoint read_chain (fuel : nat) (b : bytes) : list bytes :=
  match fuel with
  | O => []
  | S fuel => if bool_decide (length b < 32)%nat then [] else take 32 b :: read_chain fuel (drop 32 b)
  end.

Definition readChainState (w : Wallet DB) : Wallet DB :=
  match chainFile w with
  | None => w
  | Some b => set_activeChain (read_chain (length b) b) w
  end.

(** [NewWallet] after the key is read and the database opened, up to the start of
    [BlockLoop]; [Hash160] is that of btcutil. *)
Definition NewWallet (Hash160 : bytes → bytes) (genesis : bytes) (key : PrivateKey) (db : DB) (file : option bytes) (rescanBlocks : Z) :
  outcome (Wallet DB) :=
  let w := MkWallet key (go_copy (zeros 20) (Hash160 (key_compressed key))) [] db [genesis] false [] file [] in
  w ← loadStuff w;
  let w := readChainState w in
  let w :=
    if bool_decide (rescanBlocks > 0) then
      let rescanBlocks := if bool_decide (len (activeChain w) < rescanBlocks) then len (activeChain w) else rescanBlocks in
      set_activeChain (take (Z.to_nat (len (activeChain w) - rescanBlocks)) (activeChain w)) w
    else w in
  mret (set_synced false w).

Definition HeightOfBlock (w : Wallet DB) (blockHash : bytes) : Z := FindBlock (activeChain w) blockHash.
Definition Height (w : Wallet DB) : Z := len (activeChain w) - 1.
Definition IsSynced (w : Wallet DB) : bool := synced w.
Definition Balance (w : Wallet DB) : Z := foldl (λ value u, u64 (value + u_Value u)) 0 (utxos w).

(** ** Blocks *)

(** The last index that matches, as the loop does not stop at the first. *)
Definition already_at (op : OutPoint) (us : list Utxo) : option nat :=
  foldl (λ found '(i, u), if is_output op u then Some i else found) None (imap pair us).

(** The error is only logged. *)
Definition registerUtxo (w : Wallet DB) (utxo : Utxo) : Wallet DB :=
  let us := match already_at (outpoint utxo) (utxos w) with
            | Some i => <[i := utxo]> (utxos w)
            | None => utxos w ++ [utxo]
            end in
  set_w_db (db_update (w_db w) [(KUtxo (outpoint utxo), Utxo_Bytes utxo)]).1 (set_utxos us w).

Definition mark_spent (w : Wallet DB) (ti : TxIn) : Wallet DB :=
  match list_find (λ u, is_output (PreviousOutPoint ti) u = true) (utxos w) with
  | None => w
  | Some (i, u) => set_w_db (db_delete (w_db w) [KUtxo (outpoint u)]).1 (set_utxos (delete i (utxos w)) w)
  end.

Definition markTxInputsAsSpent (w : Wallet DB) (tx : MsgTx) : Wallet DB := foldl mark_spent w (tx_TxIn tx).

(** [bytes.Equal] of nil and a key hash of 20 bytes is false. *)
Definition register_output (txHash : bytes) (w : Wallet DB) (out : nat * TxOut) : Wallet DB :=
  let '(i, out) := out in
  if bytes_eqb (default [] (KeyHashFromPkScript (PkScript out))) (pubKeyHash w)
  then registerUtxo w (MkUtxo txHash (u32 (Z.of_nat i)) (u64 (Value out)) (PkScript out))
  else w.

Definition processTransaction (w : Wallet DB) (tx : MsgTx) : Wallet DB :=
  markTxInputsAsSpent (foldl (register_output (TxHash_go tx)) w (imap pair (tx_TxOut tx))) tx.

Definition processBlock (w : Wallet DB) (block : MsgBlock) : Wallet DB :=
  foldl processTransaction (set_notified (notified w ++ [block]) w) (Transactions block).

(** ** Following the chain *)

Section BlockLoop.
Context (GetBlockHeader : nat → bytes → outcome BlockHeader) (GetBlock : bytes → outcome MsgBlock).

(** The inner loop of [BlockLoop], the [n]-th request for a header being the next:
    an error is tried again.  The result is the new chain and where it starts to differ. *)
Fixpoint attach (fuel n : nat) (chain : list bytes) (hash : bytes) (pendingBlockHashes : list bytes) : option (list bytes * nat) :=
  match fuel with
  | O => None
  | S fuel =>
      match GetBlockHeader n hash with
      | Ret header =>
          let pendingBlockHashes := hash :: pendingBlockHashes in
          let idx := FindBlock chain (PrevBlock header) in
          if bool_decide (idx > -1)
          then Some (take (Z.to_nat (idx + 1)) chain ++ pendingBlockHashes, Z.to_nat (idx + 1))
          else attach fuel (S n) chain (PrevBlock header) pendingBlockHashes
      | _ => attach fuel (S n) chain hash pendingBlockHashes
      end
  end.

(** A block that cannot be had is left out. *)
Definition process_hash (w : Wallet DB) (hash : bytes) : Wallet DB :=
  match GetBlock hash with
  | Ret block => processBlock w block
  | _ => w
  end.

(** One turn of [BlockLoop]; [None] when the fuel runs out. *)
Definition block_turn (fuel : nat) (GetBestBlockHash : outcome bytes) (w : Wallet DB) : outcome (option (Wallet DB)) :=
  let w := set_synced false w in
  match GetBestBlockHash with
  | Ret bestHash =>
      match last (activeChain w) with
      | None => Panic out_of_range
      | Some tip =>
          if IsEqual (Some bestHash) (Some tip) then mret (Some (set_synced true w))
          else
            match attach fuel 0 (activeChain w) bestHash [] with
            | None => mret None
            | Some (newChain, startIndex) =>
                let w := set_activeChain newChain w in
                let w := foldl process_hash w (drop startIndex newChain) in
                mret (Some (persistChainState (set_synced true w)))
            end
      end
  | _ => mret (Some w)
  end.
End BlockLoop.

(** ** Transactions *)

(** The first index that matches. *)
Definition last_output_idx (w : Wallet DB) : option nat :=
  fst <$> list_find (λ u, bool_decide (u_Outpoint u = 1) && bytes_eqb (u_TxHash u) (lastCommitmentTxId w) = true) (utxos w).

(** The last commitment's output, then all others. *)
Definition utxos_to_add (w : Wallet DB) : list Utxo :=
  match last_output_idx w with
  | None => utxos w
  | Some i => match utxos w !! i with Some u => u :: delete i (utxos w) | None => delete i (utxos w) end
  end.

Definition AddInputsAndChange (w : Wallet DB) (tx : MsgTx) (totalValueNeeded : Z) : outcome MsgTx :=
  let utxosToAdd := utxos_to_add w in
  let valueAdded := foldl (λ value u, u64 (value + u_Value u)) 0 utxosToAdd in
  if bool_decide (valueAdded < totalValueNeeded) then Err "Insufficient balance"
  else
    let tx := foldl (λ tx u, AddTxIn tx (NewTxIn (outpoint u) [] [])) tx utxosToAdd in
    let change := u64 (valueAdded - totalValueNeeded) in
    if bool_decide (change > MINOUTPUT)
    then mret (AddTxOut tx (NewTxOut (i64 change) (DirectWPKHScriptFromPKH (pubKeyHash w))))
    else mret tx.

Definition FindUtxoFromTxIn (w : Wallet DB) (txi : TxIn) : outcome Utxo :=
  match list_find (λ u, is_output (PreviousOutPoint txi) u = true) (utxos w) with
  | Some (_, out) => mret out
  | None => Err "Utxo not found"
  end.

(** The first loop of [SignMyInputs]: the witness of each input, [None] for those that are
    not the wallet's. *)
Fixpoint sign_loop (w : Wallet DB) (tx : MsgTx) (hCache : TxSigHashes) (i : nat) (ins : list TxIn) : outcome (list (option (list bytes))) :=
  match ins with
  | [] => mret []
  | txi :: ins =>
      wit ← match FindUtxoFromTxIn w txi with
            | Ret utxo =>
                wit ← WitnessSignature tx hCache i (i64 (u_Value utxo)) (u_PkScript utxo) SigHashAll (privateKey w) true;
                mret (Some wit)
            | _ => mret None
            end;
      rest ← sign_loop w tx hCache (S i) ins;
      mret (wit :: rest)
  end.

Definition put_witness (txin : TxIn) (wit : option (list bytes)) : TxIn :=
  match wit with
  | Some wit => MkTxIn (PreviousOutPoint txin) [] wit (Sequence txin)
  | None => txin
  end.

Definition SignMyInputs (w : Wallet DB) (tx : MsgTx) : outcome MsgTx :=
  let hCache := NewTxSigHashes tx in
  witStash ← sign_loop w tx hCache 0 (tx_TxIn tx);
  mret (MkMsgTx (tx_Version tx) (zip_with put_witness (tx_TxIn tx) witStash) (tx_TxOut tx) (LockTime tx)).

(** The script of the commitment's output. *)
Definition commitment_script (commitment : bytes) : bytes := [x6a; Z_byte (u8 (len commitment))] ++ commitment.

Definition commit_tx (w : Wallet DB) (commitment : bytes) : outcome MsgTx :=
  let tx := AddTxOut (NewMsgTx 1) (NewTxOut 0 (commitment_script commitment)) in
  tx ← AddInputsAndChange w tx 1000;
  SignMyInputs w tx.

(** [SendRawTransaction] is the node's answer. *)
Definition Wallet_Commit (SendRawTransaction : MsgTx → outcome bytes) (w : Wallet DB) (commitment : bytes) :
  outcome ((bytes * bytes) * Wallet DB) :=
  tx ← commit_tx w commitment;
  txid ← SendRawTransaction tx;
  let w := set_lastCommitmentTxId txid w in
  let w := set_w_db (db_update (w_db w) [(KLastCommit, txid)]).1 w in
  mret ((txid, Serialize tx), w).
End Methods.
