(* ===== verification/WalletTheorems.v ===== *)
(** * The wallet's books are right

    The contract of the wallet is a ledger: a finite map from outpoints to the
    unspent outputs that pay to its key.  A transaction adds its outputs and
    removes what it spends.  The list in memory and the entries of the database
    implement this map, and starting again from the database gives the same
    ledger. *)

From Stdlib Require Import ZArith Lia.
From S2P Require Import Prelude Buffers Sha256 Store Crypto Utils WireCommon BtcWire Script SigHash Wallet.

Local Open Scope Z_scope.

(** ** The contract *)

Section Ledger.
Context `{HashFunction}.

(** The outputs of [tx] that pay to the key, in order. *)
Definition own_outputs (pkh : bytes) (tx : MsgTx) : list Utxo :=
  omap (λ '(i, out), if decide (KeyHashFromPkScript (PkScript out) = Some pkh)
                     then Some (MkUtxo (TxHash_go tx) (u32 (Z.of_nat i)) (u64 (Value out)) (PkScript out)) else None)
    (imap pair (tx_TxOut tx)).

Definition credit (m : gmap OutPoint Utxo) (u : Utxo) : gmap OutPoint Utxo := <[outpoint u := u]> m.
Definition debit (m : gmap OutPoint Utxo) (ti : TxIn) : gmap OutPoint Utxo := delete (PreviousOutPoint ti) m.

Definition ledger_tx (pkh : bytes) (m : gmap OutPoint Utxo) (tx : MsgTx) : gmap OutPoint Utxo :=
  foldl debit (foldl credit m (own_outputs pkh tx)) (tx_TxIn tx).
End Ledger.

(** ** Lists of outputs and ledgers *)

(** The list [us] holds the ledger [m]. *)
Definition holds (us : list Utxo) (m : gmap OutPoint Utxo) : Prop :=
  NoDup (outpoint <$> us) ∧ ∀ op u, m !! op = Some u ↔ u ∈ us ∧ outpoint u = op.

Lemma is_output_spec op u : is_output op u = true ↔ outpoint u = op.
Proof.
  unfold is_output, outpoint, IsEqual. rewrite andb_true_iff, bool_decide_eq_true, bytes_eqb_true. destruct op as [h i]; cbn.
  split; [by intros [-> ->]|by intros [= -> ->]].
Qed.

(** The loop of [registerUtxo] finds the output if it is there. *)
Lemma already_at_spec op us :
  match already_at op us with
  | Some i => ∃ u, us !! i = Some u ∧ outpoint u = op
  | None => ∀ u, u ∈ us → outpoint u ≠ op
  end.
Proof.
  unfold already_at. induction us as [|u us IH] using rev_ind; [intros u Hin; by apply not_elem_of_nil in Hin|].
  rewrite imap_app, foldl_app. cbn [imap foldl]. rewrite Nat.add_0_r.
  destruct (is_output op u) eqn:E.
  - apply is_output_spec in E as <-. exists u. by rewrite lookup_app_r, Nat.sub_diag by lia.
  - assert (outpoint u ≠ op) by (intros Heq; apply is_output_spec in Heq; congruence).
    destruct (foldl _ None (imap pair us)) as [i|].
    + destruct IH as (v & Hi & Hv). exists v. split; [|done]. rewrite lookup_app_l; [done|by eapply lookup_lt_Some].
    + intros v [Hin| ->%list_elem_of_singleton]%elem_of_app; [by apply IH|done].
Qed.

Lemma holds_outpoint us m op u : holds us m → m !! op = Some u → outpoint u = op.
Proof. intros [_ Hm] Hl. by apply Hm in Hl as [_ Hl]. Qed.

Lemma holds_unique us m u v : holds us m → u ∈ us → v ∈ us → outpoint u = outpoint v → u = v.
Proof.
  intros [_ Hm] Hu Hv Heq. assert (m !! outpoint u = Some u) by by apply Hm.
  assert (m !! outpoint v = Some v) by by apply Hm. congruence.
Qed.

(** A member replaced by one with the same outpoint. *)
Lemma NoDup_replace us i u v :
  NoDup (outpoint <$> us) → us !! i = Some v → outpoint v = outpoint u → NoDup (outpoint <$> <[i := u]> us).
Proof.
  intros Hnd Hi Heq. rewrite list_fmap_insert, list_insert_id; [done|]. by rewrite list_lookup_fmap, Hi, <- Heq.
Qed.

Lemma elem_of_replace us i u v w :
  NoDup (outpoint <$> us) → us !! i = Some v → outpoint v = outpoint u →
  w ∈ <[i := u]> us ↔ w = u ∨ w ∈ us ∧ outpoint w ≠ outpoint u.
Proof.
  intros Hnd Hi Heq. split.
  - intros (j & Hj)%list_elem_of_lookup. destruct (decide (j = i)) as [->|Hne].
    + rewrite list_lookup_insert_eq in Hj by (by eapply lookup_lt_Some). left. congruence.
    + rewrite list_lookup_insert_ne in Hj by done. right. split; [by apply list_elem_of_lookup; exists j|].
      intros Hw. apply Hne. eapply (NoDup_lookup (outpoint <$> us)); [done| |].
      * rewrite list_lookup_fmap, Hj. cbn. by rewrite Hw.
      * rewrite list_lookup_fmap, Hi. cbn. by rewrite Heq.
  - intros [->|[(j & Hj)%list_elem_of_lookup Hne]].
    + apply list_elem_of_lookup. exists i. apply list_lookup_insert_eq. by eapply lookup_lt_Some.
    + apply list_elem_of_lookup. exists j. rewrite list_lookup_insert_ne; [done|]. intros ->. congruence.
Qed.

Lemma holds_credit us m u :
  holds us m →
  holds (match already_at (outpoint u) us with Some i => <[i := u]> us | None => us ++ [u] end) (credit m u).
Proof.
  intros [Hnd Hm]. pose proof (already_at_spec (outpoint u) us) as Ha. unfold credit.
  assert (∀ op v, <[outpoint u := u]> m !! op = Some v ↔ (v = u ∨ v ∈ us ∧ outpoint v ≠ outpoint u) ∧ outpoint v = op) as Hins.
  { intros op v. rewrite lookup_insert_Some, Hm. split; [|].
    - intros [[<- <-]|[Hne [Hin <-]]]; [by split; [left|]|]. split; [right|]; done.
    - intros [[->|[Hin Hne]] <-]; [by left|right; done]. }
  destruct (already_at _ us) as [i|].
  - destruct Ha as (v & Hi & Hv). split; [by eapply NoDup_replace|]. intros op w. rewrite Hins, elem_of_replace by done. done.
  - split.
    + rewrite fmap_app. apply NoDup_app. split; [done|]. split; [|apply NoDup_singleton].
      intros op (w & -> & Hw)%list_elem_of_fmap Heq%list_elem_of_singleton. by eapply Ha.
    + intros op w. rewrite Hins, elem_of_app, list_elem_of_singleton. split; [intros [[->|[? ?]] ?]; tauto|].
      intros [[Hin| ->] Heq]; [|tauto]. split; [|done]. right. split; [done|]. by apply Ha.
Qed.

Lemma elem_of_delete us i v w :
  NoDup (outpoint <$> us) → us !! i = Some v → w ∈ delete i us ↔ w ∈ us ∧ outpoint w ≠ outpoint v.
Proof.
  intros Hnd Hi. apply delete_Permutation in Hi as Hp. rewrite Hp in Hnd. rewrite fmap_cons, NoDup_cons in Hnd. destruct Hnd as [Hn _].
  split.
  - intros Hin. split; [rewrite Hp; by right|]. intros Heq. apply Hn. apply list_elem_of_fmap. exists w. by rewrite Heq.
  - rewrite Hp at 1. intros [[->|Hin]%elem_of_cons Hne]; [done|done].
Qed.

Lemma holds_debit us m i v : holds us m → us !! i = Some v → holds (delete i us) (delete (outpoint v) m).
Proof.
  intros [Hnd Hm] Hi. split.
  - apply delete_Permutation in Hi. rewrite Hi in Hnd. by apply NoDup_cons in Hnd as [_ ?].
  - intros op w. rewrite lookup_delete_Some, Hm, (elem_of_delete _ _ v) by done. split; [|].
    + intros (Hne & Hin & <-). by repeat split; try intros ?%symmetry.
    + intros ((Hin & Hne) & <-). by repeat split; try intros ?%symmetry.
Qed.

(** ** Encoding of outputs *)

Definition valid_utxo (u : Utxo) : Prop :=
  length (u_TxHash u) = 32%nat ∧ 0 <= u_Outpoint u < 2 ^ 32 ∧ 0 <= u_Value u < 2 ^ 64.

Lemma read_or_zero_put n z r : 0 <= z < 256 ^ Z.of_nat n → read_or_zero n (be_bytes n z ++ r) = (z, r).
Proof.
  intros Hz. unfold read_or_zero. pose proof (be_bytes_length n z) as Hl. rewrite bool_decide_true by (rewrite length_app; lia).
  rewrite take_app_length', drop_app_length' by done. rewrite be_val_be_bytes, Z.mod_small by done. done.
Qed.

Lemma Utxo_roundtrip u : valid_utxo u → UtxoFromBytes (Utxo_Bytes u) = Ret u.
Proof.
  intros (Hh & Hi & Hv). destruct u as [h i v s]; cbn [u_TxHash u_Outpoint u_Value] in *. unfold UtxoFromBytes, Utxo_Bytes.
  cbn [u_TxHash u_Outpoint u_Value u_PkScript]. rewrite next_app' by done. unfold NewHash, SetBytes. rewrite Hh. cbn [HashSize].
  rewrite bool_decide_false by (intros Hn; by apply Hn). cbn [mret outcome_ret]. rewrite read_or_zero_put by lia. rewrite read_or_zero_put by lia.
  rewrite !go_copy_same by (by rewrite ?length_zeros). done.
Qed.

(** ** Values *)

Definition value_sum (us : list Utxo) : Z := foldr (λ u s, u_Value u + s) 0 us.

#[export] Instance value_sum_proper : Proper ((≡ₚ) ==> (=)) value_sum.
Proof. intros us vs Hp. unfold value_sum. apply (foldr_permutation_proper _ _); [by intros u ? ? ->|lia|done]. Qed.

(** The value of a ledger. *)
Definition worth (m : gmap OutPoint Utxo) : Z := value_sum (map_to_list m).*2.

Lemma holds_Permutation us m : holds us m → us ≡ₚ (map_to_list m).*2.
Proof.
  intros [Hnd Hm]. set (l := (λ u, (outpoint u, u)) <$> us).
  assert (l.*1 = outpoint <$> us) as H1 by (unfold l; by rewrite <- list_fmap_compose).
  assert (l.*2 = us) as H2 by (unfold l; rewrite <- list_fmap_compose; apply list_fmap_id).
  assert (m = list_to_map l) as ->.
  { apply map_eq. intros op. apply option_eq. intros u. rewrite Hm, <- elem_of_list_to_map by (by rewrite H1).
    unfold l. rewrite list_elem_of_fmap. split; [intros [Hin <-]; by exists u|]. intros (v & [= -> ->] & Hin). done. }
  rewrite map_to_list_to_map by (by rewrite H1). by rewrite H2.
Qed.

Lemma holds_value us m : holds us m → value_sum us = worth m.
Proof. intros Hh. unfold worth. by rewrite <- holds_Permutation. Qed.

(** The sums of the code wrap around at 64 bits. *)
Lemma sum_u64 us z : foldl (λ value u, u64 (value + u_Value u)) (u64 z) us = u64 (z + value_sum us).
Proof.
  revert z. induction us as [|u us IH]; intros z; cbn [foldl value_sum foldr]; [by rewrite Z.add_0_r|].
  replace (u64 (u64 z + u_Value u)) with (u64 (z + u_Value u)) by (unfold u64; by rewrite Zplus_mod_idemp_l).
  rewrite IH. f_equal. unfold value_sum. lia.
Qed.

Lemma sum_us us : foldl (λ value u, u64 (value + u_Value u)) 0 us = u64 (value_sum us).
Proof. apply (sum_u64 us 0). Qed.

(** ** The wallet keeps the ledger *)

Lemma foldl_omap {A B C} (f : A → option B) (g : C → B → C) l c :
  foldl (λ c a, match f a with Some b => g c b | None => c end) c l = foldl g c (omap f l).
Proof. revert c. induction l as [|a l IH]; intros c; [done|]. cbn. rewrite IH. by destruct (f a). Qed.

Section Books.
Context `{HashFunction} {DB : Type} `{WalletStore DB}.
Implicit Types (w : Wallet DB) (m : gmap OutPoint Utxo).

(** Writes and deletions of what is there succeed. *)
Definition reliable : Prop :=
  (∀ (db : DB) l, (db_update db l).2 = None) ∧ ∀ (db : DB) k, is_Some (db_get db k) → (db_delete db [k]).2 = None.

(** The wallet [w] keeps the ledger [m], in memory and in its database. *)
Record books w m : Prop := {
  books_list : holds (utxos w) m;
  books_db op : db_get (w_db w) (KUtxo op) = Utxo_Bytes <$> m !! op;
  books_valid op u : m !! op = Some u → valid_utxo u;
  books_pays op u : m !! op = Some u → KeyHashFromPkScript (u_PkScript u) = Some (pubKeyHash w)
}.

Lemma registerUtxo_books w m u :
  reliable → valid_utxo u → KeyHashFromPkScript (u_PkScript u) = Some (pubKeyHash w) →
  books w m → books (registerUtxo w u) (credit m u).
Proof.
  intros [Hup _] Hv Hp [Hl Hd Hval Hpay]. unfold registerUtxo. split; cbn [utxos w_db set_w_db set_utxos].
  - by apply holds_credit.
  - intros op. rewrite db_get_update, Hup. rewrite written_cons. cbn [written foldl]. unfold credit, written. cbn [foldl]. case_decide as E.
    + injection E as <-. by rewrite lookup_insert_eq.
    + rewrite lookup_insert_ne by congruence. apply Hd.
  - intros op v. unfold credit. rewrite lookup_insert_Some. intros [[_ <-]|[_ Hin]]; [done|]. by eapply Hval.
  - intros op v. unfold credit. rewrite lookup_insert_Some. intros [[_ <-]|[_ Hin]]; [done|]. by eapply Hpay.
Qed.

Lemma mark_spent_books w m ti : reliable → books w m → books (mark_spent w ti) (debit m ti).
Proof.
  intros [_ Hdel] [Hl Hd Hval Hpay]. unfold mark_spent, debit.
  destruct (list_find _ (utxos w)) as [[i u]|] eqn:Ef.
  - apply list_find_Some in Ef as (Hi & Ho & _). apply is_output_spec in Ho. rewrite <- Ho.
    assert (m !! outpoint u = Some u) as Hm by (apply Hl; split; [by eapply list_elem_of_lookup_2|done]).
    split; cbn [utxos w_db set_w_db set_utxos].
    + by apply holds_debit.
    + intros op. rewrite db_get_delete, Hdel by (rewrite Hd, Hm; by eexists). case_decide as E.
      * apply list_elem_of_singleton in E as [= ->]. by rewrite lookup_delete_eq.
      * rewrite lookup_delete_ne; [apply Hd|]. intros Heq. apply E. rewrite Heq. by apply list_elem_of_singleton.
    + intros op v. rewrite lookup_delete_Some. intros [_ ?]. by eapply Hval.
    + intros op v. rewrite lookup_delete_Some. intros [_ ?]. by eapply Hpay.
  - apply list_find_None in Ef. rewrite delete_id; [done|]. destruct (m !! _) as [u|] eqn:Em; [|done].
    apply Hl in Em as [Hin Ho]. rewrite Forall_forall in Ef. exfalso. eapply Ef; [done|]. by apply is_output_spec.
Qed.

Lemma mark_all_books ins w m : reliable → books w m → books (foldl mark_spent w ins) (foldl debit m ins).
Proof. intros Hr. revert w m. induction ins as [|ti ins IH]; intros w m Hb; [done|]. by apply IH, mark_spent_books. Qed.

(** The fields that blocks do not change. *)
Lemma foldl_same {A B C} (f : A → B → A) (p : A → C) a l : (∀ a b, p (f a b) = p a) → p (foldl f a l) = p a.
Proof. intros Hf. revert a. induction l as [|b l IH]; intros a; [done|]. cbn. by rewrite IH, Hf. Qed.

Lemma pays_to pkh s : length pkh = 20%nat → bytes_eqb (default [] (KeyHashFromPkScript s)) pkh = bool_decide (KeyHashFromPkScript s = Some pkh).
Proof.
  intros Hl. apply eq_bool_prop_intro. rewrite !Is_true_true, bytes_eqb_true, bool_decide_eq_true.
  destruct (KeyHashFromPkScript s) as [k|]; cbn; [split; congruence|]. split; [intros <-; done|done].
Qed.

Lemma register_outputs w tx :
  length (pubKeyHash w) = 20%nat →
  foldl (register_output (TxHash_go tx)) w (imap pair (tx_TxOut tx)) = foldl registerUtxo w (own_outputs (pubKeyHash w) tx).
Proof.
  intros Hl. unfold own_outputs. rewrite <- foldl_omap. remember (pubKeyHash w) as pkh eqn:Ep. generalize (imap pair (tx_TxOut tx)) as outs.
  intros outs. revert w Ep. induction outs as [|[i out] outs IH]; intros w Ep; [done|]. cbn [foldl]. rewrite IH.
  - unfold register_output at 1. rewrite <- Ep, pays_to by done. by destruct (decide (KeyHashFromPkScript (PkScript out) = Some pkh)) as [E|E]; [rewrite (bool_decide_true _ E)|rewrite (bool_decide_false _ E)].
  - unfold register_output. by destruct (bytes_eqb _ _).
Qed.

Lemma own_outputs_valid pkh tx u : u ∈ own_outputs pkh tx → valid_utxo u ∧ KeyHashFromPkScript (u_PkScript u) = Some pkh.
Proof.
  unfold own_outputs. rewrite list_elem_of_omap. intros ([i out] & _ & Hu). case_decide; [|done]. injection Hu as <-. split; [|done].
  unfold valid_utxo, u32, u64. cbn [u_TxHash u_Outpoint u_Value]. split; [apply DoubleHashH_length|]. split; apply Z.mod_pos_bound; lia.
Qed.

Lemma register_all_books us w m :
  reliable → (∀ u, u ∈ us → valid_utxo u ∧ KeyHashFromPkScript (u_PkScript u) = Some (pubKeyHash w)) →
  books w m → books (foldl registerUtxo w us) (foldl credit m us).
Proof.
  intros Hr. revert w m. induction us as [|u us IH]; intros w m Hv Hb; [done|].
  apply IH; [intros v Hin; apply Hv; by right|]. destruct (Hv u) as [? ?]; [by left|]. by apply registerUtxo_books.
Qed.

(** What transactions leave alone. *)
Lemma processTransaction_same {A} (p : Wallet DB → A) w tx :
  (∀ w us db, p (set_w_db db (set_utxos us w)) = p w) → p (processTransaction w tx) = p w.
Proof.
  intros Hp. unfold processTransaction, markTxInputsAsSpent. rewrite (foldl_same mark_spent p).
  - apply (foldl_same (register_output (TxHash_go tx)) p). intros w' [i out]. unfold register_output. by destruct (bytes_eqb _ _); [apply Hp|].
  - intros w' ti. unfold mark_spent. by destruct (list_find _ _) as [[]|]; [apply Hp|].
Qed.

Lemma processTransaction_notified w tx : notified (processTransaction w tx) = notified w.
Proof. by apply processTransaction_same. Qed.
Lemma processTransaction_key w tx : privateKey (processTransaction w tx) = privateKey w.
Proof. by apply processTransaction_same. Qed.
Lemma processTransaction_last w tx : lastCommitmentTxId (processTransaction w tx) = lastCommitmentTxId w.
Proof. by apply processTransaction_same. Qed.
Lemma processTransaction_chain w tx : activeChain (processTransaction w tx) = activeChain w.
Proof. by apply processTransaction_same. Qed.
Lemma processTransaction_pkh w tx : pubKeyHash (processTransaction w tx) = pubKeyHash w.
Proof. by apply processTransaction_same. Qed.

Lemma processTransaction_books w m tx :
  reliable → length (pubKeyHash w) = 20%nat → books w m → books (processTransaction w tx) (ledger_tx (pubKeyHash w) m tx).
Proof.
  intros Hr Hl Hb. unfold processTransaction, markTxInputsAsSpent, ledger_tx. rewrite register_outputs by done.
  apply mark_all_books, register_all_books; [done..| |done]. apply own_outputs_valid.
Qed.

Lemma processTransactions_books txs w m :
  reliable → length (pubKeyHash w) = 20%nat → books w m →
  books (foldl processTransaction w txs) (foldl (ledger_tx (pubKeyHash w)) m txs).
Proof.
  intros Hr. revert w m. induction txs as [|tx txs IH]; intros w m Hl Hb; [done|]. cbn [foldl].
  rewrite <- (processTransaction_pkh w tx). apply IH; rewrite ?processTransaction_pkh; [done|]. by apply processTransaction_books.
Qed.

(** ** Starting again *)

Lemma Utxo_Bytes_inj u v : valid_utxo u → valid_utxo v → Utxo_Bytes u = Utxo_Bytes v → u = v.
Proof. intros Hu%Utxo_roundtrip Hv%Utxo_roundtrip E. congruence. Qed.

Lemma decode_utxos_ok (l : list (wkey * bytes)) :
  NoDup l.*1 → (∀ op v, (KUtxo op, v) ∈ l → ∃ u, v = Utxo_Bytes u ∧ valid_utxo u ∧ outpoint u = op) →
  ∃ us, decode_utxos l = Ret us ∧ NoDup (outpoint <$> us) ∧
    ∀ u, u ∈ us ↔ valid_utxo u ∧ (KUtxo (outpoint u), Utxo_Bytes u) ∈ l.
Proof.
  induction l as [|[[op|] v] l IH]; intros Hnd Hall.
  - exists []. split; [done|]. split; [apply NoDup_nil_2|]. intros u. split; [by intros ?%not_elem_of_nil|by intros [_ ?%not_elem_of_nil]].
  - cbn [fmap list_fmap fst] in Hnd. apply NoDup_cons in Hnd as [Hn Hnd].
    destruct IH as (us & E & Hus & Hin); [done|intros; apply Hall; by right|].
    destruct (Hall op v) as (u & -> & Hu & <-); [by left|]. exists (u :: us). cbn [decode_utxos]. rewrite Utxo_roundtrip, E by done.
    split; [done|]. split.
    + cbn. apply NoDup_cons. split; [|done]. intros (v & Hv & [_ Hl]%Hin)%list_elem_of_fmap. apply Hn. rewrite Hv.
      apply list_elem_of_fmap. by eexists (_, _).
    + intros v. rewrite !elem_of_cons, Hin. split.
      * intros [->|[? ?]]; [by auto|by auto].
      * intros [Hv [[= Ho Hb]|Hl]]; [left; by apply Utxo_Bytes_inj|by auto].
  - cbn [fmap list_fmap fst] in Hnd. apply NoDup_cons in Hnd as [_ Hnd].
    destruct IH as (us & E & Hus & Hin); [done|intros; apply Hall; by right|]. exists us. split; [done|]. split; [done|].
    intros u. rewrite Hin, elem_of_cons. split; [by intros [? ?]; auto|]. intros [? [?|?]]; [done|by auto].
Qed.

Lemma load_books w m w0 :
  books w m → utxos w0 = [] → w_db w0 = w_db w → pubKeyHash w0 = pubKeyHash w →
  ∃ w1, loadStuff w0 = Ret w1 ∧ books w1 m ∧ activeChain w1 = activeChain w0 ∧ chainFile w1 = chainFile w0 ∧
    lastCommitmentTxId w1 = default (lastCommitmentTxId w0) (db_get (w_db w) KLastCommit).
Proof.
  intros [Hl Hd Hv Hp] Hu Hdb Hk. unfold loadStuff. rewrite Hdb.
  destruct (decode_utxos_ok (db_list (w_db w))) as (us & E & Hnd & Hin); [apply db_list_keys| |].
  { intros op v Hlv%db_list_get. rewrite Hd in Hlv. apply fmap_Some in Hlv as (u & Hm & ->).
    exists u. split; [done|]. split; [by eapply Hv|by eapply holds_outpoint]. }
  rewrite E. cbn [mbind outcome_bind]. cbn [w_db set_utxos]. rewrite Hdb, Hu.
  assert (holds us m) as Hus.
  { split; [done|]. intros op u. rewrite Hin, db_list_get, Hd. split.
    - intros Hm. assert (outpoint u = op) as <- by by eapply holds_outpoint. rewrite Hm. split; [split; [by eapply Hv|done]|done].
    - intros [[Hvu Hg] <-]. apply fmap_Some in Hg as (v & Hm & Hb). rewrite Hm. f_equal. apply Utxo_Bytes_inj; [by eapply Hv|done|done]. }
  destruct (db_get (w_db w) KLastCommit) as [txid|]; eexists; (split; [reflexivity|]); cbn [app];
    (split; [|done]); (split; cbn [utxos w_db pubKeyHash set_utxos set_lastCommitmentTxId]; [done|rewrite Hdb; exact Hd|exact Hv|rewrite Hk; exact Hp]).
Qed.

(** Only the fields that [books] is about matter. *)
Lemma books_same w w' m : utxos w' = utxos w → w_db w' = w_db w → pubKeyHash w' = pubKeyHash w → books w m → books w' m.
Proof. intros Hu Hd Hk [? ? ? ?]. split; [by rewrite Hu|by rewrite Hd|done|by rewrite Hk]. Qed.

Lemma NewWallet_books Hash160 genesis key file rescan w m :
  books w m → go_copy (zeros 20) (Hash160 (key_compressed key)) = pubKeyHash w →
  ∃ w', NewWallet Hash160 genesis key (w_db w) file rescan = Ret w' ∧ books w' m ∧
    lastCommitmentTxId w' = default [] (db_get (w_db w) KLastCommit).
Proof.
  intros Hb Hk. unfold NewWallet.
  destruct (load_books w m (MkWallet key (go_copy (zeros 20) (Hash160 (key_compressed key))) [] (w_db w) [genesis] false [] file [])
              Hb eq_refl eq_refl Hk) as (w1 & -> & Hb1 & _ & _ & Hc). cbn [mbind outcome_bind].
  eexists. split; [reflexivity|]. unfold readChainState.
  destruct (chainFile w1), (bool_decide (rescan > 0)); (split; [by apply (books_same w1)|exact Hc]).
Qed.

(** ** Claims *)

(** C10. The wallet's books. Let the wallet keep the ledger [m], in memory and in
    its database, and let the database be reliable.  A new block is passed to the
    listeners and its transactions are applied in order: afterwards the wallet
    keeps the ledger in which, for each transaction, the outputs that pay to its
    key were added and the outputs it spends removed, and [Balance] is the worth
    of that ledger modulo 2^64.  A wallet that is started again with the same
    key on that database keeps the same ledger, whatever the chain state file and
    the rescan. *)
Theorem wallet_ledger w m block (Hr : reliable) (Hl : length (pubKeyHash w) = 20%nat) (Hb : books w m) :
  let w' := processBlock w block in
  let m' := foldl (ledger_tx (pubKeyHash w)) m (Transactions block) in
  books w' m' ∧ Balance w' = u64 (worth m') ∧ notified w' = notified w ++ [block] ∧
  ∀ Hash160 genesis key file rescan, go_copy (zeros 20) (Hash160 (key_compressed key)) = pubKeyHash w →
    ∃ w'', NewWallet Hash160 genesis key (w_db w') file rescan = Ret w'' ∧ books w'' m' ∧
      lastCommitmentTxId w'' = default [] (db_get (w_db w') KLastCommit).
Proof.
  intros w' m'. assert (books w' m') as Hb'.
  { apply (processTransactions_books (Transactions block) (set_notified (notified w ++ [block]) w)); [done..|]. by apply (books_same w). }
  split; [done|]. split; [|split].
  - unfold Balance. rewrite sum_us. f_equal. apply holds_value, Hb'.
  - unfold w', processBlock. rewrite (foldl_same processTransaction notified); [done|]. intros. apply processTransaction_notified.
  - intros Hash160 genesis key file rescan Hk. apply NewWallet_books; [done|]. unfold w', processBlock.
    by rewrite (foldl_same processTransaction pubKeyHash) by apply processTransaction_pkh.
Qed.
End Books.

(** ** A closed run *)

(** A signature in the form of DER that says whether the first byte of the digest is even. *)
Definition demo_sign (h : bytes) : bytes :=
  [x30; x06; x02; x01; x01; x02; x01] ++ [if Z.even (byte_Z (default x00 (head h))) then x02 else x01].
Definition demo_key : PrivateKey := MkPrivateKey (λ h, Ret (demo_sign h)) (x02 :: replicate 32 x07) (x04 :: replicate 64 x07).
Definition demo_Hash160 (b : bytes) : bytes := take 20 (Sum256 b).
Definition demo_pkh : bytes := Eval vm_compute in demo_Hash160 (key_compressed demo_key).
Definition demo_wallet : Wallet (gmap wkey bytes) := MkWallet demo_key demo_pkh [] ∅ [zeros 32] false [] None [].

(** A deposit and a payment to somebody else in one block. *)
Definition demo_deposit : MsgTx :=
  MkMsgTx 1 [NewTxIn (MkOutPoint (replicate 32 x11) 0) [] []]
    [MkTxOut 9000 ([x00; x14] ++ replicate 20 x33); MkTxOut 50000 (DirectWPKHScriptFromPKH demo_pkh)] 0.
Definition demo_block : MsgBlock := MkMsgBlock zeroHeader [demo_deposit].

Lemma demo_reliable : reliable (DB := gmap wkey bytes).
Proof. by split. Qed.

Lemma demo_books : books demo_wallet ∅.
Proof.
  split; [|done|intros op u; by rewrite lookup_empty|intros op u; by rewrite lookup_empty]. split; [apply NoDup_nil_2|].
  intros op u. rewrite lookup_empty. split; [done|]. by intros [?%not_elem_of_nil _].
Qed.

Lemma wallet_ledger_witness :
  Balance (processBlock demo_wallet demo_block) = 50000 ∧
  books (processBlock demo_wallet demo_block) (foldl (ledger_tx demo_pkh) ∅ [demo_deposit]) ∧
  length (utxos (processBlock demo_wallet demo_block)) = 1%nat.
Proof.
  split; [vm_compute; reflexivity|]. split; [|vm_compute; reflexivity].
  apply (wallet_ledger demo_wallet ∅ demo_block demo_reliable eq_refl demo_books).
Defined.
