(* ===== verification/WalletCommit.v ===== *)
(** * The transactions the wallet makes

    A commitment is paid for with everything the wallet has: its transaction
    spends the whole ledger, the last commitment's output first, and is signed
    for every input.  Over blocks this makes the commitments a chain. *)

From Stdlib Require Import ZArith Lia.
From S2P Require Import Prelude Buffers Sha256 Store Crypto Utils WireCommon BtcWire BtcTheorems Script ScriptTheorems SigHash Wallet WalletTheorems.

Local Open Scope Z_scope.

(** ** Digests do not depend on what signing fills in *)

Section Digests.
Context `{HashFunction}.

(** What of an input the digests of BIP 143 see. *)
Definition same_spend (ti ti' : TxIn) : Prop := PreviousOutPoint ti = PreviousOutPoint ti' ∧ Sequence ti = Sequence ti'.

Lemma same_spend_map {A} (f : TxIn → A) ins ins' :
  (∀ ti ti', same_spend ti ti' → f ti = f ti') → Forall2 same_spend ins ins' → map f ins = map f ins'.
Proof. intros Hf. induction 1 as [|ti ti' ins ins' Hs _ IH]; [done|]. cbn. by rewrite IH, (Hf _ _ Hs). Qed.

Lemma NewTxSigHashes_same v ins ins' outs l :
  Forall2 same_spend ins ins' → NewTxSigHashes (MkMsgTx v ins outs l) = NewTxSigHashes (MkMsgTx v ins' outs l).
Proof.
  intros Hs. unfold NewTxSigHashes, calcHashPrevOuts, calcHashSequence, calcHashOutputs. cbn [tx_TxIn tx_TxOut].
  f_equal; do 2 f_equal; apply same_spend_map; try done; intros ti ti' [Hp Hq]; by rewrite ?Hp, ?Hq.
Qed.

Lemma CalcWitnessSigHash_same script t v ins ins' outs l i amt :
  Forall2 same_spend ins ins' →
  CalcWitnessSigHash script (NewTxSigHashes (MkMsgTx v ins outs l)) t (MkMsgTx v ins outs l) i amt =
  CalcWitnessSigHash script (NewTxSigHashes (MkMsgTx v ins' outs l)) t (MkMsgTx v ins' outs l) i amt.
Proof.
  intros Hs. unfold CalcWitnessSigHash. destruct (parseScript script) as [pops [e|]]; [done|]. unfold calcWitnessSignatureHash.
  rewrite (NewTxSigHashes_same v ins ins' outs l Hs). cbn [tx_TxIn].
  destruct (ins !! i) as [ti|] eqn:E.
  - destruct (Forall2_lookup_l _ _ _ _ _ Hs E) as (ti' & -> & Hp & Hq). unfold witness_preimage. cbn [tx_Version tx_TxOut LockTime].
    by rewrite Hp, Hq.
  - apply lookup_ge_None in E. rewrite (Forall2_length _ _ _ Hs) in E. by apply lookup_ge_None in E as ->.
Qed.
End Digests.

(** ** Inputs and change *)

(** A key that signs every digest, with signatures and public keys that fit into a witness. *)
Definition can_sign (key : PrivateKey) : Prop :=
  (∀ h, ∃ sig, key_sign key h = Ret sig ∧ len sig <= 72) ∧ len (key_compressed key) = 33.

Section Commit.
Context `{HashFunction} {DB : Type} `{WalletStore DB}.
Implicit Types (w : Wallet DB) (m : gmap OutPoint Utxo).

Lemma utxos_to_add_Permutation w : utxos_to_add w ≡ₚ utxos w.
Proof.
  unfold utxos_to_add, last_output_idx. destruct (list_find _ (utxos w)) as [[i u]|] eqn:E; [|done]. cbn [fmap option_fmap option_map fst].
  apply list_find_Some in E as (Hi & _ & _). rewrite Hi. symmetry. by apply delete_Permutation.
Qed.

(** The output of the last commitment comes first. *)
Lemma utxos_to_add_head w m u :
  holds (utxos w) m → m !! MkOutPoint (lastCommitmentTxId w) 1 = Some u → head (utxos_to_add w) = Some u.
Proof.
  intros Hh Hm. assert (u ∈ utxos w ∧ outpoint u = MkOutPoint (lastCommitmentTxId w) 1) as [Hin Ho] by by apply Hh.
  unfold utxos_to_add, last_output_idx. destruct (list_find _ (utxos w)) as [[i v]|] eqn:E; cbn [fmap option_fmap option_map fst].
  - apply list_find_Some in E as (Hi & Hv & _). rewrite Hi. cbn. f_equal. apply andb_true_iff in Hv as [H1 H2].
    apply bool_decide_eq_true in H1. apply bytes_eqb_true in H2. eapply holds_unique; [done|by eapply list_elem_of_lookup_2|done|].
    rewrite Ho. unfold outpoint. by rewrite H1, H2.
  - apply list_find_None in E. rewrite Forall_forall in E. exfalso. apply (E u Hin). unfold outpoint in Ho. injection Ho as H1 H2.
    by rewrite H1, H2, bytes_eqb_refl, bool_decide_true.
Qed.

(** The inputs before they are signed. *)
Definition unsigned (us : list Utxo) : list TxIn := (λ u, NewTxIn (outpoint u) [] []) <$> us.

Lemma add_inputs us tx :
  foldl (λ tx u, AddTxIn tx (NewTxIn (outpoint u) [] [])) tx us =
  MkMsgTx (tx_Version tx) (tx_TxIn tx ++ unsigned us) (tx_TxOut tx) (LockTime tx).
Proof.
  revert tx. induction us as [|u us IH]; intros tx; unfold unsigned; cbn [foldl fmap list_fmap]; [rewrite app_nil_r; by destruct tx|].
  rewrite IH. unfold AddTxIn. cbn [tx_Version tx_TxIn tx_TxOut LockTime]. by rewrite <- app_assoc.
Qed.

(** What is left goes back to the wallet unless it is dust. *)
Definition change_outputs (pkh : bytes) (change : Z) : list TxOut :=
  if decide (change > MINOUTPUT) then [MkTxOut change (p2wpkh pkh)] else [].

Lemma AddInputsAndChange_spec w m tx needed :
  holds (utxos w) m → length (pubKeyHash w) = 20%nat → 0 <= worth m < 2 ^ 63 → 0 <= needed →
  AddInputsAndChange w tx needed =
  if decide (worth m < needed) then Err "Insufficient balance"
  else Ret (MkMsgTx (tx_Version tx) (tx_TxIn tx ++ unsigned (utxos_to_add w))
              (tx_TxOut tx ++ change_outputs (pubKeyHash w) (worth m - needed)) (LockTime tx)).
Proof.
  intros Hh Hl Hw Hn. unfold AddInputsAndChange, change_outputs. rewrite sum_us.
  assert (value_sum (utxos_to_add w) = worth m) as -> by (rewrite utxos_to_add_Permutation; by apply holds_value).
  rewrite (u64_small (worth m)) by lia. case_bool_decide as E1; [by rewrite decide_True|]. rewrite decide_False by done.
  rewrite u64_small by lia. rewrite add_inputs. case_bool_decide as E2.
  - rewrite decide_True by done. unfold AddTxOut, NewTxOut. cbn [tx_Version tx_TxIn tx_TxOut LockTime].
    by rewrite DirectWPKH_p2wpkh, i64_small by (done || lia).
  - rewrite decide_False by done. by rewrite app_nil_r.
Qed.

(** ** Signing *)

Lemma FindUtxo_found w m u ti : holds (utxos w) m → m !! PreviousOutPoint ti = Some u → FindUtxoFromTxIn w ti = Ret u.
Proof.
  intros Hh Hm. assert (u ∈ utxos w ∧ outpoint u = PreviousOutPoint ti) as [Hin Ho] by by apply Hh. unfold FindUtxoFromTxIn.
  destruct (list_find _ (utxos w)) as [[i v]|] eqn:E.
  - apply list_find_Some in E as (Hi & Hv & _). apply is_output_spec in Hv. unfold mret, outcome_ret. f_equal.
    eapply holds_unique; [done|by eapply list_elem_of_lookup_2|done|congruence].
  - apply list_find_None in E. rewrite Forall_forall in E. exfalso. apply (E u Hin). by apply is_output_spec.
Qed.

(** The witness [wit] spends [u] as input [i] of [tx]. *)
Definition signed_for (key : PrivateKey) (tx : MsgTx) (i : nat) (u : Utxo) (wit : list bytes) : Prop :=
  ∃ h sig, CalcWitnessSigHash (u_PkScript u) (NewTxSigHashes tx) SigHashAll tx i (u_Value u) = Ret h ∧
    key_sign key h = Ret sig ∧ len sig <= 72 ∧ wit = [sig ++ [x01]; key_compressed key].

Lemma WitnessSignature_ok key tx i u pkh :
  can_sign key → length pkh = 20%nat → u_PkScript u = p2wpkh pkh → (i < length (tx_TxIn tx))%nat →
  ∃ wit, WitnessSignature tx (NewTxSigHashes tx) i (u_Value u) (u_PkScript u) SigHashAll key true = Ret wit ∧ signed_for key tx i u wit.
Proof.
  intros [Hs _] Hl Hp Hi. unfold WitnessSignature, RawTxInWitnessSignature, signed_for.
  assert (∃ h, CalcWitnessSigHash (u_PkScript u) (NewTxSigHashes tx) SigHashAll tx i (u_Value u) = Ret h) as [h Eh].
  { unfold CalcWitnessSigHash. rewrite Hp, parse_p2wpkh by done. unfold calcWitnessSignatureHash.
    apply lookup_lt_is_Some_2 in Hi as [ti ->]. by eexists. }
  destruct (Hs h) as (sig & Es & Hlen). rewrite Eh. cbn [mbind outcome_bind]. unfold sign_hash. rewrite Es. cbn [mbind outcome_bind mret outcome_ret].
  eexists. split; [reflexivity|]. by exists h, sig.
Qed.

Lemma sign_loop_ok w m tx i ins :
  books w m → length (pubKeyHash w) = 20%nat → can_sign (privateKey w) → (∀ op u, m !! op = Some u → u_Value u < 2 ^ 63) →
  (i + length ins = length (tx_TxIn tx))%nat → Forall (λ ti, is_Some (m !! PreviousOutPoint ti)) ins →
  ∃ wits, sign_loop w tx (NewTxSigHashes tx) i ins = Ret (Some <$> wits) ∧ length wits = length ins ∧
    ∀ j ti wit, ins !! j = Some ti → wits !! j = Some wit →
      ∃ u, m !! PreviousOutPoint ti = Some u ∧ signed_for (privateKey w) tx (i + j) u wit.
Proof.
  intros Hb Hl Hs Hval. revert i. induction ins as [|ti ins IH]; intros i Hi Hall; [by exists []|].
  apply Forall_cons in Hall as [[u Hu] Hall]. cbn [length] in Hi. destruct (IH (S i)) as (wits & E & Hlen & Hw); [lia|done|].
  assert (u_PkScript u = p2wpkh (pubKeyHash w)) as Hp by (apply KeyHash_p2wpkh; [done|]; by eapply books_pays).
  destruct (WitnessSignature_ok (privateKey w) tx i u (pubKeyHash w)) as (wit & Ew & Hsig); [done|done|done|lia|].
  cbn [sign_loop]. rewrite (FindUtxo_found w m u ti) by (done || apply Hb).
  destruct (books_valid _ _ Hb _ _ Hu) as (_ & _ & Hv). rewrite i64_small by (specialize (Hval _ _ Hu); lia).
  rewrite Ew. cbn [mbind outcome_bind mret outcome_ret]. rewrite E. cbn [mbind outcome_bind mret outcome_ret].
  exists (wit :: wits). split; [done|]. split; [cbn; lia|]. intros [|j] ti' wit'; cbn [lookup list_lookup].
  - intros [= <-] [= <-]. exists u. by rewrite Nat.add_0_r.
  - intros Hj Hj'. destruct (Hw j ti' wit' Hj Hj') as (u' & Hu' & Hs'). exists u'. by rewrite <- Nat.add_succ_comm.
Qed.

(** ** The transaction of a commitment *)

Lemma value_bound us u : (∀ v, v ∈ us → 0 <= u_Value v) → u ∈ us → 0 <= u_Value u <= value_sum us.
Proof.
  intros Hpos Hin. assert (∀ l, (∀ v, v ∈ l → 0 <= u_Value v) → 0 <= value_sum l) as Hsum.
  { induction l as [|v l IH]; intros Hl; [done|]. unfold value_sum in *. cbn [foldr]. specialize (Hl v ltac:(left)) as Hv.
    specialize (IH (λ x Hx, Hl x ltac:(by right))). lia. }
  apply elem_of_Permutation in Hin as [l Hp]. rewrite Hp. split; [apply Hpos; rewrite Hp; left|]. unfold value_sum. cbn [foldr].
  specialize (Hsum l (λ v Hv, Hpos v ltac:(rewrite Hp; by right))). unfold value_sum in Hsum. lia.
Qed.

Lemma books_value w m op u : books w m → m !! op = Some u → 0 <= u_Value u <= worth m.
Proof.
  intros Hb Hu. rewrite <- (holds_value (utxos w) m) by apply Hb. apply value_bound; [|by apply (books_list _ _ Hb) in Hu as [? _]].
  intros v Hv. eapply (books_valid _ _ Hb (outpoint v)). by apply (books_list _ _ Hb).
Qed.

Lemma zip_put_outpoints ins wits : length wits = length ins → PreviousOutPoint <$> zip_with put_witness ins wits = PreviousOutPoint <$> ins.
Proof.
  revert wits. induction ins as [|ti ins IH]; intros [|wit wits] Hl; try done. cbn. f_equal; [by destruct wit|]. apply IH. by injection Hl.
Qed.

Lemma zip_put_same ins wits : length wits = length ins → Forall2 same_spend (zip_with put_witness ins wits) ins.
Proof.
  revert wits. induction ins as [|ti ins IH]; intros [|wit wits] Hl; try done. cbn. constructor; [by destruct wit|]. apply IH. by injection Hl.
Qed.

Lemma unsigned_outpoints us : PreviousOutPoint <$> unsigned us = outpoint <$> us.
Proof. unfold unsigned. rewrite <- list_fmap_compose. done. Qed.

(** The transaction that pays for [c] out of the ledger [m]. *)
Definition commitment_outputs w m (c : bytes) : list TxOut := MkTxOut 0 (commitment_script c) :: change_outputs (pubKeyHash w) (worth m - 1000).

Record commits w m (c : bytes) (tx : MsgTx) : Prop := {
  commits_version : tx_Version tx = 1 ∧ LockTime tx = 0;
  commits_inputs : PreviousOutPoint <$> tx_TxIn tx = outpoint <$> utxos_to_add w;
  commits_outputs : tx_TxOut tx = commitment_outputs w m c;
  commits_signed i ti : tx_TxIn tx !! i = Some ti →
    ∃ u, m !! PreviousOutPoint ti = Some u ∧ SignatureScript ti = [] ∧ Sequence ti = MaxTxInSequenceNum ∧
         signed_for (privateKey w) tx i u (Witness ti)
}.

Lemma commit_tx_ok w m c :
  books w m → length (pubKeyHash w) = 20%nat → can_sign (privateKey w) → 1000 <= worth m < 2 ^ 63 →
  ∃ tx, commit_tx w c = Ret tx ∧ commits w m c tx.
Proof.
  intros Hb Hl Hs Hw. unfold commit_tx. rewrite (AddInputsAndChange_spec w m) by (apply Hb || done || lia). rewrite decide_False by lia.
  cbn [mbind outcome_bind AddTxOut NewTxOut NewMsgTx tx_Version tx_TxIn tx_TxOut LockTime app]. unfold SignMyInputs. cbn [tx_Version tx_TxIn tx_TxOut LockTime].
  set (ins := unsigned (utxos_to_add w)). set (outs := NewTxOut 0 (commitment_script c) :: _).
  destruct (sign_loop_ok w m (MkMsgTx 1 ins outs 0) 0 ins) as (wits & E & Hlen & Hwit); [done..| |done| |].
  { intros op u Hu. pose proof (books_value _ _ _ _ Hb Hu). lia. }
  { apply Forall_forall. intros ti (u & -> & Hu)%list_elem_of_fmap. exists u. apply (books_list _ _ Hb). split; [|done].
    by rewrite <- utxos_to_add_Permutation. }
  rewrite E. cbn [mbind outcome_bind mret outcome_ret]. eexists. split; [reflexivity|].
  assert (length (Some <$> wits) = length ins) as Hlm by (by rewrite length_fmap).
  split; cbn [tx_Version tx_TxIn tx_TxOut LockTime]; [done| |done|].
  - rewrite zip_put_outpoints by done. apply unsigned_outpoints.
  - intros i ti Hi. apply lookup_zip_with_Some in Hi as (ti0 & wit & -> & Hti & Hwi). rewrite list_lookup_fmap in Hwi.
    destruct (wits !! i) as [wit0|] eqn:Ei; [|done]. injection Hwi as <-. destruct (Hwit i ti0 wit0 Hti Ei) as (u & Hu & Hsig).
    exists u. cbn [put_witness PreviousOutPoint SignatureScript Sequence Witness]. split; [done|]. split; [done|].
    split; [|destruct Hsig as (h & sig & Eh & Hrest); exists h, sig; by rewrite (CalcWitnessSigHash_same _ _ _ _ ins) by (by apply zip_put_same)].
    unfold ins, unsigned in Hti. rewrite list_lookup_fmap in Hti. destruct (utxos_to_add w !! i); [by injection Hti as <-|done].
Qed.

(** The outputs it spends. *)
Lemma commits_spends w m c tx :
  holds (utxos w) m → commits w m c tx →
  NoDup (PreviousOutPoint <$> tx_TxIn tx) ∧ ∀ op, op ∈ PreviousOutPoint <$> tx_TxIn tx ↔ is_Some (m !! op).
Proof.
  intros Hh Hc. rewrite (commits_inputs _ _ _ _ Hc), utxos_to_add_Permutation. split; [apply Hh|]. intros op. rewrite list_elem_of_fmap. split.
  - intros (u & -> & Hu). rewrite utxos_to_add_Permutation in Hu. exists u. by apply Hh.
  - intros [u Hu]. apply Hh in Hu as [Hu <-]. exists u. by rewrite utxos_to_add_Permutation.
Qed.

Lemma commits_first w m c tx u :
  holds (utxos w) m → commits w m c tx → m !! MkOutPoint (lastCommitmentTxId w) 1 = Some u →
  head (PreviousOutPoint <$> tx_TxIn tx) = Some (MkOutPoint (lastCommitmentTxId w) 1).
Proof.
  intros Hh Hc Hu. rewrite (commits_inputs _ _ _ _ Hc). pose proof (utxos_to_add_head w m u Hh Hu) as Hf.
  destruct (utxos_to_add w) as [|v us]; [done|]. injection Hf as ->. cbn. f_equal. by eapply holds_outpoint.
Qed.

(** It fits into a message. *)
Lemma commits_ok w m c tx :
  books w m → can_sign (privateKey w) → length (pubKeyHash w) = 20%nat → 1000 <= worth m < 2 ^ 63 →
  len (utxos w) <= maxTxInPerMessage → len c <= 255 → commits w m c tx → MsgTx_ok tx ∧ tx_TxIn tx ≠ [].
Proof.
  intros Hb [_ Hkey] Hl Hw Hn Hc Htx. destruct (commits_version _ _ _ _ Htx) as [Hver Hlock].
  assert (length (tx_TxIn tx) = length (utxos w)) as Hlen.
  { rewrite <- (length_fmap PreviousOutPoint), (commits_inputs _ _ _ _ Htx), length_fmap. by rewrite utxos_to_add_Permutation. }
  split; [split|].
  - by rewrite Hver.
  - split; [unfold len in *; by rewrite Hlen|]. apply Forall_forall. intros ti (i & Hi)%list_elem_of_lookup.
    destruct (commits_signed _ _ _ _ Htx i ti Hi) as (u & Hu & Hscr & Hseq & h & sig & _ & _ & Hsig & Hwit).
    destruct (books_valid _ _ Hb _ _ Hu) as (Hh & Hidx & _). unfold TxIn_ok. rewrite <- (holds_outpoint _ _ _ _ (books_list _ _ Hb) Hu).
    unfold outpoint, script_ok, witness_ok. cbn [Hash op_Index]. rewrite Hscr, Hseq, Hwit. split; [done|]. split; [done|]. split; [done|].
    split; [split; [done|]|done]. unfold maxWitnessItemSize.
    apply Forall_cons. split; [rewrite len_app; change (len [x01]) with 1; lia|]. apply Forall_singleton. lia.
  - rewrite (commits_outputs _ _ _ _ Htx). unfold commitment_outputs, change_outputs.
    assert (TxOut_ok (MkTxOut 0 (commitment_script c))).
    { split; [done|]. unfold script_ok, commitment_script, MaxMessagePayload. cbn [PkScript]. rewrite len_app. change (len [x6a; _]) with 2. lia. }
    case_decide; split; [done| |done|by apply Forall_singleton]. apply Forall_cons. split; [done|]. apply Forall_singleton. split; cbn [Value PkScript]; [lia|].
    unfold script_ok, p2wpkh, MaxMessagePayload. rewrite len_app. unfold len at 2. rewrite Hl. done.
  - by rewrite Hlock.
  - intros E. rewrite E in Hlen. assert (utxos w = []) as E' by (by destruct (utxos w)). pose proof (holds_value (utxos w) m (books_list _ _ Hb)) as Hv.
    rewrite E' in Hv. cbn in Hv. lia.
Qed.

(** ** From one commitment to the next *)

(** An output stays in the ledger until it is spent. *)
Lemma ledger_tx_keeps pkh m tx op :
  is_Some (m !! op) → op ∉ PreviousOutPoint <$> tx_TxIn tx → is_Some (ledger_tx pkh m tx !! op).
Proof.
  intros Hm Hn. unfold ledger_tx. assert (is_Some (foldl credit m (own_outputs pkh tx) !! op)) as Hc.
  { generalize (own_outputs pkh tx) as us. intros us. revert m Hm. induction us as [|u us IH]; intros m Hm; [done|]. cbn [foldl]. apply IH.
    unfold credit. destruct (decide (outpoint u = op)) as [->|]; [by rewrite lookup_insert_eq|by rewrite lookup_insert_ne]. }
  revert Hc. generalize (foldl credit m (own_outputs pkh tx)) as m'. revert Hn. generalize (tx_TxIn tx) as ins. clear. intros ins.
  induction ins as [|ti ins IH]; intros Hn m' Hc; [done|]. cbn [fmap list_fmap] in Hn. apply not_elem_of_cons in Hn as [Hne Hn]. cbn [foldl]. apply IH; [done|].
  unfold debit. by rewrite lookup_delete_ne.
Qed.

Lemma ledger_keeps pkh txs m op :
  is_Some (m !! op) → Forall (λ tx, op ∉ PreviousOutPoint <$> tx_TxIn tx) txs → is_Some (foldl (ledger_tx pkh) m txs !! op).
Proof.
  intros Hm Hall. revert m Hm. induction Hall as [|tx txs Hn _ IH]; intros m Hm; [done|]. cbn [foldl]. apply IH. by apply ledger_tx_keeps.
Qed.

(** The change of a commitment is in the ledger once its transaction is in a block. *)
Lemma change_arrives w m0 m c tx :
  length (pubKeyHash w) = 20%nat → commits w m c tx → worth m - 1000 > MINOUTPUT → holds (utxos w) m →
  m !! MkOutPoint (TxHash_go tx) 1 = None →
  is_Some (ledger_tx (pubKeyHash w) m0 tx !! MkOutPoint (TxHash_go tx) 1).
Proof.
  intros Hl Hc Hw Hh Hfresh. unfold ledger_tx.
  assert (own_outputs (pubKeyHash w) tx = [MkUtxo (TxHash_go tx) 1 (u64 (worth m - 1000)) (p2wpkh (pubKeyHash w))]) as ->.
  { unfold own_outputs. rewrite (commits_outputs _ _ _ _ Hc). unfold commitment_outputs, change_outputs. rewrite decide_True by done.
    cbn [imap]. unfold compose. cbn [imap omap list_omap PkScript Value]. rewrite decide_False.
    - rewrite decide_True; [done|]. by apply KeyHash_p2wpkh.
    - intros E. by apply KeyHash_p2wpkh in E. }
  cbn [foldl]. destruct (commits_spends _ _ _ _ Hh Hc) as [_ Hin].
  assert (MkOutPoint (TxHash_go tx) 1 ∉ PreviousOutPoint <$> tx_TxIn tx) as Hn by (rewrite Hin, Hfresh; by intros [? ?]).
  apply (ledger_tx_keeps [] (credit m0 (MkUtxo (TxHash_go tx) 1 _ _)) (MkMsgTx 1 (tx_TxIn tx) [] 0)); [|done].
  unfold credit. cbn. by rewrite lookup_insert_eq.
Qed.

Lemma Wallet_Commit_ok w m c (send : MsgTx → outcome bytes) txid :
  books w m → length (pubKeyHash w) = 20%nat → can_sign (privateKey w) → 1000 <= worth m < 2 ^ 63 →
  (∀ tx, send tx = Ret (txid tx)) →
  ∃ tx w', commit_tx w c = Ret tx ∧ commits w m c tx ∧ Wallet_Commit send w c = Ret ((txid tx, Serialize tx), w') ∧
    books w' m ∧ lastCommitmentTxId w' = txid tx ∧ pubKeyHash w' = pubKeyHash w ∧ privateKey w' = privateKey w ∧ utxos w' = utxos w.
Proof.
  intros Hb Hl Hs Hw Hsend. destruct (commit_tx_ok w m c Hb Hl Hs Hw) as (tx & Etx & Hc). exists tx. unfold Wallet_Commit.
  rewrite Etx. cbn [mbind outcome_bind]. rewrite Hsend. cbn [mbind outcome_bind mret outcome_ret]. eexists. split; [done|]. split; [done|].
  split; [reflexivity|]. split; [|done]. destruct Hb as [Hh Hd Hv Hp]. split; cbn [utxos w_db pubKeyHash set_w_db set_lastCommitmentTxId]; [done| |done|done].
  intros op. rewrite db_get_update. destruct (db_update _ _).2; [apply Hd|]. rewrite written_cons. rewrite decide_False by done. apply Hd.
Qed.

(** ** Claims *)

(** The sum of the outputs. *)
Definition paid (outs : list TxOut) : Z := foldr (λ o s, Value o + s) 0 outs.

(** C18. The commitment transaction. Let the wallet keep the ledger [m], worth less
    than 2^63, with a key that signs.  If the ledger is worth less than the fee of
    1000 no transaction is made.  Otherwise the transaction spends every output of
    the ledger exactly once, the second output of the last commitment first when
    the ledger has it; its first output carries the commitment behind OP_RETURN
    and its length; the rest goes back to the wallet's key unless it is at most
    1000, so that the fee is between 1000 and 2000.  Every input is signed for
    the output it spends: its witness is the signature of the digest of the
    transaction as it is sent, with its hash type, and the public key. *)
Theorem commit_spends_ledger w m c (Hb : books w m) (Hl : length (pubKeyHash w) = 20%nat) (Hs : can_sign (privateKey w))
  (Hw : 0 <= worth m < 2 ^ 63) :
  (worth m < 1000 → commit_tx w c = Err "Insufficient balance") ∧
  (1000 <= worth m →
   ∃ tx, commit_tx w c = Ret tx ∧
     NoDup (PreviousOutPoint <$> tx_TxIn tx) ∧ (∀ op, op ∈ PreviousOutPoint <$> tx_TxIn tx ↔ is_Some (m !! op)) ∧
     (is_Some (m !! MkOutPoint (lastCommitmentTxId w) 1) →
      head (PreviousOutPoint <$> tx_TxIn tx) = Some (MkOutPoint (lastCommitmentTxId w) 1)) ∧
     (∃ change, tx_TxOut tx = MkTxOut 0 (Z_byte OP_RETURN :: Z_byte (u8 (len c)) :: c) :: change ∧
        (change = [] ∨ change = [MkTxOut (worth m - 1000) (p2wpkh (pubKeyHash w))])) ∧
     1000 <= worth m - paid (tx_TxOut tx) <= 2000 ∧
     ∀ i ti, tx_TxIn tx !! i = Some ti →
       ∃ u, m !! PreviousOutPoint ti = Some u ∧ SignatureScript ti = [] ∧ signed_for (privateKey w) tx i u (Witness ti)).
Proof.
  split.
  - intros Hlt. unfold commit_tx. rewrite (AddInputsAndChange_spec w m) by (apply Hb || done || lia). by rewrite decide_True by lia.
  - intros Hge. destruct (commit_tx_ok w m c Hb Hl Hs) as (tx & Etx & Hc); [lia|]. exists tx. split; [done|].
    destruct (commits_spends w m c tx (books_list _ _ Hb) Hc) as [Hnd Hin]. split; [done|]. split; [done|]. split; [|split; [|split]].
    + intros [u Hu]. eapply commits_first; [apply Hb|done|done].
    + exists (change_outputs (pubKeyHash w) (worth m - 1000)). split; [apply Hc|]. unfold change_outputs. case_decide; auto.
    + rewrite (commits_outputs _ _ _ _ Hc). unfold commitment_outputs, change_outputs, paid, MINOUTPUT. case_decide; cbn [foldr Value]; lia.
    + intros i ti Hi. destruct (commits_signed _ _ _ _ Hc i ti Hi) as (u & Hu & Hscr & _ & Hsig). by exists u.
Qed.

(** Two commitments on one ledger. A second [Commit] before the wallet has
    processed a block with the first transaction spends exactly the outputs the
    first one spends, so that the two transactions exclude each other, and does
    not build on the first.  Since [processBlock] tells its listeners about
    a block before it looks at the transactions, a commitment made on that news
    runs into this. *)
Theorem second_commit_conflicts w m c1 c2 (send : MsgTx → outcome bytes) (Hb : books w m) (Hl : length (pubKeyHash w) = 20%nat)
  (Hs : can_sign (privateKey w)) (Hw : 1000 <= worth m < 2 ^ 63) (Hsend : ∀ tx, send tx = Ret (TxHash_go tx)) :
  ∃ tx1 w1 tx2, Wallet_Commit send w c1 = Ret ((TxHash_go tx1, Serialize tx1), w1) ∧ commit_tx w1 c2 = Ret tx2 ∧
    (PreviousOutPoint <$> tx_TxIn tx2) ≡ₚ (PreviousOutPoint <$> tx_TxIn tx1) ∧
    (m !! MkOutPoint (TxHash_go tx1) 1 = None → MkOutPoint (TxHash_go tx1) 1 ∉ PreviousOutPoint <$> tx_TxIn tx2).
Proof.
  destruct (Wallet_Commit_ok w m c1 send TxHash_go Hb Hl Hs Hw Hsend) as (tx1 & w1 & _ & Hc1 & E1 & Hb1 & _ & Hk & Hp & Hu).
  destruct (commit_tx_ok w1 m c2) as (tx2 & E2 & Hc2); [done|by rewrite Hk|by rewrite Hp|done|]. exists tx1, w1, tx2. split; [done|]. split; [done|].
  split.
  - rewrite (commits_inputs _ _ _ _ Hc1), (commits_inputs _ _ _ _ Hc2), !utxos_to_add_Permutation. by rewrite Hu.
  - intros Hf. destruct (commits_spends w1 m c2 tx2) as [_ Hin]; [apply Hb1|done|]. rewrite Hin, Hf. by intros [? ?].
Qed.
End Commit.

(** ** A closed run *)

Definition paid_wallet : Wallet (gmap wkey bytes) := processBlock demo_wallet demo_block.
Definition paid_ledger : gmap OutPoint Utxo := foldl (ledger_tx demo_pkh) ∅ [demo_deposit].

Lemma paid_books : books paid_wallet paid_ledger.
Proof.
  refine (processTransactions_books [demo_deposit] (set_notified [demo_block] demo_wallet) ∅ demo_reliable eq_refl _).
  by apply (books_same demo_wallet), demo_books.
Qed.

Lemma demo_signs : can_sign demo_key.
Proof. split; [|done]. intros h. exists (demo_sign h). by split. Qed.

Lemma paid_pkh : length (pubKeyHash paid_wallet) = 20%nat.
Proof. unfold paid_wallet, processBlock. rewrite (foldl_same processTransaction pubKeyHash) by apply processTransaction_pkh. reflexivity. Qed.

Lemma paid_key : privateKey paid_wallet = demo_key.
Proof. vm_compute. reflexivity. Qed.

Lemma paid_signs : can_sign (privateKey paid_wallet).
Proof. rewrite paid_key. apply demo_signs. Qed.

Lemma paid_worth : worth paid_ledger = 50000.
Proof. vm_compute. reflexivity. Qed.

Lemma commit_spends_ledger_witness :
  ∃ tx, commit_tx paid_wallet (replicate 32 x05) = Ret tx ∧ NoDup (PreviousOutPoint <$> tx_TxIn tx) ∧
    (∀ op, op ∈ PreviousOutPoint <$> tx_TxIn tx ↔ is_Some (paid_ledger !! op)) ∧ 1000 <= 50000 - paid (tx_TxOut tx) <= 2000.
Proof.
  destruct (commit_spends_ledger paid_wallet paid_ledger (replicate 32 x05) paid_books paid_pkh paid_signs) as [_ Hc]; [rewrite paid_worth; lia|].
  destruct Hc as (tx & E & Hnd & Hin & _ & _ & Hfee & _); [rewrite paid_worth; lia|]. rewrite paid_worth in Hfee. exists tx.
  split; [exact E|]. split; [exact Hnd|]. split; [exact Hin|exact Hfee].
Defined.

Definition accepting (tx : MsgTx) : outcome bytes := Ret (TxHash_go tx).

Lemma second_commit_conflicts_witness :
  ∃ tx1 w1 tx2, Wallet_Commit accepting paid_wallet (replicate 32 x05) = Ret ((TxHash_go tx1, Serialize tx1), w1) ∧
    commit_tx w1 (replicate 32 x06) = Ret tx2 ∧ (PreviousOutPoint <$> tx_TxIn tx2) ≡ₚ (PreviousOutPoint <$> tx_TxIn tx1).
Proof.
  destruct (second_commit_conflicts paid_wallet paid_ledger (replicate 32 x05) (replicate 32 x06) accepting paid_books paid_pkh paid_signs)
    as (tx1 & w1 & tx2 & H1 & H2 & Hp & _); [rewrite paid_worth; lia|done|].
  exists tx1, w1, tx2. split; [exact H1|]. split; [exact H2|exact Hp].
Defined.
