(* ===== verification/WalletValid.v ===== *)
(** * What the wallet sends, the network accepts

    The script engine on the transactions of [WalletCommit]: with a key whose
    signatures verify, every input of a commitment is valid. *)

From Stdlib Require Import ZArith Lia.
From S2P Require Import Prelude Buffers Sha256 Store Crypto Utils WireCommon BtcWire BtcTheorems Script ScriptTheorems SigHash Stack Engine Opcodes Execute EngineTheorems WitnessSpend SigCacheTheorems Der DerTheorems Wallet WalletTheorems WalletCommit.

Local Open Scope Z_scope.

(** What the wallet relies on of crypto/btcec: a private key whose signatures are in
    canonical DER with a low S, parse, and verify under the public key, which is
    written in 33 bytes and read back. *)
Record sound_key `{Ecdsa} (key : PrivateKey) (pk : PublicKey) : Prop := {
  sound_compressed : IsCompressedPubKey (key_compressed key) = true;
  sound_parse : ParsePubKey (key_compressed key) = Ret pk;
  sound_sign h : ∃ sig s, key_sign key h = Ret sig ∧ check_der true sig = Ret tt ∧ ParseDERSignature sig = Ret s ∧
    ParseSignature sig = Ret s ∧ Verify s h pk = true
}.

Section Valid.
Context `{HashFunction} `{Ecdsa} (ripemd160 sha1 : bytes → bytes) (victim : gmap bytes (Signature * PublicKey) → bytes).
Context {DB : Type} `{WalletStore DB}.
Implicit Types (w : Wallet DB) (m : gmap OutPoint Utxo).

Lemma compressed_length key : IsCompressedPubKey key = true → len key = 33.
Proof. unfold IsCompressedPubKey. intros [Hk _]%andb_true_iff. by apply bool_decide_eq_true in Hk. Qed.

Lemma check_der_length low sig : check_der low sig = Ret tt → len sig <= 72.
Proof.
  unfold check_der. destruct (req _ "malformed signature: too short"); [|discriminate..]. cbn [mbind outcome_bind].
  case_bool_decide; [discriminate|lia].
Qed.

Lemma sound_key_signs key pk : sound_key key pk → can_sign key.
Proof.
  intros [Hc _ Hs]. split; [|by apply compressed_length]. intros h. destruct (Hs h) as (sig & s & E & Hder & _). exists sig. split; [done|].
  by eapply check_der_length.
Qed.

(** With the bytes of crypto/btcec it is enough that the numbers are in range and verify. *)
Lemma btcec_sound_key {Key} `{EqDecision Key} (ParseKey : bytes → outcome Key) (VerifyNumbers : DerSignature → bytes → Key → bool) key pk :
  IsCompressedPubKey (key_compressed key) = true → ParseKey (key_compressed key) = Ret pk →
  (∀ h, ∃ sig, key_sign key h = Ret (Signature_Serialize sig) ∧ valid_numbers sig ∧ VerifyNumbers (low_S sig) h pk = true) →
  sound_key (H := btcec ParseKey VerifyNumbers) key pk.
Proof.
  intros Hc Hp Hs. split; [exact Hc|exact Hp|]. intros h. destruct (Hs h) as (sig & E & Hv & Hver).
  destruct (Serialize_parses sig Hv) as (H1 & H2 & H3). exists (Signature_Serialize sig), (low_S sig). auto.
Qed.

(** C11. The network accepts a commitment. Let the wallet keep the ledger [m], worth
    at least the fee and less than 2^63, with a key whose signatures verify and whose
    hash it looks for.  Then [Commit] makes a transaction of which the script engine
    accepts every input: for the output of the ledger it spends, under all flags that
    turn witnesses on, with or without the precomputed digests and with any signature
    cache that holds valid signatures only. *)
Theorem commit_accepted w m c pk flags
  (Hb : books w m) (Hw : 1000 <= worth m < 2 ^ 63) (Hk : sound_key (privateKey w) pk)
  (Hpkh : pubKeyHash w = Hash160 ripemd160 (key_compressed (privateKey w))) (Hl : length (pubKeyHash w) = 20%nat)
  (Hflags : segwit_flags flags) :
  ∃ tx, commit_tx w c = Ret tx ∧ tx_TxIn tx ≠ [] ∧
    ∀ i ti cache sigs, tx_TxIn tx !! i = Some ti → cache = None ∨ cache = Some (NewTxSigHashes tx) → cache_sound sigs →
      ∃ u e, m !! PreviousOutPoint ti = Some u ∧ NewEngine (u_PkScript u) tx (Z.of_nat i) flags None cache (u_Value u) = Ret e ∧
        Execute ripemd160 sha1 victim 7 e = Some (Ret tt) ∧
        Execute ripemd160 sha1 victim 7 (set_sigCache (Some sigs) e) = Some (Ret tt).
Proof.
  destruct (commit_tx_ok w m c Hb Hl (sound_key_signs _ _ Hk) Hw) as (tx & Etx & Hc). exists tx. split; [done|].
  split.
  { intros E. pose proof (commits_inputs _ _ _ _ Hc) as Hi. rewrite E in Hi. cbn in Hi. symmetry in Hi. apply fmap_nil_inv in Hi.
    pose proof (utxos_to_add_Permutation w) as Hp. rewrite Hi in Hp. apply Permutation_nil in Hp.
    pose proof (holds_value (utxos w) m (books_list _ _ Hb)) as Hv. rewrite Hp in Hv. cbn in Hv. lia. }
  intros i ti cache sigs Hi Hcache Hsound. destruct (commits_signed _ _ _ _ Hc i ti Hi) as (u & Hu & Hscr & _ & h & sig & Hh & Hsign & _ & Hwit).
  destruct (sound_sign _ _ Hk h) as (sig' & s & Hsign' & Hder & Hstrict & Hlax & Hver). rewrite Hsign in Hsign'. injection Hsign' as <-.
  assert (u_PkScript u = p2wpkh (pubKeyHash w)) as Hp by (apply KeyHash_p2wpkh; [done|]; by eapply books_pays). rewrite Hp in *.
  destruct (spend_verdict ripemd160 sha1 victim tx i ti (pubKeyHash w) flags cache (u_Value u) sig (key_compressed (privateKey w)) h s pk)
    as (e & x & He & Hx); try done; [apply Hk..|]. rewrite bool_decide_true in Hx by (split; [symmetry; exact Hpkh|exact Hver]). exists u, e.
  split; [done|]. split; [by rewrite Hp|]. split; [done|]. rewrite <- Hx. apply Execute_cached; [|done].
  rewrite (NewEngine_p2wpkh tx i ti) in He by done. by injection He as <-.
Qed.
End Valid.

(** ** A closed run *)

(** The numbers of the signatures of [demo_key], and a key that accepts only them. *)
Definition demo_numbers (h : bytes) : DerSignature := MkDer 1 (if Z.even (byte_Z (default x00 (head h))) then 2 else 1).
#[local] Instance demo_btcec : Ecdsa := btcec Ret (λ s h (k : bytes), bool_decide (s = demo_numbers h)).

Definition demo_ripemd160 (b : bytes) : bytes := take 20 b.

Lemma demo_sound : sound_key demo_key (key_compressed demo_key).
Proof.
  apply btcec_sound_key; [reflexivity|reflexivity|]. intros h. exists (demo_numbers h). unfold demo_key, demo_sign, demo_numbers. cbn [key_sign].
  destruct (Z.even _); (split; [reflexivity|]; split; [repeat split|reflexivity]).
Qed.

Lemma commit_accepted_witness :
  ∃ tx, commit_tx paid_wallet (replicate 32 x05) = Ret tx ∧ ∃ ti e u, tx_TxIn tx !! 0%nat = Some ti ∧
    paid_ledger !! PreviousOutPoint ti = Some u ∧ NewEngine (u_PkScript u) tx 0 (Z.lor ScriptBip16 ScriptVerifyWitness) None None (u_Value u) = Ret e ∧
    Execute demo_ripemd160 demo_ripemd160 (λ _, []) 7 e = Some (Ret tt).
Proof.
  destruct (commit_accepted (H0 := demo_btcec) demo_ripemd160 demo_ripemd160 (λ _, []) paid_wallet paid_ledger (replicate 32 x05) (key_compressed demo_key)
    (Z.lor ScriptBip16 ScriptVerifyWitness) paid_books) as (tx & E & Hne & Hall).
  - rewrite paid_worth. lia.
  - rewrite paid_key. exact demo_sound.
  - vm_compute. reflexivity.
  - exact paid_pkh.
  - split; vm_compute; reflexivity.
  - exists tx. split; [exact E|]. destruct (tx_TxIn tx) as [|ti ins] eqn:Ei; [destruct (Hne eq_refl)|].
    destruct (Hall 0%nat ti None (NewSigCache 1) eq_refl (or_introl eq_refl)) as (u & e & Hu & He & Hx & _).
    { intros h sig key. cbn [NewSigCache validSigs]. rewrite lookup_empty. discriminate. }
    exists ti, e, u. split; [reflexivity|]. split; [exact Hu|]. split; [exact He|exact Hx].
Defined.
