(* ===== verification/WalletBlocks.v ===== *)
(** * The wallet follows the chain

    The loop of [BlockLoop] finds the way from the best block of the node back
    to the chain it knows, if the node answers now and then, and applies the
    blocks in order.  The chain state file gives the chain back. *)

From Stdlib Require Import ZArith Lia.
From S2P Require Import Prelude Buffers Sha256 Store Crypto Utils WireCommon BtcWire BtcTheorems Script ScriptTheorems SigHash Wallet WalletTheorems WalletCommit.

Local Open Scope Z_scope.

(** ** The index *)

Lemma find_block_spec i chain h :
  match list_find (h =.) chain with
  | Some (j, _) => find_block_from i chain h = i + Z.of_nat j
  | None => find_block_from i chain h = -1
  end.
Proof.
  revert i. induction chain as [|b chain IH]; intros i; [done|]. cbn [list_find find_block_from IsEqual].
  destruct (decide (h = b)) as [->|Hne].
  - rewrite bytes_eqb_refl. lia.
  - assert (bytes_eqb b h = false) as -> by (by apply bytes_eqb_false). specialize (IH (i + 1)).
    destruct (list_find (h =.) chain) as [[j x]|]; cbn; [|done]. rewrite IH. lia.
Qed.

(** The position of a block, the first if there are several. *)
Definition at_height (chain : list bytes) (h : bytes) (i : nat) : Prop := list_find (h =.) chain = Some (i, h).

Lemma FindBlock_at chain h i : at_height chain h i → FindBlock chain h = Z.of_nat i.
Proof. intros E. pose proof (find_block_spec 0 chain h) as Hf. rewrite E in Hf. exact Hf. Qed.

Lemma FindBlock_absent chain h : h ∉ chain → FindBlock chain h = -1.
Proof.
  intros Hn. pose proof (find_block_spec 0 chain h) as Hf. destruct (list_find (h =.) chain) as [[j x]|] eqn:E; [|done].
  apply list_find_Some in E as (Hj & <- & _). exfalso. apply Hn. by eapply list_elem_of_lookup_2.
Qed.

(** ** The chain state file *)

Lemma read_chain_concat chain fuel :
  Forall (λ h, length h = 32%nat) chain → (length (concat chain) ≤ fuel)%nat → read_chain fuel (concat chain) = chain.
Proof.
  intros Hall. revert fuel. induction Hall as [|h chain Hh _ IH]; intros fuel Hf; [by destruct fuel|]. cbn [concat] in *. rewrite length_app in Hf.
  destruct fuel as [|fuel]; [lia|]. cbn [read_chain]. rewrite bool_decide_false by (rewrite length_app; lia).
  rewrite take_app_length', drop_app_length' by done. f_equal. apply IH. lia.
Qed.

Section Blocks.
Context `{HashFunction} {DB : Type} `{WalletStore DB}.
Implicit Types (w : Wallet DB) (m : gmap OutPoint Utxo).

Lemma chain_state_roundtrip w : Forall (λ h, length h = 32%nat) (activeChain w) → activeChain (readChainState (persistChainState w)) = activeChain w.
Proof. intros Hall. unfold readChainState, persistChainState. cbn. by apply read_chain_concat. Qed.

(** ** Attaching new blocks *)

Section Node.
Context (GetBlockHeader : nat → bytes → outcome BlockHeader) (header : bytes → BlockHeader) (patience : nat).

(** What the node says about a block is right, and of [patience] requests one is answered. *)
Record answers : Prop := {
  answers_right n h hdr : GetBlockHeader n h = Ret hdr → hdr = header h;
  answers_some n h : ∃ k, (k < patience)%nat ∧ is_ret (GetBlockHeader (n + k) h) = true
}.

(** [path], oldest first, leads from the block [a] to its last block. *)
Fixpoint path_from (a : bytes) (path : list bytes) : Prop :=
  match path with
  | [] => True
  | h :: path => PrevBlock (header h) = a ∧ path_from h path
  end.

(** Waiting for an answer. *)
Lemma attach_wait chain h pending n fuel :
  answers → (patience ≤ fuel)%nat →
  ∃ n' fuel', (fuel ≤ fuel' + patience)%nat ∧
    attach GetBlockHeader fuel n chain h pending =
    (let idx := FindBlock chain (PrevBlock (header h)) in
     if bool_decide (idx > -1) then Some (take (Z.to_nat (idx + 1)) chain ++ h :: pending, Z.to_nat (idx + 1))
     else attach GetBlockHeader fuel' n' chain (PrevBlock (header h)) (h :: pending)).
Proof.
  intros Ha Hf. destruct (answers_some Ha n h) as (k & Hk & Hret). assert (k < fuel)%nat as Hkf by lia. clear Hf.
  assert (∃ n' fuel', (fuel ≤ fuel' + S k)%nat ∧
    attach GetBlockHeader fuel n chain h pending =
    (let idx := FindBlock chain (PrevBlock (header h)) in
     if bool_decide (idx > -1) then Some (take (Z.to_nat (idx + 1)) chain ++ h :: pending, Z.to_nat (idx + 1))
     else attach GetBlockHeader fuel' n' chain (PrevBlock (header h)) (h :: pending))) as (n' & fuel' & Hle & E); [|exists n', fuel'; split; [lia|done]].
  clear Hk. revert n fuel Hret Hkf. induction k as [|k IH]; intros n fuel Hret Hkf; (destruct fuel as [|fuel]; [lia|]); cbn [attach].
  - rewrite Nat.add_0_r in Hret. destruct (GetBlockHeader n h) as [hdr|e|e] eqn:E; [|done..]. rewrite (answers_right Ha _ _ _ E).
    exists (S n), fuel. split; [lia|done].
  - destruct (GetBlockHeader n h) as [hdr|e|e] eqn:E.
    + rewrite (answers_right Ha _ _ _ E). exists (S n), fuel. split; [lia|done].
    + rewrite <- Nat.add_succ_comm in Hret. destruct (IH (S n) fuel Hret) as (n' & fuel' & Hle & Heq); [lia|]. exists n', fuel'. split; [lia|done].
    + rewrite <- Nat.add_succ_comm in Hret. destruct (IH (S n) fuel Hret) as (n' & fuel' & Hle & Heq); [lia|]. exists n', fuel'. split; [lia|done].
Qed.

(** The loop walks back along the path until it meets the chain. *)
Lemma attach_path chain a i path best pending n fuel :
  answers → at_height chain a i → path_from a (path ++ [best]) → Forall (λ h, h ∉ chain) path →
  (patience * S (length path) ≤ fuel)%nat →
  attach GetBlockHeader fuel n chain best pending = Some (take (S i) chain ++ path ++ best :: pending, S i).
Proof.
  intros Ha Hi. revert best pending n fuel. induction path as [|h path IH] using rev_ind; intros best pending n fuel Hp Hall Hf.
  - destruct Hp as [Hp _]. destruct (attach_wait chain best pending n fuel Ha) as (n' & fuel' & _ & ->); [lia|].
    rewrite Hp, (FindBlock_at _ _ _ Hi). cbv zeta. rewrite bool_decide_true by lia.
    replace (Z.to_nat (Z.of_nat i + 1)) with (S i) by lia. done.
  - rewrite length_app, Nat.add_1_r in Hf. apply Forall_app in Hall as [Hall Hh]. rewrite Forall_singleton in Hh.
    assert (path_from a (path ++ [h]) ∧ PrevBlock (header best) = h) as [Hp1 Hp2].
    { clear -Hp. revert a Hp. induction path as [|x path IH]; cbn; intros a; [by intros (? & ? & _)|]. intros [? Hp]. by destruct (IH _ Hp). }
    destruct (attach_wait chain best pending n fuel Ha) as (n' & fuel' & Hle & ->); [lia|].
    rewrite Hp2, FindBlock_absent by done. cbv zeta. rewrite bool_decide_false by lia.
    rewrite IH; [by rewrite <- app_assoc|done|done|lia].
Qed.
End Node.

(** ** Applying blocks *)

Definition ledger_block (pkh : bytes) m (b : MsgBlock) : gmap OutPoint Utxo := foldl (ledger_tx pkh) m (Transactions b).

Lemma processBlock_pkh w b : pubKeyHash (processBlock w b) = pubKeyHash w.
Proof. unfold processBlock. by rewrite (foldl_same processTransaction pubKeyHash) by apply processTransaction_pkh. Qed.

Lemma processBlock_notified w b : notified (processBlock w b) = notified w ++ [b].
Proof. unfold processBlock. by rewrite (foldl_same processTransaction notified) by apply processTransaction_notified. Qed.

Lemma process_hash_chain GetBlock w h : activeChain (process_hash GetBlock w h) = activeChain w.
Proof.
  unfold process_hash. destruct (GetBlock h); [|done..]. unfold processBlock. by rewrite (foldl_same processTransaction activeChain) by apply processTransaction_chain.
Qed.

(** Blocks that can be had are passed on and applied in order. *)
Lemma process_hashes GetBlock (block : bytes → MsgBlock) hs w m :
  reliable (DB := DB) → length (pubKeyHash w) = 20%nat → books w m → Forall (λ h, GetBlock h = Ret (block h)) hs →
  let w' := foldl (process_hash GetBlock) w hs in
  books w' (foldl (ledger_block (pubKeyHash w)) m (block <$> hs)) ∧ notified w' = notified w ++ (block <$> hs).
Proof.
  intros Hr Hl Hb Hall. revert w m Hl Hb. induction Hall as [|h hs Hh _ IH]; intros w m Hl Hb; cbn [foldl fmap list_fmap]; [by rewrite app_nil_r|].
  assert (process_hash GetBlock w h = processBlock w (block h)) as -> by (unfold process_hash; by rewrite Hh).
  destruct (IH (processBlock w (block h)) (ledger_block (pubKeyHash w) m (block h))) as [Hb' Hn'].
  - by rewrite processBlock_pkh.
  - apply (processTransactions_books (Transactions (block h)) (set_notified (notified w ++ [block h]) w)); [done|done|]. by apply (books_same w).
  - rewrite processBlock_pkh in Hb'. split; [done|]. by rewrite Hn', processBlock_notified, <- app_assoc.
Qed.

(** ** Claims *)

(** C19. Catching up. Suppose the node answers requests for headers correctly and
    at least one of [patience] in a row, and its best block is reached from block
    [a], at position [i] of the wallet's chain, by blocks the wallet does not
    have.  Then one turn of [BlockLoop] ends, within [patience] requests for each
    new block: the wallet's chain is the old one up to [a], followed by the new
    blocks; the blocks were passed to the listeners and applied to the ledger in
    order; the wallet is synced and the file gives the chain back after a
    restart.  The next turn changes nothing while the best block stays. *)
Theorem wallet_catches_up GetBlockHeader header patience GetBlock (block : bytes → MsgBlock) w m a i path best tip fuel
  (Hans : answers GetBlockHeader header patience) (Hi : at_height (activeChain w) a i)
  (Hp : path_from header a (path ++ [best])) (Hnew : Forall (λ h, h ∉ activeChain w) path)
  (Htip : last (activeChain w) = Some tip) (Hbest : tip ≠ best)
  (Hblocks : Forall (λ h, GetBlock h = Ret (block h)) (path ++ [best]))
  (Hr : reliable (DB := DB)) (Hl : length (pubKeyHash w) = 20%nat) (Hb : books w m)
  (H32 : Forall (λ h, length h = 32%nat) (activeChain w ++ path ++ [best])) (Hf : (patience * S (length path) ≤ fuel)%nat) :
  ∃ w', block_turn GetBlockHeader GetBlock fuel (Ret best) w = Ret (Some w') ∧
    activeChain w' = take (S i) (activeChain w) ++ path ++ [best] ∧ synced w' = true ∧
    notified w' = notified w ++ (block <$> path ++ [best]) ∧
    books w' (foldl (ledger_block (pubKeyHash w)) m (block <$> path ++ [best])) ∧
    (∀ w0, chainFile w0 = chainFile w' → activeChain (readChainState w0) = activeChain w') ∧
    ∀ fuel', block_turn GetBlockHeader GetBlock fuel' (Ret best) w' = Ret (Some w').
Proof.
  unfold block_turn at 1. cbn [activeChain set_synced]. rewrite Htip. cbn [IsEqual]. rewrite (proj2 (bytes_eqb_false best tip)) by done.
  rewrite (attach_path _ header patience _ a i path best [] 0 fuel) by done. set (newChain := take (S i) (activeChain w) ++ path ++ [best]).
  assert (drop (S i) newChain = path ++ [best]) as ->.
  { apply list_find_Some in Hi as (Hi & _). apply lookup_lt_Some in Hi. unfold newChain. rewrite drop_app_length'; [done|]. rewrite length_take. lia. }
  set (w1 := set_activeChain newChain (set_synced false w)).
  destruct (process_hashes GetBlock block (path ++ [best]) w1 m) as [Hbk Hnt]; [done|done|by apply (books_same w)|done|].
  assert (activeChain (foldl (process_hash GetBlock) w1 (path ++ [best])) = newChain) as Hch by (by rewrite (foldl_same (process_hash GetBlock) activeChain) by apply process_hash_chain).
  eexists. split; [reflexivity|]. cbn [activeChain synced notified persistChainState set_chainFile set_synced]. split; [done|]. split; [done|].
  split; [done|]. split; [by eapply books_same, Hbk|]. split.
  - intros w0 Hw0. unfold readChainState. rewrite Hw0. cbn [chainFile persistChainState set_chainFile set_synced activeChain set_activeChain].
    rewrite Hch. apply read_chain_concat; [|done]. unfold newChain. apply Forall_app in H32 as [H1 H2]. apply Forall_app. split; [by apply Forall_take|done].
  - intros fuel'. unfold block_turn. cbn [activeChain set_synced persistChainState set_chainFile]. rewrite Hch. unfold newChain.
    rewrite app_assoc, last_snoc. cbn [IsEqual]. by rewrite bytes_eqb_refl.
Qed.

(** A rescan of the whole chain. When [rescanBlocks] is at least the length of
    the recorded chain, [NewWallet] forgets the genesis block too, and the first
    turn of [BlockLoop] that gets an answer from the node ends the process: it
    looks at the last block of an empty chain. *)
Theorem full_rescan_panics Hash160 genesis key (db : DB) file rescan w m GetBlockHeader GetBlock fuel best
  (Hb : books w m) (Hdb : w_db w = db) (Hk : go_copy (zeros 20) (Hash160 (key_compressed key)) = pubKeyHash w)
  (Hrescan : len (match file with None => [genesis] | Some b => read_chain (length b) b end) <= rescan) (Hpos : 0 < rescan) :
  ∃ w', NewWallet Hash160 genesis key db file rescan = Ret w' ∧ activeChain w' = [] ∧
    block_turn GetBlockHeader GetBlock fuel (Ret best) w' = Panic out_of_range.
Proof.
  subst db. unfold NewWallet.
  destruct (load_books w m (MkWallet key (go_copy (zeros 20) (Hash160 (key_compressed key))) [] (w_db w) [genesis] false [] file [])
              Hb eq_refl eq_refl Hk) as (w1 & -> & _ & Hc & Hf & _). cbn [mbind outcome_bind]. cbn [activeChain chainFile] in Hc, Hf.
  rewrite (bool_decide_true (rescan > 0)) by lia. set (w2 := readChainState w1).
  assert (len (activeChain w2) <= rescan) as Hlen.
  { unfold w2, readChainState. rewrite Hf. destruct file; [done|]. by rewrite Hc. }
  eexists. split; [reflexivity|]. cbn [activeChain set_synced set_activeChain].
  assert (take (Z.to_nat (len (activeChain w2) - (if bool_decide (len (activeChain w2) < rescan) then len (activeChain w2) else rescan))) (activeChain w2) = []) as E.
  { case_bool_decide; [by rewrite Z.sub_diag|]. replace (len (activeChain w2) - rescan) with 0 by lia. done. }
  split; [done|]. unfold block_turn. cbn [activeChain set_synced set_activeChain]. by rewrite E.
Qed.

(** A block that cannot be had is skipped for good. When the node knows the next
    block but fails to deliver it, the turn of [BlockLoop] puts it on the wallet's
    chain and declares the wallet synced, with the ledger and the listeners as
    before, and the next turns find nothing to do. *)
Theorem missing_block_skipped GetBlockHeader header patience GetBlock w m a i best tip fuel e
  (Hans : answers GetBlockHeader header patience) (Hi : at_height (activeChain w) a i) (Hp : PrevBlock (header best) = a)
  (Htip : last (activeChain w) = Some tip) (Hbest : tip ≠ best) (Hmiss : GetBlock best = Err e) (Hb : books w m)
  (Hf : (patience ≤ fuel)%nat) :
  ∃ w', block_turn GetBlockHeader GetBlock fuel (Ret best) w = Ret (Some w') ∧ synced w' = true ∧
    activeChain w' = take (S i) (activeChain w) ++ [best] ∧ books w' m ∧ notified w' = notified w ∧
    ∀ fuel', block_turn GetBlockHeader GetBlock fuel' (Ret best) w' = Ret (Some w').
Proof.
  unfold block_turn at 1. cbn [activeChain set_synced]. rewrite Htip. cbn [IsEqual]. rewrite (proj2 (bytes_eqb_false best tip)) by done.
  rewrite (attach_path _ header patience _ a i [] best [] 0 fuel); [|done|done|done|constructor|cbn; lia]. cbn [app].
  assert (drop (S i) (take (S i) (activeChain w) ++ [best]) = [best]) as ->.
  { apply list_find_Some in Hi as (Hi & _). apply lookup_lt_Some in Hi. rewrite drop_app_length'; [done|]. rewrite length_take. lia. }
  cbn [foldl]. unfold process_hash. rewrite Hmiss. eexists. split; [reflexivity|]. split; [done|]. split; [done|]. split; [by apply (books_same w)|].
  split; [done|]. intros fuel'. unfold block_turn. cbn [activeChain set_synced persistChainState set_chainFile set_activeChain].
  rewrite last_snoc. cbn [IsEqual]. by rewrite bytes_eqb_refl.
Qed.
End Blocks.

(** ** Closed runs *)

Definition demo_h1 : bytes := replicate 32 x01.
Definition demo_h2 : bytes := replicate 32 x02.

Definition demo_header (h : bytes) : BlockHeader :=
  MkBlockHeader 1 (if bytes_eqb h demo_h2 then demo_h1 else zeros 32) (zeros 32) 0 0 0.

(** A node that answers every second request. *)
Definition demo_node (n : nat) (h : bytes) : outcome BlockHeader :=
  if Nat.even n then Err "connection refused" else Ret (demo_header h).

Lemma demo_answers : answers demo_node demo_header 2.
Proof.
  split; unfold demo_node.
  - intros n h hdr. destruct (Nat.even n); [done|]. by intros [= <-].
  - intros n h. destruct (Nat.even n) eqn:E.
    + exists 1%nat. split; [lia|]. rewrite Nat.add_1_r, Nat.even_succ, <- Nat.negb_even, E. done.
    + exists 0%nat. split; [lia|]. by rewrite Nat.add_0_r, E.
Qed.

Lemma wallet_catches_up_witness :
  ∃ w', block_turn demo_node (λ _, Ret demo_block) 4 (Ret demo_h2) demo_wallet = Ret (Some w') ∧
    activeChain w' = [zeros 32; demo_h1; demo_h2] ∧ synced w' = true ∧ length (notified w') = 2%nat.
Proof.
  destruct (wallet_catches_up demo_node demo_header 2 (λ _, Ret demo_block) (λ _, demo_block) demo_wallet ∅ (zeros 32) 0 [demo_h1] demo_h2 (zeros 32) 4)
    as (w' & E & Hc & Hs & Hn & _).
  - apply demo_answers.
  - reflexivity.
  - repeat split.
  - apply Forall_singleton. intros Hin%list_elem_of_singleton. discriminate Hin.
  - reflexivity.
  - intros E. discriminate E.
  - by repeat constructor.
  - apply demo_reliable.
  - reflexivity.
  - apply demo_books.
  - by repeat constructor.
  - cbn. lia.
  - exists w'. split; [exact E|]. split; [exact Hc|]. split; [exact Hs|]. rewrite Hn. reflexivity.
Defined.

Lemma full_rescan_panics_witness :
  ∃ w', NewWallet (λ _, demo_pkh) (zeros 32) demo_key (∅ : gmap wkey bytes) None 100 = Ret w' ∧ activeChain w' = [] ∧
    block_turn demo_node (λ _, Ret demo_block) 4 (Ret demo_h2) w' = Panic out_of_range.
Proof.
  apply (full_rescan_panics (λ _, demo_pkh) (zeros 32) demo_key ∅ None 100 demo_wallet ∅ demo_node (λ _, Ret demo_block) 4 demo_h2 demo_books);
    [reflexivity|reflexivity|done|lia].
Defined.

Lemma missing_block_skipped_witness :
  ∃ w', block_turn demo_node (λ _, Err "timeout") 2 (Ret demo_h1) demo_wallet = Ret (Some w') ∧ synced w' = true ∧
    activeChain w' = [zeros 32; demo_h1] ∧ notified w' = [].
Proof.
  destruct (missing_block_skipped demo_node demo_header 2 (λ _, Err "timeout") demo_wallet ∅ (zeros 32) 0 demo_h1 (zeros 32) 2 "timeout")
    as (w' & E & Hs & Hc & _ & Hn & _); [apply demo_answers|reflexivity|reflexivity|reflexivity|intros E; discriminate E|reflexivity|apply demo_books|lia|].
  exists w'. split; [exact E|]. split; [exact Hs|]. split; [exact Hc|exact Hn].
Defined.
