(* ===== verification/Difficulty.v ===== *)
(** * Difficulty of blocks (bitcoin/blockchain/difficulty.go, bitcoin/coinparam)

    Targets are big integers; [CompactToBig] and [BigToCompact], which the source has
    twice with the same text, convert to and from the four bytes of a header.
    Parameters of a chain are the fields of [Params] that the code under
    client/uspv reads; durations are in seconds. *)

From Stdlib Require Import ZArith Lia.
From S2P Require Import Prelude Buffers Sha256 Crypto Utils MerkleTree WireCommon MptNode MptSpec FullMPT MptSerialize PartialMPT WireTypes WireTheorems BtcWire BtcTheorems.

Local Open Scope Z_scope.

(** ** Compact numbers *)

Definition CompactToBig (compact : Z) : Z :=
  let mantissa := Z.land compact 0x007fffff in
  let isNegative := negb (bool_decide (Z.land compact 0x00800000 = 0)) in
  let exponent := Z.shiftr compact 24 in
  let bn := if bool_decide (exponent ≤ 3)
            then Z.shiftr mantissa (8 * (3 - exponent))
            else Z.shiftl mantissa (8 * (exponent - 3)) in
  if isNegative then - bn else bn.

(** [len(n.Bytes())]: the bytes of the absolute value. *)
Definition big_len (n : Z) : Z := if bool_decide (n = 0) then 0 else Z.log2 (Z.abs n) / 8 + 1.

(** [uint32(n.Bits()[0])]: the low bits of the absolute value, for [n] not zero. *)
Definition big_low (n : Z) : Z := u32 (Z.abs n).

Definition BigToCompact (n : Z) : Z :=
  if bool_decide (n = 0) then 0
  else
    let exponent := big_len n in
    let mantissa := if bool_decide (exponent ≤ 3)
                    then u32 (Z.shiftl (big_low n) (8 * (3 - exponent)))
                    else big_low (Z.shiftr n (8 * (exponent - 3))) in
    let '(mantissa, exponent) :=
      if negb (bool_decide (Z.land mantissa 0x00800000 = 0))
      then (Z.shiftr mantissa 8, exponent + 1) else (mantissa, exponent) in
    let compact := Z.lor (u32 (Z.shiftl exponent 24)) mantissa in
    if bool_decide (n < 0) then Z.lor compact 0x00800000 else compact.

Definition oneLsh256 : Z := Z.shiftl 1 256.

Definition CalcWork (bits : Z) : Z :=
  let difficultyNum := CompactToBig bits in
  if bool_decide (difficultyNum ≤ 0) then 0
  else let denominator := difficultyNum + 1 in oneLsh256 / denominator.

(** [HashToBig]: the bytes of a hash are in little-endian order.  The loop swaps the
    ends of the array. *)
Definition HashToBig (hash : bytes) : Z := be_val (rev hash).

(** ** Parameters *)

(** [DiffCalcFunction]: [diffBitcoin], or the function of another coin. *)
Inductive DiffCalc :=
| diffBitcoin_
| otherDiff (f : list BlockHeader → Z → outcome Z).

Record Params := MkParams {
  Name : string;
  GenesisHeader : BlockHeader;
  PoWFunction : bytes → Z → bytes;
  DiffCalcFunction : DiffCalc;
  StartHeader : bytes;               (** 80 bytes *)
  StartHeight : Z;                   (** int32 *)
  AssumeDiffBefore : Z;              (** int32 *)
  MinHeaders : Z;                    (** int32 *)
  PowLimit : Z;
  PowLimitBits : Z;                  (** uint32 *)
  TargetTimespan : Z;                (** seconds *)
  TargetTimePerBlock : Z;            (** seconds *)
  RetargetAdjustmentFactor : Z;
  ReduceMinDifficulty : bool
}.

(** ** Retargeting *)

Definition calcDiffAdjustBitcoin (start end_ : BlockHeader) (p : Params) : Z :=
  let duration := Timestamp end_ - Timestamp start in
  let minRetargetTimespan := Z.quot (TargetTimespan p) (RetargetAdjustmentFactor p) in
  let maxRetargetTimespan := TargetTimespan p * RetargetAdjustmentFactor p in
  let duration := if bool_decide (duration < minRetargetTimespan) then minRetargetTimespan
                  else if bool_decide (duration > maxRetargetTimespan) then maxRetargetTimespan
                  else duration in
  let prevTarget := CompactToBig (Bits end_) in
  let newTarget := prevTarget * duration in
  let newTarget := newTarget / TargetTimespan p in
  let newTarget := if bool_decide (newTarget > PowLimit p) then PowLimit p else newTarget in
  BigToCompact newTarget.

(** [headers[i]] for an [int]. *)
Definition header_at (headers : list BlockHeader) (i : Z) : outcome BlockHeader :=
  if bool_decide (i < 0) then Panic out_of_range
  else match headers !! Z.to_nat i with Some h => mret h | None => Panic out_of_range end.

(** The loop over the headers from the last one back; [rheaders] starts with [tempCur]. *)
Fixpoint last_not_minimal (rheaders : list BlockHeader) (tempHeight : Z) (p : Params) : outcome BlockHeader :=
  match rheaders with
  | [] => Panic out_of_range
  | tempCur :: rheaders =>
      if negb (bool_decide (Z.rem tempHeight 2016 = 0)) && bool_decide (Bits tempCur = PowLimitBits p)
      then last_not_minimal rheaders (i32 (tempHeight - 1)) p
      else mret tempCur
  end.

Definition ltcmode (p : Params) : bool :=
  existsb (String.eqb (Name p)) ["litetest4"; "litereg"; "vtcreg"; "litecoin"; "vtctest"; "vtc"].

Definition diffBitcoin (headers : list BlockHeader) (height : Z) (p : Params) : outcome Z :=
  if bool_decide (len headers < 2) then Err "headers given to diffBitcoin, expect >2"
  else
    prev ← header_at headers (len headers - 2);
    cur ← header_at headers (len headers - 1);
    if bool_decide (Bits prev = 0) then Err "Got blocks with diff 0. Returning error"
    else
      let epochLength := Z.quot (TargetTimespan p) (TargetTimePerBlock p) in
      let epochHeight := Z.rem height epochLength in
      let maxHeader := len headers - 1 in
      if bool_decide (epochHeight > maxHeader) && bool_decide (maxHeader + 10 > epochHeight) then mret (PowLimitBits p)
      else if bool_decide (epochHeight > maxHeader) then Err "diffBitcoin got insufficient headers"
      else
        epochStart ← header_at headers (maxHeader - epochHeight);
        if bool_decide (epochHeight = 0) then
          if bool_decide (maxHeader < epochLength) then Err "diffBitcoin not enough headers"
          else
            epochStart ← (if ltcmode p then
                            if bool_decide (height = epochLength) then header_at headers (maxHeader - epochLength)
                            else header_at headers (maxHeader - (epochLength - 1))
                          else header_at headers (maxHeader - epochLength));
            mret (calcDiffAdjustBitcoin epochStart prev p)
        else if ReduceMinDifficulty p then
          if bool_decide (Timestamp cur > Timestamp prev + TargetTimePerBlock p * 2) then mret (PowLimitBits p)
          else
            tempCur ← last_not_minimal (rev headers) height p;
            mret (if negb (bool_decide (Bits tempCur = 0)) then Bits tempCur else PowLimitBits p)
        else mret (Bits prev).

Definition DiffCalcFunction_call (p : Params) (headers : list BlockHeader) (height : Z) : outcome Z :=
  match DiffCalcFunction p with
  | diffBitcoin_ => diffBitcoin headers height p
  | otherDiff f => f headers height
  end.

(** ** The networks *)

Definition genesisMerkleRoot : bytes :=
  [x3b; xa3; xed; xfd; x7a; x7b; x12; xb2; x7a; xc7; x2c; x3e; x67; x76; x8f; x61;
   x7f; xc8; x1b; xc3; x88; x8a; x51; x32; x3a; x9f; xb8; xaa; x4b; x1e; x5e; x4a].

Definition testNet3GenesisHeader : BlockHeader :=
  MkBlockHeader 1 (zeros 32) genesisMerkleRoot 1296688602 0x1d00ffff 0x18aea41a.

Definition testNet3GenesisHash : bytes :=
  [x43; x49; x7f; xd7; xf8; x26; x95; x71; x08; xf4; xa3; x0f; xd9; xce; xc3; xae;
   xba; x79; x97; x20; x84; xe9; x0e; xad; x01; xea; x33; x09; x00; x00; x00; x00].

Definition regTestGenesisHeader : BlockHeader :=
  MkBlockHeader 1 (zeros 32) genesisMerkleRoot 1296688602 0x207fffff 2.

Definition testNet3PowLimit : Z := Z.shiftl 1 224 - 1.
Definition regressionPowLimit : Z := Z.shiftl 1 255 - 1.

Section Networks.
Context `{HashFunction}.

Definition TestNet3Params : Params :=
  MkParams "testnet3" testNet3GenesisHeader (λ b _, DoubleHashH b) diffBitcoin_ (zeros 80) 0 0 0
    testNet3PowLimit 0x1d00ffff (60 * 60 * 24 * 14) (60 * 10) 4 true.

Definition RegressionNetParams : Params :=
  MkParams "regtest" regTestGenesisHeader (λ b _, DoubleHashH b) diffBitcoin_ (zeros 80) 0 0 0
    regressionPowLimit 0x207fffff (60 * 60 * 24 * 14) (60 * 10) 4 true.
End Networks.
