(* ===== verification/DifficultyTheorems.v ===== *)
(** * Rounding of targets, retargeting, and the rule of the test network *)

From Stdlib Require Import ZArith Lia.
From S2P Require Import Prelude Buffers Sha256 Crypto Utils MerkleTree WireCommon MptNode MptSpec FullMPT MptSerialize PartialMPT WireTypes WireTheorems BtcWire BtcTheorems Difficulty.

Local Open Scope Z_scope.

(** ** Bits *)

Lemma land_low x k : 0 ≤ k → Z.land x (2 ^ k - 1) = x mod 2 ^ k.
Proof. intros Hk. rewrite <- Z.land_ones by done. f_equal. rewrite Z.ones_equiv. lia. Qed.

Lemma land_bit x k : 0 ≤ k → Z.land x (2 ^ k) = 0 ↔ Z.testbit x k = false.
Proof.
  intros Hk. split.
  - intros H. assert (Z.testbit (Z.land x (2 ^ k)) k = false) as Hb by (by rewrite H, Z.bits_0).
    rewrite Z.land_spec, Z.pow2_bits_true in Hb by done. by rewrite andb_true_r in Hb.
  - intros Hb. apply Z.bits_inj'. intros i Hi. rewrite Z.land_spec, Z.bits_0.
    destruct (decide (i = k)) as [->|Hne]; [by rewrite Hb|]. rewrite Z.pow2_bits_false by lia. apply andb_false_r.
Qed.

(** Bit 23 of a number of 24 bits. *)
Lemma bit23 m : 0 ≤ m < 2 ^ 24 → bool_decide (Z.land m 0x00800000 = 0) = bool_decide (m < 2 ^ 23).
Proof.
  intros Hm. apply bool_decide_ext. change 0x00800000 with (2 ^ 23). rewrite land_bit by done.
  rewrite Z.testbit_false by done. split; intros H.
  - assert (m / 2 ^ 23 = 0 ∨ m / 2 ^ 23 = 1) as [E|E].
    { assert (0 ≤ m / 2 ^ 23 < 2); [|lia]. split; [apply Z.div_pos; lia|]. apply Z.div_lt_upper_bound; lia. }
    + apply Z.div_small_iff in E; lia.
    + rewrite E in H. done.
  - by rewrite Z.div_small by lia.
Qed.

(** ** Compact numbers *)

(** The number that exponent and mantissa stand for. *)
Definition compact_value (e m : Z) : Z :=
  if bool_decide (e ≤ 3) then m / 2 ^ (8 * (3 - e)) else m * 2 ^ (8 * (e - 3)).

Lemma CompactToBig_pack e m :
  0 ≤ e < 256 → 0 ≤ m < 2 ^ 23 → CompactToBig (Z.lor (u32 (Z.shiftl e 24)) m) = compact_value e m.
Proof.
  intros He Hm. rewrite u32_small, lor_pack by (rewrite ?Z.shiftl_mul_pow2; lia). unfold CompactToBig, compact_value.
  change 0x007fffff with (2 ^ 23 - 1). rewrite land_low by done.
  change 0x00800000 with (2 ^ 23). rewrite (bool_decide_eq_true_2 (Z.land _ _ = 0)).
  2:{ apply land_bit; [done|]. rewrite Z.testbit_false by done.
      replace (e * 2 ^ 24 + m) with (m + (2 * e) * 2 ^ 23) by lia. rewrite Z.div_add, Z.div_small by lia.
      rewrite Z.add_0_l, Z.mul_comm. by apply Z_mod_mult. }
  cbn [negb]. rewrite Z.shiftr_div_pow2 by done.
  replace (e * 2 ^ 24 + m) with (m + e * 2 ^ 24) by lia. rewrite Z.div_add, (Z.div_small m (2 ^ 24)), Z.add_0_l by lia.
  replace (m + e * 2 ^ 24) with (m + (2 * e) * 2 ^ 23) by lia. rewrite Z.mod_add, Z.mod_small by lia.
  case_bool_decide; [rewrite Z.shiftr_div_pow2 by lia|rewrite Z.shiftl_mul_pow2 by lia]; done.
Qed.

(** The three bytes the mantissa is made of, for a number of [e] bytes. *)
Definition top (e n : Z) : Z :=
  if bool_decide (e ≤ 3) then n * 2 ^ (8 * (3 - e)) else n / 2 ^ (8 * (e - 3)).

(** The mantissa gives up a byte when it would set the sign bit. *)
Definition norm (e m : Z) : Z * Z := if bool_decide (m < 2 ^ 23) then (e, m) else (e + 1, m / 2 ^ 8).

Definition has_bytes (e n : Z) : Prop := 1 ≤ e ∧ 2 ^ (8 * (e - 1)) ≤ n < 2 ^ (8 * e).

Lemma has_bytes_len n : 0 < n → has_bytes (big_len n) n.
Proof.
  intros Hn. unfold has_bytes, big_len. rewrite bool_decide_eq_false_2, Z.abs_eq by lia.
  pose proof (Z.log2_spec n Hn) as [Hl Hu]. pose proof (Z.log2_nonneg n).
  pose proof (Z.div_mod (Z.log2 n) 8 ltac:(lia)). pose proof (Z.mod_pos_bound (Z.log2 n) 8 ltac:(lia)).
  pose proof (Z.div_pos (Z.log2 n) 8 ltac:(lia) ltac:(lia)).
  split; [lia|]. split.
  - etransitivity; [|exact Hl]. apply Z.pow_le_mono_r; lia.
  - eapply Z.lt_le_trans; [exact Hu|]. apply Z.pow_le_mono_r; lia.
Qed.

Lemma big_len_bytes e n : has_bytes e n → big_len n = e.
Proof.
  intros (He & Hl & Hu). pose proof (Z.pow_pos_nonneg 2 (8 * (e - 1)) ltac:(lia) ltac:(lia)).
  unfold big_len. rewrite bool_decide_eq_false_2, Z.abs_eq by lia.
  assert (8 * (e - 1) ≤ Z.log2 n) by (apply Z.log2_le_pow2; lia).
  assert (Z.log2 n < 8 * e) by (apply Z.log2_lt_pow2; lia).
  assert (Z.log2 n / 8 = e - 1); [|lia]. symmetry. apply (Z.div_unique _ 8 _ (Z.log2 n - 8 * (e - 1))); lia.
Qed.

Lemma top_range e n : has_bytes e n → 2 ^ 16 ≤ top e n < 2 ^ 24.
Proof.
  intros (He & Hl & Hu). unfold top. case_bool_decide as H3.
  - assert (e = 1 ∨ e = 2 ∨ e = 3) as [->|[->| ->]] by lia; simpl in *; lia.
  - pose proof (Z.pow_pos_nonneg 2 (8 * (e - 3)) ltac:(lia) ltac:(lia)). split.
    + apply Z.div_le_lower_bound; [lia|]. rewrite <- Z.pow_add_r by lia. etransitivity; [|exact Hl].
      apply Z.pow_le_mono_r; lia.
    + apply Z.div_lt_upper_bound; [lia|]. rewrite <- Z.pow_add_r by lia.
      replace (8 * (e - 3) + 24) with (8 * e) by lia. done.
Qed.

Lemma BigToCompact_pos e n :
  has_bytes e n → BigToCompact n = (let '(e', m) := norm e (top e n) in Z.lor (u32 (Z.shiftl e' 24)) m).
Proof.
  intros Hb. pose proof Hb as (He & Hl & Hu). pose proof (top_range e n Hb) as Ht.
  pose proof (Z.pow_pos_nonneg 2 (8 * (e - 1)) ltac:(lia) ltac:(lia)).
  unfold BigToCompact. rewrite (bool_decide_eq_false_2 (n = 0)) by lia. rewrite (big_len_bytes e n Hb).
  assert ((if bool_decide (e ≤ 3) then u32 (Z.shiftl (big_low n) (8 * (3 - e))) else big_low (Z.shiftr n (8 * (e - 3))))
          = top e n) as ->.
  { unfold top, big_low in *. case_bool_decide as H3.
    - assert (n < 2 ^ 24) by (eapply Z.lt_le_trans; [exact Hu|]; apply Z.pow_le_mono_r; lia).
      rewrite Z.abs_eq, (u32_small n) by lia. rewrite Z.shiftl_mul_pow2 by lia. apply u32_small; lia.
    - rewrite Z.shiftr_div_pow2 by lia. rewrite Z.abs_eq by lia. apply u32_small; lia. }
  unfold norm. rewrite bit23 by lia. rewrite (bool_decide_eq_false_2 (n < 0)) by lia.
  case_bool_decide; cbn [negb]; [done|]. by rewrite Z.shiftr_div_pow2.
Qed.

(** Rounding a number to what the compact form holds. *)
Lemma round_spec e n :
  has_bytes e n → e < 255 →
  CompactToBig (BigToCompact n) = (let '(e', m) := norm e (top e n) in compact_value e' m).
Proof.
  intros Hb He. rewrite (BigToCompact_pos e n Hb). pose proof (top_range e n Hb). destruct Hb as [H1 _].
  unfold norm. case_bool_decide; apply CompactToBig_pack; try lia. split; [apply Z.div_pos; lia|].
  apply Z.div_lt_upper_bound; lia.
Qed.

(** Cutting [k] low bits of a number of at least [b] bits. *)
Lemma cut_bounds n k b :
  0 ≤ k → 0 ≤ b - k → 2 ^ b ≤ n → 0 ≤ n - n / 2 ^ k * 2 ^ k ∧ (n - n / 2 ^ k * 2 ^ k) * 2 ^ (b - k) < n.
Proof.
  intros Hk Hbk Hn. pose proof (Z.pow_pos_nonneg 2 k ltac:(lia) Hk) as Hp.
  pose proof (Z.div_mod n (2 ^ k) ltac:(lia)). pose proof (Z.mod_pos_bound n (2 ^ k) Hp).
  split; [lia|]. eapply Z.lt_le_trans; [|exact Hn].
  replace (2 ^ b) with (2 ^ k * 2 ^ (b - k)) by (rewrite <- Z.pow_add_r by lia; f_equal; lia).
  apply Z.mul_lt_mono_pos_r; [apply Z.pow_pos_nonneg; lia|]. lia.
Qed.

(** The value after rounding: either nothing is lost, or the low bytes are cut. *)
Lemma round_cut e n :
  has_bytes e n → e < 255 →
  CompactToBig (BigToCompact n) = n ∨
  ∃ k, 0 ≤ k ∧ 2 ^ (k + 15) ≤ n ∧ CompactToBig (BigToCompact n) = n / 2 ^ k * 2 ^ k ∧
       (k = 8 * (e - 3) ∧ 3 < e ∧ top e n < 2 ^ 23 ∨ k = 8 * (e - 2) ∧ 3 ≤ e ∧ 2 ^ 23 ≤ top e n).
Proof.
  intros Hb He. rewrite (round_spec e n Hb He). pose proof (top_range e n Hb) as Ht. destruct Hb as (H1 & Hl & Hu).
  unfold norm. case_bool_decide as H23; unfold compact_value.
  - case_bool_decide as H3; unfold top in *.
    + left. rewrite bool_decide_eq_true_2 by done. apply Z.div_mul. apply Z.pow_nonzero; lia.
    + right. exists (8 * (e - 3)). rewrite bool_decide_eq_false_2 in * by done. split; [lia|]. split; [|split; [done|by left; repeat split; lia]].
      etransitivity; [|exact Hl]. apply Z.pow_le_mono_r; lia.
  - case_bool_decide as H3.
    + left. unfold top. rewrite bool_decide_eq_true_2 by lia. rewrite Z.div_div by (try apply Z.pow_pos_nonneg; lia).
      rewrite <- Z.pow_add_r by lia. replace (8 + 8 * (3 - (e + 1))) with (8 * (3 - e)) by lia.
      apply Z.div_mul. apply Z.pow_nonzero; lia.
    + right. exists (8 * (e - 2)). split; [lia|]. replace (8 * (e + 1 - 3)) with (8 * (e - 2)) by lia.
      assert (top e n / 2 ^ 8 = n / 2 ^ (8 * (e - 2)) ∧ 2 ^ (8 * (e - 2) + 15) ≤ n) as [-> Hn].
      { unfold top in *. case_bool_decide as He3.
        - assert (e = 3) as -> by lia. simpl in *. split; [by rewrite Z.mul_1_r|lia].
        - rewrite Z.div_div, <- Z.pow_add_r by (try apply Z.pow_pos_nonneg; lia). split; [do 2 f_equal; lia|].
          assert (2 ^ 23 ≤ n / 2 ^ (8 * (e - 3))) as Hd by lia.
          apply (Z.mul_le_mono_nonneg_r _ _ (2 ^ (8 * (e - 3)))) in Hd; [|apply Z.pow_nonneg; lia].
          rewrite <- Z.pow_add_r in Hd by lia. pose proof (Z.mul_div_le n (2 ^ (8 * (e - 3))) ltac:(apply Z.pow_pos_nonneg; lia)).
          replace (8 * (e - 2) + 15) with (23 + 8 * (e - 3)) by lia. lia. }
      split; [done|]. split; [done|]. right. repeat split; lia.
Qed.

Lemma round_same_compact e n :
  has_bytes e n → e < 255 → BigToCompact (CompactToBig (BigToCompact n)) = BigToCompact n.
Proof.
  intros Hb He. destruct (round_cut e n Hb He) as [->|(k & Hk & Hn & Hr & Hc)]; [done|]. rewrite Hr.
  set (q := n / 2 ^ k). pose proof Hb as (H1 & Hl & Hu). pose proof (top_range e n Hb) as Ht.
  pose proof (Z.pow_pos_nonneg 2 k ltac:(lia) Hk) as Hp.
  assert (q * 2 ^ k ≤ n) as Hle by (rewrite Z.mul_comm; by apply Z.mul_div_le).
  destruct Hc as [(-> & H3 & H23)|(-> & H3 & H23)].
  - assert (top e n = q) as Et by (unfold top; by rewrite bool_decide_eq_false_2 by lia). rewrite Et in Ht.
    assert (has_bytes e (q * 2 ^ (8 * (e - 3)))) as Hb'.
    { split; [done|]. split; [|lia]. replace (8 * (e - 1)) with (16 + 8 * (e - 3)) by lia. rewrite Z.pow_add_r by lia.
      apply Z.mul_le_mono_nonneg_r; lia. }
    rewrite (BigToCompact_pos e _ Hb'), (BigToCompact_pos e n Hb). rewrite Et. unfold top.
    rewrite bool_decide_eq_false_2 by lia. by rewrite Z.div_mul by lia.
  - assert (top e n / 2 ^ 8 = q ∧ top e (q * 2 ^ (8 * (e - 2))) = q * 2 ^ 8) as [Et Eq].
    { unfold top, q. case_bool_decide as He3.
      - assert (e = 3) as -> by lia. simpl. by rewrite !Z.mul_1_r.
      - pose proof (Z.pow_pos_nonneg 2 (8 * (e - 3)) ltac:(lia) ltac:(lia)).
        replace (8 * (e - 2)) with (8 * (e - 3) + 8) by lia. rewrite !Z.pow_add_r, <- Z.div_div by lia. split; [done|].
        rewrite (Z.mul_comm (2 ^ (8 * (e - 3)))), Z.mul_assoc. apply Z.div_mul. lia. }
    assert (2 ^ 15 ≤ q) as Hq by (rewrite <- Et; apply Z.div_le_lower_bound; lia).
    assert (has_bytes e (q * 2 ^ (8 * (e - 2)))) as Hb'.
    { split; [done|]. split; [|lia]. transitivity (2 ^ 15 * 2 ^ (8 * (e - 2))).
      - rewrite <- Z.pow_add_r by lia. apply Z.pow_le_mono_r; lia.
      - apply Z.mul_le_mono_nonneg_r; lia. }
    rewrite (BigToCompact_pos e _ Hb'), (BigToCompact_pos e n Hb). rewrite Eq. unfold norm.
    rewrite !bool_decide_eq_false_2 by lia. by rewrite Et, Z.div_mul by lia.
Qed.

Lemma round_bounds e n :
  has_bytes e n → e < 255 →
  0 < CompactToBig (BigToCompact n) ≤ n ∧ (n - CompactToBig (BigToCompact n)) * 2 ^ 15 < n.
Proof.
  intros Hb He. assert (0 < n) as Hn0.
  { destruct Hb as (H1 & Hl & _). pose proof (Z.pow_pos_nonneg 2 (8 * (e - 1)) ltac:(lia) ltac:(lia)). lia. }
  destruct (round_cut e n Hb He) as [->|(k & Hk & Hn & -> & _)]; [lia|].
  destruct (cut_bounds n k (k + 15) Hk ltac:(lia) Hn) as [B1 B2]. replace (k + 15 - k) with 15 in B2 by lia. lia.
Qed.

Lemma bytes_bound e n : has_bytes e n → n < 2 ^ (8 * 254) → e < 255.
Proof.
  intros (_ & Hl & _) Hn. assert (2 ^ (8 * (e - 1)) < 2 ^ (8 * 254)) as Hp by lia.
  apply Z.pow_lt_mono_r_iff in Hp; lia.
Qed.

Lemma compact_range n : 0 < n < 2 ^ (8 * 254) → 0 ≤ BigToCompact n < 2 ^ 32.
Proof.
  intros Hn. pose proof (has_bytes_len n ltac:(lia)) as Hb. pose proof (bytes_bound _ n Hb ltac:(lia)) as He.
  rewrite (BigToCompact_pos _ n Hb). pose proof (top_range _ n Hb) as Ht. destruct Hb as [H1 _].
  unfold norm. case_bool_decide.
  - rewrite u32_small, lor_pack by (rewrite ?Z.shiftl_mul_pow2; lia). lia.
  - pose proof (Z.div_pos (top (big_len n) n) (2 ^ 8) ltac:(lia) ltac:(lia)).
    assert (top (big_len n) n / 2 ^ 8 < 2 ^ 16) by (apply Z.div_lt_upper_bound; lia).
    rewrite u32_small, lor_pack by (rewrite ?Z.shiftl_mul_pow2; lia). lia.
Qed.

(** ** Claims *)

(** Compact targets. For a number below [256^254], writing it in compact
    form and reading it back rounds it down by less than one part in [2^15],
    to a positive number; rounding twice is rounding once, and the compact form
    fits into 32 bits. *)
Theorem compact_rounds (n : Z) (Hn : 0 < n < 2 ^ (8 * 254)) :
  let r := CompactToBig (BigToCompact n) in
  0 < r ≤ n ∧ (n - r) * 2 ^ 15 < n ∧ BigToCompact r = BigToCompact n ∧ 0 ≤ BigToCompact n < 2 ^ 32.
Proof.
  pose proof (has_bytes_len n ltac:(lia)) as Hb. pose proof (bytes_bound _ n Hb ltac:(lia)) as He.
  destruct (round_bounds _ n Hb He) as [B1 B2]. split; [done|]. split; [done|].
  split; [by eapply round_same_compact|by apply compact_range].
Qed.

Lemma compact_rounds_witness :
  let r := CompactToBig (BigToCompact testNet3PowLimit) in 0 < r ≤ testNet3PowLimit ∧ BigToCompact r = BigToCompact testNet3PowLimit.
Proof.
  destruct (compact_rounds testNet3PowLimit) as (H1 & _ & H2 & _); [vm_compute; split; reflexivity|].
  split; [exact H1|exact H2].
Defined.

(** Bounds of a difficulty adjustment. From a positive previous target, the
    target of a new epoch is at most the limit of the network and at most the
    previous target times the adjustment factor, and, up to the rounding of
    the compact form, at least the previous target over the factor (or the
    limit), whatever the time stamps are. *)
Theorem retarget_bounds (start end_ : BlockHeader) (p : Params)
  (Hprev : 0 < CompactToBig (Bits end_)) (HT : 0 < TargetTimespan p) (Hf : 0 < RetargetAdjustmentFactor p)
  (HL : 0 < PowLimit p < 2 ^ (8 * 254)) :
  let prev := CompactToBig (Bits end_) in
  let r := CompactToBig (calcDiffAdjustBitcoin start end_ p) in
  0 ≤ r ≤ PowLimit p ∧ r ≤ prev * RetargetAdjustmentFactor p ∧
  Z.min (PowLimit p) (prev * (TargetTimespan p `quot` RetargetAdjustmentFactor p) / TargetTimespan p) * (2 ^ 15 - 1) ≤ r * 2 ^ 15.
Proof.
  cbv zeta. unfold calcDiffAdjustBitcoin. set (prev := CompactToBig (Bits end_)) in *. set (T := TargetTimespan p) in *.
  set (f := RetargetAdjustmentFactor p) in *. set (lo := T `quot` f). set (d := if bool_decide (_ < _) then _ else _).
  assert (0 ≤ lo ≤ T * f) as Hlo.
  { unfold lo. rewrite Z.quot_div_nonneg by lia. split; [apply Z.div_pos; lia|].
    etransitivity; [apply Z.div_le_upper_bound with (q := T); nia|]. nia. }
  assert (lo ≤ d ≤ T * f) as Hd by (unfold d; repeat case_bool_decide; lia). clearbody d.
  set (t := if bool_decide (_ > _) then _ else _).
  assert (0 ≤ t ≤ PowLimit p ∧ t ≤ prev * f ∧ Z.min (PowLimit p) (prev * lo / T) ≤ t) as (Ht0 & Ht1 & Ht2).
  { assert (prev * lo / T ≤ prev * d / T) by (apply Z.div_le_mono; nia).
    assert (0 ≤ prev * lo / T) by (apply Z.div_pos; nia).
    assert (prev * d / T ≤ prev * f) by (apply Z.div_le_upper_bound; nia).
    unfold t. case_bool_decide; lia. }
  clearbody t. destruct (decide (t = 0)) as [->|Hne].
  { change (CompactToBig (BigToCompact 0)) with 0. lia. }
  pose proof (has_bytes_len t ltac:(lia)) as Hb. pose proof (bytes_bound _ t Hb ltac:(lia)) as He.
  destruct (round_bounds _ t Hb He) as [B1 B2]. lia.
Qed.

Lemma retarget_bounds_witness :
  CompactToBig (calcDiffAdjustBitcoin testNet3GenesisHeader testNet3GenesisHeader TestNet3Params) ≤ testNet3PowLimit.
Proof.
  destruct (retarget_bounds testNet3GenesisHeader testNet3GenesisHeader TestNet3Params) as [[_ Hle] _];
    [vm_compute; reflexivity..|vm_compute; split; reflexivity|exact Hle].
Defined.

(** Difficulty is not checked on the test network. Between two adjustments
    the rule walks back from the header under test itself, so that for a header
    within twenty minutes of its predecessor the expected bits are whatever
    nonzero bits, other than the limit's, that header claims; the code it
    follows starts from the predecessor. *)
Theorem testnet_bits_unchecked (hs : list BlockHeader) (prev hdr : BlockHeader) (height : Z) (p : Params)
  (Hmin : ReduceMinDifficulty p = true) (Hprev : Bits prev ≠ 0)
  (Hepoch : 0 < height `rem` (TargetTimespan p `quot` TargetTimePerBlock p) ≤ len hs + 1)
  (Hin : Timestamp hdr ≤ Timestamp prev + TargetTimePerBlock p * 2)
  (Hbits : Bits hdr ≠ PowLimitBits p) (Hnz : Bits hdr ≠ 0) :
  diffBitcoin (hs ++ [prev; hdr]) height p = Ret (Bits hdr).
Proof.
  assert (len (hs ++ [prev; hdr]) = len hs + 2) as El by (by rewrite len_app). pose proof (len_nonneg hs).
  assert (∀ i h, 0 ≤ i → (hs ++ [prev; hdr]) !! Z.to_nat i = Some h → header_at (hs ++ [prev; hdr]) i = Ret h) as Hat.
  { intros i h Hi Hh. unfold header_at. rewrite bool_decide_eq_false_2 by lia. by rewrite Hh. }
  unfold diffBitcoin. rewrite El, bool_decide_eq_false_2 by lia.
  rewrite (Hat (len hs + 2 - 2) prev); [|lia|]. 2:{ rewrite lookup_app_r by (unfold len in *; lia). by replace (Z.to_nat _ - _)%nat with 0%nat by (unfold len; lia). }
  rewrite (Hat (len hs + 2 - 1) hdr); [|lia|]. 2:{ rewrite lookup_app_r by (unfold len in *; lia). by replace (Z.to_nat _ - _)%nat with 1%nat by (unfold len; lia). }
  cbn [mbind outcome_bind]. rewrite (bool_decide_eq_false_2 (Bits prev = 0)) by done.
  rewrite (bool_decide_eq_false_2 (_ > len hs + 2 - 1)) by lia. cbn [andb].
  set (i := len hs + 2 - 1 - height `rem` (TargetTimespan p `quot` TargetTimePerBlock p)). assert (0 ≤ i < len hs + 2) as Hi by (unfold i; lia).
  destruct (lookup_lt_is_Some_2 (hs ++ [prev; hdr]) (Z.to_nat i)) as [h Hh]; [unfold len in *; lia|].
  rewrite (Hat i h) by (done || lia). cbn [mbind outcome_bind].
  rewrite (bool_decide_eq_false_2 (_ = 0)) by lia. rewrite Hmin, (bool_decide_eq_false_2 (Timestamp hdr > _)) by lia.
  rewrite rev_app_distr. cbn [rev app last_not_minimal]. rewrite (bool_decide_eq_false_2 (Bits hdr = PowLimitBits p)) by done.
  rewrite andb_false_r. cbn [mbind outcome_bind mret outcome_ret]. by rewrite (bool_decide_eq_false_2 (Bits hdr = 0)).
Qed.

Lemma testnet_bits_unchecked_witness :
  diffBitcoin ([] ++ [testNet3GenesisHeader; MkBlockHeader 1 (zeros 32) (zeros 32) 1296688603 0x1d00fffe 0]) 1 TestNet3Params
  = Ret 0x1d00fffe.
Proof. by apply (testnet_bits_unchecked [] testNet3GenesisHeader (MkBlockHeader 1 (zeros 32) (zeros 32) 1296688603 0x1d00fffe 0) 1 TestNet3Params). Defined.
