(* ===== verification/Uspv.v ===== *)
(** * The header chain of the client (client/uspv)

    header.go, eight333.go and the part of init.go that creates the header
    file.  The file is its contents and the position of the file descriptor,
    which the code moves with [Seek], [Read] and [Write] and which decides where
    [IngestHeaders] writes.  Methods hold the header mutex, so they are atomic.
    [headerIndex], a variable of the package, is a field.  Messages to the peer
    are collected in [outMsgQueue]. *)

From Stdlib Require Import ZArith Lia.
From S2P Require Import Prelude Buffers Sha256 Crypto Utils MerkleTree WireCommon MptNode MptSpec FullMPT MptSerialize PartialMPT WireTypes WireTheorems BtcWire BtcTheorems Difficulty.

Local Open Scope Z_scope.

(** ** Files *)

Record File := MkFile { contents : bytes; pos : Z }.

Inductive whence := SEEK_SET | SEEK_CUR | SEEK_END.

(** [f.Seek]: positions before the start are refused, positions behind the end are not. *)
Definition Seek (f : File) (offset : Z) (w : whence) : outcome (Z * File) :=
  let p := offset + match w with SEEK_SET => 0 | SEEK_CUR => pos f | SEEK_END => len (contents f) end in
  if bool_decide (p < 0) then Err "seek: invalid argument" else mret (p, MkFile (contents f) p).

(** [hdr.Deserialize(f)]: the position moves over what was read. *)
Definition Deserialize_file (hdr : BlockHeader) (f : File) : BlockHeader * go_error * File :=
  let rest := drop (Z.to_nat (pos f)) (contents f) in
  let d := readBlockHeader hdr rest in
  (dec_val d, dec_err d, MkFile (contents f) (pos f + (len rest - len (dec_rest d)))).

(** [f.Write(b)]: a gap behind the end is filled with zeros. *)
Definition Write_file (f : File) (b : bytes) : File :=
  let p := Z.to_nat (pos f) in
  MkFile (take p (contents f) ++ zeros (p - length (contents f)) ++ b ++ drop (p + length b) (contents f))
    (pos f + len b).

Definition Truncate (f : File) (size : Z) : outcome File :=
  if bool_decide (size < 0) then Err "truncate: invalid argument"
  else
    let n := Z.to_nat size in
    mret (MkFile (take n (contents f) ++ zeros (n - length (contents f))) (pos f)).

(** ** State *)

Record SPVCon := MkSPVCon {
  headerFile : File;
  headerStartHeight : Z;             (** int32 *)
  syncHeight : Z;                    (** int32 *)
  Synced : bool;
  Param : Params;
  headerIndex : option (gmap bytes Z);
  outMsgQueue : list (list bytes)    (** block locators of getheaders messages *)
}.

Definition set_headerFile (f : File) (s : SPVCon) : SPVCon :=
  MkSPVCon f (headerStartHeight s) (syncHeight s) (Synced s) (Param s) (headerIndex s) (outMsgQueue s).
Definition set_syncHeight (h : Z) (s : SPVCon) : SPVCon :=
  MkSPVCon (headerFile s) (headerStartHeight s) h (Synced s) (Param s) (headerIndex s) (outMsgQueue s).
Definition set_Synced (b : bool) (s : SPVCon) : SPVCon :=
  MkSPVCon (headerFile s) (headerStartHeight s) (syncHeight s) b (Param s) (headerIndex s) (outMsgQueue s).
Definition set_headerIndex (m : gmap bytes Z) (s : SPVCon) : SPVCon :=
  MkSPVCon (headerFile s) (headerStartHeight s) (syncHeight s) (Synced s) (Param s) (Some m) (outMsgQueue s).
Definition send_getheaders (locator : list bytes) (s : SPVCon) : SPVCon :=
  MkSPVCon (headerFile s) (headerStartHeight s) (syncHeight s) (Synced s) (Param s) (headerIndex s) (outMsgQueue s ++ [locator]).

Section Headers.
Context `{HashFunction}.

(** ** Work *)

Definition go_min (a b : Z) : Z := if bool_decide (a < b) then a else b.

Definition links (h : BlockHeader) (hash : bytes) : bool := IsEqual (Some (PrevBlock h)) (Some hash).

(** The loop of [moreWork] from [i] down to 1. *)
Fixpoint common_pos (i : nat) (a b : list BlockHeader) : option nat :=
  match i with
  | O => None
  | S j =>
      match a !! j, a !! i, b !! i with
      | Some a0, Some a1, Some b1 =>
          let hash := BlockHash a0 in
          if links a1 hash && links b1 hash then Some i else common_pos j a b
      | _, _, _ => None
      end
  end.

Definition moreWork (a b : list BlockHeader) : bool :=
  if bool_decide (len a = 0) || bool_decide (len b = 0) then false
  else
    match common_pos (Z.to_nat (go_min (len a) (len b) - 1)) a b with
    | None => false
    | Some p =>
        let a1 := drop p a in
        let b1 := drop p b in
        let workA := foldl (λ w _, match a1 with h :: _ => CalcWork (Bits h) + w | [] => w end) 0 a1 in
        let workB := foldl (λ w h, CalcWork (Bits h) + w) 0 b1 in
        bool_decide (workA > workB)
    end.

Definition checkProofOfWork (header : BlockHeader) (p : Params) (height : Z) : bool :=
  let target := CompactToBig (Bits header) in
  if bool_decide (target ≤ 0) then false
  else if bool_decide (target > PowLimit p) then false
  else
    let blockHash := PoWFunction p (writeBlockHeader header) height in
    let hashNum := HashToBig blockHash in
    negb (bool_decide (hashNum > target)).

(** ** Reading the file *)

Definition GetHeaderAtHeight (s : SPVCon) (h : Z) : outcome BlockHeader * SPVCon :=
  let h := i32 (h - StartHeight (Param s)) in
  match Seek (headerFile s) (i32 (80 * h)) SEEK_SET with
  | Ret (_, f) =>
      let '(hdr, err, f) := Deserialize_file zeroHeader f in
      (match err with Some e => Err e | None => Ret hdr end, set_headerFile f s)
  | Err e => (Err e, s)
  | Panic e => (Panic e, s)
  end.

(** A size that is not a multiple of 80 is mended; the result is computed from the size
    before that. *)
Definition GetHeaderTipHeight (s : SPVCon) : Z * SPVCon :=
  let headerFileSize := len (contents (headerFile s)) in
  let s := if bool_decide (headerFileSize = 0) || negb (bool_decide (Z.rem headerFileSize 80 = 0))
           then match Truncate (headerFile s) (headerFileSize - Z.rem headerFileSize 80) with
                | Ret f => set_headerFile f s
                | _ => s
                end
           else s in
  (i32 (i32 (i32 (headerFileSize / 80) + StartHeight (Param s)) - 1), s).

(** [tries] counts from 1 to 2199; [n] is how many are left. *)
Fixpoint find_header_loop (n : nat) (tries : Z) (f : File) (hdr : BlockHeader) : (Z * go_error) * File :=
  match n with
  | O => ((0, None), f)
  | S n =>
      match Seek f (-80 * tries) SEEK_END with
      | Ret (offset, f) =>
          let '(cur, err, f) := Deserialize_file zeroHeader f in
          match err with
          | Some e => ((-1, Some e), f)
          | None => if links hdr (BlockHash cur) then ((i32 (offset / 80), None), f)
                    else find_header_loop n (tries + 1) f hdr
          end
      | Err e => ((-1, Some e), f)
      | Panic e => ((-1, Some e), f)
      end
  end.

Definition FindHeader (f : File) (hdr : BlockHeader) : (Z * go_error) * File := find_header_loop 2199 1 f hdr.

(** One header per step, so the length of the file is enough. *)
Fixpoint index_loop (fuel : nat) (f : File) (idx : gmap bytes Z) : (go_error * gmap bytes Z) * File :=
  match fuel with
  | O => ((None, idx), f)
  | S fuel =>
      let p := pos f in
      let '(cur, err, f) := Deserialize_file zeroHeader f in
      match err with
      | Some e => if String.eqb e EOF then ((None, idx), f) else ((Some e, idx), f)
      | None => index_loop fuel f (<[BlockHash cur := p]> idx)
      end
  end.

Definition IndexHeaders (s : SPVCon) : go_error * SPVCon :=
  match Seek (headerFile s) 0 SEEK_SET with
  | Ret (_, f) =>
      let '((err, idx), f) := index_loop (S (length (contents f))) f (default ∅ (headerIndex s)) in
      (err, set_headerIndex idx (set_headerFile f s))
  | Err e => (Some e, s)
  | Panic e => (Some e, s)
  end.

Definition block_not_found : string := "Block not found".

(** The search from the tip back.  A header that is not in the index yet is entered with
    the position behind it. *)
Fixpoint search_loop (n : nat) (tries : Z) (f : File) (idx : gmap bytes Z) (hash : bytes)
    : outcome BlockHeader * (File * gmap bytes Z) :=
  match n with
  | O => (Err block_not_found, (f, idx))
  | S n =>
      match Seek f (-80 * tries) SEEK_END with
      | Ret (_, f) =>
          let '(cur, err, f) := Deserialize_file zeroHeader f in
          match err with
          | Some e => (Err e, (f, idx))
          | None =>
              let curhash := BlockHash cur in
              let idx := match idx !! curhash with
                         | Some _ => idx
                         | None => <[curhash := pos f]> idx
                         end in
              if IsEqual (Some hash) (Some curhash) then (Ret cur, (f, idx))
              else search_loop n (tries + 1) f idx hash
          end
      | Err e => (Err e, (f, idx))
      | Panic e => (Panic e, (f, idx))
      end
  end.

(** [hash] is a pointer that is dereferenced. *)
Definition GetHeaderByBlockHash (s : SPVCon) (hash : option bytes) : outcome BlockHeader * SPVCon :=
  let '(numBlocks, s) := GetHeaderTipHeight s in
  let '(err, s) := match headerIndex s with
                   | None => IndexHeaders (set_headerIndex ∅ s)
                   | Some _ => (None, s)
                   end in
  match err, hash with
  | Some e, _ => (Err e, s)
  | None, None => (Panic nil_deref, s)
  | None, Some hash =>
      let idx := default ∅ (headerIndex s) in
      match idx !! hash with
      | Some p =>
          match Seek (headerFile s) p SEEK_SET with
          | Ret (_, f) =>
              let '(cur, err, f) := Deserialize_file zeroHeader f in
              (match err with Some e => Err e | None => Ret cur end, set_headerFile f s)
          | Err e => (Err e, s)
          | Panic e => (Panic e, s)
          end
      | None =>
          let '(res, (f, idx)) := search_loop (Z.to_nat (go_min 1000 numBlocks - 1)) 1 (headerFile s) idx hash in
          (res, set_headerIndex idx (set_headerFile f s))
      end
  end.

(** ** Checking headers *)

(** The first loop: the headers are consistent among themselves. *)
Fixpoint check_links (i : nat) (prev : option BlockHeader) (inHeaders : list BlockHeader) : go_error :=
  match inHeaders with
  | [] => None
  | hdr :: rest =>
      let linked := match prev with Some h => links hdr (BlockHash h) | None => true end in
      if bool_decide (1 < i)%nat && negb linked then Some "headers in header message don't link"
      else if bool_decide (Version hdr < 0) then Some "header in message has negative version (hard fork?)"
      else check_links (S i) (Some hdr) rest
  end.

(** [n] headers read from the current position. *)
Fixpoint read_headers (n : nat) (f : File) : (list BlockHeader * go_error) * File :=
  match n with
  | O => (([], None), f)
  | S n =>
      let '(h, err, f) := Deserialize_file zeroHeader f in
      match err with
      | Some e => (([], Some e), f)
      | None => let '((hs, err), f) := read_headers n f in ((h :: hs, err), f)
      end
  end.

(** The last loop: proof of work and difficulty. *)
Fixpoint check_work (i : Z) (height : Z) (prevHeaders inHeaders : list BlockHeader) (p : Params) : outcome unit :=
  match inHeaders with
  | [] => mret tt
  | hdr :: rest =>
      if bool_decide (i32 (height + i) > AssumeDiffBefore p) then
        if negb (checkProofOfWork hdr p (i32 (height + i))) then Err "header in message has bad proof of work"
        else
          let prevHeaders := prevHeaders ++ [hdr] in
          match DiffCalcFunction_call p prevHeaders (i32 (height + i)) with
          | Panic e => Panic e
          | Err e => Err ("Error calculating Block difficulty. " ++ e)
          | Ret rightBits =>
              if negb (bool_decide (Bits hdr = rightBits)) &&
                 negb (String.eqb (Name p) "vtctest") && negb (String.eqb (Name p) "vtc")
              then Err "incorrect difficulty"
              else check_work (i + 1) height prevHeaders rest p
          end
      else check_work (i + 1) height prevHeaders rest p
  end.

Definition epoch_length (p : Params) : Z :=
  if bool_decide (MinHeaders p > 0) then MinHeaders p
  else i32 (Z.quot (TargetTimespan p) (TargetTimePerBlock p)).

(** The check once the old headers are loaded, [f] being the file after that: the height
    to go back to, 0 if there is no reorganization. *)
Definition check_attach (f : File) (oldHeaders inHeaders : list BlockHeader) (first tip : BlockHeader)
    (height numheaders : Z) (p : Params) : outcome (Z * go_error) * File :=
  let finish attachHeight oldHeaders f :=
    (match check_work 0 height oldHeaders inHeaders p with
     | Ret _ => Ret (attachHeight, None)
     | Err e => Ret (0, Some e)
     | Panic e => Panic e
     end, f) in
  if negb (links first (BlockHash tip)) then
    let '((attachHeight, err), f) := FindHeader f first in
    match err with
    | Some _ => (Ret (0, Some "CheckHeaderChain: header message doesn't attach to tip or anywhere."), f)
    | None =>
        let attachHeight := i32 (attachHeight + StartHeight p) in
        if moreWork inHeaders oldHeaders then (Ret (-1, Some "reorg message"), f)
        else
          let reorgDepth := i32 (height - attachHeight) in
          if bool_decide (reorgDepth > numheaders)
          then (Ret (0, Some "Reorg depth is greater than the number of headers received, exiting!"), f)
          else if bool_decide (reorgDepth < 0) then (Panic "slice bounds out of range", f)
          else finish attachHeight (take (Z.to_nat (numheaders - reorgDepth)) oldHeaders) f
    end
  else finish 0 oldHeaders f.

Definition CheckHeaderChain (f : File) (inHeaders : list BlockHeader) (p : Params) : outcome (Z * go_error) * File :=
  match inHeaders with
  | [] => (Ret (0, Some "CheckHeaderChain: headers message doesn't have any headers."), f)
  | first :: _ =>
      match check_links 0 None inHeaders with
      | Some e => (Ret (0, Some e), f)
      | None =>
          let epochLength := epoch_length p in
          match Seek f (-80) SEEK_END with
          | Ret (pos, f) =>
              if negb (bool_decide (Z.rem pos 80 = 0))
              then (Ret (0, Some "CheckHeaderChain: Header file not a multiple of 80 bytes."), f)
              else
                let height := i32 (i32 (i32 (pos / 80) + StartHeight p) + 1) in
                let back := i32 (80 * i32 (epochLength + 1)) in
                let '(sought, numheaders) :=
                  if bool_decide (pos > back)
                  then (Seek f (i32 (-80 * i32 (epochLength + 1))) SEEK_END, i32 (epochLength + 1))
                  else (Seek f 0 SEEK_SET, i32 (height - StartHeight p)) in
                match sought with
                | Ret (_, f) =>
                    if bool_decide (numheaders < 0) then (Panic "makeslice: len out of range", f)
                    else
                      let '((oldHeaders, err), f) := read_headers (Z.to_nat numheaders) f in
                      match err with
                      | Some e => (Ret (0, Some e), f)
                      | None =>
                          match last oldHeaders with
                          | None => (Panic out_of_range, f)
                          | Some tip => check_attach f oldHeaders inHeaders first tip height numheaders p
                          end
                      end
                | Err e => (Ret (0, Some e), f)
                | Panic e => (Panic e, f)
                end
          | Err e => (Ret (0, Some e), f)
          | Panic e => (Panic e, f)
          end
      end
  end.

(** ** Taking headers in *)

Definition write_headers (f : File) (hs : list BlockHeader) : File :=
  foldl (λ f h, Write_file f (writeBlockHeader h)) f hs.

(** [m] are the headers of the message; the first result tells whether to ask for more. *)
Definition IngestHeaders (s : SPVCon) (m : list BlockHeader) : outcome (bool * go_error) * SPVCon :=
  if bool_decide (len m > 0) then
    let '(res, f) := CheckHeaderChain (headerFile s) m (Param s) in
    let s := set_headerFile f s in
    match res with
    | Panic e => (Panic e, s)
    | Err e => (Err e, s)
    | Ret (reorgHeight, Some e) =>
        if bool_decide (reorgHeight = -1) then (Ret (true, None), s) else (Ret (true, Some e), s)
    | Ret (reorgHeight, None) =>
        let truncated :=
          if negb (bool_decide (reorgHeight = 0)) then
            let fileHeight := i32 (reorgHeight - StartHeight (Param s)) in
            match Truncate (headerFile s) (fileHeight * 80) with
            | Ret f => Ret (set_syncHeight reorgHeight (set_headerFile f s))
            | Err e => Err e
            | Panic e => Panic e
            end
          else Ret s in
        match truncated with
        | Ret s => (Ret (true, None), set_headerFile (write_headers (headerFile s) m) s)
        | Err e => (Ret (false, Some e), s)
        | Panic e => (Panic e, s)
        end
    end
  else (Ret (false, None), set_Synced true s).

(** ** Asking for headers *)

Definition MaxBlockLocatorsPerMsg : Z := 500.

Definition AddBlockLocatorHash (locator : list bytes) (hash : bytes) : outcome (list bytes) :=
  if bool_decide (len locator + 1 > MaxBlockLocatorsPerMsg) then Err "too many block locator hashes for message"
  else mret (locator ++ [hash]).

(** [backnum] is 1 to 11 and then quadruples: 40 steps pass every height. *)
Fixpoint locator_loop (fuel : nat) (tipheight backnum : Z) (locator : list bytes) (s : SPVCon) : outcome (list bytes) * SPVCon :=
  match fuel with
  | O => (Ret locator, s)
  | S fuel =>
      if bool_decide (tipheight > i32 (StartHeight (Param s) + backnum)) then
        let '(backhdr, s) := GetHeaderAtHeight s (i32 (tipheight - backnum)) in
        match (h ← backhdr; AddBlockLocatorHash locator (BlockHash h)) with
        | Ret locator =>
            locator_loop fuel tipheight (if bool_decide (backnum > 10) then i32 (Z.shiftl backnum 2) else i32 (backnum + 1))
              locator s
        | Err e => (Err e, s)
        | Panic e => (Panic e, s)
        end
      else (Ret locator, s)
  end.

Definition AskForHeaders (s : SPVCon) : outcome unit * SPVCon :=
  let s := set_Synced false s in
  let '(tipheight, s) := GetHeaderTipHeight s in
  let '(tipheader, s) := GetHeaderAtHeight s tipheight in
  match (h ← tipheader; AddBlockLocatorHash [] (BlockHash h)) with
  | Ret locator =>
      let '(res, s) := locator_loop 40 tipheight 1 locator s in
      match res with
      | Ret locator => (Ret tt, send_getheaders locator s)
      | Err e => (Err e, s)
      | Panic e => (Panic e, s)
      end
  | Err e => (Err e, s)
  | Panic e => (Panic e, s)
  end.

(** [HeaderHandler]; errors are only logged. *)
Definition HeaderHandler (s : SPVCon) (m : list BlockHeader) : outcome unit * SPVCon :=
  let '(res, s) := IngestHeaders s m in
  match res with
  | Panic e => (Panic e, s)
  | Err e => (Err e, s)
  | Ret (moar, _) =>
      if moar then
        let '(res, s) := AskForHeaders s in
        (match res with Panic e => Panic e | _ => Ret tt end, s)
      else (Ret tt, s)
  end.

(** ** The header file *)

(** The contents of a header file that is created, and the state after opening it. *)
Definition initial_header (p : Params) : bytes :=
  if negb (bool_decide (StartHeight p = 0)) then StartHeader p else writeBlockHeader (GenesisHeader p).

Definition openHeaderFile (existing : option bytes) (p : Params) : SPVCon :=
  let c := default (initial_header p) existing in
  MkSPVCon (MkFile c 0) (if negb (bool_decide (StartHeight p = 0)) then StartHeight p else 0) 0 false p None [].
End Headers.
