(* ===== verification/UspvTheorems.v ===== *)
(** * The header file as a list of headers *)

From Stdlib Require Import ZArith Lia.
From S2P Require Import Prelude Buffers Sha256 Crypto Utils MerkleTree WireCommon MptNode MptSpec FullMPT MptSerialize PartialMPT WireTypes WireTheorems BtcWire BtcTheorems Difficulty Uspv.

Local Open Scope Z_scope.

(** ** Headers in a file *)

Definition chain_bytes (hs : list BlockHeader) : bytes := concat (map writeBlockHeader hs).

(** The file holds exactly the headers [hs]. *)
Definition file_of (f : File) (hs : list BlockHeader) : Prop :=
  contents f = chain_bytes hs ∧ Forall BlockHeader_ok hs.

Lemma chain_length hs : Forall BlockHeader_ok hs → length (chain_bytes hs) = (80 * length hs)%nat.
Proof.
  induction 1 as [|h hs Hh _ IH]; [done|]. unfold chain_bytes in *. cbn [map concat length].
  rewrite length_app, writeBlockHeader_length, IH by done. unfold blockHeaderLen. lia.
Qed.

Lemma chain_len hs : Forall BlockHeader_ok hs → len (chain_bytes hs) = 80 * len hs.
Proof. intros Hh. unfold len. rewrite chain_length by done. lia. Qed.

Lemma chain_app hs hs' : chain_bytes (hs ++ hs') = chain_bytes hs ++ chain_bytes hs'.
Proof. unfold chain_bytes. by rewrite map_app, concat_app. Qed.

Lemma chain_take hs i : Forall BlockHeader_ok hs → take (80 * i) (chain_bytes hs) = chain_bytes (take i hs).
Proof.
  intros Hh. destruct (decide (i ≤ length hs)%nat).
  - rewrite <- (take_drop i hs) at 1. rewrite chain_app, take_app_length'; [done|].
    rewrite chain_length by by apply Forall_take. rewrite length_take. lia.
  - rewrite !take_ge; [done|lia|]. rewrite chain_length by done. lia.
Qed.

Lemma chain_drop hs i : Forall BlockHeader_ok hs → drop (80 * i) (chain_bytes hs) = chain_bytes (drop i hs).
Proof.
  intros Hh. destruct (decide (i ≤ length hs)%nat).
  - rewrite <- (take_drop i hs) at 1. rewrite chain_app, drop_app_length'; [done|].
    rewrite chain_length by by apply Forall_take. rewrite length_take. lia.
  - rewrite !drop_ge; [done|lia|]. rewrite chain_length by done. lia.
Qed.

Lemma zeroHeader_ok : BlockHeader_ok zeroHeader.
Proof. by repeat split. Qed.

Lemma zeroHeader_bytes : writeBlockHeader zeroHeader = zeros 80.
Proof. done. Qed.

(** Reading at the [i]th header. *)
Lemma read_at f hs i h :
  file_of f hs → pos f = 80 * Z.of_nat i → hs !! i = Some h →
  Deserialize_file zeroHeader f = (h, None, MkFile (contents f) (80 * (Z.of_nat i + 1))).
Proof.
  intros (Hc & Hok) Hp Hi. unfold Deserialize_file. rewrite Hp, Hc.
  replace (Z.to_nat (80 * Z.of_nat i)) with (80 * i)%nat by lia. rewrite chain_drop by done.
  rewrite (drop_S hs h i Hi). change (chain_bytes (h :: drop (S i) hs)) with (writeBlockHeader h ++ chain_bytes (drop (S i) hs)).
  assert (BlockHeader_ok h) as Hh by (eapply Forall_lookup_1; [exact Hok|done]).
  pose proof (BlockHeader_reads zeroHeader h eq_refl eq_refl Hh (chain_bytes (drop (S i) hs))) as E.
  cbv beta in E. rewrite E. cbn [dec_val dec_err dec_rest]. do 2 f_equal.
  rewrite len_app. unfold len. rewrite (writeBlockHeader_length h Hh). unfold blockHeaderLen. lia.
Qed.

(** Reading at the end. *)
Lemma read_end f hs :
  file_of f hs → pos f = 80 * len hs →
  ∃ h, Deserialize_file zeroHeader f = (h, Some EOF, MkFile (contents f) (pos f)).
Proof.
  intros (Hc & Hok) Hp. unfold Deserialize_file. rewrite Hc.
  rewrite drop_ge by (rewrite chain_length by done; unfold len in Hp; lia). eexists.
  unfold readBlockHeader, dec_then, read_as. cbn. by rewrite Z.add_0_r.
Qed.

Lemma seek_set f hs i :
  file_of f hs → 0 ≤ i → Seek f i SEEK_SET = Ret (i, MkFile (contents f) i) ∧ file_of (MkFile (contents f) i) hs.
Proof. intros (Hc & Hok) Hi. unfold Seek. rewrite Z.add_0_r, bool_decide_eq_false_2 by lia. split; [done|]. by split. Qed.

(** Seeking [t] headers back from the end. *)
Lemma seek_back f hs t :
  file_of f hs → 0 ≤ t ≤ len hs →
  Seek f (-80 * t) SEEK_END = Ret (80 * (len hs - t), MkFile (contents f) (80 * (len hs - t))) ∧
  file_of (MkFile (contents f) (80 * (len hs - t))) hs.
Proof.
  intros (Hc & Hok) Ht. unfold Seek. rewrite Hc, chain_len by done.
  replace (-80 * t + 80 * len hs) with (80 * (len hs - t)) by lia.
  rewrite bool_decide_eq_false_2 by lia. by split.
Qed.

Lemma seek_too_far f hs t : file_of f hs → len hs < t → ∃ e, Seek f (-80 * t) SEEK_END = Err e.
Proof.
  intros (Hc & Hok) Ht. unfold Seek. rewrite Hc, chain_len by done. rewrite bool_decide_eq_true_2 by lia. eauto.
Qed.

Lemma file_of_pos f hs p : file_of f hs → file_of (MkFile (contents f) p) hs.
Proof. done. Qed.

Section Chain.
Context `{HashFunction}.

(** ** Loading the old headers *)

Lemma read_headers_spec n f hs i :
  file_of f hs → pos f = 80 * Z.of_nat i → (i + n ≤ length hs)%nat →
  read_headers n f = ((take n (drop i hs), None), MkFile (contents f) (80 * Z.of_nat (i + n))).
Proof.
  revert f i. induction n as [|n IH]; intros f i Hf Hp Hn.
  - cbn. rewrite take_0. do 2 f_equal. rewrite Nat.add_0_r, <- Hp. by destruct f.
  - destruct (lookup_lt_is_Some_2 hs i) as [h Hh]; [lia|]. cbn [read_headers].
    rewrite (read_at f hs i h Hf Hp Hh). cbv iota beta.
    rewrite (IH _ (S i)); [|by apply file_of_pos|simpl; lia|lia].
    rewrite (drop_S hs h i Hh). cbn [take]. do 3 f_equal. lia.
Qed.

(** ** Finding the header a new one attaches to *)

(** The last of the headers [hs] whose hash the new header names, with its index. *)
Definition attaches (hs : list BlockHeader) (hdr : BlockHeader) (k : nat) : Prop :=
  (∃ h, hs !! k = Some h ∧ PrevBlock hdr = BlockHash h) ∧
  ∀ j h, (k < j)%nat → hs !! j = Some h → PrevBlock hdr ≠ BlockHash h.

Lemma links_true h hash : links h hash = true ↔ PrevBlock h = hash.
Proof. unfold links, IsEqual. apply bytes_eqb_true. Qed.

Lemma links_false h hash : links h hash = false ↔ PrevBlock h ≠ hash.
Proof. unfold links, IsEqual. apply bytes_eqb_false. Qed.

Lemma find_loop_spec n t f hs hdr :
  file_of f hs → 1 ≤ t ≤ len hs + 1 → len hs < 2 ^ 31 →
  (∀ j h, Z.of_nat j > len hs - t → hs !! j = Some h → PrevBlock hdr ≠ BlockHash h) →
  let '((a, err), f') := find_header_loop n t f hdr in
  contents f' = contents f ∧
  (err = None → (a = 0 ∧ t - 1 + Z.of_nat n ≤ len hs) ∨
     ∃ k, attaches hs hdr k ∧ a = Z.of_nat k ∧ pos f' = 80 * (Z.of_nat k + 1)).
Proof.
  revert t f. induction n as [|n IH]; intros t f Hf Ht Hs Hno; cbn [find_header_loop].
  { split; [done|]. intros _. left. split; [done|lia]. }
  destruct (decide (t ≤ len hs)) as [Hle|Hgt].
  2:{ destruct (seek_too_far f hs t Hf) as [e ->]; [lia|]. done. }
  destruct (seek_back f hs t Hf) as [-> Hf1]; [lia|]. set (k := Z.to_nat (len hs - t)).
  assert (len hs - t = Z.of_nat k) as Ek by (unfold k; lia).
  destruct (lookup_lt_is_Some_2 hs k) as [h Hh]; [unfold len in *; lia|].
  rewrite (read_at _ hs k h Hf1) by (simpl; lia || done). cbv iota beta. cbn [contents].
  destruct (links hdr (BlockHash h)) eqn:El.
  - apply links_true in El. split; [done|]. cbn [pos]. intros _. right. exists k.
    rewrite Z.mul_comm, Z.div_mul, Ek, i32_small by lia. split; [|done]. split; [eauto|].
    intros j h' Hj Hj'. apply (Hno j h'); [lia|done].
  - apply links_false in El. specialize (IH (t + 1) (MkFile (contents f) (80 * (Z.of_nat k + 1)))).
    destruct (find_header_loop n (t + 1) _ hdr) as [[a err] f']. cbn [contents] in IH.
    destruct IH as (Hc & Hr); [by apply file_of_pos|lia|done| |].
    { intros j h' Hj Hj'. destruct (decide (j = k)) as [->|]; [by rewrite Hh in Hj'; injection Hj' as <-|].
      apply (Hno j h'); [lia|done]. }
    split; [done|]. intros He. destruct (Hr He) as [[? ?]|?]; [left; lia|by right].
Qed.

Lemma FindHeader_spec f hs hdr :
  file_of f hs → len hs < 2 ^ 31 →
  let '((a, err), f') := FindHeader f hdr in
  contents f' = contents f ∧
  (err = None → (a = 0 ∧ 2199 ≤ len hs) ∨
     ∃ k, attaches hs hdr k ∧ a = Z.of_nat k ∧ pos f' = 80 * (Z.of_nat k + 1)).
Proof.
  intros Hf Hs. pose proof (find_loop_spec 2199 1 f hs hdr Hf) as Hl. unfold FindHeader.
  destruct (find_header_loop 2199 1 f hdr) as [[a err] f']. destruct Hl as (Hc & Hr); [pose proof (len_nonneg hs); lia|done| |].
  { intros j h Hj Hh. apply lookup_lt_Some in Hh. unfold len in Hj. lia. }
  split; [done|]. intros He. destruct (Hr He) as [[? ?]|?]; [left; lia|by right].
Qed.

(** ** What the checks of a message establish *)

(** The headers of a message are checked against each other, but for the second. *)
Lemma check_links_spec i prev m :
  check_links i prev m = None →
  ∀ j h, m !! j = Some h → 0 ≤ Version h ∧
    ((1 < i + j)%nat → ∀ h', (if j is S j' then m !! j' else prev) = Some h' → PrevBlock h = BlockHash h').
Proof.
  revert i prev. induction m as [|hdr m IH]; intros i prev Hc j h Hj; [done|]. cbn [check_links] in Hc.
  destruct (bool_decide (1 < i)%nat && negb _) eqn:E; [done|]. case_bool_decide as Hv; [done|].
  destruct j as [|j].
  - injection Hj as <-. split; [lia|]. intros Hi h' ->. rewrite Nat.add_0_r in Hi.
    rewrite bool_decide_eq_true_2 in E by done. apply negb_false_iff in E. by apply links_true in E.
  - cbn in Hj. destruct (IH _ _ Hc j h Hj) as [Hv' Hl]. split; [done|]. intros Hi h' Hh'. apply (Hl ltac:(lia) h').
    destruct j; done.
Qed.

(** And they pass when that holds. *)
Lemma check_links_complete i prev m :
  (∀ j h, m !! j = Some h → 0 ≤ Version h ∧
    ((1 < i + j)%nat → ∀ h', (if j is S j' then m !! j' else prev) = Some h' → PrevBlock h = BlockHash h')) →
  check_links i prev m = None.
Proof.
  revert i prev. induction m as [|hdr m IH]; intros i prev Hall; [done|]. cbn [check_links].
  destruct (Hall 0%nat hdr eq_refl) as [Hv Hl]. rewrite Nat.add_0_r in Hl.
  assert (bool_decide (1 < i)%nat && negb match prev with Some h => links hdr (BlockHash h) | None => true end = false) as ->.
  { case_bool_decide as Hi; [|done]. destruct prev as [h|]; [|done]. specialize (Hl Hi h eq_refl).
    apply links_true in Hl. by rewrite Hl. }
  rewrite bool_decide_eq_false_2 by lia. apply IH. intros j h Hj. destruct (Hall (S j) h Hj) as [Hv' Hl'].
  split; [done|]. intros Hi h' Hh'. apply (Hl' ltac:(lia)). by destruct j.
Qed.

(** The headers of [m], the first of them at [height + i], that are above the height up to
    which the difficulty is assumed. *)
Fixpoint above (p : Params) (i height : Z) (m : list BlockHeader) : list BlockHeader :=
  match m with
  | [] => []
  | h :: m => if bool_decide (i32 (height + i) > AssumeDiffBefore p) then h :: above p (i + 1) height m else above p (i + 1) height m
  end.

(** Proof of work and difficulty of the [j]th header of [m], after the headers [prev]. *)
Definition work_ok (p : Params) (i height : Z) (prev m : list BlockHeader) (j : nat) (h : BlockHeader) : Prop :=
  i32 (height + (i + Z.of_nat j)) > AssumeDiffBefore p →
  checkProofOfWork h p (i32 (height + (i + Z.of_nat j))) = true ∧
  ∃ bits, DiffCalcFunction_call p (prev ++ above p i height (take (S j) m)) (i32 (height + (i + Z.of_nat j))) = Ret bits ∧
    (Bits h = bits ∨ Name p = "vtctest" ∨ Name p = "vtc").

(** One turn of the loop, and what it leaves to the turns that follow. *)
Lemma check_work_cons i height prev hdr m p :
  check_work i height prev (hdr :: m) p = Ret tt ↔
  work_ok p i height prev (hdr :: m) 0 hdr ∧
  check_work (i + 1) height (prev ++ above p i height [hdr]) m p = Ret tt.
Proof.
  unfold work_ok. rewrite Z.add_0_r. cbn [check_work take above]. case_bool_decide as Hb.
  - destruct (checkProofOfWork hdr p _); cbn [negb]; [|split; [done|intros [[? _] _]; [done|done]]].
    destruct (DiffCalcFunction_call _ _ _) as [bits|e|e] eqn:Ed.
    2-3: split; [done|]; intros [Hw _]; destruct (Hw Hb) as (_ & ? & ? & _); done.
    destruct (negb (bool_decide (Bits hdr = bits)) && negb (String.eqb (Name p) "vtctest") && negb (String.eqb (Name p) "vtc")) eqn:Ex.
    + split; [done|]. intros [Hw _]. destruct (Hw Hb) as (_ & bits' & [= <-] & Hor).
      apply andb_prop in Ex as [Ex E3]. apply andb_prop in Ex as [E1 E2].
      destruct Hor as [Hx|[Hx|Hx]]; [rewrite bool_decide_eq_true_2 in E1 by done; done|by rewrite Hx in E2|by rewrite Hx in E3].
    + split; [|by intros [_ ?]]. intros Hc. split; [|done]. intros _. split; [done|]. exists bits. split; [done|].
      apply andb_false_iff in Ex as [Ex|E3]; [apply andb_false_iff in Ex as [E1|E2]|].
      * left. apply negb_false_iff in E1. by apply bool_decide_eq_true in E1.
      * right; left. apply negb_false_iff in E2. by apply String.eqb_eq.
      * right; right. apply negb_false_iff in E3. by apply String.eqb_eq.
  - rewrite !app_nil_r. split; [intros Hc; split; [by intros ?|done]|by intros [_ ?]].
Qed.

(** The loop accepts exactly the messages all of whose headers are in order. *)
Lemma check_work_spec i height prev m p :
  check_work i height prev m p = Ret tt ↔ ∀ j h, m !! j = Some h → work_ok p i height prev m j h.
Proof.
  revert i prev. induction m as [|hdr m IH]; intros i prev; [done|]. rewrite check_work_cons, IH.
  assert (Hsh : ∀ j h, work_ok p (i + 1) height (prev ++ above p i height [hdr]) m j h ↔ work_ok p i height prev (hdr :: m) (S j) h).
  { intros j h. unfold work_ok. replace (i + 1 + Z.of_nat j) with (i + Z.of_nat (S j)) by lia.
    replace ((prev ++ above p i height [hdr]) ++ above p (i + 1) height (take (S j) m))
      with (prev ++ above p i height (take (S (S j)) (hdr :: m))); [done|].
    rewrite <- app_assoc. f_equal. change (take (S (S j)) (hdr :: m)) with (hdr :: take (S j) m).
    cbn [above]. by case_bool_decide. }
  split.
  - intros [H0 Hr] j h Hj. destruct j as [|j]; [injection Hj as <-; done|]. apply Hsh. by apply Hr.
  - intros Hall. split; [by apply Hall|]. intros j h Hj. apply Hsh. by apply Hall.
Qed.

(** ** The check of a message *)

(** Sizes for which the 32-bit arithmetic on heights and offsets is exact. *)
Record fits (p : Params) (hs : list BlockHeader) : Prop := {
  fit_ne : hs ≠ [];
  fit_start : 0 ≤ StartHeight p;
  fit_size : StartHeight p + 80 * len hs < 2 ^ 31;
  fit_epoch : 0 ≤ epoch_length p < 2197
}.

(** How many of the old headers are loaded. *)
Definition loaded (p : Params) (hs : list BlockHeader) : Z :=
  if bool_decide (len hs - 1 > epoch_length p + 1) then epoch_length p + 1 else len hs.
Definition old_headers (p : Params) (hs : list BlockHeader) : list BlockHeader :=
  drop (length hs - Z.to_nat (loaded p hs)) hs.

Lemma len_pos {A} (l : list A) : l ≠ [] → 1 ≤ len l.
Proof. destruct l; [done|]. intros _. rewrite len_cons. pose proof (len_nonneg l). lia. Qed.

Lemma loaded_range p hs : fits p hs → 1 ≤ loaded p hs ≤ len hs.
Proof. intros [Hne _ _ He]. apply len_pos in Hne. unfold loaded. case_bool_decide; lia. Qed.

Lemma last_drop {A} (l : list A) k : (k < length l)%nat → last (drop k l) = last l.
Proof.
  intros Hk. rewrite <- (take_drop k l) at 2. rewrite last_app.
  destruct (last (drop k l)) eqn:E; [done|]. apply last_None in E.
  apply (f_equal length) in E. rewrite length_drop in E. simpl in E. lia.
Qed.

Lemma CheckHeaderChain_loads f hs first m tip p :
  file_of f hs → fits p hs → last hs = Some tip → check_links 0 None (first :: m) = None →
  CheckHeaderChain f (first :: m) p =
    check_attach (MkFile (contents f) (80 * len hs)) (old_headers p hs) (first :: m) first tip
      (len hs + StartHeight p) (loaded p hs) p.
Proof.
  intros Hf Hfit Ht Hc. pose proof Hfit as [Hne Hs0 Hs1 He]. pose proof (len_pos hs Hne) as Hl.
  pose proof (loaded_range p hs Hfit) as Hn. unfold CheckHeaderChain. rewrite Hc.
  destruct (seek_back f hs 1 Hf) as [E1 Hf1]; [lia|]. change (-80 * 1) with (-80) in E1. rewrite E1. set (q := 80 * (len hs - 1)).
  assert (Z.rem q 80 = 0) as -> by (unfold q; rewrite Z.mul_comm; by apply Z.rem_mul).
  rewrite (bool_decide_eq_true_2 (0 = 0)) by done. cbn [negb].
  assert (i32 (q / 80) = len hs - 1) as ->.
  { unfold q. rewrite Z.mul_comm, Z.div_mul by lia. apply i32_small. lia. }
  rewrite (i32_small (len hs - 1 + StartHeight p)), (i32_small (len hs - 1 + StartHeight p + 1)) by lia.
  rewrite (i32_small (epoch_length p + 1)), (i32_small (80 * (epoch_length p + 1))), (i32_small (-80 * _)) by lia.
  rewrite (i32_small (len hs - 1 + StartHeight p + 1 - StartHeight p)) by lia.
  replace (len hs - 1 + StartHeight p + 1) with (len hs + StartHeight p) by lia.
  set (skip := (length hs - Z.to_nat (loaded p hs))%nat).
  assert (∃ f0, (if bool_decide (q > 80 * (epoch_length p + 1))
                 then (Seek (MkFile (contents f) q) (-80 * (epoch_length p + 1)) SEEK_END, epoch_length p + 1)
                 else (Seek (MkFile (contents f) q) 0 SEEK_SET, len hs + StartHeight p - StartHeight p))
          = (Ret (80 * Z.of_nat skip, f0), loaded p hs) ∧ file_of f0 hs ∧ pos f0 = 80 * Z.of_nat skip ∧
            contents f0 = contents f) as (f0 & -> & Hf0 & Hp0 & Hc0).
  { unfold skip, loaded, q in *. case_bool_decide as C1; case_bool_decide as C2; try lia.
    - destruct (seek_back _ hs (epoch_length p + 1) Hf1) as [-> Hf2]; [lia|].
      assert (len hs - (epoch_length p + 1) = Z.of_nat (length hs - Z.to_nat (epoch_length p + 1))) as <- by (unfold len in *; lia).
      eexists. split; [reflexivity|]. by split.
    - destruct (seek_set _ hs 0 Hf1) as [-> Hf2]; [done|].
      assert (80 * Z.of_nat (length hs - Z.to_nat (len hs)) = 0) as -> by (unfold len; lia).
      eexists. split; [by rewrite Z.add_simpl_r|]. by split. }
  rewrite bool_decide_eq_false_2 by lia.
  rewrite (read_headers_spec _ f0 hs skip Hf0 Hp0) by (unfold skip, len in *; lia).
  rewrite take_ge by (rewrite length_drop; unfold skip, len in *; lia).
  rewrite last_drop, Ht by (unfold skip, len in *; lia). rewrite Hc0. unfold old_headers. fold skip.
  do 2 f_equal. unfold skip, len in *. lia.
Qed.

(** What an accepted message is checked for. *)
Definition checked (p : Params) (hs m : list BlockHeader) : Prop :=
  check_work 0 (len hs + StartHeight p) (old_headers p hs) m p = Ret tt.

(** What the code checks of the [j]th header of a message [m] that extends the headers [hs]. *)
Definition header_acceptable (p : Params) (hs m : list BlockHeader) (j : nat) (h : BlockHeader) : Prop :=
  0 ≤ Version h ∧
  ((2 ≤ j)%nat → ∀ h', m !! (j - 1)%nat = Some h' → PrevBlock h = BlockHash h') ∧
  work_ok p 0 (len hs + StartHeight p) (old_headers p hs) m j h.

Lemma acceptable_checked p hs m :
  (∀ j h, m !! j = Some h → header_acceptable p hs m j h) ↔ check_links 0 None m = None ∧ checked p hs m.
Proof.
  split.
  - intros Hall. split.
    + apply check_links_complete. intros j h Hj. destruct (Hall j h Hj) as (Hv & Hl & _). split; [done|].
      intros Hi h' Hh'. destruct j as [|j]; [lia|]. apply Hl; [lia|]. by replace (S j - 1)%nat with j by lia.
    + apply check_work_spec. intros j h Hj. by destruct (Hall j h Hj) as (_ & _ & ?).
  - intros [Hc Hw] j h Hj. destruct (check_links_spec _ _ _ Hc j h Hj) as [Hv Hl]. split; [done|]. split.
    + intros H2 h' Hh'. apply (Hl ltac:(lia) h'). destruct j as [|j]; [lia|]. by replace (S j - 1)%nat with j in Hh' by lia.
    + by apply (proj1 (check_work_spec _ _ _ _ _) Hw).
Qed.

Lemma check_attach_spec f hs first m tip p r f' :
  file_of f hs → fits p hs → last hs = Some tip → pos f = 80 * len hs →
  check_attach f (old_headers p hs) m first tip (len hs + StartHeight p) (loaded p hs) p = (r, f') →
  contents f' = contents f ∧
  ∀ rh, r = Ret (rh, None) →
    (PrevBlock first = BlockHash tip ∧ rh = 0 ∧ pos f' = 80 * len hs ∧ checked p hs m) ∨
    (PrevBlock first ≠ BlockHash tip ∧
     ∃ k, attaches hs first k ∧ rh = Z.of_nat k + StartHeight p ∧ pos f' = 80 * (Z.of_nat k + 1)).
Proof.
  intros Hf Hfit Ht Hp Hc. pose proof Hfit as [Hne Hs0 Hs1 He]. pose proof (len_pos hs Hne) as Hl.
  unfold check_attach in Hc. destruct (links first (BlockHash tip)) eqn:El; cbn [negb] in Hc.
  - apply links_true in El. injection Hc as <- <-. split; [done|]. intros rh Hr. left.
    split; [done|]. unfold checked. destruct (check_work _ _ _ _ _) as [[]| |]; [|done..]. by injection Hr as <-.
  - apply links_false in El. pose proof (FindHeader_spec f hs first Hf ltac:(lia)) as HF.
    destruct (FindHeader f first) as [[a err] f1]. destruct HF as (Hc1 & Hr1).
    destruct err as [e|]; [injection Hc as <- <-; done|]. specialize (Hr1 eq_refl).
    destruct (moreWork _ _); [by injection Hc as <- <-|].
    assert (i32 (a + StartHeight p) = a + StartHeight p) as Ea.
    { apply i32_small. destruct Hr1 as [[-> _]|(k & [(h & Hk & _) _] & -> & _)]; [lia|].
      apply lookup_lt_Some in Hk. unfold len in *. lia. }
    rewrite Ea in Hc. assert (i32 (len hs + StartHeight p - (a + StartHeight p)) = len hs - a) as Ed.
    { rewrite <- (i32_small (len hs - a)); [f_equal; lia|].
      destruct Hr1 as [[-> _]|(k & [(h & Hk & _) _] & -> & _)]; [lia|]. apply lookup_lt_Some in Hk. unfold len in *. lia. }
    rewrite Ed in Hc. case_bool_decide as Hd; [by injection Hc as <- <-|].
    case_bool_decide; injection Hc as <- <-; [done|]. split; [done|].
    intros rh Hr. right. split; [done|]. destruct Hr1 as [[-> Hlong]|(k & Ha & -> & Hpos)].
    + exfalso. unfold loaded in Hd. case_bool_decide; lia.
    + exists k. split; [done|]. split; [|done]. by destruct (check_work _ _ _ _ _) as [[]| |]; [injection Hr as <-|..].
Qed.

(** ** Writing headers *)

Lemma write_at f hs i h :
  file_of f hs → BlockHeader_ok h → pos f = 80 * Z.of_nat i → (i ≤ length hs)%nat →
  file_of (Write_file f (writeBlockHeader h)) (take i hs ++ h :: drop (S i) hs) ∧
  pos (Write_file f (writeBlockHeader h)) = 80 * Z.of_nat (S i).
Proof.
  intros (Hc & Hok) Hh Hp Hi. pose proof (writeBlockHeader_length h Hh) as Hw. unfold blockHeaderLen in Hw.
  unfold Write_file. rewrite Hp, Hc, Hw. replace (Z.to_nat (80 * Z.of_nat i)) with (80 * i)%nat by lia.
  replace (80 * i - length (chain_bytes hs))%nat with 0%nat by (rewrite chain_length by done; lia).
  replace (80 * i + 80)%nat with (80 * S i)%nat by lia. rewrite chain_take, chain_drop by done. cbn [zeros replicate app].
  split; [split|].
  - simpl contents. change (h :: drop (S i) hs) with ([h] ++ drop (S i) hs). rewrite !chain_app. f_equal.
    unfold chain_bytes at 2. cbn [map concat]. by rewrite app_nil_r.
  - apply Forall_app. split; [by apply Forall_take|]. constructor; [done|by apply Forall_drop].
  - simpl. unfold len. rewrite Hw. lia.
Qed.

Lemma write_all f hs i m :
  file_of f hs → Forall BlockHeader_ok m → pos f = 80 * Z.of_nat i → (i ≤ length hs)%nat →
  file_of (write_headers f m) (take i hs ++ m ++ drop (i + length m) hs).
Proof.
  intros Hf Hm. revert f hs i Hf. induction Hm as [|h m Hh _ IH]; intros f hs i Hf Hp Hi.
  - cbn. by rewrite Nat.add_0_r, take_drop.
  - destruct (write_at f hs i h Hf Hh Hp Hi) as [Hf1 Hp1]. cbn [write_headers foldl].
    specialize (IH _ _ (S i) Hf1 Hp1). rewrite length_app, length_take, length_cons in IH.
    specialize (IH ltac:(lia)). fold (write_headers (Write_file f (writeBlockHeader h)) m).
    replace (take i hs ++ (h :: m) ++ drop (i + length (h :: m)) hs)
      with (take (S i) (take i hs ++ h :: drop (S i) hs) ++ m ++ drop (S i + length m) (take i hs ++ h :: drop (S i) hs)); [done|].
    rewrite take_app_ge, drop_app_ge by (rewrite length_take; lia). rewrite length_take.
    replace (S i - i `min` length hs)%nat with 1%nat by lia.
    replace (S i + length m - i `min` length hs)%nat with (S (length m)) by lia.
    cbn [take drop app]. rewrite take_0, drop_drop, <- app_assoc. cbn [app length]. do 4 f_equal. lia.
Qed.

(** Behind a gap of one header. *)
Lemma write_gap f hs m h0 :
  file_of f hs → Forall BlockHeader_ok (h0 :: m) → pos f = 80 * (len hs + 1) →
  file_of (write_headers f (h0 :: m)) (hs ++ zeroHeader :: h0 :: m).
Proof.
  intros (Hc & Hok) Hm Hp. apply Forall_cons in Hm as [Hh Hm].
  pose proof (writeBlockHeader_length h0 Hh) as Hw. unfold blockHeaderLen in Hw.
  assert (file_of (Write_file f (writeBlockHeader h0)) (hs ++ [zeroHeader; h0]) ∧
    pos (Write_file f (writeBlockHeader h0)) = 80 * Z.of_nat (length hs + 2)) as [Hf1 Hp1].
  { unfold Write_file. rewrite Hp, Hc. replace (Z.to_nat (80 * (len hs + 1))) with (80 * length hs + 80)%nat by (unfold len; lia).
    rewrite take_ge, drop_ge by (rewrite chain_length by done; lia). rewrite chain_length by done.
    replace (80 * length hs + 80 - 80 * length hs)%nat with 80%nat by lia. rewrite <- zeroHeader_bytes.
    split; [split|].
    - simpl contents. by rewrite chain_app.
    - apply Forall_app. split; [done|]. constructor; [apply zeroHeader_ok|by constructor].
    - simpl. unfold len. rewrite Hw. lia. }
  cbn [write_headers foldl]. pose proof (write_all _ _ (length hs + 2) m Hf1 Hm Hp1) as Hf2.
  rewrite length_app in Hf2. specialize (Hf2 ltac:(simpl; lia)).
  rewrite take_ge, drop_ge in Hf2 by (rewrite length_app; simpl; lia).
  rewrite app_nil_r, <- app_assoc in Hf2. exact Hf2.
Qed.

Lemma truncate_spec f hs k :
  file_of f hs → (k ≤ length hs)%nat →
  ∃ f', Truncate f (Z.of_nat k * 80) = Ret f' ∧ file_of f' (take k hs) ∧ pos f' = pos f.
Proof.
  intros (Hc & Hok) Hk. unfold Truncate. rewrite bool_decide_eq_false_2 by lia. eexists. split; [reflexivity|].
  replace (Z.to_nat (Z.of_nat k * 80)) with (80 * k)%nat by lia. split; [|done]. split; [|by apply Forall_take].
  cbn [contents]. rewrite Hc, chain_take by done. replace (80 * k - _)%nat with 0%nat by (rewrite chain_length by done; lia).
  apply app_nil_r.
Qed.

(** ** Taking a message in *)

(** The header file after a message was taken in. *)
Inductive ingested (p : Params) (hs m : list BlockHeader) : list BlockHeader → Prop :=
| ing_append first tip (Hm : head m = Some first) (Ht : last hs = Some tip)
    (Hl : PrevBlock first = BlockHash tip) (Hw : checked p hs m) : ingested p hs m (hs ++ m)
| ing_reorg first k (Hm : head m = Some first) (Ha : attaches hs first k)
    (Hn : ∀ tip, last hs = Some tip → PrevBlock first ≠ BlockHash tip)
    (Hk : Z.of_nat k + StartHeight p ≠ 0) : ingested p hs m (take k hs ++ zeroHeader :: m)
| ing_first first (Hm : head m = Some first) (Ha : attaches hs first 0)
    (Hn : ∀ tip, last hs = Some tip → PrevBlock first ≠ BlockHash tip)
    (Hk : StartHeight p = 0) : ingested p hs m (take 1 hs ++ m ++ drop (1 + length m) hs).

Lemma IngestHeaders_spec s hs m r s' :
  file_of (headerFile s) hs → fits (Param s) hs → Forall BlockHeader_ok m → IngestHeaders s m = (r, s') →
  Param s' = Param s ∧
  (file_of (headerFile s') hs ∨
   r = Ret (true, None) ∧ check_links 0 None m = None ∧ ∃ hs', ingested (Param s) hs m hs' ∧ file_of (headerFile s') hs').
Proof.
  intros Hf Hfit Hm Hi. unfold IngestHeaders in Hi. case_bool_decide as Hlen; [|injection Hi as <- <-; by split; [|left]].
  destruct m as [|first m]; [done|]. destruct (last hs) as [tip|] eqn:Ht; [|by apply last_None in Ht; destruct (fit_ne _ _ Hfit)].
  destruct (check_links 0 None (first :: m)) as [e|] eqn:Ec.
  { unfold CheckHeaderChain in Hi. rewrite Ec in Hi. cbv iota beta in Hi. injection Hi as <- <-. by split; [|left]. }
  rewrite (CheckHeaderChain_loads _ hs first m tip (Param s) Hf Hfit Ht Ec) in Hi.
  assert (file_of (MkFile (contents (headerFile s)) (80 * len hs)) hs) as Hf1.
  { by apply (file_of_pos _ _ _ Hf). }
  destruct (check_attach _ _ _ _ _ _ _ _) as [rc f1] eqn:Ea.
  apply (check_attach_spec _ hs first (first :: m) tip) in Ea as (Hc1 & Hr1); [|done..].
  assert (file_of f1 hs) as Hf2.
  { destruct f1 as [c q]. cbn in Hc1. subst c. by apply (file_of_pos (headerFile s)). }
  destruct rc as [[rh [e|]]| |]; try (injection Hi as <- <-; by split; [|left]).
  { case_bool_decide; injection Hi as <- <-; by split; [|left]. }
  specialize (Hr1 rh eq_refl). cbn [set_headerFile headerFile Param] in Hi.
  pose proof Hfit as [Hne Hs0 Hs1 He].
  destruct Hr1 as [(Hlink & -> & Hpos & Hw)|(Hno & k & Ha & -> & Hpos)].
  - rewrite bool_decide_eq_true_2 in Hi by done. cbn [negb] in Hi. injection Hi as <- <-. split; [done|]. right.
    split; [done|]. split; [done|]. exists (hs ++ first :: m). split; [by eapply ing_append|].
    pose proof (write_all f1 hs (length hs) (first :: m) Hf2 Hm) as Hwr. specialize (Hwr ltac:(unfold len in *; lia) ltac:(lia)).
    rewrite take_ge, drop_ge, app_nil_r in Hwr by lia. exact Hwr.
  - pose proof Ha as [(h & Hk & _) _]. apply lookup_lt_Some in Hk.
    assert (∀ tip0, Some tip = Some tip0 → PrevBlock first ≠ BlockHash tip0) as Hn by (by intros ? [= <-]).
    case_bool_decide as Hz; cbn [negb] in Hi.
    + injection Hi as <- <-. split; [done|]. right. split; [done|]. split; [done|]. assert (k = 0%nat) as -> by lia.
      exists (take 1 hs ++ (first :: m) ++ drop (1 + length (first :: m)) hs).
      split; [by apply (ing_first _ _ _ first); [|done|rewrite Ht|lia]|].
      by apply (write_all f1 hs 1 (first :: m)); [done|done|lia|lia].
    + rewrite (i32_small (_ - _)) in Hi by (unfold len in *; lia).
      replace (Z.of_nat k + StartHeight (Param s) - StartHeight (Param s)) with (Z.of_nat k) in Hi by lia.
      destruct (truncate_spec f1 hs k Hf2) as (f2 & Ht2 & Hf3 & Hp3); [lia|]. rewrite Ht2 in Hi.
      injection Hi as <- <-. split; [done|]. right. split; [done|]. split; [done|].
      exists (take k hs ++ zeroHeader :: first :: m). split; [by apply (ing_reorg _ _ _ first); [|done|rewrite Ht|]|].
      apply write_gap; [done|done|]. simpl. rewrite Hp3, Hpos. unfold len. rewrite length_take. lia.
Qed.

(** A message that extends the tip and passes the checks is appended. *)
Lemma IngestHeaders_appends s hs m first tip :
  file_of (headerFile s) hs → fits (Param s) hs → Forall BlockHeader_ok m →
  head m = Some first → last hs = Some tip → PrevBlock first = BlockHash tip →
  check_links 0 None m = None → checked (Param s) hs m →
  file_of (headerFile (IngestHeaders s m).2) (hs ++ m).
Proof.
  intros Hf Hfit Hm Hh Ht Hl Hc Hw. destruct m as [|f0 m]; [done|]. injection Hh as ->. unfold IngestHeaders.
  rewrite bool_decide_eq_true_2 by (rewrite len_cons; pose proof (len_nonneg m); lia).
  rewrite (CheckHeaderChain_loads _ hs first m tip (Param s) Hf Hfit Ht Hc). unfold check_attach.
  apply links_true in Hl. rewrite Hl. cbn [negb]. unfold checked in Hw. rewrite Hw. cbn [snd headerFile set_headerFile Param].
  rewrite bool_decide_eq_true_2 by done. cbn [negb snd headerFile set_headerFile].
  pose proof (write_all (MkFile (contents (headerFile s)) (80 * len hs)) hs (length hs) (first :: m)) as Hwr.
  rewrite take_ge, drop_ge, app_nil_r in Hwr by lia. apply Hwr; [by apply (file_of_pos _ _ _ Hf)|done|done|done].
Qed.

(** A message that does not name the tip is never simply appended. *)
Lemma ingested_append_inv p hs m first tip :
  head m = Some first → last hs = Some tip → ingested p hs m (hs ++ m) → PrevBlock first = BlockHash tip ∧ checked p hs m.
Proof.
  intros Hm Ht Hi. remember (hs ++ m) as hs' eqn:E.
  assert (Hlast : ∀ k, attaches hs first k → (∀ t, last hs = Some t → PrevBlock first ≠ BlockHash t) → (S k < length hs)%nat).
  { intros k [(h & Hk & Hp) _] Hn. pose proof (lookup_lt_Some _ _ _ Hk) as Hlt.
    destruct (decide (S k = length hs)) as [Heq|]; [|lia]. destruct (Hn h); [|done].
    rewrite last_lookup, <- Heq. done. }
  destruct Hi as [f t Hm1 Ht1 Hl Hw|f k Hm1 Ha Hn _|f Hm1 Ha Hn _]; rewrite Hm in Hm1; injection Hm1 as <-.
  - rewrite Ht in Ht1. by injection Ht1 as <-.
  - apply Hlast in Ha; [|done]. apply (f_equal length) in E. rewrite !length_app, length_take in E. cbn [length] in E. lia.
  - apply Hlast in Ha; [|done]. destruct m as [|x m]; [done|]. apply (f_equal length) in E.
    rewrite !length_app, length_take, length_drop in E. cbn [length] in E. lia.
Qed.
End Chain.
