(* ===== verification/UspvLookup.v ===== *)
(** * Looking up headers by hash, and what the header file keeps *)

From Stdlib Require Import ZArith Lia.
From S2P Require Import Prelude Buffers Sha256 Crypto Utils MerkleTree WireCommon MptNode MptSpec FullMPT MptSerialize PartialMPT WireTypes WireTheorems BtcWire BtcTheorems Difficulty Uspv UspvTheorems.

Local Open Scope Z_scope.

Section Lookup.
Context `{HashFunction}.

(** [h], at [k], is the last header of the file with the hash [hash]. *)
Definition last_at (hs : list BlockHeader) (hash : bytes) (k : nat) (h : BlockHeader) : Prop :=
  hs !! k = Some h ∧ BlockHash h = hash ∧ ∀ j h', (k < j)%nat → hs !! j = Some h' → BlockHash h' ≠ hash.

Lemma last_at_exists hs h hash : h ∈ hs → BlockHash h = hash → ∃ k h', last_at hs hash k h'.
Proof.
  intros Hin Hh. induction hs as [|x hs IH] using rev_ind; [by apply not_elem_of_nil in Hin|].
  destruct (decide (BlockHash x = hash)) as [Hx|Hx].
  - exists (length hs), x. split; [by apply list_lookup_middle|]. split; [done|].
    intros j h' Hj Hj'. apply lookup_lt_Some in Hj'. rewrite length_app in Hj'. simpl in Hj'. lia.
  - apply elem_of_app in Hin as [Hin|Hin]; [|apply list_elem_of_singleton in Hin; congruence].
    destruct (IH Hin) as (k & h' & Hk & Hk' & Hl). exists k, h'.
    pose proof (lookup_lt_Some _ _ _ Hk). split; [by rewrite lookup_app_l|]. split; [done|].
    intros j y Hj Hy. apply lookup_app_Some in Hy as [Hy|[Hlen Hy]]; [eauto|].
    apply list_lookup_singleton_Some in Hy as [_ <-]. done.
Qed.

Lemma last_at_fun hs hash k h k' h' : last_at hs hash k h → last_at hs hash k' h' → k = k' ∧ h = h'.
Proof.
  intros (H1 & H2 & H3) (H1' & H2' & H3'). destruct (Nat.lt_trichotomy k k') as [Hl|[->|Hl]].
  - by destruct (H3 k' h' Hl H1').
  - split; congruence.
  - by destruct (H3' k h Hl H1).
Qed.

(** ** The search from the tip *)

Lemma search_found n t f hs idx hash k h :
  file_of f hs → last_at hs hash k h → 1 ≤ t ≤ len hs - Z.of_nat k → len hs - Z.of_nat k ≤ t - 1 + Z.of_nat n →
  ∃ idx', search_loop n t f idx hash = (Ret h, (MkFile (contents f) (80 * (Z.of_nat k + 1)), idx')) ∧
          idx' !! hash = Some (default (80 * (Z.of_nat k + 1)) (idx !! hash)).
Proof.
  revert t f idx. induction n as [|n IH]; intros t f idx Hf (Hk & Hh & Hl) Ht Hn; [lia|]. cbn [search_loop].
  destruct (seek_back f hs t Hf) as [-> Hf1]; [lia|]. set (j := Z.to_nat (len hs - t)).
  assert (len hs - t = Z.of_nat j) as Ej by (unfold j; lia).
  destruct (lookup_lt_is_Some_2 hs j) as [x Hx]; [unfold len in *; lia|].
  rewrite (read_at _ hs j x Hf1) by (simpl; lia || done). cbv iota beta. cbn [contents pos].
  destruct (IsEqual (Some hash) (Some (BlockHash x))) eqn:Eq.
  - apply bytes_eqb_true in Eq. assert (j = k) as ->.
    { destruct (decide (k < j)%nat) as [Hkj|]; [by destruct (Hl j x Hkj Hx)|]. lia. }
    rewrite Hk in Hx. injection Hx as <-. rewrite <- Eq. eexists. split; [reflexivity|].
    destruct (idx !! hash) eqn:Ei; [done|]. simpl. by rewrite lookup_insert_eq.
  - apply bytes_eqb_false in Eq. set (idx1 := match idx !! BlockHash x with Some _ => idx | None => _ end).
    assert (j ≠ k) as Hjk by (intros ->; rewrite Hk in Hx; congruence).
    destruct (IH (t + 1) (MkFile (contents f) (80 * (Z.of_nat j + 1))) idx1) as (idx' & -> & Hi); [by apply file_of_pos|done|lia|lia|].
    exists idx'. split; [done|]. rewrite Hi. unfold idx1. destruct (idx !! BlockHash x); [done|].
    by rewrite lookup_insert_ne by done.
Qed.

Lemma search_sound n t f hs idx hash r f' idx' :
  file_of f hs → 1 ≤ t → search_loop n t f idx hash = (r, (f', idx')) →
  file_of f' hs ∧ match r with
                  | Ret h => h ∈ hs ∧ BlockHash h = hash
                  | Err _ => True
                  | Panic _ => False
                  end.
Proof.
  revert t f idx. induction n as [|n IH]; intros t f idx Hf Ht Hs; cbn [search_loop] in Hs; [by injection Hs as <- <- <-|].
  destruct (decide (t ≤ len hs)) as [Hle|Hgt].
  2:{ destruct (seek_too_far f hs t Hf) as [e He]; [lia|]. rewrite He in Hs. by injection Hs as <- <- <-. }
  destruct (seek_back f hs t Hf) as [E1 Hf1]; [lia|]. rewrite E1 in Hs. set (j := Z.to_nat (len hs - t)) in *.
  assert (len hs - t = Z.of_nat j) as Ej by (unfold j; lia).
  destruct (lookup_lt_is_Some_2 hs j) as [x Hx]; [unfold len in *; lia|].
  rewrite (read_at _ hs j x Hf1) in Hs by (simpl; lia || done). cbv iota beta in Hs. cbn [contents pos] in Hs.
  destruct (IsEqual (Some hash) (Some (BlockHash x))) eqn:Eq.
  - injection Hs as <- <- <-. apply bytes_eqb_true in Eq. split; [by apply file_of_pos|].
    split; [by eapply list_elem_of_lookup_2|done].
  - eapply IH; [| |exact Hs]; [by apply file_of_pos|lia].
Qed.

(** ** The index *)

(** Entries of the index point to headers with their hash. *)
Definition index_sound (hs : list BlockHeader) (idx : gmap bytes Z) : Prop :=
  ∀ hash p, idx !! hash = Some p → ∃ j h, p = 80 * Z.of_nat j ∧ hs !! j = Some h ∧ BlockHash h = hash.

Lemma index_loop_spec fuel f hs idx i :
  file_of f hs → pos f = 80 * Z.of_nat i → (length hs - i < fuel)%nat → (i ≤ length hs)%nat → index_sound hs idx →
  ∃ idx' f', index_loop fuel f idx = ((None, idx'), f') ∧ contents f' = contents f ∧ index_sound hs idx' ∧
             (∀ hash, is_Some (idx !! hash) → is_Some (idx' !! hash)) ∧
             ∀ j h, (i ≤ j)%nat → hs !! j = Some h → is_Some (idx' !! BlockHash h).
Proof.
  revert f idx i. induction fuel as [|fuel IH]; intros f idx i Hf Hp Hfuel Hi Hs; [lia|]. cbn [index_loop].
  destruct (decide (i = length hs)) as [->|Hne].
  - destruct (read_end f hs Hf Hp) as [x ->]. cbv iota beta. cbn.
    exists idx, (MkFile (contents f) (pos f)). split; [done|]. split; [done|]. split; [done|]. split; [done|].
    intros j h Hj Hh. apply lookup_lt_Some in Hh. lia.
  - destruct (lookup_lt_is_Some_2 hs i) as [x Hx]; [lia|]. rewrite (read_at f hs i x Hf Hp Hx). cbv iota beta.
    destruct (IH (MkFile (contents f) (80 * (Z.of_nat i + 1))) (<[BlockHash x := pos f]> idx) (S i))
      as (idx' & f' & -> & Hc & Hs' & Hm & Ha); [by apply file_of_pos|simpl; lia|lia|lia| |].
    { intros hash q Hq. apply lookup_insert_Some in Hq as [[<- <-]|[_ Hq]]; [|by apply Hs]. exists i, x. by rewrite Hp. }
    exists idx', f'. split; [done|]. split; [done|]. split; [done|]. split.
    + intros hash Hh. apply Hm. destruct (decide (BlockHash x = hash)) as [->|]; [by rewrite lookup_insert_eq|by rewrite lookup_insert_ne].
    + intros j h Hj Hh. destruct (decide (j = i)) as [->|]; [|apply (Ha j h); [lia|done]].
      rewrite Hx in Hh. injection Hh as <-. apply Hm. by rewrite lookup_insert_eq.
Qed.

(** ** [GetHeaderByBlockHash] *)

Lemma tip_height s hs :
  file_of (headerFile s) hs → fits (Param s) hs → GetHeaderTipHeight s = (len hs + StartHeight (Param s) - 1, s).
Proof.
  intros [Hc Hok] [Hne Hs0 Hs1 _]. pose proof (len_pos hs Hne). unfold GetHeaderTipHeight. rewrite Hc, chain_len by done.
  rewrite bool_decide_eq_false_2 by lia. rewrite (Z.mul_comm 80), Z.rem_mul, Z.div_mul by lia.
  rewrite bool_decide_eq_true_2 by done. cbn [negb orb].
  rewrite (i32_small (len hs)), (i32_small (len hs + _)), i32_small by lia. done.
Qed.

Lemma index_new s hs :
  file_of (headerFile s) hs →
  ∃ idx f', IndexHeaders (set_headerIndex ∅ s) = (None, set_headerIndex idx (set_headerFile f' (set_headerIndex ∅ s))) ∧
            file_of f' hs ∧ index_sound hs idx ∧ ∀ h, h ∈ hs → is_Some (idx !! BlockHash h).
Proof.
  intros Hf. unfold IndexHeaders. cbn [headerFile set_headerIndex headerIndex]. destruct (seek_set _ hs 0 Hf) as [-> Hf1]; [done|].
  destruct (index_loop_spec (S (length (contents (headerFile s)))) (MkFile (contents (headerFile s)) 0) hs ∅ 0)
    as (idx & f' & Hi & Hc & Hs & _ & Ha); [done|done| |lia|done|].
  { destruct Hf as [-> Hok]. rewrite chain_length by done. lia. }
  cbn [contents from_option id]. rewrite Hi. exists idx, f'. split; [done|]. split; [|split; [done|]].
  - destruct f' as [c q]. cbn in Hc. subst c. by apply file_of_pos.
  - intros h Hh. apply list_elem_of_lookup in Hh as [j Hj]. by apply (Ha j); [lia|].
Qed.

Lemma lookup_indexed s hs idx hash p :
  file_of (headerFile s) hs → fits (Param s) hs → headerIndex s = Some idx → index_sound hs idx → idx !! hash = Some p →
  ∃ h s', GetHeaderByBlockHash s (Some hash) = (Ret h, s') ∧ h ∈ hs ∧ BlockHash h = hash ∧ file_of (headerFile s') hs.
Proof.
  intros Hf Hfit Hi Hs Hp. unfold GetHeaderByBlockHash. rewrite (tip_height s hs Hf Hfit), Hi. cbn [from_option id]. rewrite Hi. cbn [from_option id].
  rewrite Hp. destruct (Hs hash p Hp) as (j & h & -> & Hj & Hh). destruct (seek_set _ hs (80 * Z.of_nat j) Hf) as [-> Hf1]; [lia|].
  rewrite (read_at _ hs j h Hf1) by done. cbv iota beta. eexists h, _. split; [reflexivity|].
  split; [by eapply list_elem_of_lookup_2|]. split; [done|]. by apply file_of_pos.
Qed.

(** Reading at any position leaves the contents alone. *)
Lemma lookup_keeps s hash r s' :
  GetHeaderByBlockHash s hash = (r, s') → ∀ hs, file_of (headerFile s) hs → fits (Param s) hs →
  file_of (headerFile s') hs ∧ Param s' = Param s.
Proof.
  intros Hg hs Hf Hfit. unfold GetHeaderByBlockHash in Hg. rewrite (tip_height s hs Hf Hfit) in Hg.
  assert (∃ s1, match headerIndex s with None => IndexHeaders (set_headerIndex ∅ s) | Some _ => (None, s) end = (None, s1) ∧
    file_of (headerFile s1) hs ∧ Param s1 = Param s) as (s1 & E1 & Hf1 & Hp1).
  { destruct (headerIndex s); [eauto|]. destruct (index_new s hs Hf) as (idx & f' & -> & Hf' & _). eauto. }
  rewrite E1 in Hg. destruct hash as [hash|]; [|by injection Hg as <- <-].
  destruct (default ∅ (headerIndex s1) !! hash) as [p|].
  - unfold Seek in Hg. case_bool_decide; [by injection Hg as <- <-|]. cbv iota beta in Hg. cbn [mret outcome_ret] in Hg.
    unfold Deserialize_file in Hg. injection Hg as <- <-. split; [|done]. by apply (file_of_pos (headerFile s1)).
  - destruct (search_loop _ _ _ _ _) as [r1 [f idx]] eqn:Es. apply (search_sound _ _ _ hs) in Es as [Hf2 _]; [|done..].
    by injection Hg as <- <-.
Qed.

(** ** Operations that only read *)

Definition same_file (s s' : SPVCon) : Prop :=
  contents (headerFile s') = contents (headerFile s) ∧ Param s' = Param s.

Lemma Deserialize_contents h f x e f' : Deserialize_file h f = (x, e, f') → contents f' = contents f.
Proof. unfold Deserialize_file. generalize (readBlockHeader h). intros d Hd. by injection Hd as <- <- <-. Qed.

Lemma at_height_same s h r s' : GetHeaderAtHeight s h = (r, s') → same_file s s'.
Proof.
  unfold GetHeaderAtHeight, Seek. intros Hg. case_bool_decide; [by injection Hg as <- <-|].
  cbv iota beta in Hg. cbn [mret outcome_ret] in Hg. destruct (Deserialize_file _ _) as [[x e] f] eqn:E.
  apply Deserialize_contents in E. injection Hg as <- <-. by split.
Qed.

Lemma locator_same fuel tip back loc s r s' : locator_loop fuel tip back loc s = (r, s') → same_file s s'.
Proof.
  revert back loc s. induction fuel as [|fuel IH]; intros back loc s Hl; cbn [locator_loop] in Hl; [by injection Hl as <- <-|].
  case_bool_decide; [|by injection Hl as <- <-]. destruct (GetHeaderAtHeight s _) as [hr s1] eqn:E1.
  apply at_height_same in E1 as [C1 P1]. destruct (hr ≫= _); [|injection Hl as <- <-; by split..].
  apply IH in Hl as [C2 P2]. split; congruence.
Qed.

Lemma ask_same s r s' hs :
  file_of (headerFile s) hs → fits (Param s) hs → AskForHeaders s = (r, s') → same_file s s'.
Proof.
  intros Hf Hfit. unfold AskForHeaders. generalize 40%nat as n. intros n Ha. rewrite (tip_height (set_Synced false s) hs Hf Hfit) in Ha.
  destruct (GetHeaderAtHeight _ _) as [hr s1] eqn:E1. apply at_height_same in E1 as [C1 P1].
  cbn [set_Synced headerFile Param] in C1, P1. destruct (hr ≫= _); [|injection Ha as <- <-; by split..].
  destruct (locator_loop _ _ _ _ _) as [lr s2] eqn:E2. apply locator_same in E2 as [C2 P2].
  destruct lr; injection Ha as <- <-; split; simpl; congruence.
Qed.

(** ** The header chain as a transition system *)

(** The operations of the client and of its peer, as long as the file is below the size
    the 32-bit arithmetic allows.  Headers of a message come from the wire. *)
Inductive spv_step : SPVCon → SPVCon → Prop :=
| spv_ingest s hs m r s' (Hf : file_of (headerFile s) hs) (Hfit : fits (Param s) hs) (Hm : Forall BlockHeader_ok m)
    (Hi : IngestHeaders s m = (r, s')) : spv_step s s'
| spv_lookup s hs hash r s' (Hf : file_of (headerFile s) hs) (Hfit : fits (Param s) hs)
    (Hg : GetHeaderByBlockHash s hash = (r, s')) : spv_step s s'
| spv_height s hs h r s' (Hf : file_of (headerFile s) hs) (Hfit : fits (Param s) hs)
    (Hg : GetHeaderAtHeight s h = (r, s')) : spv_step s s'
| spv_ask s hs r s' (Hf : file_of (headerFile s) hs) (Hfit : fits (Param s) hs)
    (Ha : AskForHeaders s = (r, s')) : spv_step s s'.

(** The file holds whole headers, the first of which is the genesis header. *)
Definition spv_inv (p : Params) (s : SPVCon) : Prop :=
  Param s = p ∧ ∃ hs, file_of (headerFile s) (GenesisHeader p :: hs).

Lemma file_of_fun f hs hs' : file_of f hs → file_of f hs' → hs = hs'.
Proof.
  intros [Hc Hok] [Hc' Hok']. rewrite Hc in Hc'. clear Hc f. revert hs' Hc' Hok'.
  induction Hok as [|h hs Hh Hok IH]; intros hs' Hc' Hok'.
  - destruct Hok' as [|h' hs' Hh' _]; [done|]. apply (f_equal length) in Hc'. unfold chain_bytes in Hc'. cbn in Hc'.
    rewrite length_app, writeBlockHeader_length in Hc' by done. unfold blockHeaderLen in Hc'. lia.
  - destruct Hok' as [|h' hs' Hh' Hok'].
    { apply (f_equal length) in Hc'. unfold chain_bytes in Hc'. cbn in Hc'.
      rewrite length_app, writeBlockHeader_length in Hc' by done. unfold blockHeaderLen in Hc'. lia. }
    unfold chain_bytes in Hc'. cbn [map concat] in Hc'.
    apply app_inj_length in Hc' as [E1 E2]; [|by rewrite !writeBlockHeader_length].
    f_equal; [|by apply IH]. pose proof (BlockHeader_reads zeroHeader h eq_refl eq_refl Hh []) as R1.
    pose proof (BlockHeader_reads zeroHeader h' eq_refl eq_refl Hh' []) as R2. cbv beta in R1, R2. rewrite E1, R2 in R1.
    by injection R1 as ->.
Qed.

Lemma spv_step_inv p s s' : StartHeight p = 0 → spv_step s s' → spv_inv p s → spv_inv p s'.
Proof.
  intros H0 Hs [Hp [hs Hf]]. destruct Hs as [s hs1 m r s' Hf1 Hfit Hm Hi|s hs1 hash r s' Hf1 Hfit Hg|
    s hs1 h r s' Hf1 Hfit Hg|s hs1 r s' Hf1 Hfit Ha]; pose proof (file_of_fun _ _ _ Hf Hf1) as <-.
  - apply (IngestHeaders_spec s (GenesisHeader p :: hs)) in Hi as [Hp' Hi]; [|done..]. split; [congruence|].
    destruct Hi as [Hi|(_ & _ & hs' & Hing & Hf')]; [eauto|]. rewrite Hp in Hing.
    destruct Hing as [first tip _ _ _ _|first k _ _ _ Hk|first _ _ _ _].
    + exists (hs ++ m). exact Hf'.
    + destruct k as [|k]; [lia|]. eexists. exact Hf'.
    + eexists. exact Hf'.
  - apply (lookup_keeps s hash r s') with (hs := GenesisHeader p :: hs) in Hg as [Hf' Hp']; [|done..]. split; [congruence|eauto].
  - apply at_height_same in Hg as [Hc Hp']. split; [congruence|]. exists hs. destruct Hf as [Hfc Hok]. split; [congruence|done].
  - apply (ask_same s r s' (GenesisHeader p :: hs)) in Ha as [Hc Hp']; [|done..]. split; [congruence|]. exists hs.
    destruct Hf as [Hfc Hok]. split; [congruence|done].
Qed.
End Lookup.
