(* ===== verification/UspvClaims.v ===== *)
(** * What the client can rely on in its header chain, and where the chain breaks *)

From Stdlib Require Import ZArith Lia.
From S2P Require Import Prelude Buffers Sha256 Crypto Utils MerkleTree WireCommon MptNode MptSpec FullMPT MptSerialize PartialMPT WireTypes WireTheorems BtcWire BtcTheorems Difficulty Uspv UspvTheorems UspvLookup.

Local Open Scope Z_scope.

(** ** A small chain on the regression test network *)

Definition reg_genesis : BlockHeader := regTestGenesisHeader.
Definition reg_genesis_hash : bytes := Eval vm_compute in BlockHash reg_genesis.
Definition reg_a1 : BlockHeader := MkBlockHeader 1 reg_genesis_hash (zeros 32) 1296689202 0x207fffff 1.
Definition reg_a1_hash : bytes := Eval vm_compute in BlockHash reg_a1.
Definition reg_a2 : BlockHeader := MkBlockHeader 1 reg_a1_hash (zeros 32) 1296689802 0x207fffff 0.
(** Another child of [reg_a1], and a header that attaches nowhere. *)
Definition reg_b2 : BlockHeader := MkBlockHeader 1 reg_a1_hash (replicate 32 x01) 1296689803 0x207fffff 0.
Definition reg_stray : BlockHeader := MkBlockHeader 1 (zeros 32) (zeros 32) 1296689802 0x207fffff 0.

Definition reg_0 : SPVCon := openHeaderFile None RegressionNetParams.
Definition reg_file (hs : list BlockHeader) : SPVCon := openHeaderFile (Some (chain_bytes hs)) RegressionNetParams.

Lemma reg_fits hs : hs ≠ [] → 80 * len hs < 2 ^ 31 → fits RegressionNetParams hs.
Proof. intros Hne Hs. split; [done|done|simpl; lia|]. vm_compute. split; [discriminate|reflexivity]. Qed.

Lemma reg_ok h : h ∈ [reg_genesis; reg_a1; reg_a2; reg_b2; reg_stray] → BlockHeader_ok h.
Proof.
  intros Hh. repeat (apply elem_of_cons in Hh as [->|Hh]; [by repeat split|]). by apply not_elem_of_nil in Hh.
Qed.

Lemma reg_all_ok hs : hs ⊆ [reg_genesis; reg_a1; reg_a2; reg_b2; reg_stray] → Forall BlockHeader_ok hs.
Proof. intros Hs. apply Forall_forall. intros h Hh. apply reg_ok, Hs, Hh. Qed.

(** A computed result next to the state that goes with it. *)
Lemma pair_result {A B} (x : A * B) (a : A) : x.1 = a → x = (a, x.2).
Proof. intros <-. apply surjective_pairing. Qed.

Lemma reg_file_of hs : Forall BlockHeader_ok hs → file_of (headerFile (reg_file hs)) hs.
Proof. by intros Hok. Qed.

(** ** Claims *)

(** What a headers message does to the header file. A message either leaves
    the stored headers as they are, or it is taken in, and then the file is
    one of three: the old headers followed by the message, when it attaches to
    the tip and its proofs of work and difficulties are right; the old headers
    before the one it attaches to, a header of zeros, and the message; or, when
    it attaches to the first header of a chain that starts at height 0, the
    old headers overwritten in place from the second on. *)
Theorem headers_ingested `{HashFunction} (s s' : SPVCon) (hs m : list BlockHeader) (r : outcome (bool * go_error))
  (Hf : file_of (headerFile s) hs) (Hfit : fits (Param s) hs) (Hm : Forall BlockHeader_ok m)
  (Hi : IngestHeaders s m = (r, s')) :
  ∃ hs', file_of (headerFile s') hs' ∧ (hs' = hs ∨ r = Ret (true, None) ∧ ingested (Param s) hs m hs').
Proof.
  destruct (IngestHeaders_spec s hs m r s' Hf Hfit Hm Hi) as [_ [Hs|(Hr & _ & hs' & Hing & Hs)]]; eauto.
Qed.

Lemma headers_ingested_witness :
  ∃ hs', file_of (headerFile (IngestHeaders (reg_file [reg_genesis]) [reg_a1]).2) hs' ∧
         (hs' = [reg_genesis] ∨ (IngestHeaders (reg_file [reg_genesis]) [reg_a1]).1 = Ret (true, None) ∧
            ingested RegressionNetParams [reg_genesis] [reg_a1] hs').
Proof.
  apply (headers_ingested (reg_file [reg_genesis]) (IngestHeaders (reg_file [reg_genesis]) [reg_a1]).2).
  - apply reg_file_of, reg_all_ok. set_solver.
  - by apply reg_fits.
  - apply reg_all_ok. set_solver.
  - apply surjective_pairing.
Defined.

(** C16. When headers extend the chain. A message is appended to the stored headers exactly
    if its first header names the tip and every header of it is acceptable: its version is
    nonnegative; from the third header of the message on it names its predecessor (the second is
    not compared with the first, see [stray_header_accepted]); and, above the height up to which
    difficulty is assumed, its hash is below the target it states, which is not above the limit
    of the network, and its bits are those that the difficulty function of the network gives for
    the headers before it (for the networks vtc and vtctest the bits are not compared).  A
    message whose first header names the tip and that is not acceptable changes nothing. *)
Theorem appended_checked `{HashFunction} (s s' : SPVCon) (hs m : list BlockHeader) (first tip : BlockHeader)
  (r : outcome (bool * go_error)) (hs' : list BlockHeader)
  (Hf : file_of (headerFile s) hs) (Hfit : fits (Param s) hs) (Hm : Forall BlockHeader_ok m)
  (Hi : IngestHeaders s m = (r, s')) (Hs' : file_of (headerFile s') hs')
  (Hfirst : head m = Some first) (Htip : last hs = Some tip) :
  (hs' = hs ++ m ↔
   PrevBlock first = BlockHash tip ∧ ∀ j h, m !! j = Some h → header_acceptable (Param s) hs m j h) ∧
  (PrevBlock first = BlockHash tip → hs' = hs ++ m ∨ hs' = hs).
Proof.
  assert (Hspec := IngestHeaders_spec s hs m r s' Hf Hfit Hm Hi). destruct Hspec as [_ Hspec].
  assert (hs' = hs ∨ check_links 0 None m = None ∧ ingested (Param s) hs m hs') as Hcases.
  { destruct Hspec as [Hs|(_ & Hc & hs1 & Hing & Hs)]; [left|right]; [by eapply file_of_fun|].
    by rewrite (file_of_fun _ _ _ Hs' Hs). }
  split; [split|].
  - intros ->. destruct Hcases as [He|[Hc Hing]].
    { apply (f_equal length) in He. rewrite length_app in He. destruct m; [done|]. cbn [length] in He. lia. }
    destruct (ingested_append_inv _ _ _ _ _ Hfirst Htip Hing) as [Hl Hw]. split; [done|]. by apply acceptable_checked.
  - intros [Hl Hall]. apply acceptable_checked in Hall as [Hc Hw].
    pose proof (IngestHeaders_appends s hs m first tip Hf Hfit Hm Hfirst Htip Hl Hc Hw) as Ha. rewrite Hi in Ha.
    by eapply file_of_fun.
  - intros Hl. destruct Hcases as [He|[Hc Hing]]; [by right|left].
    destruct Hing as [? ? _ _ _ _|f1 k Hm1 _ Hn _|f1 Hm1 _ Hn _]; [done|..];
      rewrite Hfirst in Hm1; injection Hm1 as <-; by destruct (Hn tip Htip).
Qed.

Lemma appended_checked_witness :
  PrevBlock reg_a1 = BlockHash reg_genesis ∧
  header_acceptable RegressionNetParams [reg_genesis] [reg_a1; reg_a2] 1 reg_a2.
Proof.
  destruct (appended_checked (reg_file [reg_genesis]) (IngestHeaders (reg_file [reg_genesis]) [reg_a1; reg_a2]).2
    [reg_genesis] [reg_a1; reg_a2] reg_a1 reg_genesis (Ret (true, None)) [reg_genesis; reg_a1; reg_a2]) as [[He _] _].
  - apply reg_file_of, reg_all_ok. set_solver.
  - by apply reg_fits.
  - apply reg_all_ok. set_solver.
  - apply pair_result. vm_compute. reflexivity.
  - split; [|apply reg_all_ok; set_solver]. vm_compute. reflexivity.
  - done.
  - done.
  - destruct (He eq_refl) as [Hl Hj]. split; [exact Hl|]. exact (Hj 1%nat reg_a2 eq_refl).
Defined.

(** C17. The header file stays a chain of whole headers. From the creation of
    the file for a network that starts at height 0, and whatever messages,
    lookups and requests follow, the file is a sequence of 80-byte headers that
    starts with the genesis header (as long as it is below [2^31] bytes). *)
Theorem header_file_invariant `{HashFunction} (p : Params) (s : SPVCon)
  (H0 : StartHeight p = 0) (Hg : BlockHeader_ok (GenesisHeader p)) (Hr : rtc spv_step (openHeaderFile None p) s) :
  Param s = p ∧ ∃ hs, file_of (headerFile s) (GenesisHeader p :: hs).
Proof.
  assert (spv_inv p (openHeaderFile None p)) as Hi.
  { split; [done|]. exists []. split; [|by constructor]. unfold openHeaderFile, initial_header. cbn [headerFile contents default].
    rewrite bool_decide_eq_true_2 by done. unfold chain_bytes. cbn. by rewrite app_nil_r. }
  enough (∀ x y, rtc spv_step x y → spv_inv p x → spv_inv p y) as He by by apply (He _ _ Hr).
  induction 1 as [|x y z Hxy _ IH]; [done|]. intros Hx. apply IH. by eapply spv_step_inv.
Qed.

Lemma header_file_invariant_witness :
  ∃ hs, file_of (headerFile (IngestHeaders reg_0 [reg_a1]).2) (reg_genesis :: hs).
Proof.
  apply (header_file_invariant RegressionNetParams).
  - reflexivity.
  - apply reg_ok. set_solver.
  - eapply rtc_l; [|apply rtc_refl].
    apply (spv_ingest reg_0 [reg_genesis] [reg_a1] (IngestHeaders reg_0 [reg_a1]).1).
    + split; [|apply reg_all_ok; set_solver]. vm_compute. reflexivity.
    + by apply reg_fits.
    + apply reg_all_ok. set_solver.
    + apply surjective_pairing.
Defined.

(** Lookups by block hash, the first time. When the index has not been
    built yet, [GetHeaderByBlockHash] returns a header of the file with the
    given hash if there is one and an error otherwise. *)
Theorem first_lookup_correct `{HashFunction} (s : SPVCon) (hs : list BlockHeader) (hash : bytes)
  (Hf : file_of (headerFile s) hs) (Hfit : fits (Param s) hs) (Hi : headerIndex s = None) :
  match (GetHeaderByBlockHash s (Some hash)).1 with
  | Ret h => h ∈ hs ∧ BlockHash h = hash
  | Err _ => ∀ h, h ∈ hs → BlockHash h ≠ hash
  | Panic _ => False
  end.
Proof.
  destruct (index_new s hs Hf) as (idx & f' & Ei & Hf' & Hs & Ha).
  unfold GetHeaderByBlockHash. rewrite (tip_height s hs Hf Hfit), Hi, Ei. cbn [headerIndex set_headerIndex from_option id].
  destruct (idx !! hash) as [p|] eqn:Ep.
  - destruct (Hs hash p Ep) as (j & h & -> & Hj & Hh). cbn [headerFile set_headerIndex set_headerFile].
    destruct (seek_set f' hs (80 * Z.of_nat j) Hf') as [-> Hf1]; [lia|]. rewrite (read_at _ hs j h Hf1) by done.
    cbv iota beta. split; [by eapply list_elem_of_lookup_2|done].
  - destruct (search_loop _ _ _ _ _) as [r [f2 idx2]] eqn:Es. apply (search_sound _ _ _ hs) in Es as [_ Hr]; [|done..].
    cbn. destruct r; [done| |done]. intros h Hh Hb. destruct (Ha h Hh) as [p Hp]. rewrite Hb in Hp. congruence.
Qed.

Lemma first_lookup_correct_witness :
  match (GetHeaderByBlockHash (reg_file [reg_genesis; reg_a1]) (Some reg_a1_hash)).1 with
  | Ret h => h ∈ [reg_genesis; reg_a1] ∧ BlockHash h = reg_a1_hash
  | Err _ => ∀ h, h ∈ [reg_genesis; reg_a1] → BlockHash h ≠ reg_a1_hash
  | Panic _ => False
  end.
Proof.
  apply (first_lookup_correct (reg_file [reg_genesis; reg_a1])).
  - apply reg_file_of, reg_all_ok. set_solver.
  - by apply reg_fits.
  - reflexivity.
Defined.

(** Lookups of headers that came later. A header that is not in the index,
    and that the search from the tip finds, is returned and entered into the
    index with the position behind it; the second lookup of the same hash
    returns the next header of the file, or [EOF] when it was the last. *)
Theorem second_lookup_wrong `{HashFunction} (s : SPVCon) (hs : list BlockHeader) (idx : gmap bytes Z) (hash : bytes)
  (k : nat) (h : BlockHeader)
  (Hf : file_of (headerFile s) hs) (Hfit : fits (Param s) hs) (Hi : headerIndex s = Some idx)
  (Hnew : idx !! hash = None) (Hk : last_at hs hash k h)
  (Hreach : len hs - Z.of_nat k < go_min 1000 (len hs + StartHeight (Param s) - 1)) :
  let s1 := (GetHeaderByBlockHash s (Some hash)).2 in
  (GetHeaderByBlockHash s (Some hash)).1 = Ret h ∧
  (GetHeaderByBlockHash s1 (Some hash)).1 = match hs !! S k with Some next => Ret next | None => Err EOF end.
Proof.
  pose proof Hk as (Hk1 & _ & _). pose proof (lookup_lt_Some _ _ _ Hk1) as Hlt.
  assert (∃ idx', GetHeaderByBlockHash s (Some hash) =
    (Ret h, set_headerIndex idx' (set_headerFile (MkFile (contents (headerFile s)) (80 * (Z.of_nat k + 1))) s)) ∧
    idx' !! hash = Some (80 * (Z.of_nat k + 1))) as (idx' & E1 & Hi').
  { unfold GetHeaderByBlockHash. rewrite (tip_height s hs Hf Hfit), Hi. rewrite Hi. cbn [from_option id]. rewrite Hnew.
    destruct (search_found (Z.to_nat (go_min 1000 (len hs + StartHeight (Param s) - 1) - 1)) 1 (headerFile s) hs idx hash k h)
      as (idx' & -> & Hd); [done|done|unfold len in *; lia|lia|]. rewrite Hnew in Hd. eauto. }
  cbv zeta. rewrite E1. cbn [fst snd]. split; [done|]. set (s1 := set_headerIndex _ _).
  assert (file_of (headerFile s1) hs) as Hf1 by by apply file_of_pos.
  unfold GetHeaderByBlockHash. rewrite (tip_height s1 hs Hf1 Hfit). cbn [headerIndex s1 set_headerIndex from_option id].
  rewrite Hi'. destruct (seek_set (headerFile s1) hs (80 * (Z.of_nat k + 1)) Hf1) as [-> Hf2]; [lia|].
  destruct (hs !! S k) as [nx|] eqn:En.
  - by rewrite (read_at _ hs (S k) nx Hf2) by (simpl; lia || done).
  - apply lookup_ge_None in En. destruct (read_end _ hs Hf2) as [x ->]; [|done]. simpl. unfold len. lia.
Qed.

Definition reg_indexed : SPVCon := set_headerIndex ∅ (reg_file [reg_genesis; reg_genesis; reg_genesis; reg_a1; reg_a2]).

Lemma second_lookup_wrong_witness :
  (GetHeaderByBlockHash reg_indexed (Some reg_a1_hash)).1 = Ret reg_a1 ∧
  (GetHeaderByBlockHash (GetHeaderByBlockHash reg_indexed (Some reg_a1_hash)).2 (Some reg_a1_hash)).1 = Ret reg_a2.
Proof.
  apply (second_lookup_wrong reg_indexed [reg_genesis; reg_genesis; reg_genesis; reg_a1; reg_a2] ∅ reg_a1_hash 3 reg_a1).
  - apply reg_file_of, reg_all_ok. set_solver.
  - by apply reg_fits.
  - reflexivity.
  - reflexivity.
  - split; [done|]. split; [vm_compute; reflexivity|]. intros j h' Hj Hh. destruct j as [|[|[|[|[|j]]]]]; try lia; [|done].
    injection Hh as <-. apply bytes_eqb_false. vm_compute. reflexivity.
  - vm_compute. reflexivity.
Defined.

(** A reorganization loses the header it attaches to. When a message that
    does not name the tip is taken in and the header it names is not the first
    of the file, that header, [h], is replaced by zeros: the file is cut in
    front of it although the message is written behind it. The stored headers
    are then no chain, unless [h] is itself all zeros or the hash collides. *)
Theorem reorg_loses_parent `{HashFunction} (s s' : SPVCon) (hs m hs' : list BlockHeader) (first : BlockHeader)
  (r : outcome (bool * go_error))
  (Hf : file_of (headerFile s) hs) (Hfit : fits (Param s) hs) (Hm : Forall BlockHeader_ok m)
  (Hi : IngestHeaders s m = (r, s')) (Hs' : file_of (headerFile s') hs') (Hne : hs' ≠ hs)
  (Hfirst : head m = Some first) (Hreorg : ∀ tip, last hs = Some tip → PrevBlock first ≠ BlockHash tip)
  (Hroot : ∀ root, head hs = Some root → PrevBlock first ≠ BlockHash root) :
  ∃ k h, hs !! k = Some h ∧ PrevBlock first = BlockHash h ∧ hs' = take k hs ++ zeroHeader :: m ∧
    (PrevBlock first = BlockHash zeroHeader →
     h = zeroHeader ∨ collides (writeBlockHeader h) (zeros 80) ∨ collides (Sum256 (writeBlockHeader h)) (Sum256 (zeros 80))).
Proof.
  destruct (IngestHeaders_spec s hs m r s' Hf Hfit Hm Hi) as [_ [Hs|(Hr & Hc & hs1 & Hing & Hs)]].
  { destruct Hne. by eapply file_of_fun. }
  assert (hs' = hs1) as -> by by eapply file_of_fun.
  destruct Hing as [first' tip' Hm1 Ht1 Hl _|f1 k Hm1 [(h & Hk & Hh) _] Hn _|f1 Hm1 [(h & Hk & Hh) _] Hn _];
    rewrite Hfirst in Hm1; injection Hm1 as <-.
  - by destruct (Hreorg tip' Ht1).
  - exists k, h. split; [done|]. split; [done|]. split; [done|]. intros Hz. rewrite Hh in Hz.
    unfold BlockHash in Hz. rewrite zeroHeader_bytes in Hz. apply DoubleHashH_inj_or in Hz as [Hz|Hz]; [left|by right].
    assert (BlockHeader_ok h) as Hok by (destruct Hf as [_ Hok]; eapply Forall_lookup_1; [exact Hok|exact Hk]).
    pose proof (BlockHeader_reads zeroHeader h eq_refl eq_refl Hok []) as R1.
    pose proof (BlockHeader_reads zeroHeader zeroHeader eq_refl eq_refl zeroHeader_ok []) as R2. cbv beta in R1, R2.
    rewrite zeroHeader_bytes in R2. rewrite Hz, R2 in R1. symmetry. exact (f_equal dec_val R1).
  - destruct hs as [|x hs]; [done|]. injection Hk as ->. by destruct (Hroot h eq_refl).
Qed.

Definition reg_before : SPVCon := reg_file [reg_genesis; reg_a1; reg_a2].

Lemma reorg_loses_parent_witness :
  ∃ k h, [reg_genesis; reg_a1; reg_a2] !! k = Some h ∧ PrevBlock reg_b2 = BlockHash h ∧
    [reg_genesis; zeroHeader; reg_b2] = take k [reg_genesis; reg_a1; reg_a2] ++ zeroHeader :: [reg_b2].
Proof.
  destruct (reorg_loses_parent reg_before (IngestHeaders reg_before [reg_b2]).2 [reg_genesis; reg_a1; reg_a2] [reg_b2]
    [reg_genesis; zeroHeader; reg_b2] reg_b2 (Ret (true, None))) as (k & h & H1 & H2 & H3 & _).
  - apply reg_file_of, reg_all_ok. set_solver.
  - by apply reg_fits.
  - apply reg_all_ok. set_solver.
  - apply pair_result. vm_compute. reflexivity.
  - split; [vm_compute; reflexivity|]. repeat constructor; try (apply reg_ok; set_solver); by repeat split.
  - done.
  - done.
  - intros tip [= <-]. apply bytes_eqb_false. vm_compute. reflexivity.
  - intros root [= <-]. apply bytes_eqb_false. vm_compute. reflexivity.
  - by exists k, h.
Defined.

(** Headers that do not link are accepted. The loop over the headers of a
    message compares a header with its predecessor from the third one on only,
    so a message of two headers is stored although the second does not name
    the first. *)
Theorem stray_header_accepted :
  PrevBlock reg_stray ≠ BlockHash reg_a1 ∧
  (IngestHeaders reg_0 [reg_a1; reg_stray]).1 = Ret (true, None) ∧
  file_of (headerFile (IngestHeaders reg_0 [reg_a1; reg_stray]).2) [reg_genesis; reg_a1; reg_stray].
Proof.
  split; [apply bytes_eqb_false; vm_compute; reflexivity|]. split; [vm_compute; reflexivity|].
  split; [vm_compute; reflexivity|]. apply reg_all_ok. set_solver.
Qed.
