(* ===== verification/ClientStore.v ===== *)
(** * What the client runs on: programs with state and errors, its database, its peers

    [prog S A] is code that works on a state [S] and returns, fails or panics
    like [outcome]; what it changed before an error stays changed.

    The database is a [Store].  Keys are those the client prints, by kind;
    numbers that are stored in decimal are numbers. *)

From Stdlib Require Import ZArith Lia.
From S2P Require Import Prelude Buffers Sha256 Crypto Utils MerkleTree WireCommon MptNode MptSpec FullMPT MptSerialize PartialMPT WireTypes WireTheorems BtcWire Store.

Local Open Scope Z_scope.

(** ** Programs *)

Definition prog (S A : Type) : Type := S → outcome A * S.

#[export] Instance prog_ret {S} : MRet (prog S) := λ A a s, (Ret a, s).
#[export] Instance prog_bind {S} : MBind (prog S) := λ A B f m s,
  match m s with
  | (Ret a, s) => f a s
  | (Err e, s) => (Err e, s)
  | (Panic p, s) => (Panic p, s)
  end.

Definition gets {S A} (f : S → A) : prog S A := λ s, (Ret (f s), s).
Definition modify {S} (f : S → S) : prog S unit := λ s, (Ret tt, f s).
Definition lift {S A} (m : outcome A) : prog S A := λ s, (m, s).
(** The error of [m] is looked at instead of returned. *)
Definition attempt {S A} (m : prog S A) : prog S (outcome A) := λ s,
  match m s with
  | (Panic p, s) => (Panic p, s)
  | (r, s) => (Ret r, s)
  end.
(** A Go [error] that is returned. *)
Definition check {S} (e : go_error) : prog S unit := lift (match e with None => Ret tt | Some e => Err e end).

Lemma prog_bind_ret {S A B} (m : prog S A) (f : A → prog S B) s b s' :
  (m ≫= f) s = (Ret b, s') → ∃ a s1, m s = (Ret a, s1) ∧ f a s1 = (Ret b, s').
Proof. unfold mbind, prog_bind. destruct (m s) as [[a| |] s1]; intros E; [eauto|discriminate..]. Qed.

(** ** Keys and values *)

Inductive ckey :=
| KCommitmentLast                       (** commitment-last *)
| KCommitment (hash : bytes)            (** commitment-<hash> *)
| KBlock (hash : bytes)                 (** block-<hash> *)
| KLogHash (logId : bytes) (idx : Z)    (** loghash-<id>-<nine digits> *)
| KLastIdx (logId : bytes)              (** lastidx-<id> *)
| KLog (logId : bytes)                  (** log-<id> *)
| KLogPreimage (logId : bytes) (idx : Z)
| KLogPreimageShort (logId : bytes) (idx : Z)  (** without padding *)
| KLogCommitment (logId : bytes) (idx : Z)
| KForeignLogProof (logId : bytes)      (** foreignlogproof-<id>-999999999 *)
| KProof (hash : bytes).                (** proof-<hash> *)

Inductive cvalue := VBytes (b : bytes) | VNum (z : Z).

#[export] Instance ckey_eq_dec : EqDecision ckey.
Proof. solve_decision. Defined.
#[export] Instance cvalue_eq_dec : EqDecision cvalue.
Proof. solve_decision. Defined.

(** The client's database. *)
Abbreviation Store := (KeyValue ckey cvalue).

(** ** Keys are countable *)

Definition ckey_code (k : ckey) : nat * (bytes * Z) :=
  match k with
  | KCommitmentLast => (0%nat, ([], 0))
  | KCommitment h => (1%nat, (h, 0))
  | KBlock h => (2%nat, (h, 0))
  | KLogHash id i => (3%nat, (id, i))
  | KLastIdx id => (4%nat, (id, 0))
  | KLog id => (5%nat, (id, 0))
  | KLogPreimage id i => (6%nat, (id, i))
  | KLogPreimageShort id i => (7%nat, (id, i))
  | KLogCommitment id i => (8%nat, (id, i))
  | KForeignLogProof id => (9%nat, (id, 0))
  | KProof h => (10%nat, (h, 0))
  end.

Definition ckey_decode (x : nat * (bytes * Z)) : ckey :=
  let '(n, (b, i)) := x in
  match n with
  | 0 => KCommitmentLast
  | 1 => KCommitment b
  | 2 => KBlock b
  | 3 => KLogHash b i
  | 4 => KLastIdx b
  | 5 => KLog b
  | 6 => KLogPreimage b i
  | 7 => KLogPreimageShort b i
  | 8 => KLogCommitment b i
  | 9 => KForeignLogProof b
  | _ => KProof b
  end%nat.

#[export] Program Instance ckey_countable : Countable ckey := inj_countable' ckey_code ckey_decode _.
Next Obligation. by intros []. Qed.

Abbreviation memory := (gmap ckey cvalue).
