(* ===== verification/Client.v ===== *)
(** * The client (client/client.go, chainverify.go, commitverify.go, rpc.go)

    Methods are programs on the client and the world behind its connection.
    [send] gives what comes back for a message; the goroutine of [ReceiveLoop]
    turns the bytes into events, and a method that waits takes the first event
    it listens for.  That the waiting method listens when the event comes is
    taken for granted.  A wait that never ends is [Panic blocked]: the method
    does not return.

    The signing key (btcec and sig64.SigCompress) and the signature check are
    parameters, and so is what the peer of the header chain does between two
    lookups.  JSON, HTTP and base64 of the RPC interface are left out: its
    methods take the decoded arguments. *)

From Stdlib Require Import ZArith Lia.
From stdpp Require Import sorting.
From S2P Require Import Prelude Buffers Sha256 Crypto Utils MerkleTree WireCommon MptNode MptSpec FullMPT MptSerialize PartialMPT WireTypes WireTheorems BtcWire BtcTheorems Difficulty Uspv Store ClientStore.

Local Open Scope Z_scope.

(** ** State *)

Record Client {DB : Type} := MkClient {
  pubKey : bytes;                            (** 33 bytes *)
  db : DB;
  spv : SPVCon;
  lastServerCommitment : option Commitment;
  fullClient : bool;
  FastMode : bool;
  DummySignatures : bool
}.
Arguments Client : clear implicits.
Arguments MkClient {DB}.

Section Setters.
Context {DB : Type}.
Definition set_db (d : DB) (c : Client DB) : Client DB :=
  MkClient (pubKey c) d (spv c) (lastServerCommitment c) (fullClient c) (FastMode c) (DummySignatures c).
Definition set_spv (s : SPVCon) (c : Client DB) : Client DB :=
  MkClient (pubKey c) (db c) s (lastServerCommitment c) (fullClient c) (FastMode c) (DummySignatures c).
Definition set_lastServerCommitment (l : option Commitment) (c : Client DB) : Client DB :=
  MkClient (pubKey c) (db c) (spv c) l (fullClient c) (FastMode c) (DummySignatures c).
End Setters.

(** ** What comes in *)

Inductive event :=
| EvAck
| EvError (text : bytes)
| EvProofUpdate (delta : bytes)
| EvProof (p : PartialMPT)
| EvDetails (c : Commitment)
| EvHistory (cs : list Commitment).

(** The events of the messages in [ms].  An error, and a proof that does not parse, end the
    loop; other messages are skipped. *)
Fixpoint ReceiveLoop (ms : list (Byte.byte * bytes)) : outcome (list event) :=
  match ms with
  | [] => mret []
  | (t, p) :: ms =>
      if bool_decide (t = MessageTypeAck) then es ← ReceiveLoop ms; mret (EvAck :: es)
      else if bool_decide (t = MessageTypeError) then mret [EvError p]
      else if bool_decide (t = MessageTypeProofUpdate) then es ← ReceiveLoop ms; mret (EvProofUpdate p :: es)
      else if bool_decide (t = MessageTypeProof) then
        match DeserializeNewPartialMPT p with
        | Ret (pm, _) => es ← ReceiveLoop ms; mret (EvProof pm :: es)
        | Err _ => mret []
        | Panic e => Panic e
        end
      else if bool_decide (t = MessageTypeCommitmentDetails) then
        match NewCommitmentDetailsMessageFromBytes p with
        | Ret msg => es ← ReceiveLoop ms; mret (EvDetails (cd_Commitment msg) :: es)
        | Err _ => mret []
        | Panic e => Panic e
        end
      else if bool_decide (t = MessageTypeCommitmentHistory) then
        match NewCommitmentHistoryMessageFromBytes p with
        | Ret msg => es ← ReceiveLoop ms; mret (EvHistory (ch_Commitments msg) :: es)
        | Err _ => mret []
        | Panic e => Panic e
        end
      else ReceiveLoop ms
  end.

Definition blocked : string := "blocked".
Definition text_of (b : bytes) : string := String.string_of_list_ascii (map Ascii.ascii_of_byte b).

(** Waiting on [ack] and [errChan], with a timeout. *)
Fixpoint wait_ack (es : list event) : outcome unit :=
  match es with
  | [] => Err "Timeout waiting for ACK"
  | EvAck :: _ => mret tt
  | EvError text :: _ => Err (text_of text)
  | _ :: es => wait_ack es
  end.

Fixpoint wait_proof (es : list event) : outcome PartialMPT :=
  match es with
  | [] => Err "Timeout waiting for proof"
  | EvProof p :: _ => mret p
  | EvError text :: _ => Err (text_of text)
  | _ :: es => wait_proof es
  end.

(** These two wait for their channel only, without a timeout. *)
Fixpoint wait_history (es : list event) : outcome (list Commitment) :=
  match es with
  | [] => Panic blocked
  | EvHistory cs :: _ => mret cs
  | _ :: es => wait_history es
  end.

Fixpoint wait_details (es : list event) : outcome Commitment :=
  match es with
  | [] => Panic blocked
  | EvDetails c :: _ => mret c
  | _ :: es => wait_details es
  end.

(** [f] repeated up to [p] times until it gives a result. *)
Fixpoint iter_until {A B} (p : positive) (f : A → A + B) (a : A) : A + B :=
  match p with
  | xH => f a
  | xO p => match iter_until p f a with inl a => iter_until p f a | inr b => inr b end
  | xI p =>
      match f a with
      | inl a => match iter_until p f a with inl a => iter_until p f a | inr b => inr b end
      | inr b => inr b
      end
  end.

Definition ErrNotFound : string := "not found".
Definition foreignIdx : Z := 999999999.

Section Methods.
Context `{HashFunction} {DB : Type} `{Store DB} {W : Type}
  (send : W → Byte.byte → bytes → (go_error * list (Byte.byte * bytes)) * W)
  (Sign : bytes → outcome bytes)
  (VerifySig : bytes → bytes → bytes → outcome unit)
  (peer : SPVCon → SPVCon).

Definition state : Type := Client DB * W.
Abbreviation M := (prog state).

Definition get_client : M (Client DB) := gets fst.
Definition upd_client (f : Client DB → Client DB) : M unit := modify (λ '(c, w), (f c, w)).

(** [c.conn.WriteMessage] and the events that follow. *)
Definition exchange (t : Byte.byte) (m : bytes) : M (list event) := λ '(c, w),
  let '((err, ms), w) := send w t m in
  match err with
  | Some e => (Err e, (c, w))
  | None => (ReceiveLoop ms, (c, w))
  end.

(** [tx.Get]. *)
Definition get (c : Client DB) (k : ckey) : outcome cvalue :=
  match db_get (db c) k with Some v => mret v | None => Err ErrNotFound end.
Definition bytes_of (v : cvalue) : bytes := match v with VBytes b => b | VNum _ => [] end.
Definition num_of (v : cvalue) : outcome Z := match v with VNum z => mret z | VBytes _ => Err "strconv.ParseInt" end.
Definition array32 (v : cvalue) : bytes := go_copy (zeros 32) (bytes_of v).

(** [c.db.Update] with a list of writes. *)
Definition update (l : list (ckey * cvalue)) : M unit :=
  c ← get_client;
  let '(d, err) := db_update (db c) l in
  _ ← upd_client (set_db d);
  check err.

(** ** Logs *)

Definition StartLog (initialStatement : bytes) : M bytes :=
  c ← get_client;
  let l := NewSignedCreateLogStatement (pubKey c) initialStatement in
  let logId := Sum256 (CreateLogStatement_Bytes (CreateStatement l)) in
  l ← (if negb (DummySignatures c) then
         csig ← lift (Sign logId);
         mret (MkSignedCreateLogStatement csig (CreateStatement l))
       else mret l);
  es ← exchange MessageTypeCreateLog (SignedCreateLogStatement_Bytes l);
  _ ← lift (wait_ack es);
  let serverHash := Sum256 (SignedCreateLogStatement_Bytes l) in
  _ ← (if fullClient c
       then update [(KLogHash logId 0, VBytes serverHash); (KLastIdx logId, VNum 0); (KLog logId, VBytes [x31])]
       else mret tt);
  mret logId.

Definition StartLogText (initialStatement : bytes) : M bytes :=
  let statementHash := Sum256 initialStatement in
  logId ← StartLog statementHash;
  c ← get_client;
  _ ← (if fullClient c then update [(KLogPreimage logId 0, VBytes initialStatement)] else mret tt);
  mret logId.

(** A log that is not known has index -1. *)
Definition GetLastHash (c : Client DB) (logId : bytes) : outcome (Z * bytes) :=
  match db_get (db c) (KLastIdx logId) with
  | None => mret (-1, zeros 32)
  | Some val =>
      idx ← num_of val;
      val ← get c (KLogHash logId idx);
      mret (idx, array32 val)
  end.

Definition IsCommitted (c : Client DB) (logId : bytes) (idx : Z) : bool :=
  match get c (KLogCommitment logId idx) with
  | Ret (VBytes val) => bool_decide (len val > 0)
  | Ret (VNum _) => true
  | _ => false
  end.

(** One turn of the loop of [GetLastCommittedLog]: the next index, or the result. *)
Definition committed_step (c : Client DB) (logId : bytes) (idx : Z) : Z + outcome (Z * bytes) :=
  if bool_decide (idx < 0) then inr (Err "No committed hash found")
  else if IsCommitted c logId (u64 idx) then
    match get c (KLogHash logId idx) with
    | Ret val => if bool_decide (len (bytes_of val) = 0) then inl (idx - 1) else inr (Ret (idx, array32 val))
    | _ => inl (idx - 1)
    end
  else inl (idx - 1).

(** The index counts down to -1, so [idx + 2] turns are enough. *)
Definition GetLastCommittedLog (c : Client DB) (logId : bytes) : outcome (Z * bytes) :=
  let idx := match get c (KLastIdx logId) with Ret (VNum z) => z | Ret (VBytes _) => 0 | _ => -1 end in
  match iter_until (Z.to_pos (idx + 2)) (committed_step c logId) idx with
  | inr r => r
  | inl _ => Err "No committed hash found"
  end.

Definition GetLogPreimage (c : Client DB) (logId : bytes) (idx : Z) : outcome bytes :=
  match get c (KLogPreimage logId idx) with
  | Ret v => mret (bytes_of v)
  | _ => v ← get c (KLogPreimageShort logId idx); mret (bytes_of v)
  end.

Definition GetAllLogIDs (c : Client DB) : list bytes :=
  omap (λ '(k, _), match k with KLog id => Some (go_copy (zeros 32) id) | _ => None end) (db_list (db c)).

Definition GetLogCommitment (c : Client DB) (logId : bytes) (idx : Z) : outcome bytes :=
  v ← get c (KLogCommitment logId idx); mret (array32 v).

Definition SignedAppendLog (c : Client DB) (idx : Z) (logId statement : bytes) : outcome SignedLogStatement :=
  let l := NewSignedLogStatement idx logId statement in
  let hash := Sum256 (LogStatement_Bytes (Statement l)) in
  if negb (DummySignatures c) then
    csig ← Sign hash;
    mret (MkSignedLogStatement csig (Statement l))
  else mret l.

(** The checks of a full client, and the statement it will send. *)
Definition append_checks (c : Client DB) (idx : Z) (logId statement : bytes) : outcome bytes :=
  if fullClient c then
    '(lastIdx, lastHash) ← GetLastHash c logId;
    statement ← (if FastMode c then mret (go_copy statement (Sum256 (lastHash ++ statement)))
                 else if negb (IsCommitted c logId (u64 lastIdx))
                      then Err "Last statement has not yet been committed to chain. You have to wait for this, or use FastMode"
                      else mret statement);
    if negb (bool_decide (idx = u64 (i64 (lastIdx + 1)))) then Err "Received out-of-sync index for log"
    else mret statement
  else mret statement.

Definition AppendLog (idx : Z) (logId statement : bytes) : M unit :=
  c ← get_client;
  statement ← lift (append_checks c idx logId statement);
  l ← lift (SignedAppendLog c idx logId statement);
  let serverHash := Sum256 (SignedLogStatement_Bytes l) in
  es ← exchange MessageTypeAppendLog (SignedLogStatement_Bytes l);
  _ ← lift (wait_ack es);
  if fullClient c
  then update [(KLogHash logId idx, VBytes serverHash); (KLastIdx logId, VNum idx)]
  else mret tt.

Definition AppendLogText (idx : Z) (logId statement : bytes) : M unit :=
  let statementHash := Sum256 statement in
  _ ← AppendLog idx logId statementHash;
  c ← get_client;
  if fullClient c then update [(KLogPreimage logId idx, VBytes statement)] else mret tt.

(** ** Requests *)

Definition RequestProof (logIds : list bytes) : M PartialMPT :=
  es ← exchange MessageTypeRequestProof (RequestProofMessage_Bytes (NewRequestProofMessage logIds));
  lift (wait_proof es).

Definition SubscribeProofUpdates : M unit :=
  es ← exchange MessageTypeSubscribeProofUpdates []; lift (wait_ack es).

Definition UnsubscribeProofUpdates : M unit :=
  es ← exchange MessageTypeUnsubscribeProofUpdates []; lift (wait_ack es).

Definition GetCommitmentHistory (sinceCommitment : bytes) : M (list Commitment) :=
  es ← exchange MessageTypeRequestCommitmentHistory
         (RequestCommitmentHistoryMessage_Bytes (NewRequestCommitmentHistoryMessage sinceCommitment));
  lift (wait_history es).

Definition GetCommitmentDetails (commitment : bytes) : M Commitment :=
  es ← exchange MessageTypeRequestCommitmentDetails
         (RequestCommitmentDetailsMessage_Bytes (NewRequestCommitmentDetailsMessage commitment));
  lift (wait_details es).

(** ** Foreign logs *)

Definition GetForeignLogIDAndHash (statement : ForeignStatement) : outcome (bytes * bytes) :=
  let statementHash := Sum256 (StatementPreimage statement) in
  if fs_InitialStatement statement then
    let s := MkSignedCreateLogStatement (fs_Signature statement) (MkCreateLogStatement (PubKey statement) statementHash) in
    _ ← SignedCreateLogStatement_VerifySignature VerifySig s;
    mret (Sum256 (CreateLogStatement_Bytes (CreateStatement s)), Sum256 (SignedCreateLogStatement_Bytes s))
  else
    let s := MkSignedLogStatement (fs_Signature statement)
               (MkLogStatement (fs_LogID statement) (fs_Index statement) statementHash) in
    _ ← SignedLogStatement_VerifySignature VerifySig s (PubKey statement);
    mret (fs_LogID statement, Sum256 (SignedLogStatement_Bytes s)).

Definition AddForeignLog (statement : ForeignStatement) : M unit :=
  '(logId, hash) ← lift (GetForeignLogIDAndHash statement);
  proof ← lift match fs_Proof statement with
               | None => mret []
               | Some p =>
                   '(commitment, p) ← PartialMPT_Commitment p;
                   mret [(KLogCommitment logId foreignIdx, VBytes commitment);
                         (KForeignLogProof logId, VBytes (PartialMPT_Bytes p))]
               end;
  update ([(KLogHash logId foreignIdx, VBytes hash); (KLastIdx logId, VNum foreignIdx)] ++ proof ++
          [(KLogPreimage logId foreignIdx, VBytes (StatementPreimage statement)); (KLog logId, VBytes [x31])]).

Definition IsForeignLog (c : Client DB) (logId : bytes) : bool :=
  match get c (KLogHash logId foreignIdx) with Ret _ => true | _ => false end.

(** The stored proof, cut down to [logIds]. *)
Definition GetProofForCommitment (c : Client DB) (commitment : bytes) (logIds : list bytes) : outcome PartialMPT :=
  proof ← get c (KProof commitment);
  '(fullTree, _) ← DeserializeNewFullMPT (bytes_of proof);
  '(pm, _) ← NewPartialMPTIncludingKeys fullTree logIds;
  mret pm.

Definition ExportLog (c : Client DB) (logId : bytes) : outcome ForeignStatement :=
  '(idx, _) ← GetLastCommittedLog c logId;
  if IsForeignLog c logId then Err "Cannot export a foreign log. The original sender should export it."
  else
    let initial := bool_decide (idx = 0) in
    preimage ← GetLogPreimage c logId (u64 idx);
    commitment ← GetLogCommitment c logId (u64 idx);
    proof ← GetProofForCommitment c commitment [logId];
    let statementHash := Sum256 preimage in
    let signaturePayload :=
      if initial then CreateLogStatement_Bytes (CreateStatement (NewSignedCreateLogStatement (pubKey c) statementHash))
      else LogStatement_Bytes (Statement (NewSignedLogStatement (u64 idx) logId statementHash)) in
    csig ← Sign (Sum256 signaturePayload);
    mret (MkForeignStatement initial logId preimage csig (pubKey c) (u64 idx) (Some proof)).

(** ** Commitments *)

Definition getCommitment (c : Client DB) (hash : bytes) : outcome Commitment :=
  b ← get c (KCommitment hash); CommitmentFromBytes (bytes_of b).

Definition loadStuff : M unit :=
  c ← get_client;
  match db_get (db c) KCommitmentLast with
  | None => mret tt
  | Some lastCommitHash =>
      match getCommitment c (array32 lastCommitHash) with
      | Ret comm => upd_client (set_lastServerCommitment (Some comm))
      | Err e => _ ← upd_client (set_lastServerCommitment None); lift (Err e)
      | Panic e => lift (Panic e)
      end
  end.

Definition GetBlockHeaderByHash (hash : option bytes) : M BlockHeader := λ '(c, w),
  let '(r, s) := GetHeaderByBlockHash (spv c) hash in (r, (set_spv s c, w)).

(** [SPVAskHeaders], its error ignored, and the wait for the peer; [n] tries are left. *)
Fixpoint find_block (n : nat) (hash : option bytes) : M BlockHeader :=
  r ← attempt (GetBlockHeaderByHash hash);
  match r, n with
  | Ret h, _ => mret h
  | Err e, S (S n as n') =>
      _ ← upd_client (λ c, set_spv (peer (AskForHeaders (spv c)).2) c);
      c ← get_client;
      if Synced (spv c) then find_block n' hash else lift (Panic blocked)
  | Err e, _ => lift (Err e)
  | Panic e, _ => lift (Panic e)
  end.

Definition merkle_incorrect : string := "Merkle proof is incorrect".
Definition chain_broken : string :=
  "Commitment transaction's first input is not the change output of the last commitment. This breaks the chain and is invalid.".

(** [tx.TxIn[0]] after [tx.Deserialize], whose error is ignored. *)
Definition first_input (rawTx : bytes) : outcome OutPoint :=
  d ← Deserialize (NewMsgTx 1) rawTx;
  match tx_TxIn (dec_val d) with
  | ti :: _ => mret (PreviousOutPoint ti)
  | [] => Panic out_of_range
  end.

(** The hash of the last commitment transaction, through two pointers. *)
Definition last_tx (c : Client DB) : outcome bytes :=
  match lastServerCommitment c with
  | Some last => match TxHash last with Some h => mret h | None => Panic nil_deref end
  | None => Panic nil_deref
  end.

Definition check_chain (c : Client DB) (comm : Commitment) : outcome unit :=
  d ← Deserialize (NewMsgTx 1) (RawTx comm);
  if bytes_eqb (c_Commitment comm) MaidenHash then mret tt
  else
    last ← last_tx c;
    op ← first_input (RawTx comm);
    if negb (bool_decide (op_Index op = 1)) || negb (bytes_eqb (Hash op) last) then Err chain_broken else mret tt.

Definition verifyCommitment (comm : Commitment) : M unit :=
  match IncludedInBlock comm, TxHash comm with
  | Some block, Some txHash =>
      header ← find_block 3 (Some block);
      checksOut ← lift (MerkleProof_Check (c_MerkleProof comm) txHash (MerkleRoot header));
      if negb checksOut then lift (Err merkle_incorrect)
      else
        c ← get_client;
        lift (check_chain c comm)
  | _, _ => lift (Panic nil_deref)
  end.

Definition ClearCommitments : M unit :=
  c ← get_client;
  let keys := omap (λ '(k, _), match k with KCommitmentLast | KCommitment _ => Some k | _ => None end) (db_list (db c)) in
  let '(d, err) := db_delete (db c) keys in
  _ ← upd_client (set_db d);
  check err.

Fixpoint decode_commitments (l : list (ckey * cvalue)) : outcome (list Commitment) :=
  match l with
  | [] => mret []
  | (KCommitment _, v) :: l => c ← CommitmentFromBytes (bytes_of v); cs ← decode_commitments l; mret (c :: cs)
  | _ :: l => decode_commitments l
  end.

Definition height_le (a b : Commitment) : Prop := TriggeredAtBlockHeight a ≤ TriggeredAtBlockHeight b.
#[local] Instance height_le_dec : RelDecision height_le.
Proof. unfold RelDecision, height_le. solve_decision. Defined.

(** The order of commitments with the same height is not determined. *)
Definition getAllCommitments (c : Client DB) : outcome (list Commitment) :=
  returnVal ← decode_commitments (db_list (db c));
  mret (merge_sort height_le returnVal).

Definition saveCommitment (comm : Commitment) : M unit :=
  b ← lift (Commitment_Bytes comm);
  match IncludedInBlock comm with
  | None => lift (Panic nil_deref)
  | Some block =>
      _ ← update [(KCommitment (c_Commitment comm), VBytes b); (KBlock block, VBytes (c_Commitment comm));
                  (KCommitmentLast, VBytes (c_Commitment comm))];
      upd_client (set_lastServerCommitment (Some comm))
  end.

(** ** Proofs of the client's logs *)

Definition LogHasCommitment (c : Client DB) (logId : bytes) : bool :=
  existsb (λ '(k, _), match k with KLogCommitment id _ => bytes_eqb id logId | _ => false end) (db_list (db c)).

(** The last index of the log under which [val] is stored; indices are taken to have at
    most nine digits, so that the range holds all of them in order. *)
Definition value_index (c : Client DB) (logId : bytes) (val : option bytes) : option Z :=
  head (omap (λ '(k, v), match k with
                         | KLogHash id idx => if bytes_eqb id logId && bytes_eqb (bytes_of v) (default [] val) then Some idx else None
                         | _ => None
                         end) (rev (db_list (db c)))).

Definition garbage : string := "The value in the proof does not match any of the values we know. Not good.".

(** The check of one log: the index to commit, if any. *)
Definition check_log (c : Client DB) (proof : PartialMPT) (l : bytes) : outcome (option Z) :=
  let hasCommitment := LogHasCommitment c l in
  match PartialMPT_Get proof l with
  | Panic e => Panic e
  | Err e => if negb hasCommitment then mret None else Err ("Error getting Log ID from the proof: " ++ e)
  | Ret val =>
      if bool_decide (val = None) && negb hasCommitment then mret None
      else match value_index c l val with
           | Some idx => mret (Some idx)
           | None => if IsForeignLog c l then mret None else Err garbage
           end
  end.

(** The writes for the logs that are found; the map of indices has one entry per log. *)
Fixpoint check_logs (c : Client DB) (proof : PartialMPT) (rootHash : bytes) (logIds : list bytes)
    : outcome (list (ckey * cvalue)) :=
  match logIds with
  | [] => mret []
  | l :: logIds =>
      idx ← check_log c proof l;
      rest ← check_logs c proof rootHash logIds;
      mret (match idx with
            | Some idx => (KLogCommitment l (u64 idx), VBytes rootHash) :: rest
            | None => rest
            end)
  end.

Definition updateProofs : M unit :=
  c ← get_client;
  let logIds := GetAllLogIDs c in
  if bool_decide (len logIds = 0) then mret tt
  else
    proof ← RequestProof logIds;
    '(rootHash, proof) ← lift (PartialMPT_Commitment proof);
    _ ← lift match getCommitment c rootHash with
             | Err e => Err ("Error fetching commitment: " ++ e)
             | r => r
             end;
    writes ← lift (check_logs c proof rootHash logIds);
    update ((KProof rootHash, VBytes (PartialMPT_Bytes proof)) :: writes).

(** ** The verification loop *)

(** Verifies and saves the commitments in turn: [false] when one is in a block that is not
    found and the loop starts over.  Other errors are raised as panics. *)
Fixpoint verify_all (hist : list Commitment) : M bool :=
  match hist with
  | [] => mret true
  | comm :: hist =>
      r ← attempt (verifyCommitment comm);
      match r with
      | Ret _ =>
          r ← attempt (saveCommitment comm);
          match r with
          | Ret _ => verify_all hist
          | Err e => lift (Panic e)
          | Panic e => lift (Panic e)
          end
      | Err e => if String.eqb e block_not_found then mret false else lift (Panic e)
      | Panic e => lift (Panic e)
      end
  end.

(** One turn of [verifyLoop]. *)
Definition verifyLoop_step : M unit :=
  c ← get_client;
  if Synced (spv c) then
    let lastCommitHash := match lastServerCommitment c with
                          | Some last => go_copy (zeros 32) (c_Commitment last)
                          | None => zeros 32
                          end in
    r ← attempt (GetCommitmentHistory lastCommitHash);
    match r with
    | Ret hist =>
        done_ ← verify_all hist;
        if negb done_ then mret tt
        else if bool_decide (len hist > 0) then
          r ← attempt updateProofs;
          match r with
          | Ret _ => mret tt
          | Err e => lift (Panic e)
          | Panic e => lift (Panic e)
          end
        else mret tt
    | Err e => lift (Panic e)
    | Panic e => lift (Panic e)
    end
  else mret tt.

(** ** The RPC interface *)

Record VerificationResult := MkVerificationResult {
  v_Statement : bytes;
  v_Valid : bool;
  v_Error : string;
  v_PubKey : bytes;
  v_BlockHash : bytes;
  v_TxHash : bytes;
  v_BlockTimestamp : Z
}.

Definition invalid (e : string) : VerificationResult := MkVerificationResult [] false e [] [] [] 0.

(** [VerifyOnce] on a decoded statement; a nil proof is dereferenced. *)
Definition VerifyOnce (fs : ForeignStatement) : M VerificationResult :=
  match GetForeignLogIDAndHash fs with
  | Panic e => lift (Panic e)
  | Err e => mret (invalid ("Could not read foreign statement: " ++ e))
  | Ret (logId, hash) =>
      match fs_Proof fs with
      | None => lift (Panic nil_deref)
      | Some proof =>
          match PartialMPT_Get proof logId with
          | Panic e => lift (Panic e)
          | Ret (Some val) =>
              if negb (bytes_eqb val hash)
              then mret (invalid "Provided proof does not contain correct value for the provided log")
              else
                '(rootHash, _) ← lift (PartialMPT_Commitment proof);
                cl ← get_client;
                match getCommitment cl rootHash with
                | Panic e => lift (Panic e)
                | Err e => mret (invalid ("Could not get commitment from the given proof: " ++ e))
                | Ret c =>
                    r ← attempt (GetBlockHeaderByHash (IncludedInBlock c));
                    match r, IncludedInBlock c, TxHash c with
                    | Err e, _, _ => mret (invalid "Could not fetch block details for this log's last committed statement")
                    | Ret block, Some b, Some t =>
                        mret (MkVerificationResult (StatementPreimage fs) true "" (PubKey fs) b t (Timestamp block))
                    | _, _, _ => lift (Panic nil_deref)
                    end
                end
          | _ => mret (invalid "Provided proof does not contain correct value for the provided log")
          end
      end
  end.

Record LogInfo := MkLogInfo {
  Foreign : bool;
  li_LogID : bytes;
  LastStatement : bytes;
  LastIndex : Z;
  LastCommitment : bytes;
  LastCommitmentProof : bytes;
  LastCommitmentBlock : bytes;
  LastCommitmentTimestamp : Z;
  Valid : bool;
  li_Error : string
}.

(** One entry of [Logs]. *)
Definition log_info (l : bytes) : M LogInfo :=
  c ← get_client;
  let foreign := IsForeignLog c l in
  match GetLastCommittedLog c l with
  | Panic e => lift (Panic e)
  | Err _ => mret (MkLogInfo foreign l [] 0 [] [] [] 0 false "Could not find a commitment for this log (yet)")
  | Ret (idx, _) =>
      match GetLogPreimage c l (u64 idx) with
      | Ret statement =>
          match GetLogCommitment c l (u64 idx) with
          | Ret lastCommit =>
              match getCommitment c lastCommit with
              | Panic e => lift (Panic e)
              | Err _ => mret (MkLogInfo foreign l statement idx lastCommit [] [] 0 false
                           "Could not fetch commitment details for this log's last committed statement")
              | Ret comm =>
                  proof ← lift (MerkleProof_Bytes (c_MerkleProof comm));
                  match IncludedInBlock comm with
                  | None => lift (Panic nil_deref)
                  | Some b =>
                      r ← attempt (GetBlockHeaderByHash (Some b));
                      match r with
                      | Ret block => mret (MkLogInfo foreign l statement idx lastCommit proof b (Timestamp block) true "")
                      | _ => mret (MkLogInfo foreign l statement idx lastCommit proof b 0 false
                               "Could not fetch block details for this log's last committed statement")
                      end
                  end
              end
          | _ => mret (MkLogInfo foreign l statement idx [] [] [] 0 false
                   "Could not fetch the commitment hash for this log's last committed statement")
          end
      | _ => mret (MkLogInfo foreign l [] idx [] [] [] 0 false
               "Could not fetch preimage for this log's last committed statement")
      end
  end.

Fixpoint log_infos (ls : list bytes) : M (list LogInfo) :=
  match ls with
  | [] => mret []
  | l :: ls => i ← log_info l; infos ← log_infos ls; mret (i :: infos)
  end.

Definition Logs : M (list LogInfo) := c ← get_client; log_infos (GetAllLogIDs c).
End Methods.
