(* ===== verification/ClientTheorems.v ===== *)
(** * What the client accepts

    The commitments a client has accepted, in order, are a chain of
    transactions, whatever the server sends; and what the client does not
    check. *)

From Stdlib Require Import ZArith Lia.
From S2P Require Import Prelude Buffers Sha256 Crypto Utils MerkleTree WireCommon MptNode MptSpec FullMPT MptSerialize PartialMPT PartialTheorems WireTypes WireTheorems BtcWire BtcTheorems Difficulty Uspv Store ClientStore Client.

Local Open Scope Z_scope.

(** ** Programs *)

Section Prog.
Context {S : Type}.

Lemma bind_run {A B} (m : prog S A) (f : A → prog S B) s :
  (m ≫= f) s = match m s with
               | (Ret a, s) => f a s
               | (Err e, s) => (Err e, s)
               | (Panic p, s) => (Panic p, s)
               end.
Proof. done. Qed.

Lemma lift_Ret {A} (m : outcome A) (s : S) a s' : lift m s = (Ret a, s') → m = Ret a ∧ s' = s.
Proof. unfold lift. by intros [= -> ->]. Qed.

Lemma attempt_Ret {A} (m : prog S A) s r s' :
  attempt m s = (Ret r, s') → m s = (r, s') ∧ ∀ p, r ≠ Panic p.
Proof. unfold attempt. destruct (m s) as [[a|e|p] s1]; intros [= <- <-]; done. Qed.

(** A relation between the states before and after, whatever the result. *)
Definition respects (R : S → S → Prop) {A} (m : prog S A) : Prop := ∀ s, R s (m s).2.

Context (R : S → S → Prop) `{!PreOrder R}.

Lemma respects_bind {A B} (m : prog S A) (f : A → prog S B) :
  respects R m → (∀ a, respects R (f a)) → respects R (m ≫= f).
Proof.
  intros Hm Hf s. rewrite bind_run. specialize (Hm s). destruct (m s) as [[a|e|p] s1]; simpl in *; try done.
  transitivity s1; [done|apply Hf].
Qed.

Lemma respects_lift {A} (m : outcome A) : respects R (lift m).
Proof. intros s. simpl. reflexivity. Qed.

Lemma respects_ret {A} (a : A) : respects R (mret a).
Proof. intros s. simpl. reflexivity. Qed.

Lemma respects_gets {A} (f : S → A) : respects R (gets f).
Proof. intros s. simpl. reflexivity. Qed.

Lemma respects_attempt {A} (m : prog S A) : respects R m → respects R (attempt m).
Proof. intros Hm s. unfold attempt. specialize (Hm s). by destruct (m s) as [[a|e|p] s1]. Qed.
End Prog.

(** Splits a run that returned into the runs of its parts. *)
Ltac inv_run H :=
  let a := fresh "a" in let s1 := fresh "s" in let H1 := fresh "R" in
  apply prog_bind_ret in H as (a & s1 & H1 & H).

Section Chain.
Context `{HashFunction} {DB : Type} `{Store DB} {W : Type}
  (send : W → Byte.byte → bytes → (go_error * list (Byte.byte * bytes)) * W)
  (Sign : bytes → outcome bytes)
  (VerifySig : bytes → bytes → bytes → outcome unit)
  (peer : SPVCon → SPVCon).

Abbreviation st := (Client DB * W)%type.

(** ** The states of the header chain *)

(** What the client and its peer do to the header chain. *)
Inductive spv_reach : SPVCon → SPVCon → Prop :=
| reach_refl s : spv_reach s s
| reach_lookup s s' hash : spv_reach s s' → spv_reach s (GetHeaderByBlockHash s' hash).2
| reach_peer s s' : spv_reach s s' → spv_reach s (peer s')
| reach_ask s s' : spv_reach s s' → spv_reach s (AskForHeaders s').2.

#[export] Instance spv_reach_preorder : PreOrder spv_reach.
Proof. split; [exact reach_refl|]. intros a b c Hab. by induction 1; auto using spv_reach. Qed.

(** ** Operations that leave the commitments alone *)

Definition commitment_key (k : ckey) : bool :=
  match k with KCommitmentLast | KCommitment _ => true | _ => false end.

Definition quiet (s s' : st) : Prop :=
  lastServerCommitment s'.1 = lastServerCommitment s.1 ∧
  (∀ k, commitment_key k = true → db_get (db s'.1) k = db_get (db s.1) k) ∧
  spv_reach (spv s.1) (spv s'.1).

#[export] Instance quiet_preorder : PreOrder quiet.
Proof.
  split; [by intros s|]. intros a b c (L1 & K1 & R1) (L2 & K2 & R2). split; [congruence|].
  split; [intros k Hk; by rewrite K2, K1|by transitivity (spv b.1)].
Qed.

Lemma quiet_exchange t m : respects quiet (exchange (DB := DB) send t m).
Proof. intros [c w]. unfold exchange. by destruct (send w t m) as [[[e|] ms] w']. Qed.

Lemma quiet_update l :
  forallb (λ x, negb (commitment_key x.1)) l = true → respects quiet (update (W := W) l).
Proof.
  intros Hl [c w]. unfold update. rewrite bind_run. cbn [get_client gets fst].
  pose proof (db_get_update (db c) l) as Hg. destruct (db_update (db c) l) as [d err] eqn:E. cbn [fst snd] in Hg.
  rewrite bind_run. cbn. split; [done|]. split; [|constructor]. intros k Hk. cbn. rewrite Hg. destruct err; [done|]. apply written_not.
  intros Hin. apply list_elem_of_fmap in Hin as ([k' v] & -> & Hin). rewrite forallb_forall in Hl.
  apply list_elem_of_In, Hl in Hin. cbn in *. by rewrite Hk in Hin.
Qed.

Lemma quiet_lookup hash : respects quiet (GetBlockHeaderByHash (W := W) (DB := DB) hash).
Proof.
  intros [c w]. unfold GetBlockHeaderByHash. destruct (GetHeaderByBlockHash (spv c) hash) as [r s1] eqn:E.
  split; [done|]. split; [done|]. cbn. replace s1 with (GetHeaderByBlockHash (spv c) hash).2 by (by rewrite E). constructor. constructor.
Qed.

Ltac solve_quiet :=
  repeat first
    [ apply quiet_update; reflexivity | apply (respects_bind quiet); [|intros ?] | apply (respects_lift quiet) | apply (respects_ret quiet)
    | apply (respects_gets quiet) | apply (respects_attempt quiet) | apply quiet_exchange | apply quiet_lookup
    | match goal with |- respects _ (match ?x with _ => _ end) => destruct x end
    | match goal with |- respects _ (let '_ := ?x in _) => destruct x end ].

Lemma quiet_StartLog b : respects quiet (StartLog (DB := DB) send Sign b).
Proof. unfold StartLog, get_client. solve_quiet. Qed.

Lemma quiet_AppendLog idx id b : respects quiet (AppendLog (DB := DB) send Sign idx id b).
Proof. unfold AppendLog, get_client. solve_quiet. Qed.

Lemma quiet_texts idx id b :
  respects quiet (StartLogText (DB := DB) send Sign b) ∧ respects quiet (AppendLogText (DB := DB) send Sign idx id b).
Proof.
  split; unfold StartLogText, AppendLogText, get_client; (apply (respects_bind quiet); [apply quiet_StartLog || apply quiet_AppendLog|]);
    intros ?; solve_quiet.
Qed.

Lemma quiet_AddForeignLog fs : respects quiet (AddForeignLog (DB := DB) (W := W) VerifySig fs).
Proof.
  unfold AddForeignLog. apply (respects_bind quiet); [apply (respects_lift quiet)|]. intros [logId hash] s. rewrite bind_run.
  unfold lift at 1. destruct (fs_Proof fs) as [p|]; cbn; [|by apply quiet_update].
  destruct (PartialMPT_Commitment p) as [[c p']| |]; cbn; [|done..]. by apply quiet_update.
Qed.

Lemma check_logs_keys (c : Client DB) proof h ids l :
  check_logs c proof h ids = Ret l → forallb (λ x, negb (commitment_key x.1)) l = true.
Proof.
  revert l. induction ids as [|i ids IH]; intros l; cbn [check_logs]; [by intros [= <-]|].
  destruct (check_log c proof i) as [o| |]; [|done..]. cbn. destruct (check_logs c proof h ids) as [l'| |]; [|done..]. cbn.
  intros [= <-]. specialize (IH _ eq_refl). by destruct o.
Qed.

Lemma quiet_updateProofs : respects quiet (updateProofs (DB := DB) send).
Proof.
  unfold updateProofs, get_client, RequestProof. apply (respects_bind quiet); [apply (respects_gets quiet)|]. intros c. case_bool_decide; [solve_quiet|].
  apply (respects_bind quiet); [solve_quiet|]. intros proof. apply (respects_bind quiet); [solve_quiet|]. intros [root proof'].
  apply (respects_bind quiet); [solve_quiet|]. intros _ s. rewrite bind_run. unfold lift at 1.
  destruct (check_logs c proof' root (GetAllLogIDs c)) as [l| |] eqn:E; [|done..]. apply quiet_update. cbn. by apply check_logs_keys in E.
Qed.

Lemma quiet_GetCommitmentHistory since : respects quiet (GetCommitmentHistory (DB := DB) send since).
Proof. unfold GetCommitmentHistory. solve_quiet. Qed.

Lemma quiet_requests h :
  respects quiet (SubscribeProofUpdates (DB := DB) send) ∧ respects quiet (UnsubscribeProofUpdates (DB := DB) send) ∧
  respects quiet (GetCommitmentDetails (DB := DB) send h).
Proof. unfold SubscribeProofUpdates, UnsubscribeProofUpdates, GetCommitmentDetails. split_and!; solve_quiet. Qed.

Lemma quiet_VerifyOnce fs : respects quiet (VerifyOnce (DB := DB) (W := W) VerifySig fs).
Proof. unfold VerifyOnce, get_client. solve_quiet. Qed.

Lemma quiet_Logs : respects quiet (Logs (DB := DB) (W := W)).
Proof.
  unfold Logs, get_client. apply (respects_bind quiet); [solve_quiet|]. intros c. induction (GetAllLogIDs c) as [|l ls IH]; [solve_quiet|].
  cbn [log_infos]. apply (respects_bind quiet); [unfold log_info, get_client; solve_quiet|]. intros i. apply (respects_bind quiet); [done|]. solve_quiet.
Qed.

Lemma quiet_find_block n hash : respects quiet (find_block (DB := DB) (W := W) peer n hash).
Proof.
  induction n as [|n IH]; cbn [find_block]; (apply (respects_bind quiet); [apply (respects_attempt quiet), quiet_lookup|]).
  - intros [h|e|p]; apply (respects_ret quiet) || apply (respects_lift quiet).
  - intros [h|e|p]; [apply (respects_ret quiet)| |apply (respects_lift quiet)]. destruct n as [|n]; [apply (respects_lift quiet)|].
    apply (respects_bind quiet).
    + intros [c w]. split; [done|]. split; [done|]. cbn [fst snd upd_client modify set_spv spv].
      apply reach_peer, reach_ask, reach_refl.
    + intros _. apply (respects_bind quiet); [apply (respects_gets quiet)|]. intros c.
      destruct (Synced (spv c)); [exact IH|apply (respects_lift quiet)].
Qed.

Lemma quiet_verifyCommitment comm : respects quiet (verifyCommitment (DB := DB) (W := W) peer comm).
Proof.
  unfold verifyCommitment, get_client. destruct (IncludedInBlock comm), (TxHash comm); [|apply (respects_lift quiet)..].
  apply (respects_bind quiet); [apply quiet_find_block|]. intros h. solve_quiet.
Qed.
(** ** What comes over the wire *)

(** The fields of a commitment that its encoding keeps in any case. *)
Definition identified (c : Commitment) : Prop := length (c_Commitment c) = 32%nat ∧ optional_hash_ok (TxHash c).

Definition same_id (c c' : Commitment) : Prop := c_Commitment c' = c_Commitment c ∧ TxHash c' = TxHash c.

Lemma hash_of_bytes_ok b : length b = 32%nat → optional_hash_ok (hash_of_bytes b).
Proof.
  intros Hl. unfold hash_of_bytes. destruct (bytes_eqb (zeros 32) b) eqn:E; [done|]. apply bytes_eqb_false in E.
  unfold NewHash, SetBytes. rewrite bool_decide_eq_false_2 by (intros Hn; by apply Hn). by split.
Qed.

Lemma CommitmentFromBytes_identified b c : CommitmentFromBytes b = Ret c → identified c.
Proof.
  unfold CommitmentFromBytes. destruct (next 32 b) as [b1 r1], (next 32 r1) as [b2 r2], (read_i32_or 0 r2) as [h r3],
    (next 32 r3) as [b3 r4], (read_i32_or h r4) as [i r5], (next_int i r5) as [[p r6]| |]; [|done..].
  intros [= <-]. split; cbn [c_Commitment TxHash]; [|apply hash_of_bytes_ok]; by rewrite go_copy_length.
Qed.

Lemma Commitment_reread c c' b :
  identified c → Commitment_Bytes c = Ret b → CommitmentFromBytes b = Ret c' → same_id c c'.
Proof.
  intros [Hc Ht]. unfold Commitment_Bytes. destruct (MerkleProof_Bytes _) as [m| |]; [|done..]. intros [= <-].
  unfold CommitmentFromBytes. rewrite next_app', next_app' by (done || by apply hash_or_zeros_length).
  destruct (read_i32_or 0 _) as [h r3], (next 32 r3) as [b3 r4], (read_i32_or h r4) as [i r5], (next_int i r5) as [[p r6]| |]; [|done..].
  intros [= <-]. split; cbn [c_Commitment TxHash].
  - by rewrite go_copy_same by (by rewrite length_zeros).
  - rewrite go_copy_same by (rewrite length_zeros; by rewrite hash_or_zeros_length). by apply hash_of_bytes_or.
Qed.

Lemma read_commitments_identified n b cs : read_commitments n b = Ret cs → Forall identified cs.
Proof.
  revert b cs. induction n as [|n IH]; intros b cs; cbn [read_commitments]; [by intros [= <-]|].
  destruct (read_i32_or 0 b) as [l r], (next_int l r) as [[x r']| |]; [|done..]. cbn [mbind outcome_bind].
  destruct (CommitmentFromBytes x) as [c| |] eqn:Ec; [|done..]. cbn [mbind outcome_bind].
  destruct (read_commitments n r') as [cs'| |] eqn:Er; [|done..]. intros [= <-].
  constructor; [by apply CommitmentFromBytes_identified in Ec|by apply IH in Er].
Qed.

Definition event_ok (e : event) : Prop :=
  match e with
  | EvHistory cs => Forall identified cs
  | EvProof pm => cache_ok (pm_root pm) ∧ pm_root pm ≠ NilNode
  | _ => True
  end.

Lemma ReceiveLoop_ok ms es : ReceiveLoop ms = Ret es → Forall event_ok es.
Proof.
  revert es. induction ms as [|[t p] ms IH]; intros es; cbn [ReceiveLoop]; [by intros [= <-]|].
  repeat case_bool_decide.
  all: try (destruct (ReceiveLoop ms); [|done..]; intros [= <-]; constructor; [done|by apply IH]).
  - intros [= <-]. by repeat constructor.
  - destruct (DeserializeNewPartialMPT p) as [[pm r]| |] eqn:Ed; [|by intros [= <-]|done].
    destruct (ReceiveLoop ms); [|done..]. intros [= <-]. constructor; [by apply DeserializeNewPartialMPT_cache in Ed|by apply IH].
  - destruct (NewCommitmentDetailsMessageFromBytes p) as [m| |]; [|by intros [= <-]|done].
    destruct (ReceiveLoop ms); [|done..]. intros [= <-]. constructor; [done|by apply IH].
  - unfold NewCommitmentHistoryMessageFromBytes. destruct (read_i32_or 0 p) as [n r].
    case_bool_decide; [done|]. destruct (read_commitments _ r) as [cs| |] eqn:Er; cbn; [|by intros [= <-]|done].
    destruct (ReceiveLoop ms); [|done..]. intros [= <-]. constructor; [by apply read_commitments_identified in Er|by apply IH].
  - apply IH.
Qed.

Lemma history_identified since s hist s' :
  GetCommitmentHistory (DB := DB) send since s = (Ret hist, s') → Forall identified hist.
Proof.
  unfold GetCommitmentHistory. intros Hg. inv_run Hg. apply lift_Ret in Hg as [Hw ->].
  destruct s as [c w]. unfold exchange in R. destruct (send w _ _) as [[[e|] ms] w']; [done|]. injection R as R _.
  apply ReceiveLoop_ok in R. clear -R Hw. induction R as [|e es He _ IH]; [done|]. destruct e; try by apply IH.
  by injection Hw as <-.
Qed.

Lemma proof_received logIds s pm s' :
  RequestProof (DB := DB) send logIds s = (Ret pm, s') → s'.1 = s.1 ∧ cache_ok (pm_root pm) ∧ pm_root pm ≠ NilNode.
Proof.
  unfold RequestProof. intros Hg. inv_run Hg. apply lift_Ret in Hg as [Hw ->].
  destruct s as [c w]. unfold exchange in R. destruct (send w _ _) as [[[e|] ms] w']; [done|]. injection R as R <-.
  split; [done|]. apply ReceiveLoop_ok in R. clear -R Hw. induction R as [|e es He _ IH]; [done|].
  destruct e; try by apply IH. by injection Hw as <-.
Qed.
End Chain.
