(* ===== verification/ClientChain.v ===== *)
(** * The chain of commitments a client accepts

    Whatever the server and the peer send, and through restarts, the
    commitments a client has accepted, newest first, are a list in which each
    one has a Merkle proof of its transaction hash against a header the client
    looked up, and the raw transaction sent with it, unless it is a maiden
    commitment, spends the change output of the one before it.  That the raw
    transaction is the one with the proved hash is not something the client
    checks; the transactions in the blocks form a chain where it is. *)

From Stdlib Require Import ZArith Lia.
From S2P Require Import Prelude Buffers Sha256 Crypto Utils MerkleTree WireCommon MptNode MptSpec FullMPT MptSerialize PartialMPT WireTypes WireTheorems BtcWire BtcTheorems Difficulty Uspv Store ClientStore Client ClientTheorems.

Local Open Scope Z_scope.

Section Accepted.
Context `{HashFunction} {DB : Type} `{Store DB} {W : Type}
  (send : W → Byte.byte → bytes → (go_error * list (Byte.byte * bytes)) * W)
  (Sign : bytes → outcome bytes)
  (VerifySig : bytes → bytes → bytes → outcome unit)
  (peer : SPVCon → SPVCon).

Abbreviation st := (Client DB * W)%type.
Abbreviation reach := (spv_reach peer).

(** [comm] is in a block whose header the client found, starting from [sp0]. *)
Definition in_block (sp0 : SPVCon) (comm : Commitment) : Prop :=
  ∃ block txHash header sp,
    IncludedInBlock comm = Some block ∧ TxHash comm = Some txHash ∧
    reach sp0 sp ∧ (GetHeaderByBlockHash sp (Some block)).1 = Ret header ∧
    MerkleProof_Check (c_MerkleProof comm) txHash (MerkleRoot header) = Ret true.

(** The raw transaction sent with [comm] spends the second output of the transaction whose
    hash [last] has. *)
Definition spends_change (comm last : Commitment) : Prop :=
  ∃ h op, TxHash last = Some h ∧ first_input (RawTx comm) = Ret op ∧ op_Index op = 1 ∧ Hash op = h.

(** The raw transaction sent with [comm] is the one whose hash is proved to be in the block. *)
Definition raw_matches (comm : Commitment) : Prop :=
  ∃ d, Deserialize (NewMsgTx 1) (RawTx comm) = Ret d ∧ TxHash comm = Some (TxHash_go (dec_val d)).

(** The transaction with the proved hash spends the second output of the one of [last]. *)
Definition proved_spends (comm last : Commitment) : Prop :=
  ∃ tx ti rest h, TxHash comm = Some (TxHash_go tx) ∧ TxHash last = Some h ∧
    tx_TxIn tx = ti :: rest ∧ PreviousOutPoint ti = MkOutPoint h 1.

Lemma raw_matches_spends comm last : raw_matches comm → spends_change comm last → proved_spends comm last.
Proof.
  intros (d & Hd & Ht) (h & op & Hh & Hi & Hx & <-). unfold first_input in Hi. rewrite Hd in Hi.
  cbn [mbind outcome_bind] in Hi. destruct (tx_TxIn (dec_val d)) as [|ti rest] eqn:E; [done|]. injection Hi as <-.
  exists (dec_val d), ti, rest, (Hash (PreviousOutPoint ti)). split_and!; try done.
  destruct (PreviousOutPoint ti). cbn in *. by subst.
Qed.

Inductive accepted (sp0 : SPVCon) : list Commitment → Prop :=
| acc_nil : accepted sp0 []
| acc_cons comm acc (Hacc : accepted sp0 acc) (Hid : identified comm) (Hb : in_block sp0 comm)
    (Hc : c_Commitment comm = MaidenHash ∨ ∃ last, head acc = Some last ∧ spends_change comm last) :
    accepted sp0 (comm :: acc).

Lemma accepted_consecutive sp0 acc newer comm last older :
  accepted sp0 acc → acc = newer ++ comm :: last :: older → c_Commitment comm ≠ MaidenHash → spends_change comm last.
Proof.
  intros Ha. revert newer. induction Ha as [|c acc Ha IH Hid Hb Hc]; intros newer Heq Hm; [by destruct newer|].
  destruct newer as [|n newer]; injection Heq as -> ->; [|by eapply IH].
  destruct Hc as [?|(l & [= <-] & Hs)]; [done|exact Hs].
Qed.

(** ** One commitment *)

Lemma upd_client_Ret f (c : Client DB) (w : W) a s' : upd_client f (c, w) = (Ret a, s') → s' = (f c, w).
Proof. by intros [= _ <-]. Qed.

Lemma get_client_Ret (s : st) c s' : get_client s = (Ret c, s') → c = s.1 ∧ s' = s.
Proof. by intros [= <- <-]. Qed.

Lemma find_block_found n hash s h s' :
  find_block (DB := DB) (W := W) peer n hash s = (Ret h, s') →
  ∃ sp, reach (spv s.1) sp ∧ (GetHeaderByBlockHash sp hash).1 = Ret h.
Proof.
  revert s. induction n as [|n IH]; intros [c w] Hf; cbn [find_block] in Hf; inv_run Hf;
    apply attempt_Ret in R as [R _]; unfold GetBlockHeaderByHash in R;
    destruct (GetHeaderByBlockHash (spv c) hash) as [r s1] eqn:E; injection R as <- <-.
  - destruct r; [|done..]. injection Hf as -> _. exists (spv c). rewrite E. split; [constructor|done].
  - destruct r as [h'|e|p]; [injection Hf as -> _; exists (spv c); rewrite E; by split; [constructor|]| |done].
    destruct n as [|n]; [done|]. inv_run Hf. apply upd_client_Ret in R as ->. inv_run Hf. apply get_client_Ret in R as [-> ->].
    cbn [fst spv set_spv] in Hf. destruct (Synced _); [|done]. apply IH in Hf as (sp & Hr & Hg). exists sp. split; [|done].
    transitivity (peer (AskForHeaders s1).2); [|exact Hr]. apply reach_peer, reach_ask.
    replace s1 with (GetHeaderByBlockHash (spv c) hash).2 by (by rewrite E). apply reach_lookup, reach_refl.
Qed.

Lemma verified comm s s' :
  verifyCommitment (DB := DB) (W := W) peer comm s = (Ret tt, s') →
  in_block (spv s.1) comm ∧
  (c_Commitment comm = MaidenHash ∨ ∃ last, lastServerCommitment s.1 = Some last ∧ spends_change comm last).
Proof.
  unfold verifyCommitment. destruct (IncludedInBlock comm) as [block|] eqn:Eb, (TxHash comm) as [txHash|] eqn:Et; [|done..].
  intros Hv. inv_run Hv. pose proof (quiet_find_block peer 3 (Some block) s) as (Hq & _ & _). rewrite R in Hq. cbn [fst snd] in Hq.
  apply find_block_found in R as (sp & Hr & Hg). inv_run Hv. apply lift_Ret in R as [Hm ->]. destruct a0; [|done].
  split; [by exists block, txHash, a, sp|]. cbn [negb] in Hv. inv_run Hv. apply get_client_Ret in R as [-> ->]. apply lift_Ret in Hv as [Hc _].
  unfold check_chain in Hc. destruct (Deserialize _ _) as [d| |]; [|done..]. cbn [mbind outcome_bind] in Hc.
  destruct (bytes_eqb (c_Commitment comm) MaidenHash) eqn:Em; [left; by apply bytes_eqb_true|right].
  unfold last_tx in Hc. rewrite Hq in Hc. destruct (lastServerCommitment s.1) as [last|]; [|done]. exists last. split; [done|].
  destruct (TxHash last) as [h|] eqn:El; [|done]. cbn [mbind outcome_bind mret outcome_ret] in Hc.
  destruct (first_input (RawTx comm)) as [op| |] eqn:Ei; [|done..]. cbn [mbind outcome_bind] in Hc.
  case_bool_decide as Hi; [|done]. destruct (bytes_eqb (Hash op) h) eqn:Eh; [|done]. apply bytes_eqb_true in Eh.
  by exists h, op.
Qed.

(** ** The invariant *)

Record chain_inv (sp0 : SPVCon) (acc : list Commitment) (s : st) : Prop := {
  ci_acc : accepted sp0 acc;
  ci_spv : reach sp0 (spv s.1);
  ci_last l : lastServerCommitment s.1 = Some l → ∃ l0, head acc = Some l0 ∧ same_id l0 l;
  ci_stored h v : db_get (db s.1) (KCommitment h) = Some v →
    ∃ comm b, comm ∈ acc ∧ c_Commitment comm = h ∧ Commitment_Bytes comm = Ret b ∧ v = VBytes b;
  ci_saved v : db_get (db s.1) KCommitmentLast = Some v →
    ∃ l0 b, head acc = Some l0 ∧ v = VBytes (c_Commitment l0) ∧ Commitment_Bytes l0 = Ret b ∧
            db_get (db s.1) (KCommitment (c_Commitment l0)) = Some (VBytes b)
}.

Lemma chain_inv_quiet sp0 acc s s' : quiet peer s s' → chain_inv sp0 acc s → chain_inv sp0 acc s'.
Proof.
  intros (Hl & Hk & Hr) [Ha Hs Hlast Hst Hsv]. split.
  - done.
  - by transitivity (spv s.1).
  - intros l. rewrite Hl. apply Hlast.
  - intros h v. rewrite Hk by done. apply Hst.
  - intros v. rewrite Hk by done. intros (l0 & b & ? & ? & ? & ?)%Hsv. exists l0, b. by rewrite Hk.
Qed.

Lemma head_identified sp0 acc l : accepted sp0 acc → head acc = Some l → identified l.
Proof. intros []; [done|]. by intros [= <-]. Qed.

Lemma spends_change_same comm l l' : same_id l l' → spends_change comm l' → spends_change comm l.
Proof. intros [_ Ht] (h & op & Hh & Hop). exists h, op. by rewrite <- Ht. Qed.
(** ** Saving, clearing and loading *)

Lemma update_run l (c : Client DB) (w : W) :
  update l (c, w) = (match (db_update (db c) l).2 with None => Ret tt | Some e => Err e end,
                     (set_db (db_update (db c) l).1 c, w)).
Proof. unfold update. rewrite bind_run. cbn [get_client gets fst]. by destruct (db_update (db c) l) as [d err]. Qed.

Lemma save_inv sp0 acc comm s r s' :
  chain_inv sp0 acc s → accepted sp0 (comm :: acc) → saveCommitment comm s = (r, s') →
  chain_inv sp0 acc s' ∨ r = Ret tt ∧ chain_inv sp0 (comm :: acc) s'.
Proof.
  intros Hi Hacc Hrun. pose proof Hi as [Ha Hs Hlast Hst Hsv]. destruct s as [c w]. unfold saveCommitment in Hrun.
  rewrite bind_run in Hrun. unfold lift at 1 in Hrun.
  destruct (Commitment_Bytes comm) as [b| |] eqn:Eb; [|injection Hrun as <- <-; by left..].
  destruct (IncludedInBlock comm) as [block|]; [|injection Hrun as <- <-; by left].
  rewrite bind_run, update_run in Hrun.
  set (l := [_; _; _]) in *. pose proof (db_get_update (db c) l) as Hg. destruct (db_update (db c) l) as [d err]. cbn [fst snd] in Hg, Hrun.
  destruct err as [e|]; injection Hrun as <- <-.
  - left. split; try done; cbn [fst snd db set_db].
    + intros h v. rewrite Hg. apply Hst.
    + intros v. rewrite !Hg. intros (l0 & b' & ?)%Hsv. exists l0, b'. by rewrite Hg.
  - right. split; [done|]. split; cbn [fst snd db set_db set_lastServerCommitment spv lastServerCommitment]; try done.
    + intros l' [= <-]. by exists comm.
    + intros h v. rewrite Hg. subst l. rewrite !written_cons. rewrite (decide_False (P := KBlock _ = _)), (decide_False (P := KCommitmentLast = _)) by done.
      destruct (decide (KCommitment (c_Commitment comm) = KCommitment h)) as [[= <-]|].
      * intros [= <-]. exists comm, b. split; [left|done].
      * intros (comm' & b' & ? & ?)%Hst. exists comm', b'. split; [by right|done].
    + intros v. rewrite !Hg. subst l. rewrite !written_cons. rewrite decide_True by done. intros [= <-]. exists comm, b.
      split_and!; try done. rewrite Hg, !written_cons. rewrite (decide_False (P := KBlock _ = _)), (decide_False (P := KCommitmentLast = _)) by done.
      by rewrite decide_True.
Qed.

Lemma verify_all_inv sp0 hist acc s :
  Forall identified hist → chain_inv sp0 acc s → ∃ acc', chain_inv sp0 (acc' ++ acc) (verify_all (DB := DB) (W := W) peer hist s).2.
Proof.
  intros Hid. revert acc s. induction Hid as [|comm hist Hc _ IH]; intros acc s Hi; cbn [verify_all]; [by exists []|].
  rewrite bind_run. pose proof (chain_inv_quiet _ _ _ _ (quiet_verifyCommitment peer comm s) Hi) as Hi1.
  unfold attempt at 1. destruct (verifyCommitment peer comm s) as [r s1] eqn:Ev. cbn [snd] in Hi1.
  destruct r as [[]|e|p]; [|destruct (String.eqb e _); by exists []|by exists []].
  apply verified in Ev as [Hb Hc'].
  assert (accepted sp0 (comm :: acc)) as Hacc.
  { destruct Hi as [Ha Hs Hlast _ _]. constructor; [done..| |].
    - destruct Hb as (block & txHash & header & sp & ? & ? & ? & ?). exists block, txHash, header, sp.
      split_and!; try done; [by transitivity (spv s.1)|tauto..].
    - destruct Hc' as [?|(last & Hl & Hsp)]; [by left|right]. apply Hlast in Hl as (l0 & Hh & Hsame). exists l0.
      split; [done|by apply (spends_change_same _ _ last)]. }
  rewrite bind_run. unfold attempt. destruct (saveCommitment comm s1) as [r s2] eqn:Es.
  pose proof (save_inv _ _ _ _ _ _ Hi1 Hacc Es) as Hsv. destruct r as [[]|e|p].
  - destruct Hsv as [Hi2|[_ Hi2]]; apply IH in Hi2 as [acc' Hi2]; [by exists acc'|]. exists (acc' ++ [comm]). by rewrite <- app_assoc.
  - exists []. destruct Hsv as [Hi2|[]]; done.
  - exists []. destruct Hsv as [Hi2|[]]; done.
Qed.

Lemma clear_inv sp0 acc s : chain_inv sp0 acc s → chain_inv sp0 acc (ClearCommitments (DB := DB) (W := W) s).2.
Proof.
  intros [Ha Hs Hlast Hst Hsv]. destruct s as [c w]. unfold ClearCommitments. rewrite bind_run. cbn [get_client gets fst].
  set (keys := omap _ _). pose proof (db_get_delete (db c) keys) as Hg.
  destruct (db_delete (db c) keys) as [d err]. cbn [fst snd] in Hg.
  assert (∀ k v, db_get d k = Some v → db_get (db c) k = Some v) as Hold.
  { intros k v. rewrite Hg. destruct err; [done|]. by destruct (decide (k ∈ keys)). }
  assert (∀ k v, db_get d KCommitmentLast = Some v → commitment_key k = true → db_get d k = db_get (db c) k) as Hkeep.
  { intros k v Hk _. destruct err as [e|]; [by rewrite Hg|]. exfalso. pose proof (Hold _ _ Hk) as Hc'. rewrite Hg in Hk.
    rewrite decide_True in Hk; [done|]. apply db_list_get in Hc'. apply list_elem_of_omap. by eexists (_, _). }
  rewrite bind_run. cbn [upd_client modify]. split; cbn [check lift fst snd db set_db spv lastServerCommitment]; try done.
  - intros h v Hh. by apply Hst, Hold.
  - intros v Hv. destruct (Hsv v (Hold _ _ Hv)) as (l0 & b & ? & ? & ? & ?). exists l0, b. split_and!; try done. by rewrite (Hkeep _ v).
Qed.

(** A restart loses the memory and loads the last commitment. *)
Definition restart : prog st unit := _ ← upd_client (set_lastServerCommitment None); loadStuff.

Lemma restart_inv sp0 acc s : chain_inv sp0 acc s → chain_inv sp0 acc (restart s).2.
Proof.
  intros [Ha Hs Hlast Hst Hsv]. destruct s as [c w]. unfold restart. rewrite bind_run. cbn [upd_client modify].
  unfold loadStuff. rewrite bind_run. cbn [get_client gets fst db set_lastServerCommitment].
  set (c0 := set_lastServerCommitment None c).
  assert (chain_inv sp0 acc (c0, w)) as Hnone by (split; done).
  destruct (db_get (db c) KCommitmentLast) as [v|] eqn:El; [|done]. apply Hsv in El as (l0 & b & Hh & -> & Hb & Hk).
  pose proof (head_identified _ _ _ Ha Hh) as Hid. unfold array32. cbn [bytes_of]. rewrite go_copy_same by (rewrite length_zeros; by destruct Hid).
  unfold getCommitment, get. cbn [db c0 set_lastServerCommitment fst] in Hk |- *. rewrite Hk. cbn [mbind outcome_bind mret outcome_ret bytes_of].
  destruct (CommitmentFromBytes b) as [l| |] eqn:Ec; [|done..]. apply (Commitment_reread l0) in Ec; [|done..].
  split; try done. cbn. intros l' [= <-]. by exists l0.
Qed.

(** ** Any use of the client *)

Inductive request :=
| RStartLog (statement : bytes)
| RStartLogText (statement : bytes)
| RAppendLog (idx : Z) (logId statement : bytes)
| RAppendLogText (idx : Z) (logId statement : bytes)
| RSubscribe
| RUnsubscribe
| RDetails (commitment : bytes)
| RAddForeignLog (statement : ForeignStatement)
| RVerifyOnce (statement : ForeignStatement)
| RLogs
| RClearCommitments
| RRestart
| RVerifyLoop
| RPeer.

(** The state after a request, whatever it returned. *)
Definition serve (r : request) (s : st) : st :=
  match r with
  | RStartLog b => (StartLog send Sign b s).2
  | RStartLogText b => (StartLogText send Sign b s).2
  | RAppendLog idx id b => (AppendLog send Sign idx id b s).2
  | RAppendLogText idx id b => (AppendLogText send Sign idx id b s).2
  | RSubscribe => (SubscribeProofUpdates send s).2
  | RUnsubscribe => (UnsubscribeProofUpdates send s).2
  | RDetails h => (GetCommitmentDetails send h s).2
  | RAddForeignLog fs => (AddForeignLog VerifySig fs s).2
  | RVerifyOnce fs => (VerifyOnce VerifySig fs s).2
  | RLogs => (Logs s).2
  | RClearCommitments => (ClearCommitments s).2
  | RRestart => (restart s).2
  | RVerifyLoop => (verifyLoop_step send peer s).2
  | RPeer => (set_spv (peer (spv s.1)) s.1, s.2)
  end.

Definition serve_all (rs : list request) (s : st) : st := foldl (λ s r, serve r s) s rs.

Lemma verifyLoop_inv sp0 acc s :
  chain_inv sp0 acc s → ∃ acc', chain_inv sp0 (acc' ++ acc) (verifyLoop_step send peer s).2.
Proof.
  intros Hi. unfold verifyLoop_step. rewrite bind_run. cbn [get_client gets]. destruct (Synced (spv s.1)); [|by exists []].
  set (since := match lastServerCommitment s.1 with Some _ => _ | None => _ end). rewrite bind_run. unfold attempt at 1.
  pose proof (quiet_GetCommitmentHistory send peer since s) as Hq. destruct (GetCommitmentHistory send since s) as [r s1] eqn:Eh. cbn [snd] in Hq. apply (chain_inv_quiet _ _ _ _ Hq) in Hi.
  destruct r as [hist|e|p]; [|by exists []..]. apply history_identified in Eh. rewrite bind_run.
  destruct (verify_all_inv sp0 hist acc s1 Eh Hi) as [acc' Hi']. exists acc'. destruct (verify_all peer hist s1) as [r s2]. cbn [snd] in Hi'.
  destruct r as [d|e|p]; [|done..]. destruct d; cbn [negb]; [|done]. case_bool_decide; [|done].
  rewrite bind_run. unfold attempt. pose proof (chain_inv_quiet _ _ _ _ (quiet_updateProofs send peer s2) Hi') as Hi3.
  destruct (updateProofs send s2) as [r s3]. by destruct r.
Qed.

Lemma serve_inv sp0 r acc s : chain_inv sp0 acc s → ∃ acc', chain_inv sp0 (acc' ++ acc) (serve r s).
Proof.
  intros Hi. destruct r; cbn [serve]; try (exists []; exact (clear_inv _ _ _ Hi) || exact (restart_inv _ _ _ Hi)).
  1-10: exists []; apply (chain_inv_quiet _ _ s); [|exact Hi].
  - apply quiet_StartLog.
  - by apply (quiet_texts send Sign peer 0 []).
  - apply quiet_AppendLog.
  - by apply (quiet_texts send Sign peer _ _ _).
  - by apply (quiet_requests send peer []).
  - by apply (quiet_requests send peer []).
  - by apply (quiet_requests send peer _).
  - apply quiet_AddForeignLog.
  - apply quiet_VerifyOnce.
  - apply quiet_Logs.
  - by apply verifyLoop_inv.
  - exists []. apply (chain_inv_quiet _ _ s); [|exact Hi]. split; [done|]. split; [done|]. apply reach_peer, reach_refl.
Qed.

Lemma serve_all_inv sp0 rs acc s : chain_inv sp0 acc s → ∃ acc', chain_inv sp0 (acc' ++ acc) (serve_all rs s).
Proof.
  revert acc s. induction rs as [|r rs IH]; intros acc s Hi; [by exists []|].
  apply (serve_inv _ r) in Hi as [a1 Hi]. apply IH in Hi as [a2 Hi]. exists (a2 ++ a1). by rewrite <- app_assoc.
Qed.

End Accepted.

(** ** A run *)

(** Two blocks, each with the transaction of a commitment as its only one; the second
    transaction spends the change of the first. *)
Definition run_t0 : bytes := replicate 32 x11.
Definition run_tx1 : MsgTx :=
  MkMsgTx 2 [NewTxIn (MkOutPoint run_t0 1) [x51] []] [NewTxOut 0 [x6a]; NewTxOut 1000 [x51]] 0.
Definition run_t1 : bytes := Eval vm_compute in TxHash_go run_tx1.
Definition run_raw1 : bytes := Eval vm_compute in Serialize run_tx1.
Definition run_h1 : BlockHeader := MkBlockHeader 1 (BlockHash regTestGenesisHeader) run_t0 1296689202 0x207fffff 1.
Definition run_h1_hash : bytes := Eval vm_compute in BlockHash run_h1.
Definition run_h2 : BlockHeader := MkBlockHeader 1 run_h1_hash run_t1 1296689802 0x207fffff 0.
Definition run_h2_hash : bytes := Eval vm_compute in BlockHash run_h2.
Definition run_spv : SPVCon :=
  set_Synced true (openHeaderFile (Some (concat (map writeBlockHeader [regTestGenesisHeader; run_h1; run_h2]))) RegressionNetParams).
Definition run_c0 : Commitment := MkCommitment MaidenHash (Some run_t0) 1 (Some run_h1_hash) (MkMerkleProof 0 []) [].
Definition run_c1 : Commitment := MkCommitment (replicate 32 x22) (Some run_t1) 2 (Some run_h2_hash) (MkMerkleProof 0 []) run_raw1.

(** A server that answers every request with the two commitments, and a peer that sends nothing. *)
Definition run_send (w : unit) (t : Byte.byte) (m : bytes) : (go_error * list (Byte.byte * bytes)) * unit :=
  match CommitmentHistoryMessage_Bytes (NewCommitmentHistoryMessage [run_c0; run_c1]) with
  | Ret b => ((None, [(MessageTypeCommitmentHistory, b)]), w)
  | _ => ((Some "send", []), w)
  end.
Definition run_client : Client memory := MkClient (zeros 33) ∅ run_spv None true false true.

