(* ===== verification/ClientProofs.v ===== *)
(** * What the client's stored proofs show

    After [updateProofs] every log of the client that it marks as committed is
    in the trie behind the commitment with the value the client itself wrote. *)

From Stdlib Require Import ZArith Lia.
From S2P Require Import Prelude Buffers Sha256 Crypto Utils MerkleTree WireCommon MptNode MptSpec FullMPT MptTrie MptInv MptTheorems MptBinding MptSerialize PartialMPT PartialTheorems WireTypes WireTheorems BtcWire BtcTheorems Difficulty Uspv UspvClaims Store ClientStore Client ClientTheorems ClientChain.

Local Open Scope Z_scope.

Section Proofs.
Context `{HashFunction} {DB : Type} `{Store DB} {W : Type}
  (send : W → Byte.byte → bytes → (go_error * list (Byte.byte * bytes)) * W).

(** The hashes the client stores of its own statements. *)
Definition hashes_stored (c : Client DB) : Prop :=
  ∀ id i v, db_get (db c) (KLogHash id i) = Some v → ∃ h, v = VBytes h ∧ h ≠ [].

(** ** One log *)

Lemma value_index_stored (c : Client DB) l val idx :
  value_index c l val = Some idx → ∃ v, db_get (db c) (KLogHash l idx) = Some v ∧ bytes_of v = default [] val.
Proof.
  unfold value_index. intros Hh. destruct (omap _ _) as [|i is'] eqn:E; [done|]. injection Hh as ->.
  assert (idx ∈ idx :: is') as Hin by left. rewrite <- E in Hin. apply list_elem_of_omap in Hin as ([k v] & Hin & Hf).
  apply list_elem_of_In, in_rev, list_elem_of_In, db_list_get in Hin. destruct k; try done.
  destruct (bytes_eqb logId l && bytes_eqb (bytes_of v) (default [] val)) eqn:Eb; [|done]. injection Hf as ->.
  apply andb_prop in Eb as [El Ev]. apply bytes_eqb_true in El as ->. apply bytes_eqb_true in Ev. by exists v.
Qed.

Lemma value_index_None (c : Client DB) l h idx :
  value_index c l (Some h) = None → db_get (db c) (KLogHash l idx) ≠ Some (VBytes h).
Proof.
  unfold value_index. intros Hh Hg. apply db_list_get in Hg. destruct (omap _ _) as [|i is'] eqn:E; [|done].
  assert (idx ∈ @nil Z) as Hin; [|by apply not_elem_of_nil in Hin]. rewrite <- E. apply list_elem_of_omap.
  exists (KLogHash l idx, VBytes h). split; [by apply list_elem_of_In, in_rev; rewrite rev_involutive; apply list_elem_of_In|].
  cbn [bytes_of default]. by rewrite !bytes_eqb_refl.
Qed.

(** What the check of a log means. *)
Inductive log_checked (c : Client DB) (pm : PartialMPT) (l : bytes) : option Z → Prop :=
| checked_pending : LogHasCommitment c l = false → (∀ v, PartialMPT_Get pm l ≠ Ret (Some v)) → log_checked c pm l None
| checked_foreign : IsForeignLog c l = true →
    (∀ idx h, PartialMPT_Get pm l = Ret (Some h) → db_get (db c) (KLogHash l idx) ≠ Some (VBytes h)) →
    log_checked c pm l None
| checked_index idx h : PartialMPT_Get pm l = Ret (Some h) → db_get (db c) (KLogHash l idx) = Some (VBytes h) →
    log_checked c pm l (Some idx).

Lemma check_log_spec (c : Client DB) pm l o : hashes_stored c → check_log c pm l = Ret o → log_checked c pm l o.
Proof.
  intros Hst. unfold check_log. destruct (PartialMPT_Get pm l) as [val|e|] eqn:Eg; [| |done].
  - destruct (bool_decide (val = None) && negb (LogHasCommitment c l)) eqn:Eb.
    { apply andb_prop in Eb as [Ev Eh]. apply bool_decide_eq_true in Ev as ->. intros [= <-].
      apply checked_pending; [by destruct (LogHasCommitment c l)|]. by rewrite Eg. }
    destruct (value_index c l val) as [idx|] eqn:Ei.
    + intros [= <-]. apply value_index_stored in Ei as (v & Hv & Hb). destruct (Hst _ _ _ Hv) as (h & -> & Hne).
      cbn [bytes_of] in Hb. subst h. destruct val as [h|]; [|done]. by eapply checked_index.
    + destruct (IsForeignLog c l) eqn:Ef; [|done]. intros [= <-]. apply checked_foreign; [done|].
      intros idx h Hg'. rewrite Eg in Hg'. injection Hg' as ->. by apply value_index_None.
  - destruct (LogHasCommitment c l) eqn:Eh; [done|]. intros [= <-]. apply checked_pending; [done|]. by rewrite Eg.
Qed.

Lemma check_logs_spec (c : Client DB) pm root ids writes :
  check_logs c pm root ids = Ret writes →
  (∀ l, l ∈ ids → ∃ o, check_log c pm l = Ret o ∧ ∀ idx, o = Some idx → (KLogCommitment l (u64 idx), VBytes root) ∈ writes) ∧
  Forall (λ x, x.2 = VBytes root ∧ ∃ l idx, x.1 = KLogCommitment l (u64 idx) ∧ l ∈ ids ∧
    check_log c pm l = Ret (Some idx)) writes.
Proof.
  revert writes. induction ids as [|i ids IH]; intros writes; cbn [check_logs].
  - intros [= <-]. split; [|constructor]. intros l Hl. by apply not_elem_of_nil in Hl.
  - destruct (check_log c pm i) as [o| |] eqn:Ei; [|done..]. cbn [mbind outcome_bind].
    destruct (check_logs c pm root ids) as [rest| |]; [|done..]. destruct (IH _ eq_refl) as [Hl Hf]. intros [= <-]. split.
    + intros l [->|Hin]%elem_of_cons.
      * exists o. split; [done|]. intros idx ->. left.
      * destruct (Hl l Hin) as (o' & Ho & Hw). exists o'. split; [done|]. intros idx Hi. specialize (Hw idx Hi).
        destruct o; [by right|done].
    + assert (Forall (λ x, x.2 = VBytes root ∧ ∃ l idx, x.1 = KLogCommitment l (u64 idx) ∧ l ∈ i :: ids ∧
        check_log c pm l = Ret (Some idx)) rest) as Hr.
      { eapply Forall_impl; [exact Hf|]. intros x (? & l & idx & ? & ? & ?). split; [done|]. exists l, idx. split_and!; auto. by right. }
      destruct o as [z|]; [|done]. constructor; [|done]. cbn. split; [done|]. exists i, z. split_and!; auto. left.
Qed.

(** A key that is only written with one value. *)
Lemma written_all (l : list (ckey * cvalue)) k v o :
  (k, v) ∈ l → (∀ v', (k, v') ∈ l → v' = v) → written l k o = Some v.
Proof.
  revert o. induction l as [|[k' v'] l IH]; intros o Hin Hall; [by apply not_elem_of_nil in Hin|]. rewrite written_cons.
  destruct (decide ((k, v) ∈ l)) as [Hl|Hl]; [apply IH; [done|]; intros v2 ?; apply Hall; by right|].
  apply elem_of_cons in Hin as [[= <- <-]|?]; [|done]. rewrite decide_True by done. apply written_not.
  intros ([k2 v2] & Hk & Hin)%list_elem_of_fmap. cbn in Hk. subst k2. assert (v2 = v) as -> by (apply Hall; by right). done.
Qed.

(** What [updateProofs] writes: the proof, and the marks of the checked logs. *)
Definition log_writes (c : Client DB) (pm : PartialMPT) (root : bytes) (ids : list bytes) (ws : list (ckey * cvalue)) : Prop :=
  Forall (λ x, x.2 = VBytes root ∧ ∃ l idx, x.1 = KLogCommitment l (u64 idx) ∧ l ∈ ids ∧ check_log c pm l = Ret (Some idx)) ws.

Lemma written_proof root b ids (c : Client DB) pm ws o :
  log_writes c pm root ids ws → written ((KProof root, b) :: ws) (KProof root) o = Some b.
Proof.
  intros Hk. apply written_all; [left|]. intros v' [[= ->]|Hin]%elem_of_cons; [done|].
  unfold log_writes in Hk. rewrite Forall_forall in Hk. apply Hk in Hin as (_ & ? & ? & ? & _). done.
Qed.

Lemma written_mark (c : Client DB) pm root ids ws k b o :
  log_writes c pm root ids ws → (k, VBytes root) ∈ ws → written ((KProof root, b) :: ws) k o = Some (VBytes root).
Proof.
  intros Hk Hin. unfold log_writes in Hk. rewrite Forall_forall in Hk. apply written_all; [by right|]. intros v' [[= -> ->]|Hin']%elem_of_cons.
  - apply Hk in Hin as (_ & ? & ? & ? & _). done.
  - by apply Hk in Hin' as [Hv _].
Qed.

Lemma marks_written (c : Client DB) pm root ids ws (d0 d : DB) b :
  log_writes c pm root ids ws → (∀ k, db_get d k = written ((KProof root, VBytes b) :: ws) k (db_get d0 k)) →
  ∀ l i, db_get d (KLogCommitment l i) = db_get d0 (KLogCommitment l i) ∨
    db_get d (KLogCommitment l i) = Some (VBytes root) ∧ l ∈ ids ∧
    ∃ idx, i = u64 idx ∧ check_log c pm l = Ret (Some idx).
Proof.
  intros Hk Hd l i. rewrite Hd. destruct (decide (KLogCommitment l i ∈ map fst ws)) as [Hin|Hn].
  - right. apply list_elem_of_fmap in Hin as ([k v] & Heq & Hin). cbn in Heq. subst k.
    pose proof Hk as Hk'. unfold log_writes in Hk'. rewrite Forall_forall in Hk'.
    destruct (Hk' _ Hin) as (Hv & l' & idx & Heq & Hl & Hc). cbn in Hv, Heq. subst v. injection Heq as <- ->.
    split; [by eapply written_mark|]. split; [done|]. by exists idx.
  - left. apply written_not. cbn [map fst]. by apply not_elem_of_cons.
Qed.

(** ** Soundness *)

Lemma received_sound pm0 pm root fm fm1 l h :
  cache_ok (pm_root pm0) → pm_root pm0 ≠ NilNode → PartialMPT_Commitment pm0 = Ret (root, pm) →
  valid 32 fm → FullMPT.Commitment fm = Ret (root, fm1) → length l = 32%nat → PartialMPT_Get pm l = Ret (Some h) →
  Get fm l = Ret (Some h) ∨ ambiguous (pm_root pm) (fm_root fm) ∨ odd_leaf 32 (pm_root pm).
Proof.
  intros Hc Hn Hp Hv Hcm Hl Hg. destruct (GetHash_spec _ Hc Hn) as (m & Hm & He & _). unfold PartialMPT_Commitment in Hp.
  rewrite Hm in Hp. injection Hp as <- <-. destruct (Commitment_spec 32 fm Hv) as (fm2 & Hc2 & _). rewrite Hc2 in Hcm.
  injection Hcm as Heq _. cbn [pm_root] in *. rewrite (Get_spec 32) by (done || lia).
  destruct (sound_get 32 [] m (fm_root fm) l (Some h)) as [->|Ho]; auto using prefix_nil; [lia|by right; destruct Hv|].
  by rewrite (hashOf_proper _ _ He).
Qed.

(** What a run of [updateProofs] did to the marks of the logs. *)
Definition marks_unchanged (c c' : Client DB) (l : bytes) : Prop :=
  ∀ i, db_get (db c') (KLogCommitment l i) = db_get (db c) (KLogCommitment l i).

(** C8. Proofs are checked before logs are marked as committed. When [updateProofs] succeeds on
    a client with logs, whatever the server sent: the root of the proof it stores is a
    commitment the client has accepted, and for every log of the client one of these holds.
    The log is not committed yet (no commitment known and no value in the proof) and its marks
    are unchanged; or it is a foreign log whose value in the proof is none of its stored hashes,
    and its marks are unchanged; or it is marked as committed under this root at an index whose
    stored hash is the value in the proof, and so, for the trie behind the root, the value of
    the log in that trie, up to the ambiguities of the trie's hashes and keys of another length.
    No mark changes in any other way: a mark that differs after the run is the root, for a log
    of the client, at the index of a stored hash that is the value in the proof. *)
Theorem committed_logs_in_trie (c c' : Client DB) (w w' : W)
  (Hst : hashes_stored c) (Hlogs : GetAllLogIDs c ≠ [])
  (Hrun : updateProofs send (c, w) = (Ret tt, (c', w'))) :
  ∃ root comm pm, getCommitment c root = Ret comm ∧ db_get (db c') (KProof root) = Some (VBytes (PartialMPT_Bytes pm)) ∧
    (∀ l, l ∈ GetAllLogIDs c →
      (LogHasCommitment c l = false ∧ (∀ v, PartialMPT_Get pm l ≠ Ret (Some v)) ∧ marks_unchanged c c' l) ∨
      (IsForeignLog c l = true ∧
       (∀ idx h, PartialMPT_Get pm l = Ret (Some h) → db_get (db c) (KLogHash l idx) ≠ Some (VBytes h)) ∧
       marks_unchanged c c' l) ∨
      ∃ idx h, PartialMPT_Get pm l = Ret (Some h) ∧ db_get (db c) (KLogHash l idx) = Some (VBytes h) ∧
        db_get (db c') (KLogCommitment l (u64 idx)) = Some (VBytes root) ∧
        ∀ fm fm1, valid 32 fm → FullMPT.Commitment fm = Ret (root, fm1) → length l = 32%nat →
          Get fm l = Ret (Some h) ∨ ambiguous (pm_root pm) (fm_root fm) ∨ odd_leaf 32 (pm_root pm)) ∧
    (∀ l i, db_get (db c') (KLogCommitment l i) = db_get (db c) (KLogCommitment l i) ∨
      db_get (db c') (KLogCommitment l i) = Some (VBytes root) ∧ l ∈ GetAllLogIDs c ∧
      ∃ idx h, i = u64 idx ∧ PartialMPT_Get pm l = Ret (Some h) ∧ db_get (db c) (KLogHash l idx) = Some (VBytes h)).
Proof.
  unfold updateProofs in Hrun. inv_run Hrun. apply get_client_Ret in R as [-> ->]. cbn [fst] in Hrun.
  rewrite bool_decide_eq_false_2 in Hrun by (unfold len; by destruct (GetAllLogIDs c)).
  inv_run Hrun. apply proof_received in R as (Hs & Hcache & Hnil). destruct s as [c1 w1]. cbn in Hs. subst c1.
  inv_run Hrun. apply lift_Ret in R as [Hcm ->]. destruct a0 as [root pm]. inv_run Hrun. apply lift_Ret in R as [Hk ->].
  inv_run Hrun. apply lift_Ret in R as [Hw ->]. rewrite update_run in Hrun.
  pose proof (db_get_update (db c) ((KProof root, VBytes (PartialMPT_Bytes pm)) :: a1)) as Hdb.
  destruct (db_update (db c) _) as [d [e|]]; [done|]. injection Hrun as <- <-. cbn [fst snd] in Hdb.
  apply check_logs_spec in Hw as [Hall Hkeys].
  destruct (getCommitment c root) as [comm| |] eqn:Ec; [|done..]. exists root, comm, pm. split; [done|]. split.
  { cbn [db set_db]. rewrite Hdb. exact (written_proof root _ (GetAllLogIDs c) c pm a1 _ Hkeys). }
  assert (Hmark := marks_written c pm root (GetAllLogIDs c) a1 (db c) d (PartialMPT_Bytes pm) Hkeys Hdb). split.
  - intros l Hl. destruct (Hall l Hl) as (o & Ho & Hin). pose proof Ho as Hc. apply check_log_spec in Hc; [|done].
    assert (o = None → marks_unchanged c (set_db d c) l) as Hun.
    { intros -> i. destruct (Hmark l i) as [?|(_ & _ & idx & _ & Hi)]; [done|congruence]. }
    destruct Hc as [Hp Hv|Hf Hv|idx h Hg Hv]; [left; auto|right; left; auto|right; right].
    exists idx, h. split_and!; [done|done| |].
    + cbn [db set_db]. rewrite Hdb. by apply (written_mark c pm root (GetAllLogIDs c)), Hin.
    + intros fm fm1 Hvl Hcf Hlen. by apply (received_sound a pm root fm fm1).
  - intros l i. destruct (Hmark l i) as [?|(? & ? & idx & -> & Hc)]; [by left|right]. split; [done|]. split; [done|].
    apply check_log_spec in Hc; [|done]. inversion Hc as [| |? h Hg Hv]; subst. by exists idx, h.
Qed.
End Proofs.

(** ** A run *)

(** A client with one log, and a server that sends the proof for it. *)
Definition one_id : bytes := replicate 32 x05.
Definition one_hash : bytes := replicate 32 x06.
Definition one_trie : FullMPT := trie_of [OInsert one_id one_hash].
Definition one_root : bytes := Eval vm_compute in match FullMPT.Commitment one_trie with Ret (c, _) => c | _ => [] end.
Definition one_proof : bytes := Eval vm_compute in
  match NewPartialMPTIncludingKeys one_trie [one_id] with Ret (pm, _) => PartialMPT_Bytes pm | _ => [] end.
Definition one_commitment : Commitment := MkCommitment one_root (Some (zeros 32)) 7 (Some (zeros 32)) (MkMerkleProof 0 []) [].
Definition one_db : memory :=
  list_to_map [(KLog one_id, VBytes [x31]); (KLastIdx one_id, VNum 0); (KLogHash one_id 0, VBytes one_hash);
               (KCommitment one_root, VBytes match Commitment_Bytes one_commitment with Ret b => b | _ => [] end)].
Definition one_client : Client memory := MkClient (zeros 33) one_db (openHeaderFile None RegressionNetParams) None true false true.
Definition one_send (w : unit) (t : Byte.byte) (m : bytes) : (go_error * list (Byte.byte * bytes)) * unit :=
  ((None, [(MessageTypeProof, one_proof)]), w).
Definition one_after : Client memory := (updateProofs one_send (one_client, tt)).2.1.

Lemma one_stored : hashes_stored one_client.
Proof.
  intros id i v Hv. unfold one_client in Hv. cbn [db db_get memory_store] in Hv. unfold one_db in Hv.
  apply elem_of_list_to_map_2 in Hv. repeat apply elem_of_cons in Hv as [[=]|Hv]; [subst; by exists one_hash|].
  by apply not_elem_of_nil in Hv.
Qed.

Lemma committed_logs_in_trie_witness :
  db_get (db one_after) (KLogCommitment one_id 0) = Some (VBytes one_root) ∧
  ∃ root comm pm, getCommitment one_client root = Ret comm ∧ db_get (db one_after) (KProof root) = Some (VBytes (PartialMPT_Bytes pm)) ∧
    (∀ l, l ∈ GetAllLogIDs one_client →
      (LogHasCommitment one_client l = false ∧ (∀ v, PartialMPT_Get pm l ≠ Ret (Some v)) ∧ marks_unchanged one_client one_after l) ∨
      (IsForeignLog one_client l = true ∧
       (∀ idx h, PartialMPT_Get pm l = Ret (Some h) → db_get (db one_client) (KLogHash l idx) ≠ Some (VBytes h)) ∧
       marks_unchanged one_client one_after l) ∨
      ∃ idx h, PartialMPT_Get pm l = Ret (Some h) ∧ db_get (db one_client) (KLogHash l idx) = Some (VBytes h) ∧
        db_get (db one_after) (KLogCommitment l (u64 idx)) = Some (VBytes root) ∧
        ∀ fm fm1, valid 32 fm → FullMPT.Commitment fm = Ret (root, fm1) → length l = 32%nat →
          Get fm l = Ret (Some h) ∨ ambiguous (pm_root pm) (fm_root fm) ∨ odd_leaf 32 (pm_root pm)) ∧
    (∀ l i, db_get (db one_after) (KLogCommitment l i) = db_get (db one_client) (KLogCommitment l i) ∨
      db_get (db one_after) (KLogCommitment l i) = Some (VBytes root) ∧ l ∈ GetAllLogIDs one_client ∧
      ∃ idx h, i = u64 idx ∧ PartialMPT_Get pm l = Ret (Some h) ∧ db_get (db one_client) (KLogHash l idx) = Some (VBytes h)).
Proof.
  split; [vm_compute; reflexivity|].
  apply (committed_logs_in_trie one_send one_client one_after tt (updateProofs one_send (one_client, tt)).2.2).
  - exact one_stored.
  - vm_compute. discriminate.
  - unfold one_after. rewrite <- surjective_pairing. refine (pair_result _ _ _). vm_compute. reflexivity.
Defined.
