(* ===== verification/ClientExport.v ===== *)
(** * Exporting a log, and what the client does not check

    A statement that is appended, committed and exported is recognized by
    another client, but not in fast mode.  A commitment is accepted whatever
    value it claims to commit to. *)

From Stdlib Require Import ZArith Lia.
From S2P Require Import Prelude Buffers Sha256 Crypto Utils MerkleTree WireCommon MptNode MptSpec FullMPT MptSerialize PartialMPT WireTypes WireTheorems BtcWire BtcTheorems Difficulty Uspv UspvClaims Store ClientStore Client ClientTheorems ClientChain ClientProofs.

Local Open Scope Z_scope.

Section Exporting.
Context `{HashFunction} {DB : Type} `{Store DB} {W : Type}
  (send : W → Byte.byte → bytes → (go_error * list (Byte.byte * bytes)) * W)
  (Sign : bytes → outcome bytes)
  (VerifySig : bytes → bytes → bytes → outcome unit)
  (peer : SPVCon → SPVCon).

(** ** What is stored and what is exported *)

Lemma update_stores l (c : Client DB) (w : W) a c' w' :
  update l (c, w) = (Ret a, (c', w')) → ∀ k, db_get (db c') k = written l k (db_get (db c) k).
Proof.
  rewrite update_run. pose proof (db_get_update (db c) l) as Hg.
  destruct (db_update (db c) l) as [d [e|]]; [done|]. by intros [= _ <- <-].
Qed.

Lemma update_settings l (c : Client DB) (w : W) r c' w' :
  update l (c, w) = (r, (c', w')) → pubKey c' = pubKey c ∧ fullClient c' = fullClient c.
Proof. rewrite update_run. by intros [= _ <- _]. Qed.

Lemma exchange_client t m (s : Client DB * W) r s' : exchange send t m s = (r, s') → s'.1 = s.1.
Proof. destruct s as [c w]. unfold exchange. destruct (send w t m) as [[[e|] ms] w']; by intros [= _ <-]. Qed.

(** An appended statement and its text in the database. *)
Lemma appended_stored idx id text (c c1 : Client DB) (w w1 : W) :
  fullClient c = true → AppendLogText send Sign idx id text (c, w) = (Ret tt, (c1, w1)) →
  ∃ st l, append_checks c idx id (Sum256 text) = Ret st ∧ SignedAppendLog Sign c idx id st = Ret l ∧
    db_get (db c1) (KLogHash id idx) = Some (VBytes (Sum256 (SignedLogStatement_Bytes l))) ∧
    db_get (db c1) (KLogPreimage id idx) = Some (VBytes text).
Proof.
  intros Hfull Hrun. unfold AppendLogText in Hrun. inv_run Hrun. destruct s as [c2 w2]. unfold AppendLog in R. inv_run R.
  apply get_client_Ret in R0 as [-> ->]. cbn [fst] in R. inv_run R. apply lift_Ret in R0 as [Hst ->].
  inv_run R. apply lift_Ret in R0 as [Hl ->]. exists a0, a1. split; [done|]. split; [done|].
  inv_run R. apply exchange_client in R0. inv_run R. apply lift_Ret in R1 as [_ ->]. destruct s as [c3 w3]. cbn [fst] in R0. subst c3.
  rewrite Hfull in R. pose proof (update_stores _ _ _ _ _ _ R) as Hdb. apply update_settings in R as [_ Hf].
  inv_run Hrun. apply get_client_Ret in R as [-> ->]. cbn [fst] in Hrun. rewrite Hf, Hfull in Hrun.
  pose proof (update_stores _ _ _ _ _ _ Hrun) as Hdb2. rewrite !Hdb2, !written_cons. cbn [written foldl].
  rewrite (decide_False (P := KLogPreimage _ _ = KLogHash _ _)), decide_True by done.
  split; [|done]. rewrite Hdb, !written_cons. cbn [written foldl].
  rewrite (decide_False (P := KLastIdx _ = _)) by done. by rewrite decide_True.
Qed.

Lemma exported (c : Client DB) id fs :
  ExportLog Sign c id = Ret fs →
  ∃ idx text csig proof, fs = MkForeignStatement (bool_decide (idx = 0)) id text csig (pubKey c) (u64 idx) (Some proof) ∧
    GetLogPreimage c id (u64 idx) = Ret text ∧
    Sign (Sum256 (if bool_decide (idx = 0)
                  then CreateLogStatement_Bytes (MkCreateLogStatement (pubKey c) (Sum256 text))
                  else LogStatement_Bytes (MkLogStatement id (u64 idx) (Sum256 text)))) = Ret csig.
Proof.
  unfold ExportLog. intros Hx. apply bind_Ret_inv in Hx as ([idx h] & _ & Hx). destruct (IsForeignLog c id); [done|].
  apply bind_Ret_inv in Hx as (text & Ht & Hx). apply bind_Ret_inv in Hx as (cm & _ & Hx).
  apply bind_Ret_inv in Hx as (proof & _ & Hx). apply bind_Ret_inv in Hx as (csig & Hs & Hx). injection Hx as <-.
  exists idx, text, csig, proof. split; [done|]. split; [done|]. exact Hs.
Qed.

(** What another client makes of an exported statement that is not the first of its log. *)
Lemma exported_hash (c : Client DB) id text fs idx :
  (∀ m s, Sign (Sum256 m) = Ret s → VerifySig m (pubKey c) s = Ret tt) →
  ExportLog Sign c id = Ret fs → fs_Index fs = idx → 0 < idx → db_get (db c) (KLogPreimage id idx) = Some (VBytes text) →
  ∃ csig, Sign (Sum256 (LogStatement_Bytes (MkLogStatement id idx (Sum256 text)))) = Ret csig ∧
    GetForeignLogIDAndHash VerifySig fs =
      Ret (id, Sum256 (SignedLogStatement_Bytes (MkSignedLogStatement csig (MkLogStatement id idx (Sum256 text))))).
Proof.
  intros Hsig Hx Hi Hpos Hp. apply exported in Hx as (idx' & text' & csig & proof & -> & Ht & Hs). cbn [fs_Index] in Hi. subst idx.
  unfold GetLogPreimage, get in Ht. rewrite Hp in Ht. injection Ht as <-. rewrite bool_decide_eq_false_2 in * by (by intros ->).
  exists csig. split; [done|]. unfold GetForeignLogIDAndHash, SignedLogStatement_VerifySignature.
  cbn [fs_InitialStatement fs_Signature fs_LogID fs_Index StatementPreimage PubKey Statement sls_Signature bytes_of]. by rewrite (Hsig _ _ Hs).
Qed.

Context (id text : bytes) (idx : Z) (c c1 c2 : Client DB) (w w1 : W) (fs : ForeignStatement).

(** A statement was appended by a full client with real signatures, and is exported later,
    when what was stored for it is still there. *)
Record appended_exported : Prop := {
  ae_verify : ∀ m s, Sign (Sum256 m) = Ret s → VerifySig m (pubKey c2) s = Ret tt;
  ae_full : fullClient c = true;
  ae_real : DummySignatures c = false;
  ae_idx : 0 < idx < 2 ^ 64;
  ae_append : AppendLogText send Sign idx id text (c, w) = (Ret tt, (c1, w1));
  ae_hash : db_get (db c2) (KLogHash id idx) = db_get (db c1) (KLogHash id idx);
  ae_preimage : db_get (db c2) (KLogPreimage id idx) = db_get (db c1) (KLogPreimage id idx);
  ae_export : ExportLog Sign c2 id = Ret fs;
  ae_index : fs_Index fs = idx
}.

(** C38. Export round trip. A statement appended outside fast mode and exported once it is
    committed is recognized by whoever receives it: its signature verifies, and its log id and
    hash are computed to be the log's id and the hash that the client stored and that
    the server committed to. *)
Theorem export_recognized (Hae : appended_exported) (Hslow : FastMode c = false) :
  ∃ h, db_get (db c2) (KLogHash id idx) = Some (VBytes h) ∧ GetForeignLogIDAndHash VerifySig fs = Ret (id, h).
Proof.
  destruct Hae as [Hv Hf Hr [Hi _] Ha Hkh Hkp Hx Hidx]. apply appended_stored in Ha as (st & l & Hst & Hl & Hh & Hp); [|done].
  rewrite Hp in Hkp. destruct (exported_hash c2 id text fs idx Hv Hx Hidx Hi Hkp) as (csig & Hs & Hg). rewrite Hkh, Hh, Hg.
  eexists. split; [done|]. unfold append_checks in Hst. rewrite Hf in Hst. apply bind_Ret_inv in Hst as ([li lh] & _ & Hst).
  rewrite Hslow in Hst. destruct (negb (IsCommitted _ _ _)); [done|]. cbn [mbind outcome_bind mret outcome_ret] in Hst.
  destruct (negb _); [done|]. injection Hst as <-. unfold SignedAppendLog in Hl. rewrite Hr in Hl. cbn [negb] in Hl.
  change (Statement (NewSignedLogStatement idx id (Sum256 text))) with (MkLogStatement id idx (Sum256 text)) in Hl.
  rewrite Hs in Hl. by injection Hl as <-.
Qed.

(** In fast mode the export round trip fails. The client signs and stores the hash of its
    last hash followed by the statement's, but [ExportLog] rebuilds the statement from its text
    alone: the hash another client computes for it differs from the stored and committed one,
    unless two inputs of SHA-256 collide or the hash of the text is a fixed point of the
    chaining, so the exported statement is not valid. *)
Theorem fastmode_export_unrecognized (Hae : appended_exported) (Hfast : FastMode c = true)
  (Hid : length id = 32%nat) (Hlen : ∀ m s, Sign m = Ret s → length s = 64%nat) :
  ∃ h h', db_get (db c2) (KLogHash id idx) = Some (VBytes h) ∧ GetForeignLogIDAndHash VerifySig fs = Ret (id, h') ∧
    (h' = h → (∃ x y, x ≠ y ∧ Sum256 x = Sum256 y) ∨ ∃ lastHash, Sum256 (lastHash ++ Sum256 text) = Sum256 text).
Proof.
  destruct Hae as [Hv Hf Hr Hi Ha Hkh Hkp Hx Hidx]. apply appended_stored in Ha as (st & l & Hst & Hl & Hh & Hp); [|done].
  rewrite Hp in Hkp. destruct (exported_hash c2 id text fs idx Hv Hx Hidx (proj1 Hi) Hkp) as (csig & Hs & Hg). rewrite Hkh, Hh, Hg.
  eexists _, _. split; [done|]. split; [done|]. intros Heq.
  unfold append_checks in Hst. rewrite Hf in Hst. apply bind_Ret_inv in Hst as ([li lh] & _ & Hst).
  rewrite Hfast in Hst. cbn [mbind outcome_bind mret outcome_ret] in Hst.
  destruct (negb _); [done|]. injection Hst as <-. rewrite go_copy_same in Hl by (by rewrite !Sum256_length).
  unfold SignedAppendLog in Hl. rewrite Hr in Hl. cbn [negb] in Hl. apply bind_Ret_inv in Hl as (sig2 & Hs2 & Hl). injection Hl as <-.
  set (l1 := MkSignedLogStatement csig _) in *. set (l2 := MkSignedLogStatement sig2 _) in *.
  destruct (decide (SignedLogStatement_Bytes l1 = SignedLogStatement_Bytes l2)) as [Eb|Hne]; [right|left; eauto].
  assert (∀ b : bytes, length b = 32%nat → allocatable b) as Hal by (intros b Hb; unfold allocatable, len, maxAlloc; lia).
  assert (SignedLogStatement_ok l1) as Hok1.
  { split; [by apply Hlen in Hs|]. split; [done|]. split; [cbn; lia|]. apply Hal, Sum256_length. }
  assert (SignedLogStatement_ok l2) as Hok2.
  { split; [by apply Hlen in Hs2|]. split; [done|]. split; [cbn; lia|]. apply Hal, Sum256_length. }
  apply (SignedLogStatement_read _ []) in Hok1, Hok2. rewrite app_nil_r in Hok1, Hok2. rewrite Eb, Hok2 in Hok1.
  injection Hok1 as _ E. exists lh. exact E.
Qed.
End Exporting.

(** ** The value of a commitment is not checked *)

(** The commitment that the client accepts is not bound to its transaction. If a
    commitment (not a maiden one) is accepted, then so is, in the same state, a commitment to any
    other value with the same transaction hash, block and Merkle proof, and with any
    transaction that has the same first input: nothing compares the value with an output of
    the transaction, or the hash with the transaction, so the server can show different
    clients different tries for one transaction in the chain. *)
Theorem commitment_unbound `{HashFunction} {DB : Type} `{Store DB} {W : Type} (peer : SPVCon → SPVCon)
  (comm : Commitment) (s s' : Client DB * W) (value raw : bytes)
  (Hv : verifyCommitment peer comm s = (Ret tt, s')) (Hm : c_Commitment comm ≠ MaidenHash)
  (Hraw : first_input raw = first_input (RawTx comm)) :
  verifyCommitment peer
    (MkCommitment value (TxHash comm) (TriggeredAtBlockHeight comm) (IncludedInBlock comm) (c_MerkleProof comm) raw) s
  = (Ret tt, s').
Proof.
  unfold verifyCommitment in *. cbn [IncludedInBlock TxHash c_MerkleProof].
  destruct (IncludedInBlock comm) as [block|], (TxHash comm) as [txHash|]; [|done..].
  rewrite bind_run in *. destruct (find_block peer 3 (Some block) s) as [[header|e|e] s1]; [|done..].
  rewrite bind_run in *. unfold lift at 1 in Hv. unfold lift at 1.
  destruct (MerkleProof_Check _ _ _) as [[]| |]; [|done..]. cbn [negb] in *. rewrite bind_run in *. cbn [get_client gets] in *.
  destruct (check_chain s1.1 comm) as [[]| |] eqn:Ec; unfold lift in *; [|done..]. rewrite <- Hv. f_equal. clear Hv.
  unfold check_chain in *. cbn [RawTx c_Commitment]. destruct (Deserialize _ (RawTx comm)) as [d| |]; [|done..].
  cbn [mbind outcome_bind] in Ec. rewrite (proj2 (bytes_eqb_false _ _) Hm) in Ec.
  destruct (last_tx s1.1) as [last| |]; [|done..]. cbn [mbind outcome_bind] in *. rewrite <- Hraw in Ec.
  assert (∃ d', Deserialize (NewMsgTx 1) raw = Ret d') as [d' ->].
  { unfold first_input in Ec. destruct (Deserialize (NewMsgTx 1) raw) as [d'| |]; [by exists d'|done..]. }
  by destruct (bytes_eqb value MaidenHash).
Qed.

(** ** Runs *)

Definition unbound_client : Client memory := MkClient (zeros 33) ∅ run_spv (Some run_c0) true false true.

Lemma commitment_unbound_witness :
  (verifyCommitment (set_Synced true)
    (MkCommitment (replicate 32 x33) (TxHash run_c1) (TriggeredAtBlockHeight run_c1) (IncludedInBlock run_c1) (c_MerkleProof run_c1) run_raw1)
    (unbound_client, tt)).1 = Ret tt.
Proof.
  assert ((verifyCommitment (set_Synced true) run_c1 (unbound_client, tt)).1 = Ret tt) as E by (vm_compute; reflexivity).
  apply pair_result in E. apply (commitment_unbound _ _ _ _ (replicate 32 x33) run_raw1) in E;
    [exact (f_equal fst E)|apply (bool_decide_unpack _); vm_compute; exact I|exact eq_refl].
Defined.

(** The log of [ClientProofs] with its first statement committed; the second one is appended
    and then committed under the same root. *)
Definition ex_send (w : unit) (t : Byte.byte) (m : bytes) : (go_error * list (Byte.byte * bytes)) * unit :=
  ((None, [(MessageTypeAck, [])]), w).
Definition ex_sign (m : bytes) : outcome bytes := Ret (zeros 64).
Definition ex_verify (m key sig : bytes) : outcome unit := if bytes_eqb sig (zeros 64) then Ret tt else Err "invalid signature".
Definition ex_client (fast : bool) : Client memory :=
  MkClient (zeros 33)
    (list_to_map [(KLastIdx one_id, VNum 0); (KLogHash one_id 0, VBytes one_hash); (KLogCommitment one_id 0, VBytes one_root)])
    (openHeaderFile None RegressionNetParams) None true fast false.
Definition ex_after (fast : bool) : Client memory := (AppendLogText ex_send ex_sign 1 one_id [x68; x69] (ex_client fast, tt)).2.1.
Definition ex_committed (fast : bool) : Client memory :=
  set_db (memory_update (db (ex_after fast)) [(KLogCommitment one_id 1, VBytes one_root); (KProof one_root, VBytes one_proof)]) (ex_after fast).
Definition ex_export (fast : bool) : ForeignStatement :=
  match ExportLog ex_sign (ex_committed fast) one_id with
  | Ret fs => fs
  | _ => MkForeignStatement false [] [] [] [] 0 None
  end.

Lemma ex_holds fast :
  appended_exported ex_send ex_sign ex_verify one_id [x68; x69] 1 (ex_client fast) (ex_after fast) (ex_committed fast) tt
    (AppendLogText ex_send ex_sign 1 one_id [x68; x69] (ex_client fast, tt)).2.2 (ex_export fast).
Proof.
  split.
  - intros m s [= <-]. done.
  - done.
  - done.
  - done.
  - unfold ex_after. rewrite <- surjective_pairing. refine (pair_result _ _ _). destruct fast; vm_compute; reflexivity.
  - destruct fast; vm_compute; reflexivity.
  - destruct fast; vm_compute; reflexivity.
  - destruct fast; vm_compute; reflexivity.
  - destruct fast; vm_compute; reflexivity.
Qed.

Lemma export_recognized_witness :
  ∃ h, db_get (db (ex_committed false)) (KLogHash one_id 1) = Some (VBytes h) ∧
       GetForeignLogIDAndHash ex_verify (ex_export false) = Ret (one_id, h).
Proof. exact (export_recognized _ _ _ _ _ _ _ _ _ _ _ _ (ex_holds false) eq_refl). Defined.

Lemma fastmode_export_unrecognized_witness :
  ∃ h h', db_get (db (ex_committed true)) (KLogHash one_id 1) = Some (VBytes h) ∧
    GetForeignLogIDAndHash ex_verify (ex_export true) = Ret (one_id, h') ∧
    (h' = h → (∃ x y, x ≠ y ∧ Sum256 x = Sum256 y) ∨ ∃ lastHash, Sum256 (lastHash ++ Sum256 [x68; x69]) = Sum256 [x68; x69]).
Proof.
  refine (fastmode_export_unrecognized _ _ _ _ _ _ _ _ _ _ _ _ (ex_holds true) eq_refl eq_refl _).
  intros m s Hs. apply (f_equal (λ o, match o with Ret x => length x | _ => 0%nat end)) in Hs. symmetry. exact Hs.
Defined.
