(* ===== verification/WalletChain.v ===== *)
(** * The wallet's commitments are the chain the client checks

    [verifyCommitment] of the client accepts a commitment only if the first
    input of its transaction spends the second output of the last one.  The
    wallet makes such transactions, from one processed block to the next. *)

From Stdlib Require Import ZArith Lia.
From S2P Require Import Prelude Buffers Sha256 Store Crypto Utils MerkleTree WireCommon MptNode MptSpec FullMPT MptSerialize PartialMPT WireTypes WireTheorems BtcWire BtcTheorems Script ScriptTheorems SigHash Wallet WalletTheorems WalletCommit Difficulty Uspv ClientStore Client.

Local Open Scope Z_scope.

Section Chain.
Context `{HashFunction} {DB : Type} `{WalletStore DB}.
Implicit Types (w : Wallet DB) (m : gmap OutPoint Utxo).

(** The first input of an encoded transaction. *)
Lemma first_input_Serialize tx op :
  MsgTx_ok tx → head (PreviousOutPoint <$> tx_TxIn tx) = Some op → first_input (Serialize tx) = Ret op.
Proof.
  intros Hok Hh. destruct tx as [v [|ti ins] outs l]; [done|]. cbn in Hh. injection Hh as <-. unfold first_input, Deserialize, Serialize.
  rewrite <- (app_nil_r (BtcEncode _ _)), BtcDecode_reads by done. done.
Qed.

Lemma Deserialize_Serialize tx : MsgTx_ok tx → tx_TxIn tx ≠ [] → Deserialize (NewMsgTx 1) (Serialize tx) = Ret (Dec tx [] None).
Proof. intros Hok Hne. unfold Deserialize, Serialize. rewrite <- (app_nil_r (BtcEncode _ _)). by rewrite BtcDecode_reads. Qed.

(** C9. Commitments form the chain that clients check. The store is reliable, the wallet
    keeps the ledger [m], worth more than 2000 (the first transaction then has a change
    output), and the node accepts its transactions and names them by their hash.  A first
    [Commit] makes a transaction.  Let the wallet process a block that contains it, where
    its change is a new output of the ledger and nothing later in the block spends it, and
    let the ledger then be worth at least 1000 and have no more outputs than a transaction
    may have inputs.  A second [Commit], of at most 255 bytes, makes a transaction that
    passes the chain check of every client whose last commitment is the first one. *)
Theorem commitments_pass_client_check {CDB : Type} w m c1 c2 (send : MsgTx → outcome bytes)
  (Hr : reliable (DB := DB)) (Hb : books w m) (Hl : length (pubKeyHash w) = 20%nat) (Hs : can_sign (privateKey w))
  (Hw : 2000 < worth m < 2 ^ 63) (Hsend : ∀ tx, send tx = Ret (TxHash_go tx)) (Hc2 : len c2 <= 255) :
  ∃ tx1 w1, commit_tx w c1 = Ret tx1 ∧ Wallet_Commit send w c1 = Ret ((TxHash_go tx1, Serialize tx1), w1) ∧
    ∀ block before after, Transactions block = before ++ tx1 :: after →
      m !! MkOutPoint (TxHash_go tx1) 1 = None →
      Forall (λ tx, MkOutPoint (TxHash_go tx1) 1 ∉ PreviousOutPoint <$> tx_TxIn tx) after →
      let m2 := foldl (ledger_tx (pubKeyHash w)) m (Transactions block) in
      1000 <= worth m2 < 2 ^ 63 → Z.of_nat (size m2) <= maxTxInPerMessage →
      ∃ tx2 w2, Wallet_Commit send (processBlock w1 block) c2 = Ret ((TxHash_go tx2, Serialize tx2), w2) ∧ books w2 m2 ∧
        ∀ (c : Client CDB) last comm, lastServerCommitment c = Some last → TxHash last = Some (TxHash_go tx1) →
          RawTx comm = Serialize tx2 → check_chain c comm = Ret tt.
Proof.
  destruct (Wallet_Commit_ok w m c1 send TxHash_go Hb Hl Hs ltac:(lia) Hsend) as (tx1 & w1 & E0 & Hc1 & E1 & Hb1 & Hlast & Hpk & Hkey & _).
  exists tx1, w1. split; [done|]. split; [done|]. intros block before after Htxs Hfresh Hafter m2 Hw2 Hsize.
  set (w1' := processBlock w1 block). assert (pubKeyHash w1' = pubKeyHash w) as Hpk'.
  { unfold w1', processBlock. by rewrite (foldl_same processTransaction pubKeyHash) by apply processTransaction_pkh. }
  assert (privateKey w1' = privateKey w ∧ lastCommitmentTxId w1' = TxHash_go tx1) as [Hkey' Hlast'].
  { split; unfold w1', processBlock.
    - by rewrite (foldl_same processTransaction privateKey) by apply processTransaction_key.
    - by rewrite (foldl_same processTransaction lastCommitmentTxId) by apply processTransaction_last. }
  assert (books w1' m2) as Hb2.
  { unfold m2. rewrite <- Hpk. apply (processTransactions_books (Transactions block) (set_notified (notified w1 ++ [block]) w1)); [done|by rewrite <- Hpk in Hl|].
    by apply (books_same w1). }
  assert (is_Some (m2 !! MkOutPoint (lastCommitmentTxId w1') 1)) as [u Hu].
  { rewrite Hlast'. unfold m2. rewrite Htxs, foldl_app. cbn [foldl]. apply ledger_keeps; [|done].
    eapply change_arrives; [done|done| |apply Hb|done]. unfold MINOUTPUT. lia. }
  destruct (Wallet_Commit_ok w1' m2 c2 send TxHash_go Hb2) as (tx2 & w2 & _ & Htx2 & E2 & Hbw2 & _ & _); [by rewrite Hpk'|by rewrite Hkey'|done|done|].
  exists tx2, w2. split; [done|]. split; [done|]. intros c last comm Hlc Hth Hraw.
  assert (len (utxos w1') <= maxTxInPerMessage) as Hn.
  { unfold len. rewrite (holds_Permutation _ m2) by apply Hb2. by rewrite length_fmap, length_map_to_list. }
  destruct (commits_ok w1' m2 c2 tx2) as [Hok Hne]; [done|by rewrite Hkey'|by rewrite Hpk'|done|done|done|done|].
  pose proof (commits_first _ _ _ _ _ (books_list _ _ Hb2) Htx2 Hu) as Hfirst. rewrite Hlast' in Hfirst.
  unfold check_chain. rewrite Hraw, Deserialize_Serialize by done. cbn [mbind outcome_bind]. destruct (bytes_eqb _ _); [done|].
  unfold last_tx. rewrite Hlc, Hth. cbn [mbind outcome_bind mret outcome_ret]. rewrite (first_input_Serialize _ _ Hok Hfirst). cbn [mbind outcome_bind].
  cbn [op_Index Hash]. by rewrite bytes_eqb_refl, bool_decide_true.
Qed.
End Chain.

(** ** A closed run *)

Lemma commitments_pass_client_check_witness :
  ∃ tx1 w1, Wallet_Commit accepting paid_wallet (replicate 32 x05) = Ret ((TxHash_go tx1, Serialize tx1), w1) ∧
    ∃ tx2 w2, Wallet_Commit accepting (processBlock w1 (MkMsgBlock zeroHeader [tx1])) (replicate 32 x06) = Ret ((TxHash_go tx2, Serialize tx2), w2) ∧
      ∀ (c : Client unit) last comm, lastServerCommitment c = Some last → TxHash last = Some (TxHash_go tx1) →
        RawTx comm = Serialize tx2 → check_chain c comm = Ret tt.
Proof.
  destruct (commitments_pass_client_check (CDB := unit) paid_wallet paid_ledger (replicate 32 x05) (replicate 32 x06) accepting demo_reliable
              paid_books paid_pkh paid_signs) as (tx1 & w1 & E0 & E & Hnext); [rewrite paid_worth; lia|done|done|].
  exists tx1, w1. split; [exact E|]. destruct (Hnext (MkMsgBlock zeroHeader [tx1]) [] []) as (tx2 & w2 & E2 & _ & Hc).
  - reflexivity.
  - vm_compute in E0. injection E0 as <-. clear. vm_compute. reflexivity.
  - constructor.
  - vm_compute in E0. injection E0 as <-. clear. vm_compute. split; congruence.
  - vm_compute in E0. injection E0 as <-. clear. vm_compute. congruence.
  - exists tx2, w2. split; [exact E2|exact Hc].
Defined.
