(* ===== verification/Server.v ===== *)
(** * The commitment server (server/server.go)

    One [Definition] per method on a record with the server's fields.  Methods
    that return an [error] return it next to the state, since what was changed
    before the error stays; a panic ends the process.  The maps are only used
    under their locks and [Commit] holds the lock of the trie, so the methods
    are atomic steps here.

    The database, the wallet and the signature check are parameters.  The file
    serverstate.hex is a field, its JSON encoding left out.

    One aliasing effect of the code matters: [FullMPT.Commitment] returns the
    hash buffer of the root, [Commit] registers that slice as the next
    statement of the zero log, and [DictionaryLeafNode.SetValue] keeps the
    slice it is given.  From then on the value of that leaf is the hash buffer
    of the root, and every later recalculation of the root hash overwrites the
    leaf's value without marking it.  [zeroLogAlias] records this. *)

From Stdlib Require Import ZArith Lia.
From S2P Require Import Prelude Buffers Sha256 Crypto Utils MerkleTree WireCommon MptNode MptSpec FullMPT MptSerialize PartialMPT DeltaMPT WireTypes.

Local Open Scope Z_scope.

(** ** State *)

(** What the server keeps per connection ([ServerLogProcessor]): the logs it follows,
    whether it gets updates, and the messages written to it. *)
Record LogProc := MkLogProc {
  logIDMap : gset bytes;
  logIDs : list bytes;
  autoUpdates : bool;
  sent : list (Byte.byte * bytes)
}.

Record ServerState := MkServerState {
  LastCommitmentTree : bytes;
  LastConfirmedCommitmentTree : option bytes
}.

(** Keys and values of the database: key-<log>, idx-<log> and commitment-<hash>. *)
Inductive db_key := DbKey (logID : bytes) | DbIdx (logID : bytes) | DbCommitment (c : bytes).
Inductive db_value := DbBytes (b : bytes) | DbNum (z : Z).

(** The settings, and the flag [Run] sets when the server is up. *)
Record Config := MkConfig {
  Full : bool;
  KeepCommitmentTree : bool;
  CheckSignatures : bool;
  CommitEveryNBlocks : Z;
  isReady : bool
}.

Record Server {DB : Type} := MkServer {
  config : Config;
  logIDToPubKey : gmap bytes bytes;
  logIDIndex : gmap bytes Z;
  fullmpt : FullMPT;
  zeroLogAlias : bool;
  LastCommitMpt : option FullMPT;
  LastConfirmedCommitMpt : option FullMPT;
  lastCommitment : bytes;
  lastDelta : option DeltaMPT;
  procs : gmap nat LogProc;
  processors : list nat;
  commitmentDb : DB;
  stateFile : option ServerState;
  commitments : list Commitment;
  LastCommitHeight : Z
}.
Arguments Server : clear implicits.
Arguments MkServer {DB}.

(** Assignments to the fields. *)
Section Setters.
Context {DB : Type}.
Definition set_logIDToPubKey (x : gmap bytes bytes) (s : Server DB) : Server DB :=
  MkServer (config s) x (logIDIndex s) (fullmpt s) (zeroLogAlias s) (LastCommitMpt s) (LastConfirmedCommitMpt s) (lastCommitment s) (lastDelta s) (procs s) (processors s) (commitmentDb s) (stateFile s) (commitments s) (LastCommitHeight s).
Definition set_logIDIndex (x : gmap bytes Z) (s : Server DB) : Server DB :=
  MkServer (config s) (logIDToPubKey s) x (fullmpt s) (zeroLogAlias s) (LastCommitMpt s) (LastConfirmedCommitMpt s) (lastCommitment s) (lastDelta s) (procs s) (processors s) (commitmentDb s) (stateFile s) (commitments s) (LastCommitHeight s).
Definition set_fullmpt (x : FullMPT) (s : Server DB) : Server DB :=
  MkServer (config s) (logIDToPubKey s) (logIDIndex s) x (zeroLogAlias s) (LastCommitMpt s) (LastConfirmedCommitMpt s) (lastCommitment s) (lastDelta s) (procs s) (processors s) (commitmentDb s) (stateFile s) (commitments s) (LastCommitHeight s).
Definition set_zeroLogAlias (x : bool) (s : Server DB) : Server DB :=
  MkServer (config s) (logIDToPubKey s) (logIDIndex s) (fullmpt s) x (LastCommitMpt s) (LastConfirmedCommitMpt s) (lastCommitment s) (lastDelta s) (procs s) (processors s) (commitmentDb s) (stateFile s) (commitments s) (LastCommitHeight s).
Definition set_LastCommitMpt (x : option FullMPT) (s : Server DB) : Server DB :=
  MkServer (config s) (logIDToPubKey s) (logIDIndex s) (fullmpt s) (zeroLogAlias s) x (LastConfirmedCommitMpt s) (lastCommitment s) (lastDelta s) (procs s) (processors s) (commitmentDb s) (stateFile s) (commitments s) (LastCommitHeight s).
Definition set_LastConfirmedCommitMpt (x : option FullMPT) (s : Server DB) : Server DB :=
  MkServer (config s) (logIDToPubKey s) (logIDIndex s) (fullmpt s) (zeroLogAlias s) (LastCommitMpt s) x (lastCommitment s) (lastDelta s) (procs s) (processors s) (commitmentDb s) (stateFile s) (commitments s) (LastCommitHeight s).
Definition set_lastCommitment (x : bytes) (s : Server DB) : Server DB :=
  MkServer (config s) (logIDToPubKey s) (logIDIndex s) (fullmpt s) (zeroLogAlias s) (LastCommitMpt s) (LastConfirmedCommitMpt s) x (lastDelta s) (procs s) (processors s) (commitmentDb s) (stateFile s) (commitments s) (LastCommitHeight s).
Definition set_lastDelta (x : option DeltaMPT) (s : Server DB) : Server DB :=
  MkServer (config s) (logIDToPubKey s) (logIDIndex s) (fullmpt s) (zeroLogAlias s) (LastCommitMpt s) (LastConfirmedCommitMpt s) (lastCommitment s) x (procs s) (processors s) (commitmentDb s) (stateFile s) (commitments s) (LastCommitHeight s).
Definition set_procs (x : gmap nat LogProc) (s : Server DB) : Server DB :=
  MkServer (config s) (logIDToPubKey s) (logIDIndex s) (fullmpt s) (zeroLogAlias s) (LastCommitMpt s) (LastConfirmedCommitMpt s) (lastCommitment s) (lastDelta s) x (processors s) (commitmentDb s) (stateFile s) (commitments s) (LastCommitHeight s).
Definition set_processors (x : list nat) (s : Server DB) : Server DB :=
  MkServer (config s) (logIDToPubKey s) (logIDIndex s) (fullmpt s) (zeroLogAlias s) (LastCommitMpt s) (LastConfirmedCommitMpt s) (lastCommitment s) (lastDelta s) (procs s) x (commitmentDb s) (stateFile s) (commitments s) (LastCommitHeight s).
Definition set_commitmentDb (x : DB) (s : Server DB) : Server DB :=
  MkServer (config s) (logIDToPubKey s) (logIDIndex s) (fullmpt s) (zeroLogAlias s) (LastCommitMpt s) (LastConfirmedCommitMpt s) (lastCommitment s) (lastDelta s) (procs s) (processors s) x (stateFile s) (commitments s) (LastCommitHeight s).
Definition set_stateFile (x : option ServerState) (s : Server DB) : Server DB :=
  MkServer (config s) (logIDToPubKey s) (logIDIndex s) (fullmpt s) (zeroLogAlias s) (LastCommitMpt s) (LastConfirmedCommitMpt s) (lastCommitment s) (lastDelta s) (procs s) (processors s) (commitmentDb s) x (commitments s) (LastCommitHeight s).
Definition set_commitments (x : list Commitment) (s : Server DB) : Server DB :=
  MkServer (config s) (logIDToPubKey s) (logIDIndex s) (fullmpt s) (zeroLogAlias s) (LastCommitMpt s) (LastConfirmedCommitMpt s) (lastCommitment s) (lastDelta s) (procs s) (processors s) (commitmentDb s) (stateFile s) x (LastCommitHeight s).
Definition set_isReady (x : bool) (s : Server DB) : Server DB :=
  MkServer (MkConfig (Full (config s)) (KeepCommitmentTree (config s)) (CheckSignatures (config s)) (CommitEveryNBlocks (config s)) x) (logIDToPubKey s) (logIDIndex s) (fullmpt s) (zeroLogAlias s) (LastCommitMpt s) (LastConfirmedCommitMpt s) (lastCommitment s) (lastDelta s) (procs s) (processors s) (commitmentDb s) (stateFile s) (commitments s) (LastCommitHeight s).
Definition set_LastCommitHeight (x : Z) (s : Server DB) : Server DB :=
  MkServer (config s) (logIDToPubKey s) (logIDIndex s) (fullmpt s) (zeroLogAlias s) (LastCommitMpt s) (LastConfirmedCommitMpt s) (lastCommitment s) (lastDelta s) (procs s) (processors s) (commitmentDb s) (stateFile s) (commitments s) x.
End Setters.

Definition zeroLog : bytes := zeros 32.

(** A Go [error] result, [None] being nil. *)
Abbreviation error := (option string).

(** The value of a leaf replaced behind the node's back. *)
Fixpoint overwrite (key value : bytes) (n : Node) : Node :=
  match n with
  | DictionaryLeaf d =>
      if bytes_eqb (dln_key d) key
      then DictionaryLeaf (MkDLN (dln_key d) value (dln_commitmentHash d) (dln_changed d) (dln_recalculateHash d))
      else n
  | Interior h rc ch l r => Interior h rc ch (overwrite key value l) (overwrite key value r)
  | _ => n
  end.

Section Methods.
Context `{HashFunction} {DB : Type}
  (db_set : DB → db_key → db_value → DB * error)
  (wallet_Commit : bytes → outcome (bytes * bytes)) (wallet_Height : Z).

Definition NewServer (cfg : Config) (db : DB) : Server DB :=
  MkServer cfg ∅ ∅ NewFullMPT false None None (zeros 32) None ∅ [] db None [] 0.

(** ** Logs *)

Definition RegisterLogID (srv : Server DB) (logID controllingKey : bytes) : error * Server DB :=
  match logIDToPubKey srv !! logID with
  | Some _ => (Some "Duplicate log ID created", srv)
  | None =>
      let srv := set_logIDToPubKey (<[logID := controllingKey]> (logIDToPubKey srv)) srv in
      if Full (config srv) then
        let '(db, err) := db_set (commitmentDb srv) (DbKey logID) (DbBytes controllingKey) in
        (err, set_commitmentDb db srv)
      else (None, srv)
  end.

Definition GetPubKeyForLogID (srv : Server DB) (logID : bytes) : outcome bytes :=
  match logIDToPubKey srv !! logID with
  | Some pk => mret pk
  | None => Err "LogID not found"
  end.

Definition GetNextLogIndex (srv : Server DB) (logID : bytes) : Z :=
  match logIDIndex srv !! logID with
  | None => 0
  | Some idx => u64 (idx + 1)
  end.

(** [srv.fullmpt.Insert(logID, statement)]; [aliased] tells whether [statement] is the
    hash buffer of the root.  A new leaf copies the value, an existing one
    keeps the slice if it differs from the old value. *)
Definition insert_statement (srv : Server DB) (logID statement : bytes) (aliased : bool) : outcome (Server DB) :=
  old ← Get (fullmpt srv) logID;
  fm ← Insert (fullmpt srv) logID statement;
  let alias :=
    if bytes_eqb logID zeroLog then
      match old with
      | None => false
      | Some v => if bytes_eqb v statement then zeroLogAlias srv else aliased
      end
    else zeroLogAlias srv in
  mret (set_zeroLogAlias alias (set_fullmpt fm srv)).

Definition RegisterLogStatement (srv : Server DB) (logID : bytes) (index : Z) (statement : bytes) (aliased : bool)
    : outcome (error * Server DB) :=
  let idx := logIDIndex srv !! logID in
  if bool_decide (idx = None ∧ index ≠ 0) then mret (Some "Unexpected log index - expected 0", srv)
  else if bool_decide (idx ≠ None ∧ index ≠ GetNextLogIndex srv logID) then mret (Some "Unexpected log index", srv)
  else
    let srv := set_logIDIndex (<[logID := index]> (logIDIndex srv)) srv in
    let '(db, err) := if Full (config srv) then db_set (commitmentDb srv) (DbIdx logID) (DbNum index)
                      else (commitmentDb srv, None) in
    let srv := set_commitmentDb db srv in
    match err with
    | Some e => mret (Some e, srv)
    | None =>
        srv ← insert_statement srv (go_copy (zeros 32) logID) statement aliased;
        mret (None, srv)
    end.

(** ** Connections *)

Definition write (t : Byte.byte) (m : bytes) (lp : LogProc) : LogProc :=
  MkLogProc (logIDMap lp) (logIDs lp) (autoUpdates lp) (sent lp ++ [(t, m)]).

Definition registerProcessor (srv : Server DB) (p : nat) : Server DB :=
  set_processors (processors srv ++ [p]) srv.

(** The last occurrence is the one removed. *)
Fixpoint last_index (p : nat) (l : list nat) (i : nat) (removeIdx : option nat) : option nat :=
  match l with
  | [] => removeIdx
  | pp :: l => last_index p l (S i) (if bool_decide (pp = p) then Some i else removeIdx)
  end.

Definition unregisterProcessor (srv : Server DB) (p : nat) : Server DB :=
  match last_index p (processors srv) 0 None with
  | None => srv
  | Some removeIdx =>
      set_processors (take removeIdx (processors srv) ++ drop (removeIdx + 1) (processors srv)) srv
  end.

Definition SendProofs (lp : LogProc) (delta : DeltaMPT) : outcome (LogProc * DeltaMPT) :=
  if autoUpdates lp && bool_decide (len (logIDs lp) > 0) then
    '(clientDelta, delta) ← GetUpdatesForKeys delta (logIDs lp);
    mret (write MessageTypeProofUpdate (DeltaMPT_Bytes clientDelta) lp, delta)
  else mret (lp, delta).

(** The goroutines of [Commit], one per registered connection, all joined. *)
Fixpoint send_all (ps : list nat) (procs : gmap nat LogProc) (delta : DeltaMPT)
    : outcome (gmap nat LogProc * DeltaMPT) :=
  match ps with
  | [] => mret (procs, delta)
  | p :: ps =>
      match procs !! p with
      | None => send_all ps procs delta
      | Some lp =>
          '(lp, delta) ← SendProofs lp delta;
          send_all ps (<[p := lp]> procs) delta
      end
  end.

(** ** Commitments *)

(** [srv.fullmpt.Commitment()]. *)
Definition server_commitment (srv : Server DB) : outcome (bytes * Server DB) :=
  '(commitment, fm) ← FullMPT.Commitment (fullmpt srv);
  let fm := if zeroLogAlias srv then MkFullMPT (overwrite zeroLog commitment (fm_root fm)) else fm in
  mret (commitment, set_fullmpt fm srv).

(** The index of the last commitment with the same hash. *)
Fixpoint find_commitment (c : bytes) (l : list Commitment) (i : nat) (at_ : option nat) : option nat :=
  match l with
  | [] => at_
  | sc :: l => find_commitment c l (S i) (if bytes_eqb c (c_Commitment sc) then Some i else at_)
  end.

(** Errors of the database are only logged. *)
Definition saveCommitment (srv : Server DB) (c : Commitment) : outcome (Server DB) :=
  let srv := if bool_decide (TriggeredAtBlockHeight c > LastCommitHeight srv)
             then set_LastCommitHeight (TriggeredAtBlockHeight c) srv else srv in
  let cs := match find_commitment (c_Commitment c) (commitments srv) 0 None with
            | Some i => <[i := c]> (commitments srv)
            | None => commitments srv ++ [c]
            end in
  b ← Commitment_Bytes c;
  let '(db, _) := db_set (commitmentDb srv) (DbCommitment (c_Commitment c)) (DbBytes b) in
  mret (set_commitmentDb db (set_commitments cs srv)).

Definition getPendingCommitments (srv : Server DB) : list Commitment :=
  filter (λ c, IncludedInBlock c = None) (commitments srv).

Definition commitState (srv : Server DB) : outcome (Server DB) :=
  match LastCommitMpt srv with
  | None => Panic nil_deref
  | Some t =>
      mret (set_stateFile (Some (MkServerState (FullMPT_Bytes t)
              (option_map FullMPT_Bytes (LastConfirmedCommitMpt srv)))) srv)
  end.

Definition dispose_opt {A} (dispose : A → outcome A) (x : option A) : outcome unit :=
  match x with
  | None => mret tt
  | Some x => _ ← dispose x; mret tt
  end.

Definition Commit (srv : Server DB) : outcome (error * Server DB) :=
  '(commitment, srv) ← server_commitment srv;
  if bytes_eqb (lastCommitment srv) commitment then mret (None, srv)
  else
    let srv := set_lastCommitment (go_copy (lastCommitment srv) commitment) srv in
    srv ← (if KeepCommitmentTree (config srv) then
             _ ← dispose_opt FullMPT_Dispose (LastCommitMpt srv);
             t ← Copy (fullmpt srv);
             mret (set_LastCommitMpt (Some t) srv)
           else mret srv);
    _ ← dispose_opt DeltaMPT_Dispose (lastDelta srv);
    '(delta, fm) ← NewDeltaMPT (fullmpt srv);
    '(ps, delta) ← send_all (processors srv) (procs srv) delta;
    fm ← Reset fm;
    let srv := set_procs ps (set_lastDelta (Some delta) (set_fullmpt fm srv)) in
    if Full (config srv) then
      match wallet_Commit commitment with
      | Err e => mret (Some e, srv)
      | Panic p => Panic p
      | Ret (txID, rawTx) =>
          let c := NewCommitment (go_copy (zeros 32) commitment) (Some txID) rawTx wallet_Height in
          srv ← saveCommitment srv c;
          srv ← commitState srv;
          let nextIdx := GetNextLogIndex srv zeroLog in
          '(_, srv) ← RegisterLogStatement srv zeroLog nextIdx commitment true;
          mret (None, srv)
      end
    else mret (None, srv).

(** [loadState]: the copy is taken before the hashes are calculated. *)
Definition loadState (srv : Server DB) : outcome (error * Server DB) :=
  match stateFile srv with
  | None => mret (Some "file does not exist", srv)
  | Some st =>
      match DeserializeNewFullMPT (LastCommitmentTree st) with
      | Panic p => Panic p
      | Err e => mret (Some e, set_LastCommitMpt None srv)
      | Ret (last, _) =>
          let srv := set_LastCommitMpt (Some last) srv in
          '(err, srv) ← match LastConfirmedCommitmentTree st with
                        | None => mret (None, srv)
                        | Some b =>
                            match DeserializeNewFullMPT b with
                            | Panic p => Panic p
                            | Err e => mret (Some e, set_LastConfirmedCommitMpt None srv)
                            | Ret (t, _) => mret (None, set_LastConfirmedCommitMpt (Some t) srv)
                            end
                        end;
          match err with
          | Some e => mret (Some e, srv)
          | None =>
              fm ← Copy last;
              '(c, last) ← FullMPT.Commitment last;
              mret (None, set_lastCommitment (go_copy (lastCommitment srv) c)
                            (set_LastCommitMpt (Some last)
                              (set_zeroLogAlias false (set_fullmpt fm srv))))
          end
      end
  end.

(** ** Blocks *)

(** A block as the server sees it: its hash, the Merkle root of its header and the hashes
    of its transactions. *)
Record Block := MkBlock { BlockHash : bytes; MerkleRoot : bytes; Transactions : list Tx }.

(** The loop that looks for the transaction in the array; a nil entry before it panics
    ([CloneBytes] on nil). *)
Fixpoint find_hash (hashes : list (option bytes)) (txHash : bytes) (i : Z) : outcome Z :=
  match hashes with
  | [] => mret (-1)
  | None :: _ => Panic nil_deref
  | Some h :: hashes => if bytes_eqb (CloneBytes h) txHash then mret i else find_hash hashes txHash (i + 1)
  end.

(** A commitment whose transaction is in the block. *)
Definition confirm (block : Block) (c : Commitment) (txHash : bytes) : outcome Commitment :=
  hashes ← BuildMerkleTreeStore (Transactions block) false;
  hashIdx ← find_hash hashes txHash 0;
  proof ← NewMerkleProof hashes (u64 hashIdx);
  ok ← MerkleProof_Check proof txHash (MerkleRoot block);
  if negb ok then Panic "Merkle root doesn't match"
  else mret (MkCommitment (c_Commitment c) (TxHash c) (TriggeredAtBlockHeight c)
               (Some (BlockHash block)) proof (RawTx c)).

Definition in_block (block : Block) (c : Commitment) : bool :=
  existsb (λ tx, IsEqual (Some (tx_Hash tx)) (TxHash c)) (Transactions block).

(** One iteration for the commitment at position [i]; it is a pointer, so it is updated in
    place before it is saved. *)
Definition process_commitment (block : Block) (i : nat) (srv : Server DB) : outcome (Server DB) :=
  match commitments srv !! i with
  | None => mret srv
  | Some c =>
      if in_block block c then
        match TxHash c with
        | None => Panic nil_deref
        | Some txHash =>
            c ← confirm block c txHash;
            let srv := set_commitments (<[i := c]> (commitments srv)) srv in
            srv ← (if bytes_eqb (lastCommitment srv) (c_Commitment c) then
                     match LastCommitMpt srv with
                     | None => Panic nil_deref
                     | Some t => t ← Copy t; commitState (set_LastConfirmedCommitMpt (Some t) srv)
                     end
                   else mret srv);
            saveCommitment srv c
        end
      else mret srv
  end.

Fixpoint process_from (block : Block) (n i : nat) (srv : Server DB) : outcome (Server DB) :=
  match n with
  | O => mret srv
  | S n => srv ← process_commitment block i srv; process_from block n (S i) srv
  end.

Definition processMerkleProofs (srv : Server DB) (block : Block) : outcome (Server DB) :=
  process_from block (length (commitments srv)) 0 srv.

(** One iteration of [blockWatcher]; errors of [Commit] are only logged. *)
Definition blockWatcher_step (srv : Server DB) (block : Block) : outcome (Server DB) :=
  srv ← processMerkleProofs srv block;
  let blocksSince := wallet_Height - LastCommitHeight srv in
  if bool_decide (CommitEveryNBlocks (config srv) <= blocksSince) then
    if bool_decide (len (getPendingCommitments srv) = 0) && isReady (config srv) then
      '(_, srv) ← Commit srv; mret srv
    else mret srv
  else mret srv.

(** ** Loading *)

(** The outpoint spent by the first input of a serialized transaction is a parameter. *)
Context (first_outpoint : bytes → outcome (Z * bytes)).

Fixpoint find_maiden (cs : list Commitment) : option Commitment :=
  match cs with
  | [] => None
  | c :: cs => if bytes_eqb (c_Commitment c) MaidenHash then Some c else find_maiden cs
  end.

Fixpoint find_spender (last : Commitment) (cs : list Commitment) : outcome (option Commitment) :=
  match cs with
  | [] => mret None
  | c :: cs =>
      match first_outpoint (RawTx c) with
      | Ret (index, hash) =>
          if bool_decide (index = 1) && IsEqual (Some hash) (TxHash last) then mret (Some c)
          else find_spender last cs
      | _ => Panic "Commitment has unparseable rawTX"
      end
  end.

Fixpoint order_loop (fuel : nat) (loaded acc : list Commitment) : outcome (list Commitment) :=
  if bool_decide (length acc = length loaded) then mret acc
  else match fuel with
       | O => mret acc
       | S fuel =>
           found ← match last acc with
                   | None => mret (find_maiden loaded)
                   | Some c => find_spender c loaded
                   end;
           match found with
           | None => Panic "Could not reconstruct commitment chain from disk"
           | Some c => order_loop fuel loaded (acc ++ [c])
           end
       end.

Fixpoint decode_all (values : list bytes) : outcome (list Commitment) :=
  match values with
  | [] => mret []
  | v :: values => c ← CommitmentFromBytes v; cs ← decode_all values; mret (c :: cs)
  end.

(** [values] are the values under commitment- in the order of the database. *)
Definition loadCommitments (srv : Server DB) (values : list bytes) : outcome (Server DB) :=
  loaded ← decode_all values;
  cs ← order_loop (length loaded) loaded [];
  let srv := set_commitments cs srv in
  mret (match last cs with
        | Some c => set_LastCommitHeight (TriggeredAtBlockHeight c) srv
        | None => srv
        end).

(** The rows of the database under key- and idx-. *)
Definition loadLogs (srv : Server DB) (keys : list (bytes * bytes)) (idxs : list (bytes * Z)) : Server DB :=
  let srv := set_logIDToPubKey
    (foldl (λ m '(logID, key), <[go_copy (zeros 32) logID := go_copy (zeros 33) key]> m) (logIDToPubKey srv) keys) srv in
  set_logIDIndex (foldl (λ m '(logID, idx), <[go_copy (zeros 32) logID := idx]> m) (logIDIndex srv) idxs) srv.

(** The part of [Run] that makes the first commitment of a fresh server; an error
    of [Commit] is raised as a panic. *)
Definition maiden_text : bytes := map Ascii.byte_of_ascii (String.list_ascii_of_string "Maiden commitment for b_verify").

Definition maiden_commitment (srv : Server DB) : outcome (Server DB) :=
  if bool_decide (len (commitments srv) = 0) then
    let '(_, srv) := RegisterLogID srv zeroLog (zeros 33) in
    '(_, srv) ← RegisterLogStatement srv zeroLog 0 (Sum256 maiden_text) false;
    '(err, srv) ← Commit srv;
    match err with
    | Some e => Panic e
    | None => mret srv
    end
  else mret srv.

(** [Run] up to the loop that accepts connections, from the contents of the database and
    the random [trigger]; the waits for the wallet are left out. *)
Definition Run_start (srv : Server DB) (values : list bytes) (keys : list (bytes * bytes))
    (idxs : list (bytes * Z)) (trigger : bytes) : outcome (Server DB) :=
  srv ← (if Full (config srv) then
           '(_, srv) ← loadState srv;
           srv ← loadCommitments srv values;
           let srv := loadLogs srv keys idxs in
           '(_, srv) ← RegisterLogStatement srv zeroLog (GetNextLogIndex srv zeroLog) trigger false;
           mret srv
         else mret srv);
  srv ← maiden_commitment srv;
  mret (set_isReady true srv).

(** ** Queries *)

Definition no_commitment : string :=
  "There has not yet been a confirmed commitment, please try again later".

Definition GetProofForKeys (srv : Server DB) (keys : list bytes) : outcome (PartialMPT * Server DB) :=
  if Full (config srv) then
    match LastConfirmedCommitMpt srv with
    | None => Err no_commitment
    | Some t =>
        '(pm, t) ← NewPartialMPTIncludingKeys t keys;
        mret (pm, set_LastConfirmedCommitMpt (Some t) srv)
    end
  else
    match LastCommitMpt srv with
    | None => Err no_commitment
    | Some t =>
        '(pm, t) ← NewPartialMPTIncludingKeys t keys;
        mret (pm, set_LastCommitMpt (Some t) srv)
    end.

(** [lastDelta] is nil before the first commitment. *)
Definition GetDeltaProofForKeys (srv : Server DB) (keys : list bytes) : outcome (DeltaMPT * Server DB) :=
  match lastDelta srv with
  | None => Panic nil_deref
  | Some delta =>
      '(upd, delta) ← GetUpdatesForKeys delta keys;
      mret (upd, set_lastDelta (Some delta) srv)
  end.

Fixpoint find_details (commitment : bytes) (cs : list Commitment) : outcome Commitment :=
  match cs with
  | [] => Err "Commitment not found"
  | c :: cs =>
      if bytes_eqb (c_Commitment c) commitment
      then b ← Commitment_Bytes c; CommitmentFromBytes b
      else find_details commitment cs
  end.

Definition GetCommitmentDetails (srv : Server DB) (commitment : bytes) : outcome Commitment :=
  if bytes_eqb (zeros 32) commitment then
    match last (commitments srv) with
    | Some c => mret c
    | None => Panic out_of_range
    end
  else find_details commitment (commitments srv).

(** The position of the first commitment with the hash, -1 if there is none. *)
Fixpoint start_index (sinceCommitment : bytes) (cs : list Commitment) (i : Z) : Z :=
  match cs with
  | [] => -1
  | c :: cs => if bytes_eqb (c_Commitment c) sinceCommitment then i else start_index sinceCommitment cs (i + 1)
  end.

Fixpoint clone_mined (cs : list Commitment) : outcome (list Commitment) :=
  match cs with
  | [] => mret []
  | c :: cs =>
      b ← Commitment_Bytes c;
      comm ← CommitmentFromBytes b;
      rest ← clone_mined cs;
      mret (match IncludedInBlock comm with Some _ => comm :: rest | None => rest end)
  end.

Definition GetCommitmentHistory (srv : Server DB) (sinceCommitment : bytes) : outcome (list Commitment) :=
  let startIdx := if negb (bytes_eqb (zeros 32) sinceCommitment)
                  then start_index sinceCommitment (commitments srv) 0 else -1 in
  if bool_decide (len (commitments srv) > startIdx)
  then clone_mined (drop (Z.to_nat (startIdx + 1)) (commitments srv))
  else mret [].

Definition TreeSize (srv : Server DB) : Z := FullMPT_ByteSize (fullmpt srv).
End Methods.
