(* ===== verification/LogProcessor.v ===== *)
(** * The connections of the server (server/logprocessor.go)

    A connection is a number; its state is in [procs].  What a handler does to
    the server before it returns an error stays done, so a handler returns the
    error, if any, next to the server.  A write to a connection is recorded in
    [sent] and does not fail here.  The signature check is a parameter. *)

From Stdlib Require Import ZArith Lia.
From S2P Require Import Prelude Buffers Sha256 Crypto Utils MerkleTree WireCommon MptNode MptSpec FullMPT MptSerialize PartialMPT DeltaMPT WireTypes Server.

Local Open Scope Z_scope.

Section Processor.
Context `{HashFunction} {DB : Type}
  (db_set : DB → db_key → db_value → DB * error)
  (VerifySig : bytes → bytes → bytes → outcome unit).

(** A step that can return an error: [if err != nil { return err }]. *)
Definition try {A} (m : outcome A) (srv : Server DB) (k : A → outcome (error * Server DB))
    : outcome (error * Server DB) :=
  match m with
  | Ret a => k a
  | Err e => mret (Some e, srv)
  | Panic p => Panic p
  end.

Definition on_conn (srv : Server DB) (p : nat) (f : LogProc → LogProc) : Server DB :=
  set_procs (alter f p (procs srv)) srv.

Definition reply (srv : Server DB) (p : nat) (t : Byte.byte) (m : bytes) : outcome (error * Server DB) :=
  mret (None, on_conn srv p (write t m)).

Definition NewLogProcessor (srv : Server DB) (p : nat) : Server DB :=
  registerProcessor (set_procs (<[p := MkLogProc ∅ [] false []]> (procs srv)) srv) p.

Definition SubscribeToLog (logID : bytes) (lp : LogProc) : LogProc :=
  if bool_decide (logID ∈ logIDMap lp) then lp
  else MkLogProc ({[logID]} ∪ logIDMap lp) (logIDs lp ++ [logID]) (autoUpdates lp) (sent lp).

Definition set_autoUpdates (b : bool) (lp : LogProc) : LogProc :=
  MkLogProc (logIDMap lp) (logIDs lp) b (sent lp).

Definition conn_logIDs (srv : Server DB) (p : nat) : list bytes :=
  match procs srv !! p with Some lp => logIDs lp | None => [] end.

(** ** Proofs *)

Definition ProcessRequestProof (srv : Server DB) (p : nat) (msg : RequestProofMessage) : outcome (error * Server DB) :=
  let keys := if bool_decide (len (LogIDs msg) = 0)
              then map (go_copy (zeros 32)) (conn_logIDs srv p)
              else map (go_copy (zeros 32)) (LogIDs msg) in
  try (GetProofForKeys srv keys) srv (λ '(proof, srv), reply srv p MessageTypeProof (PartialMPT_Bytes proof)).

Definition ProcessRequestDeltaProof (srv : Server DB) (p : nat) (msg : RequestProofMessage) : outcome (error * Server DB) :=
  let keys := if bool_decide (len (LogIDs msg) = 0)
              then conn_logIDs srv p
              else map (go_copy (zeros 32)) (LogIDs msg) in
  try (GetDeltaProofForKeys srv keys) srv (λ '(proof, srv), reply srv p MessageTypeDeltaProof (DeltaMPT_Bytes proof)).

(** ** Logs *)

Definition AckAppendLog (srv : Server DB) (p : nat) (sls : SignedLogStatement) : outcome (error * Server DB) :=
  reply (on_conn srv p (SubscribeToLog (LogID (Statement sls)))) p MessageTypeAck [].

(** The error of [RegisterLogStatement] is ignored. *)
Definition ProcessCreateLog (srv : Server DB) (p : nat) (scls : SignedCreateLogStatement) : outcome (error * Server DB) :=
  try (if CheckSignatures (config srv) then SignedCreateLogStatement_VerifySignature VerifySig scls else mret tt) srv (λ _,
    let hash := Sum256 (CreateLogStatement_Bytes (CreateStatement scls)) in
    let '(err, srv) := RegisterLogID db_set srv hash (ControllingKey (CreateStatement scls)) in
    match err with
    | Some e => mret (Some e, srv)
    | None =>
        let witness := Sum256 (SignedCreateLogStatement_Bytes scls) in
        '(_, srv) ← RegisterLogStatement db_set srv hash 0 witness false;
        reply (on_conn srv p (SubscribeToLog hash)) p MessageTypeAck []
    end).

Definition VerifyAppendLog (srv : Server DB) (sls : SignedLogStatement) : outcome unit :=
  pk ← GetPubKeyForLogID srv (LogID (Statement sls));
  SignedLogStatement_VerifySignature VerifySig sls pk.

Definition CommitAppendLog (srv : Server DB) (sls : SignedLogStatement) : outcome (error * Server DB) :=
  let witness := Sum256 (SignedLogStatement_Bytes sls) in
  RegisterLogStatement db_set srv (LogID (Statement sls)) (Index (Statement sls)) witness false.

Definition ProcessAppendLog (srv : Server DB) (p : nat) (sls : SignedLogStatement) : outcome (error * Server DB) :=
  try (if CheckSignatures (config srv) then VerifyAppendLog srv sls else mret tt) srv (λ _,
    '(err, srv) ← CommitAppendLog srv sls;
    match err with
    | Some e => mret (Some e, srv)
    | None => AckAppendLog srv p sls
    end).

(** ** Commitments *)

Definition ProcessRequestCommitmentDetails (srv : Server DB) (p : nat) (pm : RequestCommitmentDetailsMessage)
    : outcome (error * Server DB) :=
  try (GetCommitmentDetails srv (rcd_Commitment pm)) srv (λ c,
    b ← CommitmentDetailsMessage_Bytes (NewCommitmentDetailsMessage c);
    reply srv p MessageTypeCommitmentDetails b).

Definition ProcessRequestCommitmentHistory (srv : Server DB) (p : nat) (pm : RequestCommitmentHistoryMessage)
    : outcome (error * Server DB) :=
  c ← GetCommitmentHistory srv (SinceCommitment pm);
  b ← CommitmentHistoryMessage_Bytes (NewCommitmentHistoryMessage c);
  reply srv p MessageTypeCommitmentHistory b.

(** ** Dispatch *)

Definition is_type (t c : Byte.byte) : bool := bool_decide (t = c).

Definition ProcessMessage (srv : Server DB) (p : nat) (t : Byte.byte) (m : bytes) : outcome (error * Server DB) :=
  if is_type t MessageTypeCreateLog then
    try (NewSignedCreateLogStatementFromBytes m) srv (ProcessCreateLog srv p)
  else if is_type t MessageTypeAppendLog then
    try (NewSignedLogStatementFromBytes m) srv (ProcessAppendLog srv p)
  else if is_type t MessageTypeRequestProof then
    ProcessRequestProof srv p (NewRequestProofMessageFromBytes m)
  else if is_type t MessageTypeRequestDeltaProof then
    ProcessRequestDeltaProof srv p (NewRequestProofMessageFromBytes m)
  else if is_type t MessageTypeRequestCommitmentDetails then
    ProcessRequestCommitmentDetails srv p (NewRequestCommitmentDetailsMessageFromBytes m)
  else if is_type t MessageTypeRequestCommitmentHistory then
    ProcessRequestCommitmentHistory srv p (NewRequestCommitmentHistoryMessageFromBytes m)
  else if is_type t MessageTypeSubscribeProofUpdates then
    reply (on_conn srv p (set_autoUpdates true)) p MessageTypeAck []
  else if is_type t MessageTypeUnsubscribeProofUpdates then
    reply (on_conn srv p (set_autoUpdates false)) p MessageTypeAck []
  else mret (Some "Unrecognized message type received", srv).

(** One turn of [Process], with what [ReadNextMessage] gave: the first
    component tells whether the connection goes on.  The text of the error sent to the
    client is the error's message. *)
Definition Process_step (srv : Server DB) (p : nat) (input : outcome (Byte.byte * bytes)) : outcome (bool * Server DB) :=
  match input with
  | Panic e => Panic e
  | Err _ => mret (false, unregisterProcessor srv p)
  | Ret (t, m) =>
      '(err, srv) ← ProcessMessage srv p t m;
      match err with
      | None => mret (true, srv)
      | Some e =>
          let text := map Ascii.byte_of_ascii (String.list_ascii_of_string e) in
          mret (false, unregisterProcessor (on_conn srv p (write MessageTypeError text)) p)
      end
  end.
End Processor.
