(* ===== verification/ServerLogs.v ===== *)
(** * What the server keeps of the logs

    The server as a transition system of serial executions: its steps are the
    messages it gets, the commits, the blocks, and connections that come and go.  Next to the state
    runs the history of the accepted statements, which the code does not keep;
    the invariant says how maps and trie of the server follow from it. *)

From Stdlib Require Import ZArith Lia.
From S2P Require Import Prelude Buffers Sha256 Crypto Utils MerkleTree WireCommon MptNode MptSpec FullMPT MptTrie MptInv MptTheorems MptSerialize PartialMPT PartialTheorems DeltaMPT DeltaTheorems WireTypes Server LogProcessor.

Local Open Scope Z_scope.

(** ** Tries that agree outside the zero log *)

Definition same_logs (n n' : Node) : Prop :=
  wf_root 32 n → wf_root 32 n' ∧ ∀ id, id ≠ zeroLog → entries n' !! id = entries n !! id.

#[export] Instance same_logs_preorder : PreOrder same_logs.
Proof.
  split; [by intros n Hn|]. intros a b c Hab Hbc Ha. destruct (Hab Ha) as [Hb Eb], (Hbc Hb) as [Hc Ec].
  split; [done|]. intros id Hid. by rewrite Ec, Eb.
Qed.

Lemma same_logs_equiv n n' : n' ≡ n → same_logs n n'.
Proof.
  intros He Hn. split; [eapply wf_root_proper; [symmetry; exact He|done]|].
  intros id _. by rewrite (entries_proper _ _ He).
Qed.

Lemma overwrite_entries k v n id : id ≠ k → entries (overwrite k v n) !! id = entries n !! id.
Proof.
  intros Hid. induction n as [|s|d| |h rc ch l IHl r IHr]; simpl; try done.
  - destruct (bytes_eqb (dln_key d) k) eqn:E; [|done]. apply bytes_eqb_true in E. subst k. simpl.
    by rewrite !lookup_singleton_ne.
  - by rewrite !lookup_union, IHl, IHr.
Qed.

Lemma overwrite_shape k v n :
  is_empty (overwrite k v n) = is_empty n ∧ is_leaf (overwrite k v n) = is_leaf n.
Proof. destruct n; simpl; try done. by destruct (bytes_eqb _ _). Qed.

Lemma overwrite_wf L p k v n : wf L p n → wf L p (overwrite k v n).
Proof.
  revert p. induction n as [|s|d| |h rc ch l IHl r IHr]; intros p Hwf; try done; simpl.
  - by destruct (bytes_eqb (dln_key d) k).
  - destruct Hwf as (Hl & Hr & Hc). repeat split; eauto; destruct Hc as [C1 C2];
      rewrite (proj1 (overwrite_shape _ _ _)), (proj2 (overwrite_shape _ _ _)); auto.
Qed.

Lemma same_logs_overwrite v n : same_logs n (overwrite zeroLog v n).
Proof.
  intros Hn. split; [|intros; by apply overwrite_entries].
  destruct n as [| | | |h rc ch l r]; try done. destruct Hn. split; by apply overwrite_wf.
Qed.

Lemma same_logs_insert_zero fm v fm' :
  Insert fm zeroLog v = Ret fm' → same_logs (fm_root fm) (fm_root fm').
Proof.
  intros Hi Hwf. destruct (insert_root_spec 32 (fm_root fm) zeroLog v) as (n & Hn & Hwn & He); [lia|done|done|].
  unfold Insert in Hi. rewrite Hn in Hi. injection Hi as <-. split; [done|].
  intros id Hid. simpl. by rewrite He, lookup_insert_ne.
Qed.

Section Same.
Context `{HashFunction}.

Lemma GetHash_equiv n h n' : GetHash n = Ret (h, n') → n' ≡ n.
Proof. intros Hg. by apply strip_equiv, (GetHash_strip _ _ _ Hg). Qed.

Lemma copyChangesOnly_equiv n d n' : copyChangesOnlyHelper n = Ret (d, n') → n' ≡ n.
Proof.
  revert d n'. induction n as [|s|e| |h rc ch l IHl r IHr]; intros d n' Hc; cbn [copyChangesOnlyHelper] in Hc; try done.
  - injection Hc as _ <-. done.
  - destruct (DictionaryLeafNode_GetHash e) as [h e'] eqn:E.
    assert (DictionaryLeaf e' ≡ DictionaryLeaf e) as He.
    { apply (GetHash_equiv _ h). cbn [GetHash]. by rewrite E. }
    destruct (negb (dln_changed e)); injection Hc as _ <-; done.
  - injection Hc as _ <-. done.
  - destruct ch.
    + apply bind_Ret_inv in Hc as ([dl l'] & Hl & Hc). apply bind_Ret_inv in Hc as ([dr r'] & Hr & Hc).
      apply bind_Ret_inv in Hc as ([x n1] & Hg & Hc). apply GetHash_equiv in Hg. injection Hc as _ <-.
      rewrite Hg. apply Interior_equiv; eauto.
    + apply bind_Ret_inv in Hc as ([x n1] & Hg & Hc). apply (GetHash_equiv (Interior h rc false l r)) in Hg.
      injection Hc as _ <-. done.
Qed.

Lemma NewDelta_equiv fm d fm' : NewDeltaMPT fm = Ret (d, fm') → fm_root fm' ≡ fm_root fm.
Proof.
  unfold NewDeltaMPT. destruct (fm_root fm) as [| | | |h rc ch l r]; intros Hd; try done.
  apply bind_Ret_inv in Hd as ([dl l'] & Hl & Hd). apply bind_Ret_inv in Hd as ([dr r'] & Hr & Hd).
  injection Hd as _ <-. simpl. apply Interior_equiv; by eapply copyChangesOnly_equiv.
Qed.
End Same.

(** ** Steps that leave the logs alone *)

Section Keeps.
Context `{HashFunction} {DB : Type} (db_set : DB → db_key → db_value → DB * error)
  (VerifySig : bytes → bytes → bytes → outcome unit).

Record keeps (s s' : Server DB) : Prop := Keeps {
  k_check : CheckSignatures (config s') = CheckSignatures (config s);
  k_keys : ∀ id, id ≠ zeroLog → logIDToPubKey s' !! id = logIDToPubKey s !! id;
  k_index : ∀ id, id ≠ zeroLog → logIDIndex s' !! id = logIDIndex s !! id;
  k_trie : same_logs (fm_root (fullmpt s)) (fm_root (fullmpt s'))
}.

#[local] Instance keeps_preorder : PreOrder keeps.
Proof.
  split; [by split|]. intros a b c [A1 A2 A3 A4] [B1 B2 B3 B4]. split; [congruence|..].
  - intros id Hid. by rewrite B2, A2.
  - intros id Hid. by rewrite B3, A3.
  - by transitivity (fm_root (fullmpt b)).
Qed.

(** A change of the other fields. *)
Lemma keeps_other s s' :
  config s' = config s → logIDToPubKey s' = logIDToPubKey s → logIDIndex s' = logIDIndex s →
  fullmpt s' = fullmpt s → keeps s s'.
Proof. intros Ec Ek Ei Et. split; by rewrite ?Ec, ?Ek, ?Ei, ?Et. Qed.

Lemma keeps_fullmpt s fm : same_logs (fm_root (fullmpt s)) (fm_root fm) → keeps s (set_fullmpt fm s).
Proof. by intros Hs. Qed.

Lemma server_commitment_keeps (s : Server DB) c s' : server_commitment s = Ret (c, s') → keeps s s'.
Proof.
  intros Hc. apply bind_Ret_inv in Hc as ([c0 fm] & Hc & Hr). injection Hr as _ <-.
  apply keeps_fullmpt. unfold FullMPT.Commitment in Hc. apply bind_Ret_inv in Hc as ([h n] & Hg & Hc).
  injection Hc as _ <-. apply GetHash_equiv in Hg.
  transitivity n; [by apply same_logs_equiv|]. destruct (zeroLogAlias s); [apply same_logs_overwrite|done].
Qed.

(** [insert_statement] inserts into the trie and changes nothing else but the mark. *)
Lemma insert_statement_Ret (s : Server DB) id st al s' :
  insert_statement s id st al = Ret s' →
  ∃ fm b, Insert (fullmpt s) id st = Ret fm ∧ s' = set_zeroLogAlias b (set_fullmpt fm s).
Proof.
  intros Hi. apply bind_Ret_inv in Hi as (old & _ & Hi). apply bind_Ret_inv in Hi as (fm & Hi & Hr).
  injection Hr as <-. eauto.
Qed.

Lemma RegisterLogStatement_zero_keeps s i st al err s' :
  RegisterLogStatement db_set s zeroLog i st al = Ret (err, s') → keeps s s'.
Proof.
  unfold RegisterLogStatement. intros Hr. case_bool_decide; [by injection Hr as _ <-|].
  case_bool_decide; [by injection Hr as _ <-|]. destruct (if Full _ then _ else _) as [db e].
  transitivity (set_commitmentDb db (set_logIDIndex (<[zeroLog := i]> (logIDIndex s)) s)).
  { split; try done. intros id Hid. simpl. by rewrite lookup_insert_ne. }
  destruct e; [by injection Hr as _ <-|]. apply bind_Ret_inv in Hr as (s1 & Hi & Hr). injection Hr as _ <-.
  apply insert_statement_Ret in Hi as (fm & b & Hi & ->).
  transitivity (set_fullmpt fm (set_commitmentDb db (set_logIDIndex (<[zeroLog := i]> (logIDIndex s)) s)));
    [|by apply keeps_other].
  apply keeps_fullmpt. by eapply same_logs_insert_zero.
Qed.

Lemma saveCommitment_keeps s c s' : saveCommitment db_set s c = Ret s' → keeps s s'.
Proof.
  unfold saveCommitment. intros Hs. apply bind_Ret_inv in Hs as (b & _ & Hs).
  destruct (db_set _ _ _) as [db e]. injection Hs as <-. case_bool_decide; by apply keeps_other.
Qed.

Lemma commitState_keeps (s : Server DB) s' : commitState s = Ret s' → keeps s s'.
Proof. unfold commitState. destruct (LastCommitMpt s); intros Hs; [|done]. injection Hs as <-. by apply keeps_other. Qed.

Lemma Commit_keeps wc wh s err s' : Commit db_set wc wh s = Ret (err, s') → keeps s s'.
Proof.
  unfold Commit. intros Hc. apply bind_Ret_inv in Hc as ([c s1] & H1 & Hc).
  apply server_commitment_keeps in H1. transitivity s1; [done|]. clear H1.
  destruct (bytes_eqb _ _); [by injection Hc as _ <-|].
  apply bind_Ret_inv in Hc as (s2 & H2 & Hc).
  assert (keeps s1 s2) as K2.
  { destruct (KeepCommitmentTree _); [|injection H2 as <-; by apply keeps_other].
    apply bind_Ret_inv in H2 as (? & _ & H2). apply bind_Ret_inv in H2 as (? & _ & H2).
    injection H2 as <-. by apply keeps_other. }
  transitivity s2; [done|]. clear H2 K2.
  apply bind_Ret_inv in Hc as (? & _ & Hc). apply bind_Ret_inv in Hc as ([d fm] & Hd & Hc).
  apply bind_Ret_inv in Hc as ([ps d'] & _ & Hc). apply bind_Ret_inv in Hc as (fm' & Hr & Hc).
  apply NewDelta_equiv in Hd. apply bind_Ret_inv in Hr as (n & Hr & Hn). injection Hn as <-.
  apply cache_MarkUnchangedAll in Hr as (_ & _ & Hr).
  transitivity (set_fullmpt (MkFullMPT n) s2).
  { apply keeps_fullmpt, same_logs_equiv. simpl. by rewrite Hr. }
  revert Hc. set (s3 := set_procs _ _). assert (keeps (set_fullmpt (MkFullMPT n) s2) s3) as K3 by by apply keeps_other.
  intros Hc. transitivity s3; [done|]. clearbody s3. clear K3 Hd Hr.
  destruct (Full _); [|by injection Hc as _ <-].
  destruct (wc c) as [[txID rawTx]|e|e]; [|by injection Hc as _ <-|done].
  apply bind_Ret_inv in Hc as (s4 & H4 & Hc). apply bind_Ret_inv in Hc as (s5 & H5 & Hc).
  apply bind_Ret_inv in Hc as ([e s6] & H6 & Hc). injection Hc as _ <-.
  transitivity s4; [by eapply saveCommitment_keeps|]. transitivity s5; [by apply commitState_keeps|].
  by eapply RegisterLogStatement_zero_keeps.
Qed.

Lemma process_commitment_keeps b i s s' : process_commitment db_set b i s = Ret s' → keeps s s'.
Proof.
  unfold process_commitment. destruct (commitments s !! i) as [c|]; [|by intros Hp; injection Hp as <-].
  destruct (in_block b c); [|by intros Hp; injection Hp as <-]. destruct (TxHash c) as [tx|]; [|done].
  intros Hp. apply bind_Ret_inv in Hp as (c' & _ & Hp). apply bind_Ret_inv in Hp as (s1 & H1 & Hp).
  apply saveCommitment_keeps in Hp. transitivity s1; [|done]. clear Hp.
  transitivity (set_commitments (<[i := c']> (commitments s)) s); [by apply keeps_other|].
  destruct (bytes_eqb _ _); [|by injection H1 as <-]. simpl in H1. destruct (LastCommitMpt s); [|done].
  apply bind_Ret_inv in H1 as (t & _ & H1). apply commitState_keeps in H1.
  etransitivity; [|exact H1]. by apply keeps_other.
Qed.

Lemma processMerkleProofs_keeps b s s' : processMerkleProofs db_set s b = Ret s' → keeps s s'.
Proof.
  unfold processMerkleProofs. generalize (length (commitments s)) as n, 0%nat as i. intros n.
  revert s. induction n as [|n IH]; intros s i Hp; simpl in Hp; [by injection Hp as <-|].
  apply bind_Ret_inv in Hp as (s1 & H1 & Hp). transitivity s1; [by eapply process_commitment_keeps|eauto].
Qed.

Lemma blockWatcher_keeps wc wh b s s' : blockWatcher_step db_set wc wh s b = Ret s' → keeps s s'.
Proof.
  unfold blockWatcher_step. intros Hb. apply bind_Ret_inv in Hb as (s1 & H1 & Hb).
  transitivity s1; [by eapply processMerkleProofs_keeps|]. case_bool_decide; [|by injection Hb as <-].
  destruct (_ && _); [|by injection Hb as <-]. apply bind_Ret_inv in Hb as ([e s2] & H2 & Hb).
  injection Hb as <-. by eapply Commit_keeps.
Qed.

Lemma RegisterLogID_zero_keeps s k err s' : RegisterLogID db_set s zeroLog k = (err, s') → keeps s s'.
Proof.
  unfold RegisterLogID. intros E. destruct (logIDToPubKey s !! zeroLog); [by injection E as _ <-|].
  transitivity (set_logIDToPubKey (<[zeroLog := k]> (logIDToPubKey s)) s).
  { split; try done. intros id Hid. simpl. by rewrite lookup_insert_ne. }
  destruct (Full _); [|by injection E as _ <-]. destruct (db_set _ _ _) as [db e'].
  injection E as _ <-. by apply keeps_other.
Qed.

Lemma maiden_keeps wc wh s s' : maiden_commitment db_set wc wh s = Ret s' → keeps s s'.
Proof.
  unfold maiden_commitment. case_bool_decide; [|by intros Hm; injection Hm as <-].
  destruct (RegisterLogID db_set s zeroLog (zeros 33)) as [e s1] eqn:E1. intros Hm.
  apply bind_Ret_inv in Hm as ([e2 s2] & H2 & Hm). apply bind_Ret_inv in Hm as ([e3 s3] & H3 & Hm).
  destruct e3; [done|]. injection Hm as <-.
  transitivity s1; [|transitivity s2; [by eapply RegisterLogStatement_zero_keeps|by eapply Commit_keeps]].
  by eapply RegisterLogID_zero_keeps.
Qed.

Lemma reply_keeps s p t m err s' : reply s p t m = Ret (err, s') → keeps s s'.
Proof. intros Hr. injection Hr as _ <-. by apply keeps_other. Qed.

(** The error branch of [try] leaves the server as it was. *)
Lemma try_Ret {A} (m : outcome A) (s : Server DB) k err s' :
  try m s k = Ret (err, s') → (∃ a, m = Ret a ∧ k a = Ret (err, s')) ∨ (s' = s ∧ err ≠ None).
Proof. destruct m; simpl; intros Ht; [eauto| |done]. right. by injection Ht as <- <-. Qed.

Lemma GetProofForKeys_keeps s ks pm s' : GetProofForKeys s ks = Ret (pm, s') → keeps s s'.
Proof.
  unfold GetProofForKeys. destruct (Full _).
  - destruct (LastConfirmedCommitMpt s); [|done]. intros Hg. apply bind_Ret_inv in Hg as ([? ?] & _ & Hg).
    injection Hg as _ <-. by apply keeps_other.
  - destruct (LastCommitMpt s); [|done]. intros Hg. apply bind_Ret_inv in Hg as ([? ?] & _ & Hg).
    injection Hg as _ <-. by apply keeps_other.
Qed.

Lemma RequestProof_keeps s p msg err s' : ProcessRequestProof s p msg = Ret (err, s') → keeps s s'.
Proof.
  intros Ht. apply try_Ret in Ht as [([pm s1] & Hg & Hr)|[-> _]]; [|done].
  transitivity s1; [by eapply GetProofForKeys_keeps|by eapply reply_keeps].
Qed.

Lemma RequestDeltaProof_keeps s p msg err s' : ProcessRequestDeltaProof s p msg = Ret (err, s') → keeps s s'.
Proof.
  intros Ht. apply try_Ret in Ht as [([pm s1] & Hg & Hr)|[-> _]]; [|done].
  transitivity s1; [|by eapply reply_keeps]. unfold GetDeltaProofForKeys in Hg.
  destruct (lastDelta s); [|done]. apply bind_Ret_inv in Hg as ([? ?] & _ & Hg). injection Hg as _ <-.
  by apply keeps_other.
Qed.

Lemma RequestDetails_keeps s p msg err s' : ProcessRequestCommitmentDetails s p msg = Ret (err, s') → keeps s s'.
Proof.
  intros Ht. apply try_Ret in Ht as [(c & _ & Hr)|[-> _]]; [|done].
  apply bind_Ret_inv in Hr as (? & _ & Hr). by eapply reply_keeps.
Qed.

Lemma RequestHistory_keeps s p msg err s' : ProcessRequestCommitmentHistory s p msg = Ret (err, s') → keeps s s'.
Proof.
  intros Hr. apply bind_Ret_inv in Hr as (? & _ & Hr). apply bind_Ret_inv in Hr as (? & _ & Hr).
  by eapply reply_keeps.
Qed.

Lemma unregister_keeps s p : keeps s (unregisterProcessor s p).
Proof. unfold unregisterProcessor. case_match; [by apply keeps_other|done]. Qed.

(** ** Statements that are accepted *)

Context (db_ok : ∀ db k v, (db_set db k v).2 = None).

(** What [RegisterLogStatement] does: an error and no change, or the next index and the
    new statement. *)
Lemma RegisterLogStatement_Ret s id i st al err s' :
  RegisterLogStatement db_set s id i st al = Ret (err, s') →
  (err ≠ None ∧ s' = s ∧ i ≠ GetNextLogIndex s id) ∨
  (err = None ∧ i = GetNextLogIndex s id ∧ config s' = config s ∧ logIDToPubKey s' = logIDToPubKey s ∧
   logIDIndex s' = <[id := i]> (logIDIndex s) ∧ Insert (fullmpt s) (go_copy (zeros 32) id) st = Ret (fullmpt s')).
Proof.
  unfold RegisterLogStatement. intros Hr. case_bool_decide as C1.
  { injection Hr as <- <-. left. destruct C1 as [C1 ?]. unfold GetNextLogIndex. by rewrite C1. }
  case_bool_decide as C2; [injection Hr as <- <-; left; by destruct C2|].
  assert (i = GetNextLogIndex s id) as Hi.
  { unfold GetNextLogIndex in *. destruct (logIDIndex s !! id); [|].
    - destruct (decide (i = u64 (z + 1))); [done|]. destruct C2. done.
    - destruct (decide (i = 0)); [done|]. destruct C1. done. }
  assert (∃ db, (if Full (config (set_logIDIndex (<[id := i]> (logIDIndex s)) s))
      then db_set (commitmentDb (set_logIDIndex (<[id := i]> (logIDIndex s)) s)) (DbIdx id) (DbNum i)
      else (commitmentDb (set_logIDIndex (<[id := i]> (logIDIndex s)) s), None)) = (db, None)) as [db Edb].
  { destruct (Full _); [|by eexists]. pose proof (db_ok (commitmentDb s) (DbIdx id) (DbNum i)) as E.
    simpl. destruct (db_set _ _ _) as [db e]. simpl in E. subst e. by eexists. }
  rewrite Edb in Hr. apply bind_Ret_inv in Hr as (s1 & H1 & Hr). injection Hr as <- <-.
  apply insert_statement_Ret in H1 as (fm & b & H1 & ->). right. done.
Qed.

(** The accepted statements of a log. *)
Record history := MkHistory { created : SignedCreateLogStatement; appended : list SignedLogStatement }.

Definition log_id (scls : SignedCreateLogStatement) : bytes :=
  Sum256 (CreateLogStatement_Bytes (CreateStatement scls)).

(** What a message that is answered with an acknowledgement adds to the history. *)
Definition record (t : Byte.byte) (m : bytes) (g : gmap bytes history) : gmap bytes history :=
  if is_type t MessageTypeCreateLog then
    match NewSignedCreateLogStatementFromBytes m with
    | Ret scls => <[log_id scls := MkHistory scls []]> g
    | _ => g
    end
  else if is_type t MessageTypeAppendLog then
    match NewSignedLogStatementFromBytes m with
    | Ret sls => alter (λ h, MkHistory (created h) (appended h ++ [sls])) (LogID (Statement sls)) g
    | _ => g
    end
  else g.

(** The statement the trie has to hold: the hash of the last one accepted. *)
Definition last_witness (h : history) : bytes :=
  match last (appended h) with
  | Some sls => Sum256 (SignedLogStatement_Bytes sls)
  | None => Sum256 (SignedCreateLogStatement_Bytes (created h))
  end.

(** The entries of a log are signed by its creator's key and numbered in order. *)
Definition history_ok (id : bytes) (h : history) : Prop :=
  id = log_id (created h) ∧
  SignedCreateLogStatement_VerifySignature VerifySig (created h) = Ret tt ∧
  ∀ i sls, appended h !! i = Some sls →
    LogID (Statement sls) = id ∧ Index (Statement sls) = u64 (Z.of_nat i + 1) ∧
    SignedLogStatement_VerifySignature VerifySig sls (ControllingKey (CreateStatement (created h))) = Ret tt.

Definition log_ok (s : Server DB) (g : gmap bytes history) (id : bytes) : Prop :=
  match g !! id with
  | None => logIDToPubKey s !! id = None ∧ logIDIndex s !! id = None ∧ entries (fm_root (fullmpt s)) !! id = None
  | Some h =>
      history_ok id h ∧
      logIDToPubKey s !! id = Some (ControllingKey (CreateStatement (created h))) ∧
      logIDIndex s !! id = Some (u64 (len (appended h))) ∧
      entries (fm_root (fullmpt s)) !! id = Some (last_witness h)
  end.

Definition logs_ok (s : Server DB) (g : gmap bytes history) : Prop :=
  CheckSignatures (config s) = true ∧ wf_root 32 (fm_root (fullmpt s)) ∧
  ∀ id, id ≠ zeroLog → log_ok s g id.

Lemma logs_ok_keeps s s' g : keeps s s' → logs_ok s g → logs_ok s' g.
Proof.
  intros [K1 K2 K3 K4] (Hc & Hwf & Hl). destruct (K4 Hwf) as [Hwf' Ke].
  split; [congruence|]. split; [done|]. intros id Hid. specialize (Hl id Hid). unfold log_ok in *.
  by rewrite K2, K3, Ke.
Qed.

(** A registered statement, seen from the other logs and from its own. *)
Lemma Registered_ok (s s' : Server DB) id st :
  wf_root 32 (fm_root (fullmpt s)) → length id = 32%nat →
  Insert (fullmpt s) (go_copy (zeros 32) id) st = Ret (fullmpt s') →
  wf_root 32 (fm_root (fullmpt s')) ∧ entries (fm_root (fullmpt s')) = <[id := st]> (entries (fm_root (fullmpt s))).
Proof.
  intros Hwf Hid Hins. rewrite go_copy_same in Hins by done.
  destruct (insert_root_spec 32 (fm_root (fullmpt s)) id st) as (n & Hn & Hwn & He); [lia|done|done|].
  unfold Insert in Hins. rewrite Hn in Hins. injection Hins as E. by rewrite <- E.
Qed.

Lemma logs_ok_ghost s g g' :
  (∀ id, id ≠ zeroLog → g' !! id = g !! id) → logs_ok s g → logs_ok s g'.
Proof.
  intros Hg (Hc & Hwf & Hl). split; [done|]. split; [done|]. intros id Hid. specialize (Hl id Hid).
  unfold log_ok in *. by rewrite Hg.
Qed.

Lemma RegisterLogID_Ret s id k err s' :
  RegisterLogID db_set s id k = (err, s') →
  (err ≠ None ∧ s' = s) ∨
  (err = None ∧ logIDToPubKey s !! id = None ∧ config s' = config s ∧
   logIDToPubKey s' = <[id := k]> (logIDToPubKey s) ∧ logIDIndex s' = logIDIndex s ∧ fullmpt s' = fullmpt s).
Proof.
  unfold RegisterLogID. destruct (logIDToPubKey s !! id) eqn:E; [intros Hr; injection Hr as <- <-; by left|].
  intros Hr. right. simpl in Hr. destruct (Full _); [|by injection Hr as <- <-].
  pose proof (db_ok (commitmentDb s) (DbKey id) (DbBytes k)) as Hok.
  destruct (db_set _ _ _) as [db e]. simpl in Hok. subst e. by injection Hr as <- <-.
Qed.

(** A log that is created now. *)
Lemma create_ok s s' g scls :
  logs_ok s g → log_id scls ≠ zeroLog → logIDToPubKey s !! log_id scls = None →
  SignedCreateLogStatement_VerifySignature VerifySig scls = Ret tt →
  config s' = config s → logIDToPubKey s' = <[log_id scls := ControllingKey (CreateStatement scls)]> (logIDToPubKey s) →
  logIDIndex s' = <[log_id scls := 0]> (logIDIndex s) →
  Insert (fullmpt s) (go_copy (zeros 32) (log_id scls)) (Sum256 (SignedCreateLogStatement_Bytes scls)) = Ret (fullmpt s') →
  logs_ok s' (<[log_id scls := MkHistory scls []]> g).
Proof.
  intros (Hc & Hwf & Hl) Hz Hnew Hsig Ec Ek Ei Hins.
  destruct (Registered_ok s s' _ _ Hwf (Sum256_length _) Hins) as [Hwf' He].
  split; [congruence|]. split; [done|]. intros id Hid. specialize (Hl id Hid). unfold log_ok in *.
  rewrite Ek, Ei, He. destruct (decide (id = log_id scls)) as [->|Hne].
  - rewrite !lookup_insert_eq. done.
  - by rewrite !lookup_insert_ne.
Qed.

Lemma CreateLog_ok s g p scls err s' :
  logs_ok s g → ProcessCreateLog db_set VerifySig s p scls = Ret (err, s') →
  logs_ok s' (if err is None then <[log_id scls := MkHistory scls []]> g else g).
Proof.
  intros Hok Hp. apply try_Ret in Hp as [([] & Hsig & Hp)|[-> He]]; [|by destruct err].
  pose proof Hok as (Hc & Hwf & Hl). rewrite Hc in Hsig. cbv zeta in Hp. fold (log_id scls) in Hp.
  destruct (RegisterLogID _ _ _ _) as [e1 s1] eqn:E1. destruct e1 as [e1|].
  { apply RegisterLogID_Ret in E1 as [[_ ->]|[? _]]; [|done]. by injection Hp as <- <-. }
  apply bind_Ret_inv in Hp as ([e2 s2] & H2 & Hp). pose proof (reply_keeps _ _ _ _ _ _ Hp) as K.
  injection Hp as <- <-. eapply logs_ok_keeps; [exact K|]. clear K.
  apply (logs_ok_keeps s2); [by apply keeps_other|]. destruct (decide (log_id scls = zeroLog)) as [Ez|Hz].
  - apply (logs_ok_ghost _ g); [intros id Hid; by rewrite lookup_insert_ne by congruence|].
    rewrite Ez in *. eapply logs_ok_keeps; [|exact Hok].
    transitivity s1; [by eapply RegisterLogID_zero_keeps|by eapply RegisterLogStatement_zero_keeps].
  - apply RegisterLogID_Ret in E1 as [[? _]|(_ & Hnew & Ec & Ek & Ei & Ef)]; [done|].
    assert (GetNextLogIndex s1 (log_id scls) = 0) as Hnext.
    { specialize (Hl _ Hz). unfold log_ok in Hl. unfold GetNextLogIndex. rewrite Ei.
      destruct (g !! log_id scls); [destruct Hl as (_ & ? & _); congruence|]. by destruct Hl as (_ & -> & _). }
    apply RegisterLogStatement_Ret in H2 as [(_ & _ & He)|(_ & _ & Ec2 & Ek2 & Ei2 & Hins)]; [congruence|].
    rewrite Ef in Hins. apply (create_ok s s2); congruence.
Qed.

(** A statement appended to a log that exists. *)
Lemma append_ok s s' g sls h :
  logs_ok s g → LogID (Statement sls) ≠ zeroLog → g !! LogID (Statement sls) = Some h →
  SignedLogStatement_VerifySignature VerifySig sls (ControllingKey (CreateStatement (created h))) = Ret tt →
  Index (Statement sls) = GetNextLogIndex s (LogID (Statement sls)) →
  config s' = config s → logIDToPubKey s' = logIDToPubKey s →
  logIDIndex s' = <[LogID (Statement sls) := Index (Statement sls)]> (logIDIndex s) →
  Insert (fullmpt s) (go_copy (zeros 32) (LogID (Statement sls))) (Sum256 (SignedLogStatement_Bytes sls)) = Ret (fullmpt s') →
  logs_ok s' (alter (λ h, MkHistory (created h) (appended h ++ [sls])) (LogID (Statement sls)) g).
Proof.
  intros (Hc & Hwf & Hl) Hz Hh Hsig Hi Ec Ek Ei Hins. pose proof (Hl _ Hz) as Hlog. unfold log_ok in Hlog.
  rewrite Hh in Hlog. destruct Hlog as ((Hid & Hcs & Ha) & Hk & Hidx & _).
  unfold GetNextLogIndex in Hi. rewrite Hidx in Hi.
  assert (Index (Statement sls) = u64 (len (appended h) + 1)) as Hi'.
  { rewrite Hi. unfold u64. by rewrite Z.add_mod_idemp_l. }
  assert (length (LogID (Statement sls)) = 32%nat) as H32 by (rewrite Hid; apply Sum256_length).
  destruct (Registered_ok s s' _ _ Hwf H32 Hins) as [Hwf' He].
  split; [congruence|]. split; [done|]. intros id Hne. unfold log_ok. rewrite Ek, Ei, He.
  destruct (decide (id = LogID (Statement sls))) as [->|Hd].
  - rewrite lookup_alter_eq, Hh, !lookup_insert_eq. simpl. split; [|repeat split; try done].
    + split; [done|]. split; [done|]. simpl. intros i x Hx.
      apply lookup_app_Some in Hx as [Hx|[Hlen Hx]]; [eauto|].
      apply list_lookup_singleton_Some in Hx as [Hz' <-]. split; [done|]. split; [|done].
      rewrite Hi'. f_equal. unfold len. lia.
    + rewrite Hi'. f_equal. f_equal. unfold len. rewrite length_app. simpl. lia.
    + unfold last_witness. simpl. by rewrite last_snoc.
  - rewrite lookup_alter_ne, !lookup_insert_ne by done. exact (Hl id Hne).
Qed.

Lemma AppendLog_ok s g p sls err s' :
  logs_ok s g → ProcessAppendLog db_set VerifySig s p sls = Ret (err, s') →
  logs_ok s' (if err is None
              then alter (λ h, MkHistory (created h) (appended h ++ [sls])) (LogID (Statement sls)) g else g).
Proof.
  intros Hok Hp. apply try_Ret in Hp as [([] & Hsig & Hp)|[-> He]]; [|by destruct err].
  pose proof Hok as (Hc & Hwf & Hl). rewrite Hc in Hsig.
  apply bind_Ret_inv in Hp as ([e1 s1] & H1 & Hp). unfold CommitAppendLog in H1. destruct e1 as [e1|].
  { apply RegisterLogStatement_Ret in H1 as [(_ & -> & _)|[? _]]; [|done]. by injection Hp as <- <-. }
  pose proof (reply_keeps _ _ _ _ _ _ Hp) as K. injection Hp as <- <-.
  eapply logs_ok_keeps; [exact K|]. clear K. apply (logs_ok_keeps s1); [by apply keeps_other|].
  destruct (decide (LogID (Statement sls) = zeroLog)) as [Ez|Hz].
  - apply (logs_ok_ghost _ g); [intros id Hid; by rewrite lookup_alter_ne by congruence|].
    rewrite Ez in *. eapply logs_ok_keeps; [|exact Hok]. by eapply RegisterLogStatement_zero_keeps.
  - apply bind_Ret_inv in Hsig as (pk & Hpk & Hsig). unfold GetPubKeyForLogID in Hpk.
    destruct (logIDToPubKey s !! LogID (Statement sls)) as [pk'|] eqn:Epk; [|done]. injection Hpk as ->.
    pose proof (Hl _ Hz) as Hlog. unfold log_ok in Hlog.
    destruct (g !! LogID (Statement sls)) as [h|] eqn:Eg; [|destruct Hlog; congruence].
    destruct Hlog as (_ & Hk & _). rewrite Epk in Hk. injection Hk as ->.
    apply RegisterLogStatement_Ret in H1 as [[? _]|(_ & Hi & Ec & Ek & Ei & Hins)]; [done|].
    by apply (append_ok s s1 g sls h).
Qed.

Lemma ProcessMessage_ok s g p t m err s' :
  logs_ok s g → ProcessMessage db_set VerifySig s p t m = Ret (err, s') →
  logs_ok s' (if err is None then record t m g else g).
Proof.
  intros Hok Hp. unfold ProcessMessage in Hp. unfold record.
  destruct (is_type t MessageTypeCreateLog).
  { apply try_Ret in Hp as [(scls & -> & Hp)|[-> He]]; [by eapply CreateLog_ok|by destruct err]. }
  destruct (is_type t MessageTypeAppendLog).
  { apply try_Ret in Hp as [(sls & -> & Hp)|[-> He]]; [by eapply AppendLog_ok|by destruct err]. }
  assert (keeps s s') as K.
  { destruct (is_type t MessageTypeRequestProof); [by eapply RequestProof_keeps|].
    destruct (is_type t MessageTypeRequestDeltaProof); [by eapply RequestDeltaProof_keeps|].
    destruct (is_type t MessageTypeRequestCommitmentDetails); [by eapply RequestDetails_keeps|].
    destruct (is_type t MessageTypeRequestCommitmentHistory); [by eapply RequestHistory_keeps|].
    destruct (is_type t MessageTypeSubscribeProofUpdates); [injection Hp as <- <-; by apply keeps_other|].
    destruct (is_type t MessageTypeUnsubscribeProofUpdates); [injection Hp as <- <-; by apply keeps_other|].
    by injection Hp as <- <-. }
  destruct err; by eapply logs_ok_keeps.
Qed.

(** ** The server as a transition system *)

(** The serial executions of the server: one message, commit or block is handled after the
    other, each to its end.  The code has one goroutine per connection, and
    [RegisterLogStatement] releases the lock between the check of the index and the update of
    the maps, so calls for one log that overlap are executions of the code that are not steps
    here; [ServerRace] models the lock sections as steps and shows what such calls can do
    ([race_accepts_both]) and that calls for different logs may overlap in any way
    ([interleaved_registrations]).
    A connection is a new object; the wallet's answers and the height of the chain may
    differ from step to step. *)
Inductive step : Server DB * gmap bytes history → Server DB * gmap bytes history → Prop :=
| step_connect s g p (Hp : procs s !! p = None) : step (s, g) (NewLogProcessor s p, g)
| step_message s g p t m (goes_on : bool) s'
    (Hm : Process_step db_set VerifySig s p (Ret (t, m)) = Ret (goes_on, s')) :
    step (s, g) (s', if goes_on then record t m g else g)
| step_hangup s g p e goes_on s'
    (Hm : Process_step db_set VerifySig s p (Err e) = Ret (goes_on, s')) :
    step (s, g) (s', g)
| step_maiden s g wc wh s' (Hm : maiden_commitment db_set wc wh s = Ret s') : step (s, g) (s', g)
| step_trigger s g trigger err s' (Hl : length trigger = 32%nat)
    (Ht : RegisterLogStatement db_set s zeroLog (GetNextLogIndex s zeroLog) trigger false = Ret (err, s')) :
    step (s, g) (s', g)
| step_commit s g wc wh err s' (Hc : Commit db_set wc wh s = Ret (err, s')) : step (s, g) (s', g)
| step_block s g wc wh b s' (Hb : blockWatcher_step db_set wc wh s b = Ret s') : step (s, g) (s', g).

Lemma step_ok x y : step x y → logs_ok x.1 x.2 → logs_ok y.1 y.2.
Proof.
  intros Hs Hok. destruct Hs as [s g p Hp|s g p t m goes_on s' Hm|s g p e goes_on s' Hm|s g wc wh s' Hm|
    s g tr err s' Hl Ht|s g wc wh err s' Hc|s g wc wh b s' Hb]; simpl in *.
  - eapply logs_ok_keeps; [|done]. by apply keeps_other.
  - apply bind_Ret_inv in Hm as ([err s1] & Hp & Hm). pose proof (ProcessMessage_ok _ _ _ _ _ _ _ Hok Hp) as Hok1.
    destruct err as [e|]; injection Hm as <- <-; [|done]. eapply logs_ok_keeps; [|exact Hok1].
    etransitivity; [|apply unregister_keeps]. by apply keeps_other.
  - injection Hm as _ <-. eapply logs_ok_keeps; [apply unregister_keeps|done].
  - eapply logs_ok_keeps; [by eapply maiden_keeps|done].
  - eapply logs_ok_keeps; [by eapply RegisterLogStatement_zero_keeps|done].
  - eapply logs_ok_keeps; [by eapply Commit_keeps|done].
  - eapply logs_ok_keeps; [by eapply blockWatcher_keeps|done].
Qed.

Lemma NewServer_ok cfg db : CheckSignatures cfg = true → logs_ok (NewServer cfg db) ∅.
Proof.
  intros Hc. split; [done|]. split; [done|]. intros id _. unfold log_ok. by rewrite !lookup_empty.
Qed.
End Keeps.

(** ** Claims *)

(** C2. Log integrity, for serial executions. A server that checks signatures,
    whose database writes succeed, and that handles messages, hang-ups, commits
    and blocks one after the other (whatever they are, in whatever order),
    from its start on knows of every log (other than its own zero log) exactly its accepted
    statements: the log's id is the hash of its creation statement, which is
    signed by the controlling key; the appended statements carry the indices
    1, 2, 3, ... without gap or repetition and are each signed by that key;
    the index map holds the last index, and the trie holds, for a log, the
    hash of its last accepted statement and, for an unknown log, nothing.
    Calls for the same log that overlap on two connections are not serial, and
    the claim fails for them: see [ServerRace.race_accepts_both]. *)
Theorem logs_follow_history `{HashFunction} {DB : Type} (db_set : DB → db_key → db_value → DB * error)
  (VerifySig : bytes → bytes → bytes → outcome unit) (cfg : Config) (db : DB) (s : Server DB)
  (g : gmap bytes history) (id : bytes)
  (db_ok : ∀ db k v, (db_set db k v).2 = None)
  (Hc : CheckSignatures cfg = true)
  (Hr : rtc (step db_set VerifySig) (NewServer cfg db, ∅) (s, g)) (Hid : id ≠ zeroLog) :
  log_ok VerifySig s g id.
Proof.
  assert (∀ x y, rtc (step db_set VerifySig) x y → logs_ok VerifySig x.1 x.2 → logs_ok VerifySig y.1 y.2) as Hinv.
  { induction 1 as [|x y z Hxy _ IH]; [done|]. intros Hx. apply IH. by eapply step_ok. }
  destruct (Hinv _ _ Hr (NewServer_ok VerifySig cfg db Hc)) as (_ & _ & Hl). by apply Hl.
Qed.

(** ** Instances *)

Definition demo_config : Config := MkConfig false true true 1 true.
Definition demo_db (db : unit) (k : db_key) (v : db_value) : unit * error := (tt, None).
Definition demo_verify (msg key sig : bytes) : outcome unit :=
  if bytes_eqb sig (zeros 64) then mret tt else Err "invalid signature".

Definition demo_create : SignedCreateLogStatement := NewSignedCreateLogStatement (zeros 33) [x07].
Definition demo_id : bytes := Eval vm_compute in log_id demo_create.
Definition demo_append : SignedLogStatement := NewSignedLogStatement 1 demo_id [x08].

(** The server after a message on connection 0. *)
Definition after (t : Byte.byte) (m : bytes) (s : Server unit) : Server unit :=
  match Process_step demo_db demo_verify s 0 (Ret (t, m)) with Ret (_, s) => s | _ => s end.

Definition demo_0 : Server unit := NewLogProcessor (NewServer demo_config tt) 0.
Definition demo_1 : Server unit := Eval vm_compute in
  after MessageTypeCreateLog (SignedCreateLogStatement_Bytes demo_create) demo_0.
Definition demo_2 : Server unit := Eval vm_compute in
  after MessageTypeAppendLog (SignedLogStatement_Bytes demo_append) demo_1.

Definition demo_history : gmap bytes history :=
  record MessageTypeAppendLog (SignedLogStatement_Bytes demo_append)
    (record MessageTypeCreateLog (SignedCreateLogStatement_Bytes demo_create) ∅).

Lemma demo_reach : rtc (step demo_db demo_verify) (NewServer demo_config tt, ∅) (demo_2, demo_history).
Proof.
  eapply rtc_l; [by apply (step_connect demo_db demo_verify _ _ 0)|].
  eapply rtc_l; [apply (step_message demo_db demo_verify demo_0 _ 0 MessageTypeCreateLog
    (SignedCreateLogStatement_Bytes demo_create) true demo_1); vm_compute; reflexivity|].
  eapply rtc_l; [apply (step_message demo_db demo_verify demo_1 _ 0 MessageTypeAppendLog
    (SignedLogStatement_Bytes demo_append) true demo_2); vm_compute; reflexivity|].
  apply rtc_refl.
Qed.

Lemma logs_follow_history_witness : log_ok demo_verify demo_2 demo_history demo_id.
Proof.
  apply (logs_follow_history demo_db demo_verify demo_config tt demo_2 demo_history demo_id).
  - done.
  - done.
  - exact demo_reach.
  - apply (bool_decide_unpack _). vm_compute. exact I.
Defined.
