(* ===== verification/ClientServer.v ===== *)
(** * The client connected to the server

    The world behind the client's connection is the server: a message is one
    turn of the server's loop for that connection, and what comes back is what
    this turn wrote to it.  A connection on which the server reported an error
    is closed. *)

From Stdlib Require Import ZArith Lia.
From S2P Require Import Prelude Buffers Sha256 Crypto Utils MerkleTree WireCommon MptNode MptSpec FullMPT MptTrie MptInv MptSerialize PartialMPT DeltaMPT WireTypes WireTheorems BtcWire Difficulty Uspv UspvClaims Store ClientStore Client ClientTheorems Server LogProcessor ServerLogs.

Local Open Scope Z_scope.

Section Connected.
Context `{HashFunction} {DB SDB : Type} `{Store DB}
  (db_set : SDB → db_key → db_value → SDB * error)
  (VerifySig : bytes → bytes → bytes → outcome unit)
  (Sign : bytes → outcome bytes)
  (p : nat).

Definition conn_sent (srv : Server SDB) : list (Byte.byte * bytes) :=
  match procs srv !! p with Some lp => sent lp | None => [] end.

(** The server, and whether the connection is still open. *)
Definition server_send (w : bool * Server SDB) (t : Byte.byte) (m : bytes)
    : (go_error * list (Byte.byte * bytes)) * (bool * Server SDB) :=
  let '(up, srv) := w in
  if up then
    match Process_step db_set VerifySig srv p (Ret (t, m)) with
    | Ret (goes_on, srv') => ((None, drop (length (conn_sent srv)) (conn_sent srv')), (goes_on, srv'))
    | _ => ((None, []), (false, srv))
    end
  else ((Some "connection closed", []), w).

Context (db_ok : ∀ db k v, (db_set db k v).2 = None)
  (Sign_length : ∀ m b, Sign m = Ret b → length b = 64%nat).

(** ** What an acknowledgement means *)

Lemma conn_sent_write srv srv' t m :
  conn_sent srv' = conn_sent srv →
  ∃ b : bool, drop (length (conn_sent srv)) (conn_sent (on_conn srv' p (write t m))) = if b then [(t, m)] else [].
Proof.
  intros <-. unfold conn_sent, on_conn. cbn [procs set_procs]. rewrite lookup_alter_eq.
  destruct (procs srv' !! p) as [lp|]; [exists true|exists false; done].
  change (sent (write t m lp)) with (sent lp ++ [(t, m)]). cbn. by rewrite drop_app_length.
Qed.

(** An error is not an acknowledgement. *)
Lemma not_ack (b : bool) text es :
  ReceiveLoop (if b then [(MessageTypeError, text)] else []) = Ret es → wait_ack es ≠ Ret tt.
Proof. destruct b; by intros [= <-]. Qed.

Lemma unregister_sent (srv : Server SDB) q : conn_sent (unregisterProcessor srv q) = conn_sent srv.
Proof. unfold unregisterProcessor. by case_match. Qed.

Lemma Process_ack srv t m w' ms es :
  server_send (true, srv) t m = ((None, ms), w') → ReceiveLoop ms = Ret es → wait_ack es = Ret tt →
  (∀ err srv', ProcessMessage db_set VerifySig srv p t m = Ret (Some err, srv') → conn_sent srv' = conn_sent srv) →
  ∃ srv', ProcessMessage db_set VerifySig srv p t m = Ret (None, srv') ∧ w' = (true, srv').
Proof.
  intros Hs Hr Ha Hkeep. unfold server_send, Process_step in Hs.
  destruct (ProcessMessage db_set VerifySig srv p t m) as [[err srv']| |] eqn:E; cbn [mbind outcome_bind] in Hs.
  - destruct err as [e|].
    + cbn [mret outcome_ret] in Hs. injection Hs as <- <-. exfalso. rewrite unregister_sent in Hr.
      destruct (conn_sent_write srv srv' MessageTypeError (map Ascii.byte_of_ascii (String.list_ascii_of_string e))) as [b Hb];
        [by eapply Hkeep|]. rewrite Hb in Hr. by apply not_ack in Hr.
    + cbn [mret outcome_ret] in Hs. injection Hs as _ <-. by exists srv'.
  - injection Hs as <- _. by apply (not_ack false []) in Hr.
  - injection Hs as <- _. by apply (not_ack false []) in Hr.
Qed.

Lemma CreateLog_ack srv scls srv' :
  ProcessCreateLog db_set VerifySig srv p scls = Ret (None, srv') →
  (logIDToPubKey srv !! log_id scls = None → logIDIndex srv !! log_id scls = None) → wf_root 32 (fm_root (fullmpt srv)) →
  logIDIndex srv' !! log_id scls = Some 0 ∧
  entries (fm_root (fullmpt srv')) !! log_id scls = Some (Sum256 (SignedCreateLogStatement_Bytes scls)).
Proof.
  intros Hp Hnew Hwf. apply try_Ret in Hp as [([] & _ & Hp)|[_ He]]; [|done]. cbv zeta in Hp. fold (log_id scls) in Hp.
  destruct (RegisterLogID _ _ _ _) as [e1 s1] eqn:E1. destruct e1 as [e1|]; [done|].
  apply (RegisterLogID_Ret db_set db_ok) in E1 as [[? _]|(_ & Hk & _ & _ & Ei & Ef)]; [done|].
  apply bind_Ret_inv in Hp as ([e2 s2] & H2 & Hp). injection Hp as <-.
  apply (RegisterLogStatement_Ret db_set db_ok) in H2 as [(_ & _ & Hi)|(_ & _ & _ & _ & Ei2 & Hins)].
  { exfalso. apply Hi. unfold GetNextLogIndex. by rewrite Ei, Hnew. }
  rewrite Ef in Hins. destruct (Registered_ok srv s2 _ _ Hwf (Sum256_length _) Hins) as [_ He].
  change (logIDIndex (on_conn (on_conn s2 p (SubscribeToLog (log_id scls))) p (write MessageTypeAck []))) with (logIDIndex s2).
  change (fullmpt (on_conn (on_conn s2 p (SubscribeToLog (log_id scls))) p (write MessageTypeAck []))) with (fullmpt s2).
  rewrite Ei2, He. unfold log_id. by rewrite !lookup_insert_eq.
Qed.

Lemma AppendLog_ack srv sls srv' :
  ProcessAppendLog db_set VerifySig srv p sls = Ret (None, srv') →
  length (LogID (Statement sls)) = 32%nat → wf_root 32 (fm_root (fullmpt srv)) →
  logIDIndex srv' !! LogID (Statement sls) = Some (Index (Statement sls)) ∧
  entries (fm_root (fullmpt srv')) !! LogID (Statement sls) = Some (Sum256 (SignedLogStatement_Bytes sls)).
Proof.
  intros Hp Hl Hwf. apply try_Ret in Hp as [([] & _ & Hp)|[_ He]]; [|done].
  apply bind_Ret_inv in Hp as ([e1 s1] & H1 & Hp). destruct e1 as [e1|]; [done|]. injection Hp as <-.
  apply (RegisterLogStatement_Ret db_set db_ok) in H1 as [[? _]|(_ & _ & _ & _ & Ei & Hins)]; [done|].
  destruct (Registered_ok srv s1 _ _ Hwf Hl Hins) as [_ He].
  change (logIDIndex (on_conn (on_conn s1 p (SubscribeToLog (LogID (Statement sls)))) p (write MessageTypeAck []))) with (logIDIndex s1).
  change (fullmpt (on_conn (on_conn s1 p (SubscribeToLog (LogID (Statement sls)))) p (write MessageTypeAck []))) with (fullmpt s1).
  rewrite Ei, He. by rewrite !lookup_insert_eq.
Qed.

Lemma CreateLog_err srv scls e srv' :
  ProcessCreateLog db_set VerifySig srv p scls = Ret (Some e, srv') → conn_sent srv' = conn_sent srv.
Proof.
  intros Hp. apply try_Ret in Hp as [([] & _ & Hp)|[-> _]]; [|done]. cbv zeta in Hp.
  destruct (RegisterLogID _ _ _ _) as [e1 s1] eqn:E1. destruct e1 as [e1|].
  - apply (RegisterLogID_Ret db_set db_ok) in E1 as [[_ ->]|[? _]]; [|done]. by injection Hp as _ <-.
  - by apply bind_Ret_inv in Hp as ([e2 s2] & _ & Hp).
Qed.

Lemma AppendLog_err srv sls e srv' :
  ProcessAppendLog db_set VerifySig srv p sls = Ret (Some e, srv') → conn_sent srv' = conn_sent srv.
Proof.
  intros Hp. apply try_Ret in Hp as [([] & _ & Hp)|[-> _]]; [|done].
  apply bind_Ret_inv in Hp as ([e1 s1] & H1 & Hp). destruct e1 as [e1|]; [|done].
  apply (RegisterLogStatement_Ret db_set db_ok) in H1 as [(_ & -> & _)|[? _]]; [|done]. by injection Hp as _ <-.
Qed.

(** ** Client and server agree *)

(** The client's record of the last statement of a log is the one the server committed to. *)
Definition registered (c : Client DB) (srv : Server SDB) (logId : bytes) (idx : Z) : Prop :=
  ∃ h, db_get (db c) (KLastIdx logId) = Some (VNum idx) ∧ db_get (db c) (KLogHash logId idx) = Some (VBytes h) ∧
       logIDIndex srv !! logId = Some idx ∧ entries (fm_root (fullmpt srv)) !! logId = Some h.

Lemma update_Ret {W} l (c c' : Client DB) (w w' : W) a :
  update l (c, w) = (Ret a, (c', w')) → w' = w ∧ ∀ k, db_get (db c') k = written l k (db_get (db c) k).
Proof.
  unfold update. rewrite bind_run. cbn [get_client gets fst]. pose proof (db_get_update (db c) l) as Hg.
  destruct (db_update (db c) l) as [d [e|]]; [done|]. intros [= _ <- <-]. by split.
Qed.

Lemma exchange_Ret t m (c : Client DB) srv es s' :
  exchange server_send t m (c, (true, srv)) = (Ret es, s') → wait_ack es = Ret tt →
  (∀ err srv', ProcessMessage db_set VerifySig srv p t m = Ret (Some err, srv') → conn_sent srv' = conn_sent srv) →
  ∃ srv', ProcessMessage db_set VerifySig srv p t m = Ret (None, srv') ∧ s' = (c, (true, srv')).
Proof.
  unfold exchange. destruct (server_send (true, srv) t m) as [[[e|] ms] w'] eqn:E; [done|]. intros [= Hr <-] Ha Hk.
  destruct (Process_ack srv t m w' ms es E Hr Ha Hk) as (srv' & Hp & ->). by exists srv'.
Qed.

Lemma message_create srv scls :
  SignedCreateLogStatement_ok scls →
  ProcessMessage db_set VerifySig srv p MessageTypeCreateLog (SignedCreateLogStatement_Bytes scls) = ProcessCreateLog db_set VerifySig srv p scls.
Proof.
  intros Hok. pose proof (SignedCreateLogStatement_read scls [] Hok) as Hr. rewrite app_nil_r in Hr.
  unfold ProcessMessage. by rewrite Hr.
Qed.

Lemma message_append srv sls :
  SignedLogStatement_ok sls →
  ProcessMessage db_set VerifySig srv p MessageTypeAppendLog (SignedLogStatement_Bytes sls) = ProcessAppendLog db_set VerifySig srv p sls.
Proof.
  intros Hok. pose proof (SignedLogStatement_read sls [] Hok) as Hr. rewrite app_nil_r in Hr.
  unfold ProcessMessage. by rewrite Hr.
Qed.

Lemma StartLog_agrees g c c' srv w' statement logId :
  logs_ok VerifySig srv g → fullClient c = true → length (pubKey c) = 33%nat → allocatable statement → logId ≠ zeroLog →
  StartLog server_send Sign statement (c, (true, srv)) = (Ret logId, (c', w')) → registered c' w'.2 logId 0.
Proof.
  intros (Hcs & Hwf & Hl) Hfull Hpk Hst Hz Hrun. unfold StartLog in Hrun. inv_run Hrun. injection R as <- <-.
  inv_run Hrun. set (cs := MkCreateLogStatement (pubKey c) statement) in *.
  assert (∃ csig, a = MkSignedCreateLogStatement csig cs ∧ length csig = 64%nat ∧ s = (c, (true, srv))) as (csig & -> & Hcsig & ->).
  { cbn [fst] in R. destruct (DummySignatures c); cbn [negb] in R.
    - injection R as <- <-. by exists (zeros 64).
    - inv_run R. apply lift_Ret in R0 as [Hs ->]. injection R as <- <-. exists a0. eauto. }
  set (scls := MkSignedCreateLogStatement csig cs) in *.
  assert (SignedCreateLogStatement_ok scls) as Hok by done.
  inv_run Hrun. inv_run Hrun. apply lift_Ret in R1 as [Hack ->]. destruct a0.
  apply exchange_Ret in R0 as (srv' & Hp & ->); [|done|intros e srv' Hp; rewrite message_create in Hp by done; by apply CreateLog_err in Hp].
  rewrite message_create in Hp by done. inv_run Hrun. injection Hrun as <- ->.
  rewrite Hfull in R0. apply update_Ret in R0 as [-> Hdb]. cbn [snd]. fold cs in Hz, Hdb |- *.
  change (Sum256 (CreateLogStatement_Bytes cs)) with (log_id scls) in *.
  apply CreateLog_ack in Hp as [Hi He]; [|specialize (Hl _ Hz); unfold log_ok in Hl|done].
  - eexists. rewrite !Hdb, !written_cons. cbn [written foldl]. split_and!; [| |exact Hi|exact He].
    + rewrite (decide_False (P := KLog _ = _)) by done. by rewrite decide_True.
    + rewrite (decide_False (P := KLog _ = _)), (decide_False (P := KLastIdx _ = _)) by done. by rewrite decide_True.
  - intros Hk. destruct (g !! log_id scls); [destruct Hl as (_ & ? & _); congruence|by destruct Hl as (_ & ? & _)].
Qed.

Lemma AppendLog_agrees g c c' srv w' idx logId statement :
  logs_ok VerifySig srv g → fullClient c = true → length logId = 32%nat → 0 ≤ idx < 2 ^ 64 → allocatable statement →
  AppendLog server_send Sign idx logId statement (c, (true, srv)) = (Ret tt, (c', w')) → registered c' w'.2 logId idx.
Proof.
  intros (Hcs & Hwf & Hl) Hfull Hid Hidx Hst Hrun. unfold AppendLog in Hrun. inv_run Hrun. injection R as <- <-.
  cbn [fst] in Hrun. inv_run Hrun. apply lift_Ret in R as [Hchk ->].
  assert (allocatable a) as Ha.
  { unfold append_checks in Hchk. rewrite Hfull in Hchk. apply bind_Ret_inv in Hchk as ([li lh] & _ & Hchk).
    apply bind_Ret_inv in Hchk as (st & Hs & Hchk).
    assert (len st = len statement).
    { destruct (FastMode c); [injection Hs as <-; unfold len; by rewrite go_copy_length|].
      destruct (negb (IsCommitted _ _ _)); [discriminate Hs|]. by injection Hs as <-. }
    destruct (negb (bool_decide _)); [discriminate Hchk|]. injection Hchk as <-. unfold allocatable in *. lia. }
  inv_run Hrun. apply lift_Ret in R as [Hs ->].
  assert (∃ csig, a0 = MkSignedLogStatement csig (MkLogStatement logId idx a) ∧ length csig = 64%nat) as (csig & -> & Hcsig).
  { unfold SignedAppendLog in Hs. destruct (DummySignatures c); cbn [negb] in Hs.
    - injection Hs as <-. by exists (zeros 64).
    - apply bind_Ret_inv in Hs as (csig & Hs & Hr). injection Hr as <-. exists csig. eauto. }
  set (sls := MkSignedLogStatement csig _) in *. assert (SignedLogStatement_ok sls) as Hok by (split; [exact Hcsig|exact (conj Hid (conj Hidx Ha))]).
  inv_run Hrun. inv_run Hrun. apply lift_Ret in R0 as [Hack ->]. destruct a1.
  apply exchange_Ret in R as (srv' & Hp & ->); [|done|intros e srv' Hp; rewrite message_append in Hp by done; by apply AppendLog_err in Hp].
  rewrite message_append in Hp by done. rewrite Hfull in Hrun. apply update_Ret in Hrun as [-> Hdb]. cbn [snd].
  apply AppendLog_ack in Hp as [Hi He]; [|done..]. cbn [Statement LogID Index sls] in Hi, He. eexists.
  rewrite !Hdb, !written_cons. cbn [written foldl]. split_and!; [| |exact Hi|exact He].
  - by rewrite decide_True.
  - rewrite (decide_False (P := KLastIdx _ = _)) by done. by rewrite decide_True.
Qed.

End Connected.

(** ** A run *)

Definition live_server : Server unit := NewLogProcessor (NewServer demo_config tt) 0.
Definition live_client : Client memory := MkClient (zeros 33) ∅ (openHeaderFile None RegressionNetParams) None true true true.
Abbreviation live_send := (server_send demo_db demo_verify 0).
Definition live_started : Client memory * (bool * Server unit) :=
  (StartLog live_send (λ _, Ret (zeros 64)) (replicate 32 x07) (live_client, (true, live_server))).2.
Definition live_id : bytes := Eval vm_compute in
  match (StartLog live_send (λ _, Ret (zeros 64)) (replicate 32 x07) (live_client, (true, live_server))).1 with Ret b => b | _ => [] end.

Lemma live_ok : logs_ok demo_verify live_server ∅.
Proof. eapply logs_ok_keeps; [|by apply (NewServer_ok demo_verify demo_config tt)]. by apply keeps_other. Qed.

