(* ===== verification/ServerCommit.v ===== *)
(** * Commits and the proofs served for them

    For a server without wallet ([Full] is false) that keeps the committed tree
    ([KeepCommitmentTree]): the state of the tries between two steps as an
    invariant, what [Commit] does to it, and what the connections get, as a
    reply or pushed by [Commit].  Replies to proof requests are described for
    servers with a wallet too, which answer from the last confirmed tree. *)

From Stdlib Require Import ZArith Lia.
From S2P Require Import Prelude Buffers Sha256 Crypto Utils MerkleTree WireCommon MptNode MptSpec FullMPT MptTrie MptInv MptTheorems MptBinding MptSerialize PartialMPT PartialTheorems DeltaMPT DeltaTheorems WireTypes Server LogProcessor ServerLogs.

Local Open Scope Z_scope.

(** ** Lemmas on tries *)

(** A copy has every node marked as changed. *)
Lemma DeepCopy_flags n n' : DeepCopy n = Ret n' → flags_ok n'.
Proof.
  revert n'. induction n as [|s|d| |h rc ch l IHl r IHr]; intros n' Hd; simpl in Hd;
    try (by injection Hd as <-); try done.
  apply bind_Ret_inv in Hd as (l' & Hl & Hd). apply bind_Ret_inv in Hd as (r' & Hr & Hd).
  injection Hd as <-. simpl. split; [done|]. split.
  - destruct (is_nil l); [by injection Hl as <-|eauto].
  - destruct (is_nil r); [by injection Hr as <-|eauto].
Qed.

Lemma no_nil_equiv n n' : n' ≡ n → no_nil n → no_nil n'.
Proof.
  revert n'. induction n as [|s|d| |h rc ch l IHl r IHr]; intros n' He Hn; try done;
    try (apply equiv_erase in He; by destruct n').
  symmetry in He. apply equiv_Interior_inv in He as (h' & rc' & ch' & l' & r' & -> & El & Er).
  destruct Hn. split; [apply IHl|apply IHr]; auto; by symmetry.
Qed.

Lemma Dispose_total n : no_nil n → ∃ n', Dispose n = Ret n'.
Proof.
  induction n as [|s|d| |h rc ch l IHl r IHr]; intros Hn; try done; try (by eexists).
  destruct Hn as [Hl Hr]. destruct (IHl Hl) as [l' El], (IHr Hr) as [r' Er]. simpl. rewrite El, Er. by eexists.
Qed.

Lemma prunes_no_nil `{HashFunction} n m : prunes n m → no_nil n → no_nil m.
Proof. induction 1; try done. intros [? ?]. split; auto. Qed.

Section Updates.
Context `{HashFunction}.

(** Two nodes that differ in their caches only have the same hash. *)
Lemma GetHash_same d d' h x :
  strip d = strip d' → cache_ok d → cache_ok d' → GetHash d = Ret (h, x) → ∃ x', GetHash d' = Ret (h, x').
Proof.
  intros Hs Hc Hc' Hg. assert (d ≠ NilNode) as Hn by by intros ->.
  assert (d' ≠ NilNode) as Hn' by (intros ->; by destruct d).
  destruct (GetHash_spec d Hc Hn) as (y & Hy & _). rewrite Hy in Hg. injection Hg as <- _.
  destruct (GetHash_spec d' Hc' Hn') as (y' & Hy' & _). exists y'.
  by rewrite Hy', (hashOf_proper _ _ (strip_equiv _ _ Hs)).
Qed.

Lemma GetHash_rehashes d h x : cache_ok d → GetHash d = Ret (h, x) → rehashed d x ∧ clean x.
Proof.
  intros Hc Hg. assert (d ≠ NilNode) as Hn by by intros ->.
  destruct (GetHash_rehashed d Hc Hn) as (y & Hy & R & K). rewrite Hy in Hg. by injection Hg as _ <-.
Qed.

Lemma getUpdates_rehashes keys d i u x :
  cache_ok d → getUpdatesHelper keys d i = Ret (u, x) → rehashed d x ∧ (clean d → clean x).
Proof.
  revert keys i u x. induction d as [|s|e| |h rc ch l IHl r IHr]; intros keys i u x Hc Hu;
    cbn [getUpdatesHelper] in Hu; try done.
  - by injection Hu as _ <-.
  - destruct (leaf_GetHash e Hc) as (e1 & E1 & R & K & _). rewrite E1 in Hu. destruct keys; by injection Hu as _ <-.
  - by injection Hu as _ <-.
  - destruct keys as [|k keys].
    { apply bind_Ret_inv in Hu as ([hash y] & Hg & Hu). injection Hu as _ <-.
      by destruct (GetHash_rehashes _ _ _ Hc Hg). }
    apply bind_Ret_inv in Hu as ([ml mr] & _ & Hu). apply bind_Ret_inv in Hu as ([ul l1] & Hl & Hu).
    apply bind_Ret_inv in Hu as ([ur r1] & Hr & Hu). apply bind_Ret_inv in Hu as ([hash y] & Hg & Hu).
    injection Hu as _ <-. pose proof Hc as (_ & _ & Cl & Cr).
    destruct (IHl _ _ _ _ Cl Hl) as [Rl Kl], (IHr _ _ _ _ Cr Hr) as [Rr Kr].
    pose proof (rehashed_interior _ _ _ _ _ _ _ Hc Rl Rr Kl Kr) as R.
    destruct (GetHash_rehashes _ _ _ (proj2 R) Hg) as [R' K']. split; [by eapply rehashed_trans|done].
Qed.

(** The updates computed from a delta do not depend on what is cached in it. *)
Lemma getUpdates_same keys d d' i u x :
  strip d = strip d' → cache_ok d → cache_ok d' → getUpdatesHelper keys d i = Ret (u, x) →
  ∃ x', getUpdatesHelper keys d' i = Ret (u, x').
Proof.
  revert keys d' i u x. induction d as [|s|e| |h rc ch l IHl r IHr]; intros keys d' i u x Hs Hc Hc' Hu;
    destruct d' as [|s'|e'| |h' rc' ch' l' r']; try discriminate Hs; try done.
  - injection Hs as <-. injection Hu as <- <-. by exists (StubNode s).
  - destruct (leaf_GetHash e Hc) as (e1 & E1 & _ & _ & K1 & V1), (leaf_GetHash e' Hc') as (e2 & E2 & _ & _ & K2 & V2).
    pose proof (strip_equiv _ _ Hs) as He. injection Hs as Hk Hv _.
    cbn [getUpdatesHelper] in Hu |- *. rewrite E1 in Hu. rewrite E2, K2, V2, <- Hk, <- Hv, <- (hashOf_proper _ _ He).
    rewrite K1, V1 in Hu. exists (DictionaryLeaf e2). destruct keys; by injection Hu as <- _.
  - injection Hu as <- <-. by exists EmptyLeaf.
  - cbn [getUpdatesHelper] in Hu |- *. destruct keys as [|k keys].
    { apply bind_Ret_inv in Hu as ([hash y] & Hg & Hu). injection Hu as <- _.
      destruct (GetHash_same _ (Interior h' rc' ch' l' r') _ _ Hs Hc Hc' Hg) as (x' & ->). by exists x'. }
    apply bind_Ret_inv in Hu as ([ml mr] & -> & Hu). apply bind_Ret_inv in Hu as ([ul l1] & Hl & Hu).
    apply bind_Ret_inv in Hu as ([ur r1] & Hr & Hu). apply bind_Ret_inv in Hu as ([hash y] & Hg & Hu).
    injection Hs as Ech Sl Sr. injection Hu as <- _. pose proof Hc as (_ & _ & Cl & Cr). pose proof Hc' as (_ & _ & Cl' & Cr').
    destruct (IHl _ l' _ _ _ Sl Cl Cl' Hl) as (l1' & Hl'), (IHr _ r' _ _ _ Sr Cr Cr' Hr) as (r1' & Hr').
    destruct (getUpdates_rehashes _ _ _ _ _ Cl Hl) as [Rl Kl], (getUpdates_rehashes _ _ _ _ _ Cr Hr) as [Rr Kr].
    destruct (getUpdates_rehashes _ _ _ _ _ Cl' Hl') as [Rl' Kl'], (getUpdates_rehashes _ _ _ _ _ Cr' Hr') as [Rr' Kr'].
    pose proof (rehashed_interior _ _ _ _ _ _ _ Hc Rl Rr Kl Kr) as [S1 C1].
    pose proof (rehashed_interior _ _ _ _ _ _ _ Hc' Rl' Rr' Kl' Kr') as [S2 C2].
    destruct (GetHash_same (Interior h rc ch l1 r1) (Interior h' rc' ch' l1' r1') hash y) as (y' & Hy'); auto.
    { rewrite S1, S2. simpl. congruence. }
    cbn [mbind outcome_bind]. rewrite Hl'. cbn [mbind outcome_bind]. rewrite Hr'. cbn [mbind outcome_bind]. rewrite Hy'. by eexists.
Qed.
End Updates.

(** ** The invariant *)

Definition values_32 (n : Node) : Prop := map_Forall (λ _ v, length v = 32%nat) (entries n).

Section Commits.
Context `{HashFunction} {DB : Type} (db_set : DB → db_key → db_value → DB * error)
  (VerifySig : bytes → bytes → bytes → outcome unit).

(** The tree kept for proofs is the one that was committed to. *)
Definition last_ok (s : Server DB) : Prop :=
  match LastCommitMpt s with
  | Some t => valid 32 t ∧ values_32 (fm_root t) ∧ hashOf (fm_root t) = lastCommitment s
  | None => lastCommitment s = zeros 32
  end.

Record serving (s : Server DB) : Prop := Serving {
  sv_full : Full (config s) = false;
  sv_keep : KeepCommitmentTree (config s) = true;
  sv_alias : zeroLogAlias s = false;
  sv_trie : valid 32 (fullmpt s);
  sv_values : values_32 (fm_root (fullmpt s));
  sv_last : last_ok s;
  sv_delta : ∀ d, lastDelta s = Some d → no_nil (dm_root d) ∧ cache_ok (dm_root d);
  sv_procs : map_Forall (λ _ lp, Forall (λ k, length k = 32%nat) (logIDs lp)) (procs s);
  sv_nodup : NoDup (processors s);
  sv_conns : ∀ p, p ∈ processors s → is_Some (procs s !! p);
  sv_commitments : commitments s = []
}.

(** ** Pushed updates *)

(** What a connection gets when the delta is [dm]. *)
Definition push (dm : DeltaMPT) (lp : LogProc) : LogProc :=
  if autoUpdates lp && bool_decide (len (logIDs lp) > 0) then
    match GetUpdatesForKeys dm (logIDs lp) with
    | Ret (u, _) => write MessageTypeProofUpdate (DeltaMPT_Bytes u) lp
    | _ => lp
    end
  else lp.

(** Updates for keys can be computed. *)
Definition updatable (dm : DeltaMPT) : Prop :=
  cache_ok (dm_root dm) ∧
  ∀ keys, keys ≠ [] → Forall (λ k, length k = 32%nat) keys → ∃ u x, GetUpdatesForKeys dm keys = Ret (u, x).

Lemma GetUpdates_same dm dm' keys u x :
  rehashed (dm_root dm) (dm_root dm') → cache_ok (dm_root dm) → GetUpdatesForKeys dm keys = Ret (u, x) →
  ∃ x', GetUpdatesForKeys dm' keys = Ret (u, x') ∧ rehashed (dm_root dm) (dm_root x').
Proof.
  intros [Hs Hc'] Hc Hu. apply bind_Ret_inv in Hu as ([r y] & Hu & Hi). apply bind_Ret_inv in Hi as (r' & Hi & Hr).
  injection Hr as <- _. destruct (getUpdates_same keys (dm_root dm) (dm_root dm') 0 r y) as (y' & Hy'); auto.
  exists (MkDeltaMPT y'). unfold GetUpdatesForKeys. rewrite Hy'. cbn [mbind outcome_bind]. rewrite Hi.
  split; [done|]. destruct (getUpdates_rehashes _ _ _ _ _ Hc' Hy') as [R _].
  eapply rehashed_trans; [|exact R]. by split.
Qed.

Lemma len_pos_nonempty {A} (l : list A) : len l > 0 → l ≠ [].
Proof. by intros Hl ->. Qed.

Lemma SendProofs_spec dm dm' lp :
  updatable dm → rehashed (dm_root dm) (dm_root dm') → Forall (λ k, length k = 32%nat) (logIDs lp) →
  ∃ dm'', SendProofs lp dm' = Ret (push dm lp, dm'') ∧ rehashed (dm_root dm) (dm_root dm'').
Proof.
  intros [Hc Htot] R Hk. unfold SendProofs, push. destruct (autoUpdates lp); [|by exists dm'].
  case_bool_decide as Hl; [|by exists dm']. simpl.
  destruct (Htot (logIDs lp)) as (u & x & Hu); [by apply len_pos_nonempty|done|].
  destruct (GetUpdates_same _ _ _ _ _ R Hc Hu) as (x' & Hu' & R'). rewrite Hu, Hu'. by exists x'.
Qed.

Lemma push_logIDs dm lp : logIDs (push dm lp) = logIDs lp.
Proof. unfold push. destruct (_ && _); [|done]. by destruct (GetUpdatesForKeys _ _) as [[]| |]. Qed.

(** Every registered connection gets its updates, whatever the others got before. *)
Lemma send_all_spec dm ps (procs : gmap nat LogProc) dm' :
  updatable dm → rehashed (dm_root dm) (dm_root dm') → NoDup ps →
  map_Forall (λ _ lp, Forall (λ k, length k = 32%nat) (logIDs lp)) procs →
  ∃ procs' dm'', send_all ps procs dm' = Ret (procs', dm'') ∧ rehashed (dm_root dm) (dm_root dm'') ∧
    ∀ p, procs' !! p = (if bool_decide (p ∈ ps) then push dm else id) <$> procs !! p.
Proof.
  intros Hdm R Hnd. revert procs dm' R. induction Hnd as [|q ps Hq Hnd IH]; intros procs dm' R Hk; simpl.
  { exists procs, dm'. split; [done|]. split; [done|]. intros p. by destruct (procs !! p). }
  destruct (procs !! q) as [lp|] eqn:Eq.
  - destruct (SendProofs_spec dm dm' lp Hdm R (Hk _ _ Eq)) as (d1 & -> & R1). simpl.
    destruct (IH (<[q := push dm lp]> procs) d1 R1) as (procs' & d2 & -> & R2 & Hp).
    { apply map_Forall_insert_2; [rewrite push_logIDs; by apply (Hk q)|done]. }
    exists procs', d2. split; [done|]. split; [done|]. intros p. rewrite Hp.
    destruct (decide (p = q)) as [->|Hne].
    + rewrite lookup_insert_eq, Eq, bool_decide_eq_false_2, bool_decide_eq_true_2; [done|by left|done].
    + rewrite lookup_insert_ne by done. repeat case_bool_decide; set_solver.
  - destruct (IH procs dm' R Hk) as (procs' & d2 & -> & R2 & Hp). exists procs', d2.
    split; [done|]. split; [done|]. intros p. rewrite Hp. destruct (decide (p = q)) as [->|Hne].
    + by rewrite Eq.
    + repeat case_bool_decide; set_solver.
Qed.

(** ** Commit *)

Lemma valid_rehashed L fm fm' : valid L fm → rehashed (fm_root fm) (fm_root fm') → valid L fm'.
Proof.
  intros [Hwf [Hc Hf]] R. pose proof (rehashed_equiv _ _ R) as He. destruct R as [Hs Hc']. split; [|split].
  - eapply wf_root_proper; [symmetry; exact He|done].
  - done.
  - by rewrite <- flags_strip, Hs, flags_strip.
Qed.

Lemma NewDelta_updatable fm :
  valid 32 fm →
  ∃ dm fm2, NewDeltaMPT fm = Ret (dm, fm2) ∧ rehashed (fm_root fm) (fm_root fm2) ∧
    no_nil (dm_root dm) ∧ updatable dm.
Proof.
  intros Hv. assert (∀ keys, keys ≠ [] → Forall (λ k, length k = 32%nat) keys →
    ∃ dm fm2 u x, NewDeltaMPT fm = Ret (dm, fm2) ∧ rehashed (fm_root fm) (fm_root fm2) ∧
      prunes (fm_root fm) (dm_root dm) ∧ cache_ok (dm_root dm) ∧ GetUpdatesForKeys dm keys = Ret (u, x)) as Hall.
  { intros keys Hne Hk. destruct (include_keys_spec 32 fm keys) as (pm & fm' & _ & _ & _ & T); [lia|done..|].
    destruct (update_client 32 keys fm fm pm) as (dm & fm2 & u & x & pm' & Hd & R & P & C & Hu & _); [lia|done..| |done|].
    { by apply evolved_equiv. }
    by exists dm, fm2, u, x. }
  destruct (Hall [zeros 32]) as (dm & fm2 & _ & _ & Hd & R & P & C & _); [done|by repeat constructor|].
  exists dm, fm2. split; [done|]. split; [done|]. split.
  - eapply prunes_no_nil; [done|]. eapply wf_root_no_nil, Hv.
  - split; [done|]. intros keys Hne Hk. destruct (Hall keys Hne Hk) as (dm' & fm2' & u & x & Hd' & _ & _ & _ & Hu).
    rewrite Hd in Hd'. injection Hd' as <- <-. eauto.
Qed.

Lemma dispose_mpt t : valid 32 t → ∃ u, FullMPT_Dispose t = Ret u.
Proof.
  intros [Hwf _]. destruct (Dispose_total (fm_root t)) as [n Hn]; [by eapply wf_root_no_nil|].
  unfold FullMPT_Dispose. rewrite Hn. by eexists.
Qed.

Lemma dispose_ok s :
  serving s → dispose_opt FullMPT_Dispose (LastCommitMpt s) = Ret tt ∧ dispose_opt DeltaMPT_Dispose (lastDelta s) = Ret tt.
Proof.
  intros Hs. split.
  - pose proof (sv_last s Hs) as Hl. unfold last_ok in Hl. destruct (LastCommitMpt s) as [t|]; [|done].
    destruct Hl as [Hv _]. simpl. destruct (dispose_mpt t Hv) as [u ->]. done.
  - destruct (lastDelta s) as [d|] eqn:E; [|done]. destruct (sv_delta s Hs d E) as [Hn _].
    destruct (Dispose_total _ Hn) as [n Hd]. simpl. unfold DeltaMPT_Dispose. by rewrite Hd.
Qed.

Lemma values_equiv n n' : n' ≡ n → values_32 n → values_32 n'.
Proof. intros He. unfold values_32. by rewrite (entries_proper _ _ He). Qed.

Lemma values_nonempty n : values_32 n → map_Forall (λ _ v, v ≠ []) (entries n).
Proof. intros Hn k v Hk ->. by specialize (Hn k [] Hk). Qed.

Lemma hashOf_root_length n : wf_root 32 n → length (hashOf n) = 32%nat.
Proof. destruct n; try done. intros _. apply Sum256_length. Qed.

Lemma lastCommitment_length s : serving s → length (lastCommitment s) = 32%nat.
Proof.
  intros Hs. pose proof (sv_last s Hs) as Hl. unfold last_ok in Hl. destruct (LastCommitMpt s) as [t|]; [|by rewrite Hl].
  destruct Hl as ([Hwf _] & _ & <-). by apply hashOf_root_length.
Qed.

(** The copy kept for proofs. *)
Lemma Copy_spec fm :
  valid 32 fm → clean (fm_root fm) → ∃ t, Copy fm = Ret t ∧ valid 32 t ∧ fm_root t ≡ fm_root fm.
Proof.
  intros [Hwf [Hc Hf]] Hk. destruct (DeepCopy_spec (fm_root fm)) as (n & Hn & En & Cn & Kn); [done..|by eapply wf_root_not_nil|].
  pose proof (wf_root_proper 32 _ _ (symmetry En) Hwf) as Hwn.
  exists (MkFullMPT n). unfold Copy. rewrite Hn. cbn [mbind outcome_bind]. split; [by destruct n|].
  split; [|done]. split; [done|]. split; [done|]. by eapply DeepCopy_flags.
Qed.

(** Committing when there is nothing new, and when there is. *)
Lemma Commit_same wc wh s :
  serving s → lastCommitment s = hashOf (fm_root (fullmpt s)) →
  ∃ fm, Commit db_set wc wh s = Ret (None, set_fullmpt fm s) ∧ rehashed (fm_root (fullmpt s)) (fm_root fm).
Proof.
  intros Hs Hl. destruct (sv_trie s Hs) as [Hwf [Hc Hf]].
  destruct (GetHash_rehashed (fm_root (fullmpt s))) as (n & Hn & R & _); [done|by eapply wf_root_not_nil|].
  exists (MkFullMPT n). split; [|done]. unfold Commit, server_commitment, FullMPT.Commitment.
  rewrite Hn. simpl. rewrite (sv_alias s Hs). simpl. by rewrite Hl, bytes_eqb_refl.
Qed.

Lemma Commit_new wc wh s :
  serving s → lastCommitment s ≠ hashOf (fm_root (fullmpt s)) →
  ∃ fm1 dm fm2 t dm' ps fm3,
    rehashed (fm_root (fullmpt s)) (fm_root fm1) ∧ valid 32 fm1 ∧ NewDeltaMPT fm1 = Ret (dm, fm2) ∧
    valid 32 t ∧ fm_root t ≡ fm_root (fullmpt s) ∧
    no_nil (dm_root dm) ∧ updatable dm ∧ rehashed (dm_root dm) (dm_root dm') ∧
    (∀ p, ps !! p = (if bool_decide (p ∈ processors s) then push dm else id) <$> procs s !! p) ∧
    valid 32 fm3 ∧ fm_root fm3 ≡ fm_root (fullmpt s) ∧ unchanged (fm_root fm3) ∧
    Commit db_set wc wh s = Ret (None,
      set_procs ps (set_lastDelta (Some dm') (set_fullmpt fm3
        (set_LastCommitMpt (Some t) (set_lastCommitment (hashOf (fm_root (fullmpt s))) (set_fullmpt fm1 s)))))).
Proof.
  intros Hs Hl. pose proof (sv_trie s Hs) as Hv. pose proof Hv as [Hwf [Hc Hf]].
  destruct (GetHash_rehashed (fm_root (fullmpt s))) as (n & Hn & R & K); [done|by eapply wf_root_not_nil|].
  pose proof (valid_rehashed 32 (fullmpt s) (MkFullMPT n) Hv R) as Hv1.
  pose proof (rehashed_equiv _ _ R) as E1.
  destruct (Copy_spec _ Hv1 K) as (t & Ht & Hvt & Et).
  destruct (NewDelta_updatable _ Hv1) as (dm & fm2 & Hd & R2 & Hnn & Hu).
  destruct (send_all_spec dm (processors s) (procs s) dm Hu) as (ps & dm' & Hps & Rd & Hp);
    [by split; [|apply Hu]|apply Hs|apply Hs|].
  pose proof (valid_rehashed 32 _ _ Hv1 R2) as Hv2. pose proof (rehashed_equiv _ _ R2) as E2.
  destruct (Reset_spec 32 fm2 Hv2) as (fm3 & Hr & Hv3 & E3 & Hun).
  exists (MkFullMPT n), dm, fm2, t, dm', ps, fm3.
  do 4 (split; [done|]). split; [by rewrite Et|]. do 5 (split; [done|]). split; [by rewrite E3, E2|].
  split; [done|]. destruct (dispose_ok s Hs) as [D1 D2].
  unfold Commit, server_commitment, FullMPT.Commitment. rewrite Hn. cbn -[hashOf go_copy dispose_opt NewDeltaMPT Reset Copy send_all].
  rewrite (sv_alias s Hs). rewrite (proj2 (bytes_eqb_false _ _) Hl), (sv_keep s Hs).
  cbn -[hashOf go_copy dispose_opt NewDeltaMPT Reset Copy send_all]. rewrite D1. cbn [mbind outcome_bind]. rewrite Ht.
  cbn -[hashOf go_copy dispose_opt NewDeltaMPT Reset Copy send_all]. rewrite D2. cbn [mbind outcome_bind]. rewrite Hd.
  cbn [mbind outcome_bind]. rewrite Hps. cbn [mbind outcome_bind]. rewrite Hr. cbn [mbind outcome_bind].
  cbn -[hashOf go_copy]. rewrite (sv_full s Hs), go_copy_same; [done|].
  by rewrite (lastCommitment_length s Hs), hashOf_root_length.
Qed.

(** A rehashed trie, a new delta or new connections keep the invariant. *)
Lemma serving_fullmpt s fm :
  serving s → valid 32 fm → fm_root fm ≡ fm_root (fullmpt s) → serving (set_fullmpt fm s).
Proof. intros [] Hv He. split; try done. by eapply values_equiv. Qed.

Lemma Commit_serving wc wh s :
  serving s → ∃ s', Commit db_set wc wh s = Ret (None, s') ∧ serving s' ∧
    lastCommitment s' = hashOf (fm_root (fullmpt s)) ∧ fm_root (fullmpt s') ≡ fm_root (fullmpt s) ∧
    (lastCommitment s ≠ hashOf (fm_root (fullmpt s)) →
     ∃ t, LastCommitMpt s' = Some t ∧ entries (fm_root t) = entries (fm_root (fullmpt s))) ∧
    (lastCommitment s = hashOf (fm_root (fullmpt s)) → LastCommitMpt s' = LastCommitMpt s).
Proof.
  intros Hs. destruct (decide (lastCommitment s = hashOf (fm_root (fullmpt s)))) as [He|Hne].
  - destruct (Commit_same wc wh s Hs He) as (fm & Hc & R). exists (set_fullmpt fm s). split; [done|].
    pose proof (rehashed_equiv _ _ R). split; [|by split_and!]. apply serving_fullmpt; try done. by eapply valid_rehashed, R; apply Hs.
  - destruct (Commit_new wc wh s Hs Hne) as (fm1 & dm & fm2 & t & dm' & ps & fm3 & R1 & Hv1 & _ & Hvt & Et & Hnn & Hu & Rd & Hp & Hv3 & E3 & _ & Hc).
    eexists. split; [exact Hc|]. split; [|split_and!; try done; intros _; exists t; split; [done|by apply entries_proper]].
    pose proof (sv_procs s Hs) as Hpr. pose proof (sv_conns s Hs) as Hco. destruct Hs. split; try done; simpl.
    + by eapply values_equiv.
    + unfold last_ok. simpl. split; [done|]. split; [by eapply values_equiv|by apply hashOf_proper].
    + intros d Hd. injection Hd as <-. split; [|apply Rd]. eapply no_nil_equiv; [by apply rehashed_equiv|done].
    + intros p lp Hlp. rewrite Hp in Hlp. destruct (procs s !! p) as [lp0|] eqn:E; [|done].
      injection Hlp as <-. specialize (Hpr p lp0 E). case_bool_decide; [by rewrite push_logIDs|done].
    + intros p Hin. rewrite Hp. destruct (Hco p Hin) as [lp ->]. by eexists.
Qed.

(** ** The other steps *)

Lemma serving_conn s p f :
  serving s →
  (∀ lp, Forall (λ k, length k = 32%nat) (logIDs lp) → Forall (λ k, length k = 32%nat) (logIDs (f lp))) →
  serving (on_conn s p f).
Proof.
  intros Hs Hf. pose proof (sv_procs s Hs) as Hpr. pose proof (sv_conns s Hs) as Hco. destruct Hs.
  split; try done; simpl.
  - intros q lp Hq. apply lookup_alter_Some in Hq as [(-> & lp0 & Hq & ->)|[_ Hq]]; [apply Hf|]; by eapply Hpr.
  - intros q Hq. destruct (Hco q Hq) as [lp Hlp]. destruct (decide (p = q)) as [->|Hne].
    + rewrite lookup_alter_eq, Hlp. by eexists.
    + rewrite lookup_alter_ne, Hlp by done. by eexists.
Qed.

Lemma serving_reply s p t m err s' : serving s → reply s p t m = Ret (err, s') → serving s'.
Proof. intros Hs Hr. injection Hr as _ <-. by apply serving_conn. Qed.

Lemma SubscribeToLog_32 id lp :
  length id = 32%nat → Forall (λ k, length k = 32%nat) (logIDs lp) →
  Forall (λ k, length k = 32%nat) (logIDs (SubscribeToLog id lp)).
Proof.
  intros Hid Hl. unfold SubscribeToLog. case_bool_decide; [done|]. simpl. apply Forall_app. by repeat constructor.
Qed.

Lemma serving_statement s id i st err s' :
  serving s → length st = 32%nat → RegisterLogStatement db_set s id i st false = Ret (err, s') → serving s'.
Proof.
  intros Hs Hst Hr. unfold RegisterLogStatement in Hr. case_bool_decide; [by injection Hr as _ <-|].
  case_bool_decide; [by injection Hr as _ <-|]. simpl in Hr. rewrite (sv_full s Hs) in Hr.
  apply bind_Ret_inv in Hr as (s1 & Hi & Hr). injection Hr as _ <-.
  apply bind_Ret_inv in Hi as (old & _ & Hi). apply bind_Ret_inv in Hi as (fm & Hi & Hr). injection Hr as <-.
  simpl in Hi. destruct (Insert_spec 32 (fullmpt s) (go_copy (zeros 32) id) st) as (fm' & Hi' & Hv' & He');
    [lia|apply Hs|by rewrite go_copy_length|].
  rewrite Hi' in Hi. injection Hi as ->. pose proof (sv_values s Hs) as Hva. pose proof (sv_alias s Hs) as Ha.
  destruct Hs. split; try done; simpl.
  - rewrite Ha. destruct (bytes_eqb _ zeroLog); [|done]. destruct old; [|done]. by destruct (bytes_eqb _ _).
  - unfold values_32. rewrite He'. by apply map_Forall_insert_2.
Qed.

Lemma serving_CreateLog s p scls err s' :
  serving s → ProcessCreateLog db_set VerifySig s p scls = Ret (err, s') → serving s'.
Proof.
  intros Hs Hp. unfold ProcessCreateLog, try in Hp. destruct (if CheckSignatures _ then _ else _); [|by injection Hp as _ <-|done].
  unfold RegisterLogID in Hp. cbv zeta in Hp. simpl in Hp. rewrite (sv_full s Hs) in Hp.
  destruct (logIDToPubKey s !! _); [by injection Hp as _ <-|]. apply bind_Ret_inv in Hp as ([e s1] & H1 & Hp).
  eapply serving_reply; [|exact Hp]. apply serving_conn; [|intros; apply SubscribeToLog_32; auto using Sum256_length].
  eapply serving_statement; [|apply Sum256_length|exact H1]. by destruct Hs.
Qed.

Lemma serving_AppendLog s p sls err s' :
  serving s → length (LogID (Statement sls)) = 32%nat →
  ProcessAppendLog db_set VerifySig s p sls = Ret (err, s') → serving s'.
Proof.
  intros Hs Hid Hp. unfold ProcessAppendLog, try in Hp. destruct (if CheckSignatures _ then _ else _); [|by injection Hp as _ <-|done].
  apply bind_Ret_inv in Hp as ([e s1] & H1 & Hp). assert (serving s1) as Hs1.
  { eapply serving_statement; [exact Hs|apply Sum256_length|exact H1]. }
  destruct e; [by injection Hp as _ <-|]. eapply serving_reply; [|exact Hp].
  apply serving_conn; [done|]. intros. by apply SubscribeToLog_32.
Qed.

(** The keys of a request, as the handlers make them. *)
Definition requested (s : Server DB) (p : nat) (msg : RequestProofMessage) : list bytes :=
  if bool_decide (len (LogIDs msg) = 0) then map (go_copy (zeros 32)) (conn_logIDs s p)
  else map (go_copy (zeros 32)) (LogIDs msg).

Lemma requested_32 s p msg : Forall (λ k, length k = 32%nat) (requested s p msg).
Proof.
  unfold requested. case_bool_decide; apply Forall_fmap, Forall_true; intros; apply go_copy_length.
Qed.

(** The tree that proofs are served from: the last confirmed one if the server has a wallet. *)
Definition served (s : Server DB) : option FullMPT :=
  if Full (config s) then LastConfirmedCommitMpt s else LastCommitMpt s.
Definition set_served (t : option FullMPT) (s : Server DB) : Server DB :=
  if Full (config s) then set_LastConfirmedCommitMpt t s else set_LastCommitMpt t s.

Lemma RequestProof_served s p msg t :
  served s = Some t → valid 32 t → requested s p msg ≠ [] →
  ∃ pm t', NewPartialMPTIncludingKeys t (requested s p msg) = Ret (pm, t') ∧
    rehashed (fm_root t) (fm_root t') ∧ tracks (requested s p msg) t pm ∧
    ProcessRequestProof s p msg =
      Ret (None, on_conn (set_served (Some t') s) p (write MessageTypeProof (PartialMPT_Bytes pm))).
Proof.
  intros Ht Hv Hne.
  destruct (include_keys_spec 32 t (requested s p msg)) as (pm & t' & Hpm & _ & R & T); [lia|done|done|apply requested_32|].
  exists pm, t'. split; [done|]. split; [done|]. split; [done|].
  unfold ProcessRequestProof. fold (requested s p msg). unfold GetProofForKeys. unfold served in Ht. unfold set_served.
  destruct (Full (config s)); by rewrite Ht, Hpm.
Qed.

Lemma RequestProof_spec s p msg t :
  serving s → LastCommitMpt s = Some t → requested s p msg ≠ [] →
  ∃ pm t', NewPartialMPTIncludingKeys t (requested s p msg) = Ret (pm, t') ∧
    rehashed (fm_root t) (fm_root t') ∧ tracks (requested s p msg) t pm ∧
    ProcessRequestProof s p msg =
      Ret (None, on_conn (set_LastCommitMpt (Some t') s) p (write MessageTypeProof (PartialMPT_Bytes pm))).
Proof.
  intros Hs Ht Hne. pose proof (sv_last s Hs) as Hl. unfold last_ok in Hl. rewrite Ht in Hl. destruct Hl as (Hv & _).
  destruct (RequestProof_served s p msg t) as (pm & t' & Hpm & R & T & E); [by unfold served; rewrite (sv_full s Hs)|done|done|].
  exists pm, t'. split_and!; try done. rewrite E. unfold set_served. by rewrite (sv_full s Hs).
Qed.

Lemma serving_rehashed_last s t t' :
  serving s → LastCommitMpt s = Some t → rehashed (fm_root t) (fm_root t') → serving (set_LastCommitMpt (Some t') s).
Proof.
  intros Hs Ht R. pose proof (sv_last s Hs) as Hl. unfold last_ok in Hl. rewrite Ht in Hl.
  destruct Hl as (Hv & Hva & Hh). pose proof (rehashed_equiv _ _ R) as He. destruct Hs. split; try done.
  unfold last_ok. simpl. split; [by eapply valid_rehashed|]. split; [by eapply values_equiv|].
  by rewrite (hashOf_proper _ _ He).
Qed.

Lemma serving_RequestProof s p msg err s' :
  serving s → ProcessRequestProof s p msg = Ret (err, s') → serving s'.
Proof.
  intros Hs Hp. destruct (decide (requested s p msg = [])) as [He|Hne].
  { unfold ProcessRequestProof in Hp. fold (requested s p msg) in Hp. unfold GetProofForKeys in Hp.
    rewrite (sv_full s Hs), He in Hp. destruct (LastCommitMpt s); by injection Hp as _ <-. }
  destruct (LastCommitMpt s) as [t|] eqn:Ht.
  - destruct (RequestProof_spec s p msg t Hs Ht Hne) as (pm & t' & _ & R & _ & E). rewrite E in Hp. injection Hp as _ <-.
    apply serving_conn; [|done]. by eapply serving_rehashed_last.
  - unfold ProcessRequestProof, GetProofForKeys in Hp. rewrite (sv_full s Hs), Ht in Hp. by injection Hp as _ <-.
Qed.

Lemma serving_RequestDelta s p msg err s' :
  serving s → ProcessRequestDeltaProof s p msg = Ret (err, s') → serving s'.
Proof.
  intros Hs Hp. unfold ProcessRequestDeltaProof, GetDeltaProofForKeys in Hp.
  destruct (lastDelta s) as [d|] eqn:Ed; [|done]. destruct (GetUpdatesForKeys d _) as [[u d']|e|e] eqn:Eu; [|by injection Hp as _ <-|done].
  eapply serving_reply; [|exact Hp]. destruct (sv_delta s Hs d Ed) as [Hn Hc].
  apply bind_Ret_inv in Eu as ([x y] & Eu & Ei). apply bind_Ret_inv in Ei as (z & _ & Ei). injection Ei as _ <-.
  destruct (getUpdates_rehashes _ _ _ _ _ Hc Eu) as [R _]. destruct Hs. split; try done. simpl.
  intros d0 Hd0. injection Hd0 as <-. split; [|apply R]. eapply no_nil_equiv; [by apply rehashed_equiv|done].
Qed.

Lemma SignedLogStatement_id m sls :
  NewSignedLogStatementFromBytes m = Ret sls → length (LogID (Statement sls)) = 32%nat.
Proof.
  intros Hm. apply bind_Ret_inv in Hm as ([sig buf] & _ & Hm). apply bind_Ret_inv in Hm as (st & Hst & Hm).
  injection Hm as <-. unfold NewLogStatementFromBytes in Hst. destruct (next 32 buf) as [id b].
  apply bind_Ret_inv in Hst as ([i b1] & _ & Hst). apply bind_Ret_inv in Hst as ([x b2] & _ & Hst).
  injection Hst as <-. apply go_copy_length.
Qed.

Lemma serving_message s p t m err s' :
  serving s → ProcessMessage db_set VerifySig s p t m = Ret (err, s') → serving s'.
Proof.
  intros Hs Hp. unfold ProcessMessage in Hp.
  destruct (is_type t MessageTypeCreateLog).
  { unfold try in Hp. destruct (NewSignedCreateLogStatementFromBytes m); [by eapply serving_CreateLog|by injection Hp as _ <-|done]. }
  destruct (is_type t MessageTypeAppendLog).
  { unfold try in Hp. destruct (NewSignedLogStatementFromBytes m) eqn:E; [|by injection Hp as _ <-|done].
    eapply serving_AppendLog; [done| |exact Hp]. by eapply SignedLogStatement_id. }
  destruct (is_type t MessageTypeRequestProof); [by eapply serving_RequestProof|].
  destruct (is_type t MessageTypeRequestDeltaProof); [by eapply serving_RequestDelta|].
  destruct (is_type t MessageTypeRequestCommitmentDetails).
  { unfold ProcessRequestCommitmentDetails, try in Hp. destruct (GetCommitmentDetails _ _); [|by injection Hp as _ <-|done].
    apply bind_Ret_inv in Hp as (b & _ & Hp). by eapply serving_reply. }
  destruct (is_type t MessageTypeRequestCommitmentHistory).
  { apply bind_Ret_inv in Hp as (? & _ & Hp). apply bind_Ret_inv in Hp as (? & _ & Hp). by eapply serving_reply. }
  destruct (is_type t MessageTypeSubscribeProofUpdates).
  { eapply serving_reply; [|exact Hp]. by apply serving_conn. }
  destruct (is_type t MessageTypeUnsubscribeProofUpdates).
  { eapply serving_reply; [|exact Hp]. by apply serving_conn. }
  by injection Hp as _ <-.
Qed.

Lemma serving_unregister s p : serving s → serving (unregisterProcessor s p).
Proof.
  intros Hs. unfold unregisterProcessor. destruct (last_index _ _ _ _) as [n|]; [|done].
  pose proof (sv_nodup s Hs) as Hnd. pose proof (sv_conns s Hs) as Hco.
  assert (take n (processors s) ++ drop (n + 1) (processors s) `sublist_of` processors s) as Hsub.
  { rewrite <- (take_drop n (processors s)) at 3. apply sublist_app; [done|].
    rewrite <- drop_drop. apply sublist_drop. }
  destruct Hs. split; try done; simpl.
  - by eapply sublist_NoDup.
  - intros q Hq. apply Hco. by eapply elem_of_sublist.
Qed.

Lemma serving_maiden wc wh s s' : serving s → maiden_commitment db_set wc wh s = Ret s' → serving s'.
Proof.
  intros Hs Hm. unfold maiden_commitment in Hm. case_bool_decide; [|by injection Hm as <-].
  assert (∃ e s1, RegisterLogID db_set s zeroLog (zeros 33) = (e, s1) ∧ serving s1) as (e & s1 & E1 & Hs1).
  { unfold RegisterLogID. simpl. rewrite (sv_full s Hs). destruct (logIDToPubKey s !! zeroLog); [by do 2 eexists|].
    do 2 eexists. split; [done|]. by destruct Hs. }
  rewrite E1 in Hm. apply bind_Ret_inv in Hm as ([e2 s2] & H2 & Hm).
  assert (serving s2) as Hs2 by (eapply serving_statement; [exact Hs1|apply Sum256_length|exact H2]).
  destruct (Commit_serving wc wh s2 Hs2) as (s3 & E3 & Hs3 & _). rewrite E3 in Hm. by injection Hm as <-.
Qed.

Lemma serving_block wc wh b s s' : serving s → blockWatcher_step db_set wc wh s b = Ret s' → serving s'.
Proof.
  intros Hs Hb. unfold blockWatcher_step, processMerkleProofs in Hb. rewrite (sv_commitments s Hs) in Hb.
  cbn [length process_from mbind outcome_bind mret outcome_ret] in Hb.
  case_bool_decide; [|by injection Hb as <-]. destruct (_ && _); [|by injection Hb as <-].
  destruct (Commit_serving wc wh s Hs) as (s1 & E1 & Hs1 & _). rewrite E1 in Hb. by injection Hb as <-.
Qed.

Lemma serving_step x y : step db_set VerifySig x y → serving x.1 → serving y.1.
Proof.
  intros Hst Hs. destruct Hst as [s g p Hp|s g p t m goes_on s' Hm|s g p e goes_on s' Hm|s g wc wh s' Hm|
    s g tr err s' Hl Ht|s g wc wh err s' Hc|s g wc wh b s' Hb]; simpl in *.
  - pose proof (sv_procs s Hs) as Hpr. pose proof (sv_conns s Hs) as Hco. pose proof (sv_nodup s Hs) as Hnd.
    destruct Hs. split; try done; simpl.
    + apply map_Forall_insert_2; [by constructor|done].
    + apply NoDup_app. split; [done|]. split; [|apply NoDup_singleton]. intros q Hq Hq'.
      apply list_elem_of_singleton in Hq' as ->. destruct (Hco p Hq). congruence.
    + intros q Hq. destruct (decide (p = q)) as [->|Hne]; [rewrite lookup_insert_eq; by eexists|].
      rewrite lookup_insert_ne by done. apply elem_of_app in Hq as [Hq|Hq]; [by apply Hco|].
      by apply list_elem_of_singleton in Hq as ->.
  - apply bind_Ret_inv in Hm as ([err s1] & Hp & Hm). pose proof (serving_message _ _ _ _ _ _ Hs Hp) as Hs1.
    destruct err; injection Hm as _ <-; [|done]. apply serving_unregister. by apply serving_conn.
  - injection Hm as _ <-. by apply serving_unregister.
  - by eapply serving_maiden.
  - by eapply serving_statement.
  - destruct (Commit_serving wc wh s Hs) as (s1 & E1 & Hs1 & _). rewrite E1 in Hc. by injection Hc as _ <-.
  - by eapply serving_block.
Qed.

Lemma reach_serving cfg db s g :
  Full cfg = false → KeepCommitmentTree cfg = true →
  rtc (step db_set VerifySig) (NewServer cfg db, ∅) (s, g) → serving s.
Proof.
  intros Hf Hk Hr. assert (∀ x y, rtc (step db_set VerifySig) x y → serving x.1 → serving y.1) as Hinv.
  { induction 1 as [|x y z Hxy _ IH]; [done|]. intros Hx. apply IH. by eapply serving_step. }
  apply (Hinv _ _ Hr). split; try done; simpl.
  - by constructor.
  - intros p Hp. by apply elem_of_nil in Hp.
Qed.
End Commits.

(** ** Claims *)

Section Claims.
Context `{HashFunction} {DB : Type} (db_set : DB → db_key → db_value → DB * error)
  (VerifySig : bytes → bytes → bytes → outcome unit) (cfg : Config) (db : DB)
  (s : Server DB) (g : gmap bytes history).

(** C23. Commit. In every state that a server without wallet that keeps the
    committed tree can reach, [Commit] succeeds.  [lastCommitment] is then [c],
    what [FullMPT.Commitment] gives for the trie with the statements, and the
    statements themselves stay as they were.  If [c] is new, a tree is stored
    for proofs that is valid, holds these statements and has the commitment
    [c]; if it is not, the stored tree stays as it is, and it has the
    commitment [c] (a server that has stored no tree has the commitment zero).
    A second [Commit] finds nothing to do and changes caches only. *)
Theorem commit_succeeds (wc wc' : bytes → outcome (bytes * bytes)) (wh wh' : Z)
  (Hf : Full cfg = false) (Hk : KeepCommitmentTree cfg = true)
  (Hr : rtc (step db_set VerifySig) (NewServer cfg db, ∅) (s, g)) :
  ∃ s1 fm c fmc, Commit db_set wc wh s = Ret (None, s1) ∧
    FullMPT.Commitment (fullmpt s) = Ret (c, fmc) ∧ lastCommitment s1 = c ∧
    entries (fm_root (fullmpt s1)) = entries (fm_root (fullmpt s)) ∧
    (lastCommitment s ≠ c → ∃ t, LastCommitMpt s1 = Some t ∧ entries (fm_root t) = entries (fm_root (fullmpt s))) ∧
    (lastCommitment s = c → LastCommitMpt s1 = LastCommitMpt s) ∧
    match LastCommitMpt s1 with
    | Some t => valid 32 t ∧ ∃ t', FullMPT.Commitment t = Ret (c, t')
    | None => c = zeros 32
    end ∧
    Commit db_set wc' wh' s1 = Ret (None, set_fullmpt fm s1) ∧ fm_root fm ≡ fm_root (fullmpt s1).
Proof.
  pose proof (reach_serving db_set VerifySig cfg db s g Hf Hk Hr) as Hs.
  destruct (Commit_serving db_set wc wh s Hs) as (s1 & Hc & Hs1 & Hl & He & Hnew & Hold).
  destruct (Commit_same db_set wc' wh' s1 Hs1) as (fm & Hc2 & R).
  { by rewrite Hl, (hashOf_proper _ _ He). }
  destruct (Commitment_spec 32 (fullmpt s) (sv_trie s Hs)) as (fmc & Hfmc & _).
  exists s1, fm, (hashOf (fm_root (fullmpt s))), fmc. split_and!; try done.
  - by apply entries_proper.
  - pose proof (sv_last s1 Hs1) as Hlast. unfold last_ok in Hlast. rewrite Hl in Hlast.
    destruct (LastCommitMpt s1) as [t|]; [|done]. destruct Hlast as (Hv & _ & Hh). split; [done|].
    destruct (Commitment_spec 32 t Hv) as (t' & Ht' & _). exists t'. by rewrite Ht', Hh.
  - by apply rehashed_equiv in R as [].
Qed.

(** C13. Proof requests. A server answers from one of its trees: the last confirmed one
    if it has a wallet, the last committed one if not.  When this tree [t] is a
    valid trie of 32-byte keys and values, as it always is in the reachable
    states of a server without wallet that keeps the committed tree, a request
    for proofs is answered on the connection with bytes that (unless there are
    2 GiB of them) parse as a partial trie, which has the commitment of [t] and
    gives, for each requested log, the statement of [t], or its absence.  In
    those reachable states the commitment of [t] is the server's last one. *)
Theorem proof_request_answered (p : nat) (lp : LogProc) (msg : RequestProofMessage) (t : FullMPT)
  (Ht : served s = Some t)
  (Hok : (valid 32 t ∧ values_32 (fm_root t)) ∨
    (Full cfg = false ∧ KeepCommitmentTree cfg = true ∧ rtc (step db_set VerifySig) (NewServer cfg db, ∅) (s, g)))
  (Hp : procs s !! p = Some lp) (Hne : requested s p msg ≠ []) :
  ∃ s' b c t', ProcessRequestProof s p msg = Ret (None, s') ∧
    procs s' !! p = Some (write MessageTypeProof b lp) ∧
    FullMPT.Commitment t = Ret (c, t') ∧
    (Full cfg = false → KeepCommitmentTree cfg = true → rtc (step db_set VerifySig) (NewServer cfg db, ∅) (s, g) →
     c = lastCommitment s) ∧
    (len b < 2 ^ 31 →
     ∃ pm pm', DeserializeNewPartialMPT b = Ret (pm, []) ∧
       PartialMPT_Commitment pm = Ret (c, pm') ∧
       ∀ id, id ∈ requested s p msg → PartialMPT_Get pm id = Ret (entries (fm_root t) !! id)).
Proof.
  assert (Hreach : Full cfg = false → KeepCommitmentTree cfg = true →
    rtc (step db_set VerifySig) (NewServer cfg db, ∅) (s, g) →
    valid 32 t ∧ values_32 (fm_root t) ∧ hashOf (fm_root t) = lastCommitment s).
  { intros Hf Hk Hr. pose proof (reach_serving db_set VerifySig cfg db s g Hf Hk Hr) as Hs.
    pose proof (sv_last s Hs) as Hl. unfold served in Ht. rewrite (sv_full s Hs) in Ht. unfold last_ok in Hl.
    by rewrite Ht in Hl. }
  assert (valid 32 t ∧ values_32 (fm_root t)) as [Hv Hva] by (destruct Hok as [?|(? & ? & ?)]; [done|by destruct Hreach as (? & ? & _)]).
  destruct (RequestProof_served s p msg t Ht Hv Hne) as (pm & t1 & _ & _ & T & E).
  destruct (Commitment_spec 32 t Hv) as (t' & Hc & _).
  eexists _, _, (hashOf (fm_root t)), t'. split; [exact E|].
  split; [unfold set_served; destruct (Full (config s)); simpl; by rewrite lookup_alter_eq, Hp|]. split; [done|].
  split; [intros Hf Hk Hr; by destruct (Hreach Hf Hk Hr) as (_ & _ & ?)|]. intros Hb.
  destruct (tracks_transport 32 (requested s p msg) t pm []) as (pm2 & Hd & He & C); auto using values_nonempty with lia.
  { unfold PartialMPT_ByteSize. by rewrite <- Serialize_length. }
  assert (tracks (requested s p msg) t pm2) as T2 by (split; [eapply shows_equiv_r; [symmetry; exact He|apply T]|done]).
  destruct (tracks_commitment 32 _ t pm2 (proj1 Hv) T2) as [pm3 Hc3]. exists pm2, pm3.
  rewrite app_nil_r in Hd. split; [done|]. split; [done|]. intros id Hid.
  rewrite (tracks_get 32 (requested s p msg) t pm2 id), (Get_spec 32); auto using requested_32 with lia.
  by apply (proj1 (Forall_forall _ _) (requested_32 s p msg)).
Qed.

(** C12. Pushed updates. On a server without wallet that keeps the committed tree,
    a subscribed connection whose client holds a partial trie
    that shows the connection's logs in an earlier tree [fm0] of the server,
    from which the current one came about by new statements in existing logs
    only (no new log): when [Commit] finds something new, it writes an update
    to the connection, and, if the update has less than 2 GiB, the client that
    merges its bytes then has a partial trie with the new
    commitment of the server and the current statements of its logs. *)
Theorem subscriber_follows (wc : bytes → outcome (bytes * bytes)) (wh : Z) (p : nat) (lp : LogProc)
  (fm0 fmc : FullMPT) (pm : PartialMPT) (ops : list op) (c : bytes)
  (Hf : Full cfg = false) (Hk : KeepCommitmentTree cfg = true)
  (Hr : rtc (step db_set VerifySig) (NewServer cfg db, ∅) (s, g))
  (Hin : p ∈ processors s) (Hp : procs s !! p = Some lp) (Ha : autoUpdates lp = true) (Hne : logIDs lp ≠ [])
  (Hv0 : valid 32 fm0) (T : tracks (logIDs lp) fm0 pm)
  (Hops : Forall (sets_existing (entries (fm_root fm0))) ops) (Hrun : run ops fm0 = Ret (fullmpt s))
  (Hcm : FullMPT.Commitment (fullmpt s) = Ret (c, fmc)) (Hnew : lastCommitment s ≠ c) :
  ∃ s' b, Commit db_set wc wh s = Ret (None, s') ∧ lastCommitment s' = c ∧
    procs s' !! p = Some (write MessageTypeProofUpdate b lp) ∧
    (len b < 2 ^ 31 →
     ∃ pm' pm'', ProcessUpdatesFromReader pm b = Ret (pm', []) ∧
       PartialMPT_Commitment pm' = Ret (c, pm'') ∧
       ∀ id, id ∈ logIDs lp → PartialMPT_Get pm' id = Ret (entries (fm_root (fullmpt s)) !! id)).
Proof.
  pose proof (reach_serving db_set VerifySig cfg db s g Hf Hk Hr) as Hs.
  destruct (Commitment_spec 32 (fullmpt s)) as (fc & Hfc & _); [apply Hs|]. rewrite Hcm in Hfc. injection Hfc as -> ->.
  destruct (Commit_new db_set wc wh s Hs Hnew) as (fm1 & dm & fm2 & t & dm' & ps & fm3 & R1 & Hv1 & Hd & _ & _ & _ & _ & _ & Hps & _ & _ & _ & Hc).
  pose proof (sv_procs s Hs p lp Hp) as Hk32. pose proof (rehashed_equiv _ _ R1) as E1.
  assert (evolved (fm_root fm0) (fm_root fm1)) as Hev.
  { destruct (run_updates 32 (fm_root fm0) (entries (fm_root fm0)) ops fm0) as (f & Hf' & _ & Hev & _); auto using evolved_equiv with lia.
    rewrite Hrun in Hf'. injection Hf' as <-. eapply evolved_strip; [|exact Hev]. symmetry. apply R1. }
  destruct (update_client 32 (logIDs lp) fm0 fm1 pm) as (dm0 & f2 & upd & x & pm' & Hd' & _ & _ & _ & Hu & Hpu & T' & Hnf & Hnn); auto with lia.
  rewrite Hd in Hd'. injection Hd' as <- <-. eexists _, (DeltaMPT_Bytes upd). split; [exact Hc|]. simpl. split; [done|]. split.
  { rewrite Hps, Hp, bool_decide_eq_true_2 by done. simpl. unfold push. rewrite Ha, bool_decide_eq_true_2, Hu; [done|].
    destruct (logIDs lp); [done|]. unfold len. simpl. lia. }
  intros Hb. assert (serializable (dm_root upd)) as Hser.
  { apply nonempty_serializable; [|done|].
    - apply Hnf. eapply (wf_nonempty_fields 32 []); [lia|right; split; [done|apply Hv1]|].
      apply values_nonempty. eapply values_equiv; [exact E1|apply Hs].
    - by rewrite <- Serialize_length. }
  destruct (read_update (logIDs lp) fm1 pm upd pm' []) as (pm2 & Hrd & T2); auto; [|apply T|].
  { by eapply GetUpdates_interior. }
  destruct (tracks_commitment 32 _ fm1 pm2 (proj1 Hv1) T2) as [pm3 Hc2]. exists pm2, pm3.
  rewrite app_nil_r in Hrd. split; [done|]. split; [by rewrite Hc2, (hashOf_proper _ _ E1)|]. intros id Hid.
  rewrite (tracks_get 32 (logIDs lp) fm1 pm2 id), (Get_spec 32), (entries_proper _ _ E1); auto with lia.
  by apply (proj1 (Forall_forall _ _) Hk32).
Qed.
End Claims.

(** ** Instances *)

Definition demo_wallet (c : bytes) : outcome (bytes * bytes) := Err "no wallet".

(** The state after [Commit], after a subscription and after one more statement. *)
Definition demo_3 : Server unit := Eval vm_compute in
  match Commit demo_db demo_wallet 0 demo_2 with Ret (_, s) => s | _ => demo_2 end.
Definition demo_4 : Server unit := Eval vm_compute in after MessageTypeSubscribeProofUpdates [] demo_3.
Definition demo_append2 : SignedLogStatement := NewSignedLogStatement 2 demo_id [x09].
Definition demo_5 : Server unit := Eval vm_compute in
  after MessageTypeAppendLog (SignedLogStatement_Bytes demo_append2) demo_4.

Lemma demo_3_reach : rtc (step demo_db demo_verify) (NewServer demo_config tt, ∅) (demo_3, demo_history).
Proof.
  eapply rtc_r; [exact demo_reach|]. apply (step_commit demo_db demo_verify demo_2 _ demo_wallet 0 None demo_3).
  vm_compute. reflexivity.
Qed.

Definition demo_history_5 : gmap bytes history :=
  record MessageTypeAppendLog (SignedLogStatement_Bytes demo_append2)
    (record MessageTypeSubscribeProofUpdates [] demo_history).

Lemma demo_5_reach :
  rtc (step demo_db demo_verify) (NewServer demo_config tt, ∅)
    (demo_5, demo_history_5).
Proof.
  eapply rtc_r; [eapply rtc_r; [exact demo_3_reach|]|].
  - apply (step_message demo_db demo_verify demo_3 _ 0 MessageTypeSubscribeProofUpdates [] true demo_4).
    vm_compute. reflexivity.
  - apply (step_message demo_db demo_verify demo_4 _ 0 MessageTypeAppendLog
      (SignedLogStatement_Bytes demo_append2) true demo_5). vm_compute. reflexivity.
Qed.

Lemma commit_succeeds_witness :
  ∃ s1 fm c fmc, Commit demo_db demo_wallet 0 demo_2 = Ret (None, s1) ∧
    FullMPT.Commitment (fullmpt demo_2) = Ret (c, fmc) ∧ lastCommitment s1 = c ∧
    entries (fm_root (fullmpt s1)) = entries (fm_root (fullmpt demo_2)) ∧
    (lastCommitment demo_2 ≠ c → ∃ t, LastCommitMpt s1 = Some t ∧ entries (fm_root t) = entries (fm_root (fullmpt demo_2))) ∧
    (lastCommitment demo_2 = c → LastCommitMpt s1 = LastCommitMpt demo_2) ∧
    match LastCommitMpt s1 with
    | Some t => valid 32 t ∧ ∃ t', FullMPT.Commitment t = Ret (c, t')
    | None => c = zeros 32
    end ∧
    Commit demo_db demo_wallet 0 s1 = Ret (None, set_fullmpt fm s1) ∧ fm_root fm ≡ fm_root (fullmpt s1).
Proof.
  apply (commit_succeeds demo_db demo_verify demo_config tt demo_2 demo_history); [done|done|exact demo_reach].
Defined.

Definition demo_proc (s : Server unit) : LogProc := default (MkLogProc ∅ [] false []) (procs s !! 0%nat).
Definition demo_committed : FullMPT := default NewFullMPT (LastCommitMpt demo_3).

Lemma proof_request_answered_witness :
  ∃ s' b c t', ProcessRequestProof demo_3 0 (MkRequestProofMessage []) = Ret (None, s') ∧
    procs s' !! 0%nat = Some (write MessageTypeProof b (demo_proc demo_3)) ∧
    FullMPT.Commitment demo_committed = Ret (c, t') ∧
    (Full demo_config = false → KeepCommitmentTree demo_config = true →
     rtc (step demo_db demo_verify) (NewServer demo_config tt, ∅) (demo_3, demo_history) → c = lastCommitment demo_3) ∧
    (len b < 2 ^ 31 →
     ∃ pm pm', DeserializeNewPartialMPT b = Ret (pm, []) ∧
       PartialMPT_Commitment pm = Ret (c, pm') ∧
       ∀ id, id ∈ requested demo_3 0 (MkRequestProofMessage []) →
         PartialMPT_Get pm id = Ret (entries (fm_root demo_committed) !! id)).
Proof.
  apply (proof_request_answered demo_db demo_verify demo_config tt demo_3 demo_history); try done.
  right. split; [done|]. split; [done|]. exact demo_3_reach.
Defined.

Definition demo_partial : PartialMPT :=
  match NewPartialMPTIncludingKeys (fullmpt demo_3) [demo_id] with Ret (pm, _) => pm | _ => MkPartialMPT NilNode end.

Lemma demo_tracks : valid 32 (fullmpt demo_3) ∧ tracks [demo_id] (fullmpt demo_3) demo_partial.
Proof.
  pose proof (reach_serving _ _ _ _ _ _ (eq_refl : Full demo_config = false) eq_refl demo_3_reach) as Hs.
  pose proof (sv_trie _ Hs) as Hv. split; [done|].
  destruct (include_keys_spec 32 (fullmpt demo_3) [demo_id]) as (pm & fm & E & _ & _ & T); [lia|done|done|by repeat constructor|].
  unfold demo_partial. by rewrite E.
Qed.

Definition demo_commitment_5 : bytes := Eval vm_compute in
  match FullMPT.Commitment (fullmpt demo_5) with Ret (c, _) => c | _ => [] end.

Lemma subscriber_follows_witness :
  ∃ s' b, Commit demo_db demo_wallet 0 demo_5 = Ret (None, s') ∧ lastCommitment s' = demo_commitment_5 ∧
    procs s' !! 0%nat = Some (write MessageTypeProofUpdate b (demo_proc demo_5)) ∧
    (len b < 2 ^ 31 →
     ∃ pm' pm'', ProcessUpdatesFromReader demo_partial b = Ret (pm', []) ∧
       PartialMPT_Commitment pm' = Ret (demo_commitment_5, pm'') ∧
       ∀ id, id ∈ logIDs (demo_proc demo_5) → PartialMPT_Get pm' id = Ret (entries (fm_root (fullmpt demo_5)) !! id)).
Proof.
  apply (subscriber_follows demo_db demo_verify demo_config tt demo_5 demo_history_5 demo_wallet 0 0 (demo_proc demo_5)
    (fullmpt demo_3) (MkFullMPT (match GetHash (fm_root (fullmpt demo_5)) with Ret (_, n) => n | _ => NilNode end)) demo_partial [OInsert demo_id (Sum256 (SignedLogStatement_Bytes demo_append2))] demo_commitment_5).
  - done.
  - done.
  - exact demo_5_reach.
  - apply (bool_decide_unpack _). vm_compute. exact I.
  - done.
  - done.
  - done.
  - apply demo_tracks.
  - apply demo_tracks.
  - constructor; [|constructor]. simpl. vm_compute. eauto.
  - vm_compute. reflexivity.
  - vm_compute. reflexivity.
  - apply bytes_eqb_false. vm_compute. reflexivity.
Defined.
