(* ===== verification/ServerChain.v ===== *)
(** * The chain of commitments on the server

    Blocks that confirm commitments, the history a client is sent, and the
    commitments read back from the database when the server starts. *)

From Stdlib Require Import ZArith Lia.
From S2P Require Import Prelude Buffers Sha256 Crypto Utils MerkleTree MerkleTheorems WireCommon MptNode MptSpec FullMPT MptSerialize PartialMPT DeltaMPT WireTypes WireTheorems Server LogProcessor.

Local Open Scope Z_scope.

Section Chain.
Context `{HashFunction} {DB : Type} (db_set : DB → db_key → db_value → DB * error).

(** ** Confirmation *)

(** A block as the network makes it: its header has the root of its Merkle tree. *)
Definition block_ok (block : Block) : Prop :=
  len (Transactions block) < 2 ^ 40 ∧ Forall (λ tx, length (tx_Hash tx) = 32%nat) (Transactions block) ∧
  ∃ tree, BuildMerkleTreeStore (Transactions block) false = Ret tree ∧ last tree = Some (Some (MerkleRoot block)).

Lemma base_hashes_plain txs : base_hashes false txs = map tx_Hash txs.
Proof. unfold base_hashes. apply list_eq. intros i. rewrite list_lookup_imap, list_lookup_fmap. by destruct (txs !! i). Qed.

Lemma levels_prefix h l : l `prefix_of` levels h l.
Proof. destruct h; simpl; [done|by apply prefix_app_r]. Qed.

Lemma find_hash_spec hs rest x i :
  Forall (λ y, length y = 32%nat) hs → x ∈ hs →
  ∃ k, find_hash (map Some hs ++ rest) x i = Ret (i + Z.of_nat k) ∧ hs !! k = Some x.
Proof.
  intros H32. revert i. induction H32 as [|y hs Hy Hhs IH]; intros i Hx; [by apply elem_of_nil in Hx|].
  cbn [map app find_hash]. unfold CloneBytes. rewrite go_copy_same by (rewrite length_zeros; done).
  destruct (bytes_eqb y x) eqn:E.
  - apply bytes_eqb_true in E as ->. exists 0%nat. split; [f_equal; lia|done].
  - apply bytes_eqb_false in E. apply elem_of_cons in Hx as [->|Hx]; [done|].
    destruct (IH (i + 1) Hx) as (k & Hk & Hl). exists (S k). split; [rewrite Hk; f_equal; lia|done].
Qed.

Lemma in_block_elem block c txHash :
  TxHash c = Some txHash → in_block block c = true → txHash ∈ map tx_Hash (Transactions block).
Proof.
  intros Ht Hb. unfold in_block in Hb. apply existsb_exists in Hb as (tx & Hin & He). rewrite Ht in He.
  simpl in He. apply bytes_eqb_true in He as <-. apply list_elem_of_In. by apply in_map.
Qed.

(** The commitment with a proof that checks. *)
Definition confirmed (block : Block) (c c' : Commitment) : Prop :=
  c_Commitment c' = c_Commitment c ∧ TxHash c' = TxHash c ∧ RawTx c' = RawTx c ∧
  TriggeredAtBlockHeight c' = TriggeredAtBlockHeight c ∧ IncludedInBlock c' = Some (BlockHash block) ∧
  ∃ txHash tx, TxHash c = Some txHash ∧ tx_Hash tx = txHash ∧
    Transactions block !! Z.to_nat (Position (c_MerkleProof c')) = Some tx ∧
    MerkleProof_Check (c_MerkleProof c') txHash (MerkleRoot block) = Ret true.

Lemma check_loop_Some hs h i x r : check_loop hs h i x = Ret r → Forall (λ o, o ≠ None) hs.
Proof.
  revert i x. induction hs as [|[y|] hs IH]; intros i x Hc; [constructor| |done].
  constructor; [done|]. by eapply IH.
Qed.

Lemma hashes_bytes_total hs : Forall (λ o, o ≠ None) hs → ∃ b, hashes_bytes hs = Ret b.
Proof.
  induction 1 as [|[y|] hs Hy Hhs [b IH]]; [by eexists| |done]. simpl. rewrite IH. by eexists.
Qed.

Lemma confirm_spec block c txHash :
  block_ok block → TxHash c = Some txHash → in_block block c = true →
  ∃ c' b, confirm block c txHash = Ret c' ∧ confirmed block c c' ∧ Commitment_Bytes c' = Ret b.
Proof.
  intros (Hlt & H32 & tree & Hb & Hl) Ht Hin. pose proof (in_block_elem _ _ _ Ht Hin) as Hx.
  assert (Forall (λ y, length y = 32%nat) (base_hashes false (Transactions block))) as Hlens.
  { rewrite base_hashes_plain. by apply Forall_fmap. }
  rewrite <- base_hashes_plain in Hx.
  destruct (build_spec (Transactions block) false) as (h & _ & _ & Hb'); [|done|].
  { intros E. rewrite E in Hx. by apply elem_of_nil in Hx. }
  rewrite Hb in Hb'. injection Hb' as Htree.
  destruct (levels_prefix h (map Some (base_hashes false (Transactions block)) ++
    replicate (2 ^ h - length (Transactions block)) None)) as [rest Hrest].
  destruct (find_hash_spec (base_hashes false (Transactions block))
    (replicate (2 ^ h - length (Transactions block)) None ++ rest) txHash 0 Hlens Hx) as (k & Hf & Hk).
  destruct (merkle_check_honest _ _ k txHash Hlt Hk Hlens) as (tree' & root & p & Ht' & Hr & Hp & Hpos & Hok & Hc).
  rewrite Hb in Ht'. injection Ht' as <-. rewrite Hl in Hr. injection Hr as Hroot.
  assert (Z.of_nat k < 2 ^ 40) as Hk40.
  { apply lookup_lt_Some in Hk. unfold base_hashes in Hk. rewrite length_imap in Hk. unfold len in Hlt. lia. }
  assert (MerkleProof_Check p txHash (MerkleRoot block) = Ret true) as Hcheck.
  { unfold MerkleProof_Check. rewrite Hc, Hroot. cbn. by rewrite bytes_eqb_refl. }
  destruct (hashes_bytes_total (Hashes p)) as [hb Hhb]; [by eapply check_loop_Some|].
  eexists (MkCommitment _ _ _ _ p _), _. split; [|split].
  - unfold confirm. rewrite Hb. cbn [mbind outcome_bind]. rewrite Htree, Hrest, <- app_assoc, Hf.
    cbn [mbind outcome_bind]. rewrite app_assoc, <- Hrest, <- Htree. replace (u64 (0 + Z.of_nat k)) with (Z.of_nat k).
    2: { unfold u64. rewrite Z.mod_small; lia. }
    rewrite Hp. cbn [mbind outcome_bind]. rewrite Hcheck. reflexivity.
  - do 5 (split; [done|]). rewrite base_hashes_plain in Hk. rewrite list_lookup_fmap in Hk.
    destruct (Transactions block !! k) as [tx|] eqn:Etx; [|done]. injection Hk as Etxh.
    exists txHash, tx. cbn [c_MerkleProof]. rewrite Hpos, Nat2Z.id. done.
  - unfold Commitment_Bytes. cbn [c_MerkleProof]. unfold MerkleProof_Bytes. rewrite Hhb. reflexivity.
Qed.

(** The position of a commitment in a list without repeated hashes. *)
Lemma find_commitment_none c l i at_ :
  (∀ x, x ∈ l → c_Commitment x ≠ c) → find_commitment c l i at_ = at_.
Proof.
  revert i at_. induction l as [|y l IH]; intros i at_ Hn; [done|]. simpl.
  rewrite (proj2 (bytes_eqb_false _ _)) by (intros E; eapply Hn; [by left|done]).
  apply IH. intros x Hx. apply Hn. by right.
Qed.

Lemma find_commitment_spec c l i k at_ :
  NoDup (map c_Commitment l) → l !! k = Some c → find_commitment (c_Commitment c) l i at_ = Some (i + k)%nat.
Proof.
  revert i k at_. induction l as [|y l IH]; intros i k at_ Hnd Hk; [done|]. simpl in Hnd.
  apply NoDup_cons in Hnd as [Hy Hnd]. destruct k as [|k]; simpl in *.
  - injection Hk as ->. rewrite bytes_eqb_refl, Nat.add_0_r. apply find_commitment_none.
    intros x Hx E. apply Hy. rewrite <- E. apply list_elem_of_In, in_map. by apply list_elem_of_In.
  - rewrite (IH (S i) k) by done. f_equal. lia.
Qed.

(** One commitment: confirmed if it is in the block, and left alone if it is not. *)
Definition after_block (block : Block) (c c' : Commitment) : Prop :=
  if in_block block c then confirmed block c c' else c' = c.

Lemma after_block_hash block c c' : after_block block c c' → c_Commitment c' = c_Commitment c.
Proof. unfold after_block. destruct (in_block block c); [by intros []|by intros ->]. Qed.

(** What the server needs in order to process a block. *)
Definition processable (s : Server DB) (block : Block) : Prop :=
  NoDup (map c_Commitment (commitments s)) ∧
  (∀ c, c ∈ commitments s → in_block block c = true → is_Some (TxHash c)) ∧
  ∃ t t', LastCommitMpt s = Some t ∧ Copy t = Ret t'.

Lemma saveCommitment_spec s c b i :
  NoDup (map c_Commitment (commitments s)) → commitments s !! i = Some c → Commitment_Bytes c = Ret b →
  ∃ s', saveCommitment db_set s c = Ret s' ∧ commitments s' = commitments s ∧ LastCommitMpt s' = LastCommitMpt s ∧
    lastCommitment s' = lastCommitment s.
Proof.
  intros Hnd Hi Hb. unfold saveCommitment. rewrite Hb. cbn [mbind outcome_bind].
  destruct (db_set _ _ _) as [db e]. eexists. split; [reflexivity|].
  case_bool_decide; simpl; rewrite (find_commitment_spec c _ 0 i), list_insert_id; done.
Qed.

Lemma hashes_insert (l : list Commitment) i c c' :
  l !! i = Some c → c_Commitment c' = c_Commitment c → map c_Commitment (<[i := c']> l) = map c_Commitment l.
Proof.
  intros Hi E. change (c_Commitment <$> <[i := c']> l = c_Commitment <$> l).
  rewrite list_fmap_insert, E. apply list_insert_id. by rewrite list_lookup_fmap, Hi.
Qed.

Lemma process_commitment_spec block i s c :
  block_ok block → processable s block → commitments s !! i = Some c →
  ∃ s' c', process_commitment db_set block i s = Ret s' ∧ after_block block c c' ∧
    commitments s' = <[i := c']> (commitments s) ∧ processable s' block.
Proof.
  intros Hb (Hnd & Htx & t & t' & Ht & Hcopy) Hi. unfold process_commitment, after_block. rewrite Hi.
  destruct (in_block block c) eqn:Ein; cycle 1.
  { exists s, c. rewrite list_insert_id by done. repeat split; eauto. }
  destruct (Htx c) as [txHash Etx]; [by eapply list_elem_of_lookup_2|done|]. rewrite Etx.
  destruct (confirm_spec block c txHash Hb Etx Ein) as (c' & b & -> & Hc' & Hbytes). cbn [mbind outcome_bind].
  set (s1 := set_commitments (<[i := c']> (commitments s)) s).
  pose proof (hashes_insert _ _ _ _ Hi (proj1 Hc')) as Hmap.
  assert (commitments s1 !! i = Some c') as Hi1.
  { unfold s1. simpl. apply list_lookup_insert_eq. by eapply lookup_lt_Some. }
  assert (∃ s2, (if bytes_eqb (lastCommitment s1) (c_Commitment c')
      then match LastCommitMpt s1 with
           | None => Panic nil_deref
           | Some t => t ← Copy t; commitState (set_LastConfirmedCommitMpt (Some t) s1)
           end else mret s1) = Ret s2 ∧ commitments s2 = commitments s1 ∧ LastCommitMpt s2 = Some t) as (s2 & -> & E2 & L2).
  { destruct (bytes_eqb _ _); [|by exists s1]. unfold s1, commitState. simpl. rewrite Ht, Hcopy. simpl.
    eexists. split; [reflexivity|]. done. }
  cbn [mbind outcome_bind].
  destruct (saveCommitment_spec s2 c' b i) as (s3 & Hs3 & E3 & L3 & _); [by rewrite E2; unfold s1; simpl; rewrite Hmap|by rewrite E2|done|].
  exists s3, c'. split; [done|]. split; [done|]. rewrite E3, E2. split; [done|]. split; [by rewrite E3, E2; unfold s1; simpl; rewrite Hmap|].
  split; [|exists t, t'; by rewrite L3]. rewrite E3, E2. unfold s1. simpl. intros x Hx Hxb.
  apply list_elem_of_lookup in Hx as [j Hj]. apply list_lookup_insert_Some in Hj as [(_ & <- & _)|[_ Hj]].
  - destruct Hc' as (_ & -> & _). by exists txHash.
  - apply Htx; [by eapply list_elem_of_lookup_2|done].
Qed.

Lemma process_from_spec block n i s :
  block_ok block → processable s block → (i + n)%nat = length (commitments s) →
  ∃ s', process_from db_set block n i s = Ret s' ∧
    take i (commitments s') = take i (commitments s) ∧
    Forall2 (after_block block) (drop i (commitments s)) (drop i (commitments s')) ∧ processable s' block.
Proof.
  intros Hb. revert i s. induction n as [|n IH]; intros i s Hp Hn.
  - exists s. split; [done|]. split; [done|]. rewrite drop_ge by lia. split; [constructor|done].
  - destruct (lookup_lt_is_Some_2 (commitments s) i) as [c Hc]; [lia|].
    destruct (process_commitment_spec block i s c Hb Hp Hc) as (s1 & c' & H1 & Ha & E1 & Hp1).
    destruct (IH (S i) s1) as (s' & Hs' & Ht & Hf & Hp'); [done|rewrite E1, length_insert; lia|].
    exists s'. cbn [process_from]. rewrite H1. cbn [mbind outcome_bind]. split; [done|].
    assert (i < length (commitments s))%nat as Hlt by lia.
    assert (take (S i) (commitments s1) = take i (commitments s) ++ [c']) as Ht1.
    { rewrite E1, insert_take_drop by done. rewrite take_app_ge by (rewrite length_take; lia).
      rewrite length_take, Nat.min_l, Nat.sub_succ_l, Nat.sub_diag by lia. done. }
    rewrite Ht1 in Ht.
    assert (commitments s' = take i (commitments s) ++ c' :: drop (S i) (commitments s')) as E'.
    { rewrite <- (take_drop (S i) (commitments s')) at 1. by rewrite Ht, <- app_assoc. }
    assert (length (take i (commitments s)) = i) as Hl by (rewrite length_take; lia).
    split; [|split; [|done]].
    + rewrite E'. rewrite take_app_le by lia. rewrite take_ge by lia. done.
    + rewrite (drop_S _ _ _ Hc). rewrite E', drop_app_ge, Hl, Nat.sub_diag by lia. simpl.
      constructor; [done|]. rewrite E1 in Hf. by rewrite drop_insert_lt in Hf by lia.
Qed.

(** ** History *)

(** The commitments after the one with hash [since], all of them if it is zero or unknown. *)
Definition after_since (since : bytes) (cs : list Commitment) : list Commitment :=
  if bool_decide (since = zeros 32) then cs
  else match list_find (λ c, c_Commitment c = since) cs with
       | Some (i, _) => drop (S i) cs
       | None => cs
       end.

Definition mined (cs : list Commitment) : list Commitment := filter (λ c, is_Some (IncludedInBlock c)) cs.

Lemma clone_mined_spec cs : Forall Commitment_ok cs → clone_mined cs = Ret (mined cs).
Proof.
  induction 1 as [|c cs Hc Hcs IH]; [done|]. destruct (Commitment_read c Hc) as (b & Hb & Hr).
  cbn [clone_mined]. rewrite Hb. cbn [mbind outcome_bind]. rewrite Hr. cbn [mbind outcome_bind]. rewrite IH.
  unfold mined. rewrite filter_cons. cbn. destruct (IncludedInBlock c) eqn:E; case_decide as D; try done; by destruct D.
Qed.

Lemma start_index_spec since cs i :
  start_index since cs i = match list_find (λ c, c_Commitment c = since) cs with
                           | Some (k, _) => i + Z.of_nat k | None => -1 end.
Proof.
  revert i. induction cs as [|c cs IH]; intros i; [done|]. cbn [start_index list_find].
  destruct (bytes_eqb (c_Commitment c) since) eqn:E.
  - apply bytes_eqb_true in E. rewrite decide_True by done. simpl. lia.
  - apply bytes_eqb_false in E. rewrite decide_False by done. rewrite IH.
    destruct (list_find _ cs) as [[k x]|]; simpl; [lia|done].
Qed.

Lemma GetCommitmentHistory_spec (s : Server DB) since :
  Forall Commitment_ok (commitments s) →
  GetCommitmentHistory s since = Ret (mined (after_since since (commitments s))).
Proof.
  intros Hok. unfold GetCommitmentHistory, after_since.
  assert (0 ≤ len (commitments s)) by (unfold len; lia). destruct (decide (since = zeros 32)) as [->|Hz].
  - rewrite (bool_decide_eq_true_2 (zeros 32 = zeros 32)), bytes_eqb_refl by done. simpl. rewrite bool_decide_eq_true_2 by lia. by apply clone_mined_spec.
  - rewrite (bool_decide_eq_false_2 (since = zeros 32)), (proj2 (bytes_eqb_false (zeros 32) since)) by congruence. simpl. rewrite start_index_spec.
    destruct (list_find _ _) as [[k x]|] eqn:E.
    + apply list_find_Some in E as (Hk & _ & _). apply lookup_lt_Some in Hk. unfold len.
      rewrite bool_decide_eq_true_2 by lia. replace (Z.to_nat (0 + Z.of_nat k + 1)) with (S k) by lia.
      apply clone_mined_spec. by apply Forall_drop.
    + rewrite bool_decide_eq_true_2 by lia. by apply clone_mined_spec.
Qed.

(** ** Loading *)

Context (first_outpoint : bytes → outcome (Z * bytes)).

(** The transaction of [c'] spends output 1 of that of [c]. *)
Definition spends (c c' : Commitment) : Prop :=
  ∃ h, first_outpoint (RawTx c') = Ret (1, h) ∧ TxHash c = Some h.

(** The commitments of a server in the order they were made: the first, and only the first,
    is to the maiden tree and does not spend a commitment, and each of the
    others spends the one before it. *)
Record commitment_chain (cs : list Commitment) : Prop := {
  cc_parse : Forall (λ c, is_ret (first_outpoint (RawTx c)) = true) cs;
  cc_txs : NoDup (map TxHash cs);
  cc_maiden : ∀ i c, cs !! i = Some c → (c_Commitment c = MaidenHash ↔ i = 0%nat);
  cc_first : ∀ c c', cs !! 0%nat = Some c' → c ∈ cs → ¬ spends c c';
  cc_spends : ∀ i c c', cs !! i = Some c → cs !! S i = Some c' → spends c c'
}.

(** Only the next commitment spends a commitment. *)
Lemma spends_next cs i c j c' :
  commitment_chain cs → cs !! i = Some c → cs !! j = Some c' → spends c c' → j = S i.
Proof.
  intros Hcs Hi Hj Hs. destruct j as [|j].
  { exfalso. apply (cc_first cs Hcs c c' Hj); [exact (list_elem_of_lookup_2 _ _ _ Hi)|exact Hs]. }
  destruct (lookup_lt_is_Some_2 cs j) as [c0 Hc0]; [apply lookup_lt_Some in Hj; lia|].
  destruct (cc_spends cs Hcs j c0 c' Hc0 Hj) as (h & E1 & T1), Hs as (h' & E2 & T2).
  rewrite E1 in E2. injection E2 as ->. f_equal.
  apply (NoDup_lookup (map TxHash cs) j i (Some h')); [apply Hcs|..];
    change (map TxHash cs) with (TxHash <$> cs); rewrite list_lookup_fmap; [rewrite Hc0|rewrite Hi]; simpl; congruence.
Qed.

Lemma find_maiden_spec cs loaded c :
  commitment_chain cs → loaded ≡ₚ cs → cs !! 0%nat = Some c → find_maiden loaded = Some c.
Proof.
  intros Hcs Hp H0. assert (∀ l, (∀ x, x ∈ l → x ∈ cs) → c ∈ l → find_maiden l = Some c) as Hall.
  { induction l as [|y l IH]; intros Hsub Hin; [by apply elem_of_nil in Hin|]. simpl.
    destruct (bytes_eqb (c_Commitment y) MaidenHash) eqn:E.
    - apply bytes_eqb_true in E. specialize (Hsub y ltac:(by left)). apply list_elem_of_lookup in Hsub as [i Hi].
      pose proof (proj1 (cc_maiden cs Hcs i y Hi) E) as ->. congruence.
    - apply bytes_eqb_false in E. apply elem_of_cons in Hin as [<-|Hin].
      + destruct E. by apply (cc_maiden cs Hcs 0 c).
      + apply IH; [|done]. intros x Hx. apply Hsub. by right. }
  apply Hall; [intros x; by rewrite Hp|]. rewrite Hp. by eapply list_elem_of_lookup_2.
Qed.

Lemma find_spender_spec cs loaded i c c' :
  commitment_chain cs → loaded ≡ₚ cs → cs !! i = Some c → cs !! S i = Some c' →
  find_spender first_outpoint c loaded = Ret (Some c').
Proof.
  intros Hcs Hp Hi Hi'. pose proof (cc_spends cs Hcs i c c' Hi Hi') as Hs.
  assert (∀ l, (∀ x, x ∈ l → x ∈ cs) → c' ∈ l → find_spender first_outpoint c l = Ret (Some c')) as Hall.
  { induction l as [|y l IH]; intros Hsub Hin; [by apply elem_of_nil in Hin|]. cbn [find_spender].
    pose proof (Hsub y ltac:(by left)) as Hy. pose proof (proj1 (Forall_forall _ _) (cc_parse cs Hcs) y Hy) as Hpy.
    destruct (first_outpoint (RawTx y)) as [[n h]| |] eqn:Ey; [|by cbv beta in Hpy; rewrite Ey in Hpy..].
    destruct (bool_decide (n = 1) && IsEqual (Some h) (TxHash c)) eqn:E.
    - apply andb_prop in E as [E1 E2]. apply bool_decide_eq_true in E1 as ->. apply list_elem_of_lookup in Hy as [j Hj].
      assert (spends c y) as Hsy.
      { exists h. split; [done|]. simpl in E2. destruct (TxHash c); [|done]. by apply bytes_eqb_true in E2 as ->. }
      pose proof (spends_next cs i c j y Hcs Hi Hj Hsy) as ->. rewrite Hi' in Hj. by injection Hj as ->.
    - apply elem_of_cons in Hin as [<-|Hin]; [|apply IH; [|done]; intros x Hx; apply Hsub; by right].
      destruct Hs as (h' & E1 & E2). rewrite Ey in E1. injection E1 as -> ->. rewrite E2 in E. simpl in E.
      by rewrite bytes_eqb_refl in E. }
  apply Hall; [intros x; by rewrite Hp|]. rewrite Hp. by eapply list_elem_of_lookup_2.
Qed.

Lemma order_loop_spec cs loaded k fuel :
  commitment_chain cs → loaded ≡ₚ cs → (k + fuel)%nat = length cs →
  order_loop first_outpoint fuel loaded (take k cs) = Ret cs.
Proof.
  intros Hcs Hp. pose proof (Permutation_length Hp) as Hl. revert k. induction fuel as [|fuel IH]; intros k Hk.
  { cbn [order_loop]. rewrite take_ge by lia. by rewrite bool_decide_eq_true_2 by lia. }
  cbn [order_loop]. rewrite bool_decide_eq_false_2 by (rewrite length_take; lia).
  destruct (lookup_lt_is_Some_2 cs k) as [c Hc]; [lia|].
  assert (match last (take k cs) with None => mret (find_maiden loaded) | Some c => find_spender first_outpoint c loaded end
          = Ret (Some c)) as ->.
  { destruct k as [|k]; [simpl; by rewrite (find_maiden_spec cs loaded c)|].
    destruct (lookup_lt_is_Some_2 cs k) as [c0 Hc0]; [lia|]. rewrite (take_S_r _ _ _ Hc0), last_snoc.
    by eapply find_spender_spec. }
  cbn [mbind outcome_bind]. rewrite <- (take_S_r _ _ _ Hc). apply IH. lia.
Qed.

Lemma decode_all_spec loaded values :
  Forall Commitment_ok loaded → Forall2 (λ c v, Commitment_Bytes c = Ret v) loaded values → decode_all values = Ret loaded.
Proof.
  intros Hok Hv. induction Hv as [|c v loaded values Hc Hv IH]; [done|]. apply Forall_cons in Hok as [Hc1 Hok].
  cbn [decode_all]. destruct (Commitment_read c Hc1) as (b & Hb & Hr). rewrite Hc in Hb. injection Hb as <-.
  rewrite Hr. cbn [mbind outcome_bind]. by rewrite IH.
Qed.
End Chain.

(** ** Claims *)

Section Claims.
Context `{HashFunction} {DB : Type} (db_set : DB → db_key → db_value → DB * error).

(** C24. Confirmation. For a block whose header has the Merkle root of its
    transactions, [processMerkleProofs] returns, and every commitment of the
    server whose transaction is in the block then names that block and has a
    Merkle proof, at the position of the transaction, that [Check] accepts for
    the header's root; the other commitments are as they were, and the order
    is kept. *)
Theorem block_confirms (s : Server DB) (block : Block) (Hb : block_ok block) (Hp : processable s block) :
  ∃ s', processMerkleProofs db_set s block = Ret s' ∧
    Forall2 (after_block block) (commitments s) (commitments s').
Proof.
  destruct (process_from_spec db_set block (length (commitments s)) 0 s Hb Hp eq_refl) as (s' & Hs' & _ & Hf & _).
  by exists s'.
Qed.

(** History requests. A request for the commitments since a given one is answered
    on the connection with bytes that the client reads back as exactly the
    mined commitments after it, in order; all mined ones if it asked for the
    zero hash or for one the server does not know. *)
Theorem history_request_answered (s : Server DB) (p : nat) (lp : LogProc) (msg : RequestCommitmentHistoryMessage)
  (Hc : Forall sendable (commitments s)) (Hn : len (commitments s) < 2 ^ 31) (Hp : procs s !! p = Some lp) :
  ∃ s' b, ProcessRequestCommitmentHistory s p msg = Ret (None, s') ∧
    procs s' !! p = Some (write MessageTypeCommitmentHistory b lp) ∧
    NewCommitmentHistoryMessageFromBytes b =
      Ret (MkCommitmentHistoryMessage (mined (after_since (SinceCommitment msg) (commitments s)))).
Proof.
  set (cs := mined (after_since (SinceCommitment msg) (commitments s))).
  assert (after_since (SinceCommitment msg) (commitments s) `sublist_of` commitments s) as Hsub.
  { unfold after_since. case_bool_decide; [done|]. destruct (list_find _ _) as [[k x]|]; [apply sublist_drop|done]. }
  assert (cs `sublist_of` commitments s) as Hcs by (etransitivity; [apply sublist_filter|done]).
  assert (Forall sendable cs) as Hsend.
  { apply Forall_forall. intros c Hin. apply (proj1 (Forall_forall _ _) Hc). by eapply elem_of_sublist. }
  destruct (history_message_read cs Hsend) as (b & Hb & Hr).
  { apply sublist_length in Hcs. unfold len in *. lia. }
  eexists _, b. unfold ProcessRequestCommitmentHistory. rewrite GetCommitmentHistory_spec.
  - fold cs. cbn [mbind outcome_bind]. rewrite Hb. split; [reflexivity|]. split; [|done].
    simpl. by rewrite lookup_alter_eq, Hp.
  - eapply Forall_impl; [exact Hc|]. by intros c [].
Qed.

(** C25. Loading. Whatever the order in which the database yields the stored
    commitments of a chain (the maiden commitment first, each next one
    spending output 1 of the one before), [loadCommitments] restores the
    chain in its order and the height of its last commitment. *)
Theorem loadCommitments_restores (first_outpoint : bytes → outcome (Z * bytes)) (s : Server DB)
  (chain loaded : list Commitment) (values : list bytes)
  (Hchain : commitment_chain first_outpoint chain) (Hok : Forall Commitment_ok chain)
  (Hp : loaded ≡ₚ chain) (Hv : Forall2 (λ c v, Commitment_Bytes c = Ret v) loaded values) :
  ∃ s', loadCommitments first_outpoint s values = Ret s' ∧ commitments s' = chain ∧
    (∀ c, last chain = Some c → LastCommitHeight s' = TriggeredAtBlockHeight c).
Proof.
  assert (Forall Commitment_ok loaded) as Hok' by (by rewrite Hp).
  unfold loadCommitments. rewrite (decode_all_spec loaded values Hok' Hv). cbn [mbind outcome_bind].
  pose proof (order_loop_spec first_outpoint chain loaded 0 (length loaded) Hchain Hp (Permutation_length Hp)) as Ho.
  change (take 0 chain) with (@nil Commitment) in Ho. rewrite Ho. cbn [mbind outcome_bind]. eexists. split; [reflexivity|].
  destruct (last chain) as [c|]; split; try done. intros c' Hc'. by injection Hc' as <-.
Qed.
End Claims.

(** ** Instances *)

Definition nodb (db : unit) (k : db_key) (v : db_value) : unit * error := (tt, None).

(** A server with two commitments, the second not yet mined, and a block with it. *)
Definition tx_a : Tx := MkTx (replicate 32 x0a) (replicate 32 x0a).
Definition tx_b : Tx := MkTx (replicate 32 x0b) (replicate 32 x0b).
Definition chain_root : bytes := Eval vm_compute in HashMerkleBranches (tx_Hash tx_a) (tx_Hash tx_b).
Definition chain_block : Block := MkBlock (replicate 32 x77) chain_root [tx_a; tx_b].

(** The raw transactions stand for their outpoints: index and hash. *)
Definition read_outpoint (raw : bytes) : outcome (Z * bytes) :=
  match raw with i :: h => mret (byte_Z i, h) | [] => Err "EOF" end.

Definition first_commitment : Commitment :=
  MkCommitment MaidenHash (Some (replicate 32 x09)) 100 (Some (replicate 32 x66)) (MkMerkleProof 0 []) (x00 :: replicate 32 x01).
Definition second_commitment : Commitment :=
  NewCommitment (replicate 32 x22) (Some (replicate 32 x0b)) (x01 :: replicate 32 x09) 101.

Definition chain_server : Server unit :=
  set_procs {[0%nat := MkLogProc ∅ [] false []]}
    (set_commitments [first_commitment; second_commitment]
      (set_LastCommitMpt (Some NewFullMPT) (NewServer (MkConfig true true true 1 true) tt))).

Lemma block_confirms_witness :
  ∃ s', processMerkleProofs nodb chain_server chain_block = Ret s' ∧
    Forall2 (after_block chain_block) (commitments chain_server) (commitments s').
Proof.
  apply (block_confirms nodb chain_server chain_block).
  - split; [reflexivity|]. split; [by repeat constructor|]. eexists. split; [reflexivity|].
    vm_compute. reflexivity.
  - split; [apply (bool_decide_unpack _); vm_compute; exact I|]. split; [|by do 2 eexists].
    intros c Hc _. simpl in Hc. apply elem_of_cons in Hc as [->|Hc]; [by eexists|].
    apply list_elem_of_singleton in Hc as ->. by eexists.
Defined.

Lemma chain_sendable : Forall sendable [first_commitment; second_commitment].
Proof.
  assert (∀ c, Commitment_ok c → (∀ b, Commitment_Bytes c = Ret b → len b < 2 ^ 31) → sendable c) as Hs by done.
  repeat apply Forall_cons_2; [..|apply Forall_nil_2]; apply Hs;
    try (intros b [= <-]; vm_compute; reflexivity);
    unfold Commitment_ok; simpl; repeat split; try done; try lia; by constructor.
Qed.

Lemma history_request_answered_witness :
  ∃ s' b, ProcessRequestCommitmentHistory chain_server 0 (NewRequestCommitmentHistoryMessage (zeros 32)) = Ret (None, s') ∧
    procs s' !! 0%nat = Some (write MessageTypeCommitmentHistory b (MkLogProc ∅ [] false [])) ∧
    NewCommitmentHistoryMessageFromBytes b = Ret (MkCommitmentHistoryMessage [first_commitment]).
Proof.
  apply (history_request_answered chain_server 0 (MkLogProc ∅ [] false []) (NewRequestCommitmentHistoryMessage (zeros 32)));
    [exact chain_sendable|reflexivity|reflexivity].
Defined.

Lemma chain_linked : commitment_chain read_outpoint [first_commitment; second_commitment].
Proof.
  split.
  - by repeat constructor.
  - apply (bool_decide_unpack _). vm_compute. exact I.
  - intros [|[|i]] c Hc; [..|done]; injection Hc as <-; split; try done; intros E; by vm_compute in E.
  - intros c c' Hc Hin (h & E1 & E2). injection Hc as <-. by vm_compute in E1.
  - intros [|i] c c' Hc Hc'; [|by destruct i]. injection Hc as <-. injection Hc' as <-. by exists (replicate 32 x09).
Qed.

Definition stored (c : Commitment) : bytes := match Commitment_Bytes c with Ret b => b | _ => [] end.

Lemma loadCommitments_restores_witness :
  ∃ s', loadCommitments read_outpoint chain_server [stored second_commitment; stored first_commitment] = Ret s' ∧
    commitments s' = [first_commitment; second_commitment] ∧
    (∀ c, last [first_commitment; second_commitment] = Some c → LastCommitHeight s' = TriggeredAtBlockHeight c).
Proof.
  apply (loadCommitments_restores read_outpoint chain_server [first_commitment; second_commitment]
    [second_commitment; first_commitment]).
  - exact chain_linked.
  - eapply Forall_impl; [exact chain_sendable|]. by intros c [].
  - apply perm_swap.
  - repeat constructor.
Defined.
