(* ===== verification/ServerDefects.v ===== *)
(** * Where the server does not do what it means to

    Closed runs of the model, and one general theorem, that show defects of
    server/server.go and server/logprocessor.go: the forced commitment, the
    maiden commitment of a server with wallet, the trie after a restart, a
    failed wallet, and requests that end the process. *)

From Stdlib Require Import ZArith Lia.
From S2P Require Import Prelude Buffers Sha256 Crypto Utils MerkleTree WireCommon MptNode MptSpec FullMPT MptTrie MptInv MptTheorems MptSerialize PartialMPT PartialTheorems DeltaMPT DeltaTheorems WireTypes Server LogProcessor ServerLogs ServerCommit ServerChain.

Local Open Scope Z_scope.

(** ** Restart *)

Lemma DeepCopy_total n : no_nil n → ∃ n', DeepCopy n = Ret n' ∧ n' ≡ n.
Proof.
  induction n as [|s|d| |h rc ch l IHl r IHr]; intros Hn; try done.
  - eexists. split; [reflexivity|]. destruct s. unfold NewStub. simpl. by rewrite go_copy_zeros.
  - eexists. split; [reflexivity|]. apply leaf_equiv. simpl. by rewrite !go_copy_zeros.
  - by exists EmptyLeaf.
  - destruct Hn as [Hl Hr]. destruct (IHl Hl) as (l' & El & Ql), (IHr Hr) as (r' & Er & Qr).
    simpl. assert (is_nil l = false ∧ is_nil r = false) as [-> ->] by (by destruct l, r).
    rewrite El, Er. simpl. eexists. split; [reflexivity|]. by apply Interior_equiv.
Qed.

Section Restart.
Context `{HashFunction} {DB : Type}.

(** Restart. A server that reads back the state it wrote has the statements of
    the last commitment in its trie and the right [lastCommitment], but the
    trie was copied before its hashes were calculated, and a copy counts as
    calculated: the commitment of the running trie is 32 zero bytes. *)
Theorem restart_commits_zeros (s s0 : Server DB) (t : FullMPT)
  (Ht : LastCommitMpt s = Some t) (Hconf : LastConfirmedCommitMpt s = None)
  (Hv : valid 32 t) (Hva : values_32 (fm_root t)) (Hb : ByteSize (fm_root t) < 2 ^ 31)
  (Hl : length (lastCommitment s0) = 32%nat) (Hw : commitState s = Ret s0) :
  ∃ s', loadState s0 = Ret (None, s') ∧
    entries (fm_root (fullmpt s')) = entries (fm_root t) ∧
    lastCommitment s' = hashOf (fm_root t) ∧
    FullMPT.Commitment (fullmpt s') = Ret (zeros 32, fullmpt s').
Proof.
  unfold commitState in Hw. rewrite Ht, Hconf in Hw. injection Hw as <-.
  assert (serializable (fm_root t)) as Hser.
  { apply (wf_root_serializable 32); [lia|apply Hv|by apply values_nonempty|done]. }
  destruct t as [n]. destruct Hv as [Hwf _]. destruct n as [| | | |h rc ch l r]; try done.
  set (n := Interior h rc ch l r) in *. pose proof (fresh_equiv n) as He.
  pose proof (wf_root_no_nil _ _ Hwf) as Hnn.
  destruct (DeepCopy_total (fresh n)) as (n' & Hn' & En); [eapply no_nil_equiv; [exact He|done]|].
  destruct (GetHash_spec (fresh n)) as (n2 & Hg & _); [apply marks_fresh|done|].
  assert (∃ l' r', n' = Interior (zeros 32) false true l' r') as (l' & r' & ->).
  { simpl in Hn'. apply bind_Ret_inv in Hn' as (? & _ & Hn'). apply bind_Ret_inv in Hn' as (? & _ & Hn').
    injection Hn' as <-. by do 2 eexists. }
  assert (DeserializeNewFullMPT (FullMPT_Bytes (MkFullMPT n)) = Ret (MkFullMPT (fresh n), [])) as Hd.
  { pose proof (DeserializeNode_Serialize n [] Hser) as Hd. rewrite app_nil_r in Hd.
    unfold DeserializeNewFullMPT, FullMPT_Bytes, FullMPT_Serialize. cbn [fm_root]. by rewrite Hd. }
  assert (FullMPT.Commitment (MkFullMPT (fresh n)) = Ret (hashOf (fresh n), MkFullMPT n2)) as Hcm.
  { unfold FullMPT.Commitment. cbn [fm_root]. by rewrite Hg. }
  eexists. split; [|split; [|split]].
  - unfold loadState. cbn [stateFile set_stateFile LastCommitmentTree LastConfirmedCommitmentTree option_map].
    rewrite Hd. cbv zeta. cbn [mbind outcome_bind mret outcome_ret]. unfold Copy. cbn [fm_root]. rewrite Hn'.
    cbn [mbind outcome_bind mret outcome_ret]. rewrite Hcm. reflexivity.
  - cbn [fullmpt set_lastCommitment set_LastCommitMpt set_zeroLogAlias set_fullmpt newFullMPTWithRoot fm_root].
    rewrite (entries_proper _ _ En). by rewrite (entries_proper _ _ He).
  - cbn [lastCommitment set_lastCommitment set_LastCommitMpt set_zeroLogAlias set_fullmpt].
    rewrite go_copy_same; [by apply hashOf_proper|]. rewrite (hashOf_proper _ _ He). simpl in Hl |- *.
    by rewrite Sum256_length, Hl.
  - reflexivity.
Qed.
End Restart.

(** ** Closed runs of a server with wallet *)

Definition full_config : Config := MkConfig true true true 1 true.
Definition paid_wallet (c : bytes) : outcome (bytes * bytes) := mret (replicate 32 x42, [x01]).
Definition empty_wallet (c : bytes) : outcome (bytes * bytes) := Err "Insufficient balance".

Definition ret_or {A} (x : A) (m : outcome A) : A := match m with Ret a => a | _ => x end.

Definition full_0 : Server unit := NewServer full_config tt.
Definition commit_with (w : bytes → outcome (bytes * bytes)) (s : Server unit) : Server unit :=
  (ret_or (None, s) (Commit demo_db w 0 s)).2.

(** A server that has made its maiden commitment and one more, forced by the statement that
    [Commit] registers for the zero log. *)
Definition full_1 : Server unit := Eval vm_compute in ret_or full_0 (maiden_commitment demo_db paid_wallet 0 full_0).
Definition full_2 : Server unit := Eval vm_compute in commit_with paid_wallet full_1.
Definition full_3 : Server unit := Eval vm_compute in commit_with paid_wallet full_2.

Definition commitment_of (t : option FullMPT) : bytes :=
  match t with
  | Some t => match FullMPT.Commitment t with Ret (c, _) => c | _ => [] end
  | None => []
  end.

(** The tree of the last commitment, written to disk and read back. *)
Definition reloaded (s : Server unit) : option FullMPT :=
  match LastCommitMpt s with
  | Some t => match DeserializeNewFullMPT (FullMPT_Bytes t) with Ret (t, _) => Some t | _ => None end
  | None => None
  end.

(** Forced commitments stop. After its maiden commitment a server with wallet
    makes one more commitment without any client, as the comment in [Commit]
    promises, and then no more: the statement registered to force a change is
    the buffer of the root hash itself, so registering the next one changes
    nothing.  The tree kept with the second commitment, written to disk and
    read back, has another hash than the one that was committed to. *)
Theorem forced_commits_stop :
  maiden_commitment demo_db paid_wallet 0 full_0 = Ret full_1 ∧ lastCommitment full_1 = MaidenHash ∧
  Commit demo_db paid_wallet 0 full_1 = Ret (None, full_2) ∧ len (commitments full_2) = 2 ∧
  Commit demo_db paid_wallet 0 full_2 = Ret (None, full_3) ∧ commitments full_3 = commitments full_2 ∧
  commitment_of (reloaded full_1) = lastCommitment full_1 ∧
  commitment_of (reloaded full_2) ≠ lastCommitment full_2.
Proof.
  split; [vm_compute; reflexivity|]. split; [vm_compute; reflexivity|]. split; [vm_compute; reflexivity|].
  split; [reflexivity|]. split; [vm_compute; reflexivity|]. split; [reflexivity|].
  split; [vm_compute; reflexivity|]. apply bytes_eqb_false. vm_compute. reflexivity.
Qed.

(** The start of a fresh server, without and with wallet, for one random trigger. *)
Definition trigger : bytes := replicate 32 x5a.
Definition started (cfg : Config) (values : list bytes) : outcome (Server unit) :=
  Run_start demo_db paid_wallet 0 read_outpoint (NewServer cfg tt) values [] [] trigger.
Definition full_started : Server unit := Eval vm_compute in ret_or full_0 (started full_config []).

(** The maiden commitment. Without a wallet, a fresh server starts with the
    fixed commitment of [MaidenHash].  With a wallet it does not: [Run] has
    already registered the random trigger at index 0 of the zero log, the
    error for the fixed statement is ignored, and the first commitment is to
    the trigger; the next start does not find the maiden commitment in the
    database and panics. *)
Theorem maiden_commitment_lost :
  (∃ s, started demo_config [] = Ret s ∧ lastCommitment s = MaidenHash) ∧
  started full_config [] = Ret full_started ∧
  map c_Commitment (commitments full_started) = [lastCommitment full_started] ∧
  lastCommitment full_started ≠ MaidenHash ∧
  started full_config (map stored (commitments full_started)) = Panic "Could not reconstruct commitment chain from disk".
Proof.
  split; [exists (ret_or full_0 (started demo_config [])); split; vm_compute; reflexivity|].
  split; [vm_compute; reflexivity|]. split; [reflexivity|].
  split; [apply bytes_eqb_false; vm_compute; reflexivity|]. vm_compute. reflexivity.
Qed.

(** A commit the wallet could not pay for, and the next one. *)
Definition unpaid : Server unit := Eval vm_compute in commit_with empty_wallet (after MessageTypeCreateLog
  (SignedCreateLogStatement_Bytes demo_create) (NewLogProcessor full_0 0)).
Definition retried : Server unit := Eval vm_compute in commit_with paid_wallet unpaid.

(** A commit whose transaction fails is not made up for: [lastCommitment] is set before the
    wallet is asked, so that the next [Commit] finds nothing to do. *)
Theorem failed_commit_not_retried :
  Commit demo_db empty_wallet 0 (after MessageTypeCreateLog (SignedCreateLogStatement_Bytes demo_create)
    (NewLogProcessor full_0 0)) = Ret (Some "Insufficient balance", unpaid) ∧
  Commit demo_db paid_wallet 0 unpaid = Ret (None, retried) ∧ commitments retried = [].
Proof. split; [vm_compute; reflexivity|]. split; [vm_compute; reflexivity|reflexivity]. Qed.

(** Requests that end the process. A connection that has just been accepted by a
    server that has committed asks for a delta proof without naming a log, or
    for the details of the last commitment while there is none in memory: the
    handler panics, and nothing recovers the panic. *)
Theorem requests_panic :
  ProcessMessage demo_db demo_verify (NewLogProcessor demo_3 1) 1 MessageTypeRequestDeltaProof [] = Panic "interface conversion" ∧
  ProcessMessage demo_db demo_verify (NewLogProcessor demo_3 1) 1 MessageTypeRequestCommitmentDetails [] = Panic out_of_range.
Proof. split; vm_compute; reflexivity. Qed.

Lemma restart_commits_zeros_witness :
  ∃ s', loadState (ret_or demo_3 (commitState demo_3)) = Ret (None, s') ∧
    entries (fm_root (fullmpt s')) = entries (fm_root demo_committed) ∧
    lastCommitment s' = hashOf (fm_root demo_committed) ∧
    FullMPT.Commitment (fullmpt s') = Ret (zeros 32, fullmpt s').
Proof.
  pose proof (reach_serving _ _ _ _ _ _ (eq_refl : Full demo_config = false) eq_refl demo_3_reach) as Hs.
  destruct (sv_last _ Hs) as (Hv & Hva & _).
  apply (restart_commits_zeros demo_3 (ret_or demo_3 (commitState demo_3)) demo_committed);
    [reflexivity|reflexivity|exact Hv|exact Hva|reflexivity|reflexivity|reflexivity].
Defined.
