(* ===== verification/ServerRace.v ===== *)
(** * Two connections at once

    [RegisterLogStatement] takes its locks three times: to read the last index,
    to store the new one, and to insert into the trie.  Every connection has
    its goroutine, so calls can interleave at these points.  The actions
    between two lock operations are the steps of a thread here; run without
    interruption they are [RegisterLogStatement]. *)

From Stdlib Require Import ZArith Lia.
From S2P Require Import Prelude Buffers Sha256 Crypto Utils MerkleTree WireCommon MptNode MptSpec FullMPT MptTrie MptInv MptTheorems MptSerialize PartialMPT DeltaMPT WireTypes Server LogProcessor ServerLogs ServerCommit.

Local Open Scope Z_scope.

(** A call of [RegisterLogStatement]: its arguments and how far it is. *)
Inductive pc := AtCheck | AtSet | AtInsert | Returned (err : error).
Record thread := MkThread { th_logID : bytes; th_index : Z; th_statement : bytes; th_pc : pc }.

Definition call (logID : bytes) (index : Z) (statement : bytes) : thread :=
  MkThread logID index statement AtCheck.
Definition goto (t : thread) (l : pc) : thread := MkThread (th_logID t) (th_index t) (th_statement t) l.

Section Threads.
Context {DB : Type} (db_set : DB → db_key → db_value → DB * error).

Definition thread_step (s : Server DB) (t : thread) : outcome (Server DB * thread) :=
  match th_pc t with
  | AtCheck =>
      let idx := logIDIndex s !! th_logID t in
      if bool_decide (idx = None ∧ th_index t ≠ 0) then mret (s, goto t (Returned (Some "Unexpected log index - expected 0")))
      else if bool_decide (idx ≠ None ∧ th_index t ≠ GetNextLogIndex s (th_logID t)) then mret (s, goto t (Returned (Some "Unexpected log index")))
      else mret (s, goto t AtSet)
  | AtSet =>
      let s := set_logIDIndex (<[th_logID t := th_index t]> (logIDIndex s)) s in
      let '(db, err) := if Full (config s) then db_set (commitmentDb s) (DbIdx (th_logID t)) (DbNum (th_index t))
                        else (commitmentDb s, None) in
      let s := set_commitmentDb db s in
      match err with
      | Some e => mret (s, goto t (Returned (Some e)))
      | None => mret (s, goto t AtInsert)
      end
  | AtInsert =>
      s ← insert_statement s (go_copy (zeros 32) (th_logID t)) (th_statement t) false;
      mret (s, goto t (Returned None))
  | Returned _ => mret (s, t)
  end.

(** Two threads; the schedule says which of them moves ([true] is the first). *)
Definition run2 (schedule : list bool) (x : Server DB * thread * thread) : outcome (Server DB * thread * thread) :=
  foldl (λ acc (b : bool), '(s, t1, t2) ← acc;
    if b then '(s, t1) ← thread_step s t1; mret (s, t1, t2)
    else '(s, t2) ← thread_step s t2; mret (s, t1, t2)) (Ret x) schedule.

(** One thread on its own. *)
Fixpoint run1 (n : nat) (s : Server DB) (t : thread) : outcome (Server DB * thread) :=
  match n with
  | O => mret (s, t)
  | S n => '(s, t) ← thread_step s t; run1 n s t
  end.

Lemma run1_S n s t : run1 (S n) s t = ('(s, t) ← thread_step s t; run1 n s t).
Proof. done. Qed.

(** Without interruption, the three steps of a call are [RegisterLogStatement]:
    same state, same result, same panics. *)
Theorem steps_are_RegisterLogStatement (s : Server DB) (logID : bytes) (index : Z) (statement : bytes) :
  run1 3 s (call logID index statement) =
  ('(err, s') ← RegisterLogStatement db_set s logID index statement false;
   mret (s', goto (call logID index statement) (Returned err))).
Proof.
  unfold RegisterLogStatement. rewrite run1_S. unfold thread_step. cbn [th_pc call th_logID th_index th_statement].
  case_bool_decide; [done|]. case_bool_decide; [done|].
  cbn [mbind outcome_bind mret outcome_ret]. rewrite run1_S. unfold thread_step.
  cbn [goto th_pc th_logID th_index th_statement call].
  destruct (if Full _ then _ else _) as [db [e|]]; [done|]. cbn [mbind outcome_bind mret outcome_ret].
  rewrite run1_S. unfold thread_step. cbn [goto th_pc th_logID th_index th_statement call].
  by destruct (insert_statement _ _ _ _).
Qed.

(** A log that has the index [i - 1], or none if [i] is 0, passes the check. *)
Lemma check_passes (s : Server DB) t :
  th_pc t = AtCheck → th_index t = GetNextLogIndex s (th_logID t) → thread_step s t = Ret (s, goto t AtSet).
Proof.
  intros Hp Hi. unfold thread_step. rewrite Hp, Hi. unfold GetNextLogIndex.
  destruct (logIDIndex s !! th_logID t); repeat case_bool_decide; try done; naive_solver.
Qed.

Context (db_ok : ∀ db k v, (db_set db k v).2 = None).

Lemma set_passes (s : Server DB) t :
  th_pc t = AtSet →
  ∃ db, thread_step s t = Ret (set_commitmentDb db (set_logIDIndex (<[th_logID t := th_index t]> (logIDIndex s)) s), goto t AtInsert).
Proof.
  intros Hp. unfold thread_step. rewrite Hp. simpl. pose proof (db_ok (commitmentDb s) (DbIdx (th_logID t)) (DbNum (th_index t))) as E.
  destruct (Full (config s)); [|by eexists]. destruct (db_set _ _ _) as [db e]. simpl in E. subst e. by eexists.
Qed.

Lemma insert_passes (s : Server DB) t :
  th_pc t = AtInsert → wf_root 32 (fm_root (fullmpt s)) → length (th_logID t) = 32%nat →
  ∃ fm b, thread_step s t = Ret (set_zeroLogAlias b (set_fullmpt fm s), goto t (Returned None)) ∧
    wf_root 32 (fm_root fm) ∧ entries (fm_root fm) = <[th_logID t := th_statement t]> (entries (fm_root (fullmpt s))).
Proof.
  intros Hp Hwf Hl. unfold thread_step. rewrite Hp, go_copy_same by done. unfold insert_statement.
  rewrite (Get_wf 32) by (done || lia). cbn [mbind outcome_bind].
  destruct (insert_root_spec 32 (fm_root (fullmpt s)) (th_logID t) (th_statement t)) as (n & Hn & Hwn & He); [lia|done|done|].
  unfold Insert. rewrite Hn. cbn [mbind outcome_bind]. eexists (MkFullMPT n), _. by split.
Qed.

(** ** Calls for different logs *)

(** Any number of threads; the schedule names the one that moves. *)
Definition runN (schedule : list nat) (x : Server DB * list thread) : outcome (Server DB * list thread) :=
  foldl (λ acc i, '(s, ts) ← acc;
    match ts !! i with
    | None => mret (s, ts)
    | Some t => '(s, t) ← thread_step s t; mret (s, <[i := t]> ts)
    end) (Ret x) schedule.

(** How far a call is that the check does not refuse. *)
Definition stored (l : pc) : bool := match l with AtInsert | Returned _ => true | _ => false end.
Definition inserted (l : pc) : bool := match l with Returned _ => true | _ => false end.
Definition accepted (l : pc) : Prop := match l with Returned (Some _) => False | _ => True end.

(** The state between [s0] and the end of the calls [ts]: each log of a call has what the
    call has done so far, every other log is as in [s0]. *)
Record between (s0 s : Server DB) (ts : list thread) : Prop := Between {
  bw_wf : wf_root 32 (fm_root (fullmpt s));
  bw_call : ∀ t, t ∈ ts → accepted (th_pc t) ∧ length (th_logID t) = 32%nat ∧ th_index t = GetNextLogIndex s0 (th_logID t) ∧
    logIDIndex s !! th_logID t = (if stored (th_pc t) then Some (th_index t) else logIDIndex s0 !! th_logID t) ∧
    entries (fm_root (fullmpt s)) !! th_logID t
    = (if inserted (th_pc t) then Some (th_statement t) else entries (fm_root (fullmpt s0)) !! th_logID t);
  bw_other : ∀ id, id ∉ map th_logID ts →
    logIDIndex s !! id = logIDIndex s0 !! id ∧
    entries (fm_root (fullmpt s)) !! id = entries (fm_root (fullmpt s0)) !! id
}.

(** One move of a thread, seen from its own log and from the others. *)
Lemma thread_moves (s : Server DB) t :
  accepted (th_pc t) → length (th_logID t) = 32%nat → wf_root 32 (fm_root (fullmpt s)) →
  (th_pc t = AtCheck → th_index t = GetNextLogIndex s (th_logID t)) →
  ∃ s' l, thread_step s t = Ret (s', goto t l) ∧ accepted l ∧ wf_root 32 (fm_root (fullmpt s')) ∧
    logIDIndex s' = (if stored l && negb (stored (th_pc t)) then <[th_logID t := th_index t]> (logIDIndex s) else logIDIndex s) ∧
    entries (fm_root (fullmpt s'))
    = (if inserted l && negb (inserted (th_pc t)) then <[th_logID t := th_statement t]> (entries (fm_root (fullmpt s)))
       else entries (fm_root (fullmpt s))) ∧
    (stored (th_pc t) = true → stored l = true) ∧ (inserted (th_pc t) = true → inserted l = true).
Proof.
  intros Ha Hl Hwf Hi. destruct (th_pc t) as [| | |[e|]] eqn:Ep; [| | |done|].
  - exists s, AtSet. by rewrite (check_passes s t Ep (Hi eq_refl)).
  - destruct (set_passes s t Ep) as [db Hs]. eexists _, AtInsert. by rewrite Hs.
  - destruct (insert_passes s t Ep Hwf Hl) as (fm & b & Hs & Hw & He). eexists _, (Returned None). rewrite Hs. done.
  - exists s, (Returned None). unfold thread_step. rewrite Ep. split; [|done]. by destruct t; simpl in *; subst.
Qed.

Lemma between_step s0 s ts i t :
  NoDup (map th_logID ts) → between s0 s ts → ts !! i = Some t →
  ∃ s' l, thread_step s t = Ret (s', goto t l) ∧ between s0 s' (<[i := goto t l]> ts).
Proof.
  intros Hnd [Hwf Hc Ho] Hi.
  destruct (Hc t ltac:(by eapply list_elem_of_lookup_2)) as (Ha & Hl & Hx & Hidx & Hent).
  destruct (thread_moves s t Ha Hl Hwf) as (s' & l & Hs & Hal & Hw' & Ei & Ee & Hst & Hin).
  { intros Hp. rewrite Hp in Hidx. cbn [stored] in Hidx. rewrite Hx. unfold GetNextLogIndex. by rewrite Hidx. }
  exists s', l. split; [done|].
  assert (Hids : map th_logID (<[i := goto t l]> ts) = map th_logID ts).
  { rewrite list_fmap_insert. apply list_insert_id. by rewrite list_lookup_fmap, Hi. }
  split; [done| |].
  - intros t' Ht'. apply list_elem_of_lookup in Ht' as [j Hj].
    apply list_lookup_insert_Some in Hj as [(-> & <- & _)|[Hne Hj]].
    + cbn [th_pc goto th_logID th_index th_statement]. split_and!; [done|done|done| |].
      * rewrite Ei. destruct (stored (th_pc t)) eqn:E1; [rewrite Hst by done; exact Hidx|].
        destruct (stored l); cbn [andb negb]; [by rewrite lookup_insert_eq|done].
      * rewrite Ee. destruct (inserted (th_pc t)) eqn:E1; [rewrite Hin by done; exact Hent|].
        destruct (inserted l); cbn [andb negb]; [by rewrite lookup_insert_eq|done].
    + destruct (Hc t' ltac:(by eapply list_elem_of_lookup_2)) as (Ha' & Hl' & Hx' & Hidx' & Hent').
      assert (th_logID t ≠ th_logID t') as Hd.
      { intros Heq. apply Hne. eapply (NoDup_lookup (map th_logID ts)); [done|..]; rewrite list_lookup_fmap.
        - by rewrite Hi.
        - by rewrite Hj, Heq. }
      split_and!; [done|done|done| |].
      * rewrite Ei. destruct (stored l && _); by rewrite ?lookup_insert_ne.
      * rewrite Ee. destruct (inserted l && _); by rewrite ?lookup_insert_ne.
  - intros id Hid. rewrite Hids in Hid. destruct (Ho id Hid) as [Oi Oe].
    assert (th_logID t ≠ id) as Hd.
    { intros <-. apply Hid. apply list_elem_of_fmap. exists t. split; [done|]. by eapply list_elem_of_lookup_2. }
    rewrite Ei, Ee. split; [destruct (stored l && _)|destruct (inserted l && _)]; by rewrite ?lookup_insert_ne.
Qed.

(** The calls as they stand. *)
Definition progress (calls ts : list thread) : Prop := Forall2 (λ t t', ∃ l, t' = goto t l) calls ts.

Lemma same_ids calls ts : progress calls ts → map th_logID calls = map th_logID ts.
Proof. intros F. induction F as [|? ? ? ? [l ->] _ IHF]; [done|]. cbn [map]. by rewrite IHF. Qed.

Lemma progress_step calls ts i t l : progress calls ts → ts !! i = Some t → progress calls (<[i := goto t l]> ts).
Proof.
  intros F Hi. destruct (Forall2_lookup_r _ _ _ _ _ F Hi) as (c & Hc & l' & ->).
  rewrite <- (list_insert_id calls i c Hc). apply Forall2_insert; [done|]. by exists l.
Qed.

Lemma runN_between s0 calls schedule :
  NoDup (map th_logID calls) → ∀ s ts, between s0 s ts → progress calls ts →
  ∃ s' ts', runN schedule (s, ts) = Ret (s', ts') ∧ between s0 s' ts' ∧ progress calls ts'.
Proof.
  intros Hnd. unfold runN. induction schedule as [|i sch IH]; intros s ts B F; [by exists s, ts|].
  cbn [foldl mbind outcome_bind]. destruct (ts !! i) as [t|] eqn:Hi; [|by apply IH].
  destruct (between_step s0 s ts i t) as (s' & l & -> & B'); [by rewrite <- (same_ids calls)|done|done|].
  cbn [mbind outcome_bind mret outcome_ret]. apply IH; [done|]. by apply progress_step.
Qed.

(** Insertions under different keys, looked up. *)
Lemma foldl_insert_find {A : Type} (f : thread → A) (m : gmap bytes A) (l : list thread) id :
  NoDup (map th_logID l) →
  foldl (λ m t, <[th_logID t := f t]> m) m l !! id
  = match list_find (λ t, th_logID t = id) l with Some (_, t) => Some (f t) | None => m !! id end.
Proof.
  revert m. induction l as [|t l IHl]; intros m Hn; [done|]. cbn [map] in Hn.
  apply NoDup_cons in Hn as [Hni Hn]. cbn [foldl list_find]. rewrite IHl by done.
  destruct (decide (th_logID t = id)) as [E|E].
  - destruct (list_find _ l) as [[k t']|] eqn:Ef; [|subst; by rewrite lookup_insert_eq].
    apply list_find_Some in Ef as (Hk & Hid & _). exfalso. apply Hni. rewrite E, <- Hid.
    apply list_elem_of_fmap. exists t'. split; [done|]. by eapply list_elem_of_lookup_2.
  - destruct (list_find _ l) as [[k t']|]; [done|]. cbn. by rewrite lookup_insert_ne.
Qed.

(** Calls for pairwise different logs, each with the index that is due, may overlap in any
    way: whatever the schedule, none of them panics or is refused, and when all of them have
    returned, the index map and the trie are those of the calls made one after the other. *)
Theorem interleaved_registrations (s0 : Server DB) (calls : list thread) (schedule : list nat)
  (Hwf : wf_root 32 (fm_root (fullmpt s0))) (Hnd : NoDup (map th_logID calls))
  (Hcalls : ∀ t, t ∈ calls → th_pc t = AtCheck ∧ length (th_logID t) = 32%nat ∧ th_index t = GetNextLogIndex s0 (th_logID t)) :
  ∃ s ts, runN schedule (s0, calls) = Ret (s, ts) ∧
    (∀ t, t ∈ ts → accepted (th_pc t)) ∧
    ((∀ t, t ∈ ts → inserted (th_pc t) = true) →
     ∀ id, logIDIndex s !! id = foldl (λ m t, <[th_logID t := th_index t]> m) (logIDIndex s0) calls !! id ∧
       entries (fm_root (fullmpt s)) !! id
       = foldl (λ m t, <[th_logID t := th_statement t]> m) (entries (fm_root (fullmpt s0))) calls !! id).
Proof.
  destruct (runN_between s0 calls schedule Hnd s0 calls) as (s & ts & Hr & [Hw Hc Ho] & F).
  { split; [done| |done]. intros t Ht. destruct (Hcalls t Ht) as (Hp & ? & ?). rewrite Hp. by split_and!. }
  { apply Forall_Forall2_diag, Forall_forall. intros t _. exists (th_pc t). by destruct t. }
  exists s, ts. split; [done|]. split; [intros t Ht; by apply Hc|].
  intros Hall id.
  rewrite !foldl_insert_find by done. destruct (list_find _ calls) as [[k t]|] eqn:Ef.
  - apply list_find_Some in Ef as (Hk & Hid & _). destruct (Forall2_lookup_l _ _ _ _ _ F Hk) as (t' & Hk' & l & ->).
    assert (goto t l ∈ ts) as Hin by (by eapply list_elem_of_lookup_2). specialize (Hall _ Hin).
    destruct (Hc _ Hin) as (_ & _ & _ & Hi & He). cbn [th_pc goto th_logID th_index th_statement] in *.
    destruct l as [| | |e]; try done. subst id. done.
  - apply Ho. intros Hin. apply list_find_None in Ef.
    rewrite <- (same_ids _ _ F) in Hin. apply list_elem_of_fmap in Hin as (t & -> & Ht). rewrite Forall_forall in Ef. by apply (Ef t).
Qed.

(** C40. A race. Two statements for the same index of a log, the one that is due, sent on
    two connections at once, can both be accepted: if both calls have read
    the last index before one of them has stored the new one, both return
    without error; the trie ends up with one of the two, and the index is
    counted once. *)
Theorem race_accepts_both (s : Server DB) (logID statement1 statement2 : bytes)
  (Hl : length logID = 32%nat) (Hwf : wf_root 32 (fm_root (fullmpt s))) :
  let i := GetNextLogIndex s logID in
  ∃ s', run2 [true; false; true; false; true; false] (s, call logID i statement1, call logID i statement2)
      = Ret (s', goto (call logID i statement1) (Returned None), goto (call logID i statement2) (Returned None)) ∧
    logIDIndex s' !! logID = Some i ∧ entries (fm_root (fullmpt s')) !! logID = Some statement2.
Proof.
  intros i. set (t1 := call logID i statement1). set (t2 := call logID i statement2).
  pose proof (check_passes s t1 eq_refl eq_refl) as C1. pose proof (check_passes s t2 eq_refl eq_refl) as C2.
  destruct (set_passes s (goto t1 AtSet) eq_refl) as [db1 S1].
  set (s1 := set_commitmentDb _ _) in S1. destruct (set_passes s1 (goto t2 AtSet) eq_refl) as [db2 S2].
  set (s2 := set_commitmentDb _ _) in S2.
  destruct (insert_passes s2 (goto t1 AtInsert) eq_refl Hwf Hl) as (fm1 & b1 & I1 & W1 & E1).
  set (s3 := set_zeroLogAlias _ _) in I1.
  destruct (insert_passes s3 (goto t2 AtInsert) eq_refl W1 Hl) as (fm2 & b2 & I2 & W2 & E2).
  eexists. split.
  - unfold run2. cbn [foldl mbind outcome_bind]. rewrite C1. cbn [mbind outcome_bind mret outcome_ret].
    rewrite C2. cbn [mbind outcome_bind mret outcome_ret]. rewrite S1. cbn [mbind outcome_bind mret outcome_ret].
    rewrite S2. cbn [mbind outcome_bind mret outcome_ret]. unfold goto in I1, I2. cbn in I1, I2. unfold goto. cbn.
    rewrite I1. cbn. rewrite I2. reflexivity.
  - simpl. split; [by rewrite lookup_insert_eq|]. rewrite E2. simpl. by rewrite lookup_insert_eq.
Qed.
End Threads.

(** ** Instances *)

Lemma race_accepts_both_witness :
  let i := GetNextLogIndex demo_2 demo_id in
  ∃ s', run2 demo_db [true; false; true; false; true; false] (demo_2, call demo_id i [x01], call demo_id i [x02])
      = Ret (s', goto (call demo_id i [x01]) (Returned None), goto (call demo_id i [x02]) (Returned None)) ∧
    logIDIndex s' !! demo_id = Some i ∧ entries (fm_root (fullmpt s')) !! demo_id = Some [x02].
Proof.
  pose proof (reach_serving _ _ _ _ _ _ (eq_refl : Full demo_config = false) eq_refl demo_reach) as Hs.
  apply (race_accepts_both demo_db (λ _ _ _, eq_refl) demo_2 demo_id [x01] [x02]); [reflexivity|].
  apply (sv_trie _ Hs).
Defined.
